(* ===== verification/_CoqProject ===== *)
-Q . S2P
Prelude.v
GoIO.v
Frame.v
Utf8.v
Headers.v
Messages.v
Conn.v
Net.v
Paths.v
OsFs.v
Resolver.v
Quote.v
Addr.v
Flags.v
Server.v
ServerSpec.v
ServerProofs.v
ServerProps.v
Client.v
ClientProofs.v
ClientProps.v
EndToEnd.v
Chaos.v
Proxied.v
Relay.v
Tap.v
Dump.v
Wrapped.v
TappedClient.v
Bcurl.v
ErrorText.v
ServerLog.v
BcurlProps.v
BcurlEndToEnd.v
Bserve.v
Lifecycle.v
Closing.v
Turns.v
System.v
SystemProps.v
SystemClosing.v
SystemProgress.v
SystemLog.v
BserveProcess.v
Crowd.v
Programs.v
Bchaos.v
