(* ===== verification/Prelude.v ===== *)
(** * BHTTP/1 in Rocq

    A model of the Go implementation of BHTTP/1, an HTTP-like protocol of
    binary frames: the codecs, the server, the client, the tap that prints a
    connection, the proxy that disturbs one, and the three programs built of
    them.  Definitions follow the functions under src/internal and src/cmd
    and keep their names; the specifications follow protocol/SPEC.md and
    protocol/WIRE_FORMAT.md.

    ** The program and the files that model it

    - src/internal/frame: frames on a stream.  Frame.v has [Encode], [Write],
      [writeAll], [Read]; the reading rules of the wire format are the
      inductive relation [reads].
    - src/internal/protocol: payloads.  Headers.v has the cursor, as a state
      and error monad, the header table and the header codec; Messages.v the
      codecs of requests, responses and errors; Utf8.v is [utf8.Valid].
    - src/internal/server, one connection (server.go, request.go): Server.v
      has [New], [handle], [serveRequest], [sendFile], [fail], [drain] and
      the rest, over a state of connection, open files and log.  ServerSpec.v
      is the contract: the frames owed for each frame of the client.
      Quote.v is [strconv.Quote], which the log uses.
    - src/internal/server, paths (resolver.go, mime.go, badname_other.go):
      Resolver.v, over the file system interface of OsFs.v.
    - src/internal/server, accepting and closing (server.go): Lifecycle.v has
      [Serve], [Close], [track] and [untrack] as threads whose critical
      sections and atomic operations interleave as a step relation [step];
      Closing.v has how they end.
    - src/internal/server, the whole server (server.go): Turns.v cuts the loop
      of [handle] into the steps other goroutines can come between, System.v
      puts those of all connections and the threads of Lifecycle.v together
      into one step relation [system_step].
    - src/internal/client: Client.v, over a connection of any kind.
    - src/internal/wire: Tap.v has the framers, the text of the dump and the
      tapped connection; Dump.v a reader of dumps.
    - src/internal/chaos: Chaos.v has the pump, Relay.v [relay] and [Serve].
    - src/cmd: Bcurl.v, Bserve.v and Bchaos.v have the [run] of each program;
      BserveProcess.v what bserve is once it listens: [Serve], the goroutine
      that waits for a signal, and the exit, over the whole server;
      Addr.v what bcurl makes of a target and of header options; Flags.v the
      parts of packages flag and strconv they use; ErrorText.v the texts of
      the errors of packages frame, protocol and client, and ServerLog.v
      those of the lines the server logs.

    They meet in a few interfaces.  GoIO.v has [io.Reader] and [io.Writer] as
    the classes [Reader] and [Writer] with their documented laws ([ReaderOk],
    [WriterOk]) and the routines of package io; package frame is written and
    proved against them.  Conn.v has the connection both ends hold -- a clock,
    the pieces that will arrive and when, delays of writes, deadlines -- and
    the class [NetConn] of the calls its holders make, which the tapped
    connection implements too.  Wrapped.v proves once that the client cannot
    tell a connection from one that stands for it.  Net.v has what both ends
    do with frames on a connection.  Paths.v has the functions of packages
    strings, strconv and path/filepath that are used.

    ** What is proved

    - Codecs: [Read] gives exactly the outcome the reading rules derive over
      every reader, and the decoders accept exactly the languages of the wire
      format (Frame.v, Messages.v); encoding and decoding are inverse.
    - Server: [handle] implements the session of ServerSpec.v on a network
      that keeps the deadlines, and on any network sends a prefix of right
      answers, terminates, closes the connection and gives back every file
      (ServerProofs.v, ServerProps.v).  What [open] opens is below the root
      (Resolver.v).  What [handle] logs holds no control character
      (ServerLog.v).
    - Client: [Get] accepts exactly the well-formed responses, and a failure
      is final (ClientProofs.v, ClientProps.v).
    - Closing: when [Close] has returned nothing runs (Lifecycle.v); after it
      has begun every schedule ends within a bound (Closing.v).
    - The whole server: every client gets its own answers whatever the others
      do, and what is proved of the threads holds of the server with its
      handlers, up to the one line [Serve] may log late (SystemProps.v); closing it ends within a bound that counts the
      handlers' loops (SystemClosing.v); each handler can finish by its own
      steps, so server and threads have the same runs (SystemProgress.v); the
      shared log tells each connection's
      story in order (SystemLog.v); bserve goes on until a signal and then
      ends with status 0 (BserveProcess.v).
    - Tap: a reader of the dump alone finds the whole frames that crossed,
      whatever else did (Dump.v); the client
      over a tapped connection does what it does without (TappedClient.v).
    - Proxy: what the pump lets through has the whole frames of what it was
      given, whatever that is, and what becomes of a cut end is said exactly
      (Chaos.v); so for the relay (Relay.v).
    - Programs: bcurl's exit status, its dump and its messages (BcurlProps.v,
      ErrorText.v), bserve's arguments (Bserve.v).
    - Compositions: client against server (EndToEnd.v), with the proxy between
      them (Proxied.v), bcurl against the server (BcurlEndToEnd.v), and any
      number of clients, some behind the proxy, against the whole server
      (Crowd.v).  The capstone is Programs.v: what bcurl prints when bserve
      serves it, among other clients, behind bchaos or not.

    ** Conventions

    A byte is [Byte.byte], a string or slice a list of bytes.  Integers are
    [Z]; where a width matters the wrap-around is written out ([add64], the
    stream identifiers of the client, the big-endian fields) or a bound is a
    hypothesis (a stream is shorter than 2^63 bytes).  Errors are constructors
    of a sum type; functions thread the state they change and return it.

    Loops that are not structural take fuel, and every operation computes the
    fuel from its input: the bytes a reader still has (each turn of [Read],
    of the pump, of the handler and of the client's body takes at least a
    byte of them), the bytes left to write or print, one turn per frame of a
    file for [sendFile_loop], twenty digits for an int64.  That this is enough
    is proved where a loop is: a specification relation is met on every
    input, and [handle], which returns an option, is shown to return [Some].

    Parameters, because the code is not in the repository: the file system
    ([Filesystem], with two documented facts on [EvalSymlinks] in
    [FilesystemOk] and a tree in memory that has them), [net.Dial] and
    [net.Listen], the random source ([Rand] with the bounds of [Intn]),
    [time.ParseDuration], the table [IsPrint] of printable runes, and the
    texts of errors of the system and of package flag.

    ** Not modelled

    Signals that come before bserve has asked for them, and those of bcurl and
    bchaos, which have their default effect; how long the pause after a failed
    [Accept] is, since the threads have no clock; the time stamps of package
    log; the mutex of the tap, whose calls are single steps; changes others
    make to the file system between two calls of the server on it; readers
    that return bytes and an error in one call.  Resolution of paths on
    Windows: the code is the same, but package filepath is another one there
    (volumes, two separators, names compared without case), so the theorems
    of Resolver.v are about the other systems; of the file for Windows only
    its function [isUnrepresentableName] is here.  The tests and the Python
    programs of src/tests and src/examples, which are not part of the
    programs.  [strings.ToUpper] and [strings.ToLower] are modelled as far as
    their results are ASCII. *)

From Stdlib Require Export ZArith Lia.
From Stdlib Require Export Strings.Byte.
From stdpp Require Export base numbers list gmap strings.

Open Scope Z_scope.

(** ** Bytes

    A Go [byte] (and every type over [uint8]) is [Byte.byte]; its value is
    [bz b], and [zb z] is the Go conversion [byte(z)], which keeps the low
    eight bits.  A Go [string] and a Go [[]byte] are both [list byte]. *)

Abbreviation byte := Byte.byte.
Abbreviation bytes := (list Byte.byte).

Definition bz (b : byte) : Z := Z.of_N (Byte.to_N b).

Definition zb (z : Z) : byte :=
  match Byte.of_N (Z.to_N (z mod 256)) with
  | Some b => b
  | None => x00
  end.

(** [int64] addition. *)
Definition add64 (a b : Z) : Z := (a + b + 2 ^ 63) mod 2 ^ 64 - 2 ^ 63.

Lemma add64_small a b : - 2 ^ 63 <= a + b < 2 ^ 63 -> add64 a b = a + b.
Proof. intros Hab. unfold add64. rewrite Z.mod_small; lia. Qed.

(** A string literal of the source, as bytes. *)
Definition str (s : string) : bytes := String.list_byte_of_string s.

(** Go's [len]. *)
Definition len {A} (l : list A) : Z := Z.of_nat (length l).

(** [b[n:]] and [b[:n]] for an index already known to be in range. *)
Definition zdrop {A} (n : Z) (l : list A) : list A := drop (Z.to_nat n) l.
Definition ztake {A} (n : Z) (l : list A) : list A := take (Z.to_nat n) l.

#[export] Instance byte_eq_dec : EqDecision byte := Byte.byte_eq_dec.

#[export] Instance byte_inhabited : Inhabited byte := populate x00.

Lemma bz_range b : 0 <= bz b < 256.
Proof.
  unfold bz. pose proof (Byte.to_N_bounded b). lia.
Qed.

Lemma zb_bz b : zb (bz b) = b.
Proof.
  unfold zb. rewrite Z.mod_small by apply bz_range.
  unfold bz. by rewrite N2Z.id, Byte.of_to_N.
Qed.

Lemma bz_zb z : bz (zb z) = z mod 256.
Proof.
  unfold zb. pose proof (Z.mod_pos_bound z 256 eq_refl) as B.
  destruct (Byte.of_N _) as [b|] eqn:E.
  - apply Byte.to_of_N in E. unfold bz. rewrite E. lia.
  - apply Byte.of_N_None_iff in E. lia.
Qed.

Lemma bz_zb_small z : 0 <= z < 256 -> bz (zb z) = z.
Proof. intros. by rewrite bz_zb, Z.mod_small. Qed.

#[export] Instance bz_inj : Inj (=) (=) bz.
Proof. intros a b H. by rewrite <- (zb_bz a), <- (zb_bz b), H. Qed.

#[export] Instance byte_countable : Countable byte.
Proof.
  refine (inj_countable' Byte.to_N (fun n => default x00 (Byte.of_N n)) _).
  intros b. cbn. by rewrite Byte.of_to_N.
Defined.

(** Two bytes are equal when their values are. *)
Definition byte_eqb (a b : byte) : bool := bz a =? bz b.

Lemma byte_eqb_eq a b : byte_eqb a b = true <-> a = b.
Proof.
  unfold byte_eqb. rewrite Z.eqb_eq. split; [apply (inj bz) | by intros ->].
Qed.

(** ** Lengths and slices *)

Lemma len_nil {A} : len (@nil A) = 0.
Proof. reflexivity. Qed.

Lemma len_cons {A} (x : A) l : len (x :: l) = 1 + len l.
Proof. unfold len. cbn [length]. lia. Qed.

Lemma len_app {A} (l k : list A) : len (l ++ k) = len l + len k.
Proof. unfold len. rewrite length_app. lia. Qed.

Lemma len_nonneg {A} (l : list A) : 0 <= len l.
Proof. unfold len. lia. Qed.

Lemma len_ztake {A} n (l : list A) : 0 <= n <= len l -> len (ztake n l) = n.
Proof. unfold len, ztake. intros. rewrite length_take. lia. Qed.

Lemma len_zdrop {A} n (l : list A) : 0 <= n <= len l -> len (zdrop n l) = len l - n.
Proof. unfold len, zdrop. intros. rewrite length_drop. lia. Qed.

Lemma len_ztake_min {A} n (l : list A) : 0 <= n -> len (ztake n l) = Z.min n (len l).
Proof. unfold len, ztake. intros. rewrite length_take. lia. Qed.

Lemma len_zdrop_max {A} n (l : list A) : 0 <= n -> len (zdrop n l) = Z.max 0 (len l - n).
Proof. unfold len, zdrop. intros. rewrite length_drop. lia. Qed.

Lemma ztake_zdrop {A} n (l : list A) : ztake n l ++ zdrop n l = l.
Proof. apply take_drop. Qed.

Lemma ztake_app {A} n (l k : list A) : n = len l -> ztake n (l ++ k) = l.
Proof. intros ->. unfold ztake, len. by rewrite Nat2Z.id, take_app_length. Qed.

Lemma zdrop_app {A} n (l k : list A) : n = len l -> zdrop n (l ++ k) = k.
Proof. intros ->. unfold zdrop, len. by rewrite Nat2Z.id, drop_app_length. Qed.

Lemma len_0_nil {A} (l : list A) : len l = 0 -> l = [].
Proof. unfold len. destruct l; cbn; [done | lia]. Qed.

Lemma len_take_nat {A} n (l : list A) : (n <= length l)%nat -> len (take n l) = Z.of_nat n.
Proof. unfold len. intros. rewrite length_take. lia. Qed.

(** ** Big-endian integers

    [put16] and [put32] are [binary.BigEndian.PutUint16] and [PutUint32]
    (and [AppendUint16]); [Uint16] and [Uint32] read them back. *)

Definition put16 (v : Z) : bytes := [zb (Z.shiftr v 8); zb v].

Definition put32 (v : Z) : bytes :=
  [zb (Z.shiftr v 24); zb (Z.shiftr v 16); zb (Z.shiftr v 8); zb v].

Definition Uint16 (b : bytes) : Z :=
  Z.lor (bz (b !!! 1%nat)) (Z.shiftl (bz (b !!! 0%nat)) 8).

Definition Uint32 (b : bytes) : Z :=
  Z.lor (Z.lor (bz (b !!! 3%nat)) (Z.shiftl (bz (b !!! 2%nat)) 8))
        (Z.lor (Z.shiftl (bz (b !!! 1%nat)) 16) (Z.shiftl (bz (b !!! 0%nat)) 24)).

Lemma lor_shiftl_add a b n :
  0 <= n -> 0 <= a < 2 ^ n -> Z.lor a (Z.shiftl b n) = a + b * 2 ^ n.
Proof.
  intros Hn Ha.
  assert (Hd : Z.land a (Z.shiftl b n) = 0).
  { apply Z.bits_inj'. intros i Hi. rewrite Z.land_spec, Z.bits_0.
    destruct (decide (i < n)).
    - rewrite Z.shiftl_spec_low by lia. apply andb_false_r.
    - rewrite <- (Z.mod_small a (2 ^ n)) by lia.
      by rewrite Z.mod_pow2_bits_high by lia. }
  by rewrite <- Z.shiftl_mul_pow2, <- Z.lxor_lor, <- Z.add_nocarry_lxor.
Qed.

Lemma Uint16_arith a b : Uint16 [a; b] = bz a * 256 + bz b.
Proof.
  unfold Uint16. cbn [lookup_total list_lookup_total].
  pose proof (bz_range b). rewrite lor_shiftl_add; lia.
Qed.

Lemma Uint32_arith a b c d :
  Uint32 [a; b; c; d] = bz a * 16777216 + bz b * 65536 + bz c * 256 + bz d.
Proof.
  unfold Uint32. cbn [lookup_total list_lookup_total].
  pose proof (bz_range a). pose proof (bz_range b).
  pose proof (bz_range c). pose proof (bz_range d).
  rewrite (lor_shiftl_add (bz d)) by lia.
  replace (Z.lor (Z.shiftl (bz b) 16) (Z.shiftl (bz a) 24))
    with (Z.shiftl (bz b + bz a * 256) 16).
  { rewrite lor_shiftl_add; lia. }
  replace (Z.shiftl (bz a) 24) with (Z.shiftl (Z.shiftl (bz a) 8) 16)
    by (rewrite Z.shiftl_shiftl by lia; f_equal; lia).
  rewrite <- Z.shiftl_lor. by rewrite lor_shiftl_add by lia.
Qed.

Lemma shiftr_div v n : 0 <= n -> Z.shiftr v n = v / 2 ^ n.
Proof. apply Z.shiftr_div_pow2. Qed.

Lemma Uint16_range b : 0 <= Uint16 b < 65536.
Proof.
  unfold Uint16. set (x := b !!! 1%nat). set (y := b !!! 0%nat).
  pose proof (bz_range x). pose proof (bz_range y).
  rewrite lor_shiftl_add; lia.
Qed.

Lemma Uint16_put16 v : 0 <= v < 65536 -> Uint16 (put16 v) = v.
Proof.
  intros. unfold put16. rewrite Uint16_arith, !bz_zb, shiftr_div by lia.
  change (2 ^ 8) with 256. pose proof (Z.div_mod v 256).
  rewrite (Z.mod_small (v / 256)); [lia|].
  split; [apply Z.div_pos; lia | apply Z.div_lt_upper_bound; lia].
Qed.

Lemma Uint32_put32 v : 0 <= v < 4294967296 -> Uint32 (put32 v) = v.
Proof.
  intros. unfold put32. rewrite Uint32_arith, !bz_zb, !shiftr_div by lia.
  change (2 ^ 8) with 256. change (2 ^ 16) with (256 * 256).
  change (2 ^ 24) with (256 * 256 * 256).
  rewrite <- !Z.div_div by lia.
  pose proof (Z.div_mod v 256). pose proof (Z.div_mod (v / 256) 256).
  pose proof (Z.div_mod (v / 256 / 256) 256).
  rewrite (Z.mod_small (v / 256 / 256 / 256)); [lia|].
  split; [repeat apply Z.div_pos; lia|].
  repeat apply Z.div_lt_upper_bound; lia.
Qed.

Lemma put16_Uint16 a b : put16 (Uint16 [a; b]) = [a; b].
Proof.
  unfold put16. rewrite Uint16_arith, shiftr_div by lia.
  pose proof (bz_range a). pose proof (bz_range b). change (2 ^ 8) with 256.
  f_equal; [|f_equal]; apply (inj bz); rewrite bz_zb.
  - rewrite Z.add_comm, Z.div_add, Z.div_small by lia. apply Z.mod_small. lia.
  - rewrite Z.add_comm, Z.mod_add by lia. apply Z.mod_small. lia.
Qed.

Lemma Uint32_split a b c d :
  Uint32 [a; b; c; d] = Uint16 [a; b] * 65536 + Uint16 [c; d].
Proof. rewrite Uint32_arith, !Uint16_arith. lia. Qed.

Lemma put32_split v : put32 v = put16 (Z.shiftr v 16) ++ put16 v.
Proof. unfold put32, put16. cbn. by rewrite Z.shiftr_shiftr by lia. Qed.

Lemma put16_mod v : put16 (v mod 65536) = put16 v.
Proof.
  unfold put16. f_equal; [|f_equal]; apply (inj bz);
    rewrite !bz_zb, ?shiftr_div by lia; change (2 ^ 8) with 256.
  - Z.to_euclidean_division_equations. lia.
  - Z.to_euclidean_division_equations. lia.
Qed.

Lemma put32_Uint32 a b c d : put32 (Uint32 [a; b; c; d]) = [a; b; c; d].
Proof.
  change [a; b; c; d] with ([a; b] ++ [c; d]) at 2.
  rewrite put32_split, Uint32_split, shiftr_div by lia. change (2 ^ 16) with 65536.
  rewrite <- (put16_Uint16 a b) at 3. rewrite <- (put16_Uint16 c d) at 3.
  pose proof (Uint16_range [c; d]) as Hc. revert Hc.
  generalize (Uint16 [a; b]) as x, (Uint16 [c; d]) as y. intros x y Hy.
  rewrite <- (put16_mod (x * 65536 + y)).
  replace ((x * 65536 + y) / 65536) with x by (Z.to_euclidean_division_equations; lia).
  replace ((x * 65536 + y) mod 65536) with y by (Z.to_euclidean_division_equations; lia).
  done.
Qed.

Lemma Uint32_range a b c d : 0 <= Uint32 [a; b; c; d] < 4294967296.
Proof.
  rewrite Uint32_split. pose proof (Uint16_range [a; b]).
  pose proof (Uint16_range [c; d]). lia.
Qed.

Lemma len_put16 v : len (put16 v) = 2.
Proof. reflexivity. Qed.

Lemma len_put32 v : len (put32 v) = 4.
Proof. reflexivity. Qed.

(** ** Results

    The source returns [(value, error)] pairs in which the value is only
    meaningful when the error is nil; [result E A] is that pair. *)

Inductive result (E A : Type) : Type :=
  | Ok (a : A)
  | Err (e : E).
Arguments Ok {E A} a.
Arguments Err {E A} e.

#[export] Instance result_ret {E} : MRet (result E) := fun A => @Ok E A.

#[export] Instance result_bind {E} : MBind (result E) := fun A B f m =>
  match m with
  | Ok a => f a
  | Err e => Err e
  end.

(** [guard_err c e] is [if !c { return e }]. *)
Definition guard_err {E} (c : bool) (e : E) : result E unit :=
  if c then Ok () else Err e.

Lemma bind_Ok {E A B} (m : result E A) (f : A -> result E B) b :
  (m ≫= f) = Ok b <-> exists a, m = Ok a /\ f a = Ok b.
Proof.
  destruct m as [a|e]; cbn.
  - split; [eauto | by intros (? & [= <-] & ?)].
  - split; [done | by intros (? & [=] & ?)].
Qed.

Lemma bind_Err {E A B} (m : result E A) (f : A -> result E B) e :
  (m ≫= f) = Err e <-> m = Err e \/ exists a, m = Ok a /\ f a = Err e.
Proof.
  destruct m as [a|e']; cbn.
  - split; [eauto | by intros [[=]|(? & [= <-] & ?)]].
  - split; [intros [= ->]; by left | by intros [[= ->]|(? & [=] & ?)]].
Qed.

Lemma guard_err_Ok {E} c (e : E) u : guard_err c e = Ok u <-> c = true.
Proof. by destruct c, u. Qed.

Definition is_ok {E A} (r : result E A) : bool :=
  match r with Ok _ => true | Err _ => false end.

(** ** Automation *)

Create HintDb bhttp.
Create Rewrite HintDb blen.
#[export] Hint Rewrite @len_nil @len_cons @len_app len_put16 len_put32 : blen.
#[export] Hint Resolve bz_range len_nonneg : bhttp.

(** [len_simpl] normalises lengths and calls [lia]. *)
Ltac len_simpl := autorewrite with blen in *.
Ltac len_solve := len_simpl; unfold len in *; lia.

(** Turns boolean comparisons in the context and the goal into propositions. *)
Ltac unbool :=
  repeat match goal with
  | H : (_ && _) = true |- _ => apply andb_true_iff in H; destruct H
  | H : (_ || _) = false |- _ => apply orb_false_iff in H; destruct H
  | H : negb _ = true |- _ => apply negb_true_iff in H
  | H : negb _ = false |- _ => apply negb_false_iff in H
  | H : (_ <? _) = true |- _ => apply Z.ltb_lt in H
  | H : (_ <? _) = false |- _ => apply Z.ltb_ge in H
  | H : (_ <=? _) = true |- _ => apply Z.leb_le in H
  | H : (_ <=? _) = false |- _ => apply Z.leb_gt in H
  | H : (_ =? _) = true |- _ => apply Z.eqb_eq in H
  | H : (_ =? _) = false |- _ => apply Z.eqb_neq in H
  | H : byte_eqb _ _ = true |- _ => apply byte_eqb_eq in H
  end.

(** [lia] for goals with division and modulus by constants. *)
Ltac zlia := Z.to_euclidean_division_equations; lia.

(** Splits on every comparison in the goal, dropping impossible cases. *)
Ltac cmp_cases :=
  repeat match goal with
  | |- context [?a <? ?b] =>
      let E := fresh in destruct (Z.ltb_spec a b) as [E|E]; try (exfalso; zlia)
  | |- context [?a <=? ?b] =>
      let E := fresh in destruct (Z.leb_spec a b) as [E|E]; try (exfalso; zlia)
  | |- context [?a =? ?b] =>
      let E := fresh in destruct (Z.eqb_spec a b) as [E|E]; try (exfalso; zlia)
  end.

(** Takes one [bind] of a successful computation apart. *)
Ltac bind_inv H :=
  repeat match type of H with
  | (_ ≫= _) = Ok _ =>
      let a := fresh "a" in let E := fresh "E" in
      apply bind_Ok in H; destruct H as (a & E & H)
  end.
