(* ===== verification/GoIO.v ===== *)
(** * The io interfaces the program reads and writes through

    [io.Reader] and [io.Writer] as type classes with their documented laws,
    and the routines of package io the source calls: [ReadFull], [CopyN] and
    [Copy] into [io.Discard], [LimitReader].  Everything above this file is
    written against the classes, so it holds for a plain buffer, for a TCP
    connection that delivers bytes in arbitrary pieces, for [bufio.Reader]
    and for the tapped connection of internal/wire alike. *)

From S2P Require Import Prelude.

(** ** Errors of the standard library's io and net packages

    [ErrTimeout] is a deadline that passed, [ErrOther] any other transport
    error, by its number.  [ErrFuel] is not a Go error: it is the value a
    loop of the model would return if its fuel ran out. *)

Inductive ioerr : Type :=
  | EOF
  | ErrUnexpectedEOF
  | ErrShortWrite
  | ErrClosed
  | ErrTimeout
  | ErrOther (code : Z)
  | ErrFuel.

#[export] Instance ioerr_eq_dec : EqDecision ioerr.
Proof. solve_decision. Defined.

(** ** io.Reader

    [rd_read n r] is [r.Read(p)] with [len(p) = n]: the bytes stored in [p],
    the error, and the reader afterwards.  [rd_content] is what the reader
    still has to deliver, [rd_end] the error it ends with, and [rd_measure]
    bounds the calls it takes to get there.  A reader here gives its bytes and
    its error in separate calls, as a [net.Conn], a [bufio.Reader] and an
    [os.File] do; [io.Reader] also allows both in one. *)

Class Reader (R : Type) : Type := {
  rd_read : nat -> R -> bytes * option ioerr * R;
  rd_content : R -> bytes;
  rd_end : R -> ioerr;
  rd_measure : R -> nat;
}.

Class ReaderOk (R : Type) `{Reader R} : Prop := {
  rd_read_data n r d r' :
    (0 < n)%nat -> rd_read n r = (d, None, r') ->
    (length d <= n)%nat /\ rd_content r = d ++ rd_content r' /\
    rd_end r' = rd_end r /\ (rd_measure r' < rd_measure r)%nat;
  rd_read_err n r d e r' :
    (0 < n)%nat -> rd_read n r = (d, Some e, r') ->
    d = [] /\ rd_content r = [] /\ e = rd_end r /\
    rd_content r' = [] /\ rd_end r' = rd_end r;
}.

(** ** io.ReadFull, io.CopyN and io.Copy into io.Discard *)

Section Routines.
Context {R : Type} `{Reader R}.

(** The loop of [io.ReadAtLeast]: call [Read] until [n] bytes are in or an
    error stops it. *)
Fixpoint read_loop (fuel n : nat) (r : R) : bytes * option ioerr * R :=
  match n with
  | O => ([], None, r)
  | S _ =>
    match fuel with
    | O => ([], Some ErrFuel, r)
    | S fuel =>
      let '(d, err, r) := rd_read n r in
      match err with
      | Some e => (d, Some e, r)
      | None =>
        let '(d', err, r) := read_loop fuel (n - length d) r in
        (d ++ d', err, r)
      end
    end
  end.

Definition read_upto (n : nat) (r : R) : bytes * option ioerr * R :=
  read_loop (S (rd_measure r)) n r.

(** [io.ReadFull]: an EOF after at least one byte becomes
    [ErrUnexpectedEOF]. *)
Definition ReadFull (n : Z) (r : R) : bytes * option ioerr * R :=
  let '(d, err, r) := read_upto (Z.to_nat n) r in
  match err with
  | Some EOF => (d, Some (if decide (d = []) then EOF else ErrUnexpectedEOF), r)
  | _ => (d, err, r)
  end.

(** [io.CopyN(io.Discard, r, n)]: short without an error is EOF, which is
    also what the loop reports then. *)
Definition CopyN_Discard (n : Z) (r : R) : option ioerr * R :=
  let '(_, err, r) := read_upto (Z.to_nat n) r in (err, r).

(** [io.Copy(io.Discard, io.LimitReader(r, n))]: the count and the error
    are dropped by the callers. *)
Definition Copy_Discard_Limit (n : Z) (r : R) : R :=
  let '(_, _, r) := read_upto (Z.to_nat n) r in r.
End Routines.

(** Two readers, possibly of different kinds, that deliver the same bytes and
    then the same error. *)
Definition same_stream {R1 R2} `{Reader R1, Reader R2} (r1 : R1) (r2 : R2) : Prop :=
  rd_content r1 = rd_content r2 /\ rd_end r1 = rd_end r2.

(** Within one kind of reader that is the equivalence [≡]. *)
#[export] Instance reader_equiv {R} `{Reader R} : Equiv R | 20 := same_stream.

#[export] Instance same_stream_equivalence {R} `{Reader R} :
  Equivalence (≡@{R}).
Proof.
  split.
  - by intros r.
  - by intros r1 r2 [].
  - intros r1 r2 r3 [] []. split; congruence.
Qed.

Section RoutinesFacts.
Context {R : Type} `{ReaderOk R}.

Lemma read_loop_spec fuel n (r : R) :
  (rd_measure r < fuel)%nat ->
  exists r',
    read_loop fuel n r =
      (take n (rd_content r),
       (if decide (n <= length (rd_content r))%nat then None else Some (rd_end r)), r') /\
    rd_content r' = drop n (rd_content r) /\ rd_end r' = rd_end r.
Proof.
  revert n r. induction fuel as [|fuel IH]; intros n r Hf; [lia|].
  destruct n as [|n]; cbn [read_loop].
  { exists r. by rewrite take_0, drop_0, decide_True by lia. }
  destruct (rd_read (S n) r) as [[d [e|]] r'] eqn:E.
  - apply rd_read_err in E as (-> & Hc & -> & Hc' & He); [|lia].
    exists r'. rewrite Hc, Hc', take_nil, drop_nil. cbn.
    rewrite decide_False by lia. done.
  - apply rd_read_data in E as (Hl & Hc & He & Hm); [|lia].
    destruct (IH (S n - length d)%nat r') as (r'' & -> & Hd & He'); [lia|].
    exists r''. rewrite Hc, length_app, take_app, drop_app.
    rewrite (take_ge d), (drop_ge d) by lia. cbn [app]. split; [|by rewrite He'].
    destruct (decide (S n - length d <= _)%nat), (decide (S n <= _)%nat);
      (congruence || lia).
Qed.

Lemma read_upto_spec n (r : R) :
  exists r',
    read_upto n r =
      (take n (rd_content r),
       (if decide (n <= length (rd_content r))%nat then None else Some (rd_end r)), r') /\
    rd_content r' = drop n (rd_content r) /\ rd_end r' = rd_end r.
Proof. apply read_loop_spec. lia. Qed.

(** [ReadFull] on a stream that holds at least [n] bytes. *)
Lemma ReadFull_enough n (r : R) d rest :
  rd_content r = d ++ rest -> len d = n ->
  exists r', ReadFull n r = (d, None, r') /\
    rd_content r' = rest /\ rd_end r' = rd_end r.
Proof.
  intros Hc Hd. unfold ReadFull.
  destruct (read_upto_spec (Z.to_nat n) r) as (r' & -> & Hr & He).
  assert (Z.to_nat n = length d) as Hn by (unfold len in Hd; lia).
  rewrite Hc, Hn in *. rewrite take_app_length, drop_app_length in *.
  rewrite decide_True by (rewrite length_app; lia). by exists r'.
Qed.

(** [ReadFull] on a stream that ends first. *)
Lemma ReadFull_short n (r : R) :
  len (rd_content r) < n ->
  exists r', ReadFull n r =
      (rd_content r,
       Some (if decide (rd_end r = EOF) then
               if decide (rd_content r = []) then EOF else ErrUnexpectedEOF
             else rd_end r), r') /\
    rd_content r' = [] /\ rd_end r' = rd_end r.
Proof.
  intros Hn. unfold ReadFull.
  destruct (read_upto_spec (Z.to_nat n) r) as (r' & -> & Hr & He).
  unfold len in Hn. rewrite take_ge, drop_ge, decide_False in * by lia.
  exists r'. destruct (rd_end r); cbn; done.
Qed.

Lemma ReadFull_None n (r : R) d r' : ReadFull n r = (d, None, r') -> 0 <= n -> len d = n.
Proof.
  unfold ReadFull. destruct (read_upto_spec (Z.to_nat n) r) as (r1 & -> & _).
  case_decide; [|by destruct (rd_end r)]. intros [= <- _] Hn. unfold len. rewrite length_take. lia.
Qed.

Lemma CopyN_enough n (r : R) d rest :
  rd_content r = d ++ rest -> len d = n ->
  exists r', CopyN_Discard n r = (None, r') /\
    rd_content r' = rest /\ rd_end r' = rd_end r.
Proof.
  intros Hc Hd. unfold CopyN_Discard.
  destruct (read_upto_spec (Z.to_nat n) r) as (r' & -> & Hr & He).
  assert (Z.to_nat n = length d) as Hn by (unfold len in Hd; lia).
  rewrite Hc, Hn in *. rewrite drop_app_length in *.
  rewrite decide_True by (rewrite length_app; lia). by exists r'.
Qed.

Lemma CopyN_short n (r : R) :
  len (rd_content r) < n ->
  exists r', CopyN_Discard n r = (Some (rd_end r), r') /\
    rd_content r' = [] /\ rd_end r' = rd_end r.
Proof.
  intros Hn. unfold CopyN_Discard.
  destruct (read_upto_spec (Z.to_nat n) r) as (r' & -> & Hr & He).
  unfold len in Hn. rewrite drop_ge, decide_False in * by lia. by exists r'.
Qed.

(** The bounded drain takes at most [n] bytes off the stream. *)
Lemma Copy_Discard_Limit_spec n (r : R) :
  rd_content (Copy_Discard_Limit n r) = drop (Z.to_nat n) (rd_content r) /\
  rd_end (Copy_Discard_Limit n r) = rd_end r.
Proof.
  unfold Copy_Discard_Limit.
  by destruct (read_upto_spec (Z.to_nat n) r) as (r' & -> & Hr & He).
Qed.
End RoutinesFacts.

(** ** Readers

    [source] is a transport that delivers its bytes in given pieces, one per
    call at most, and then fails with [so_end] for ever. *)

Record source : Type := { so_chunks : list bytes; so_end : ioerr }.

Definition source_read (n : nat) (s : source) : bytes * option ioerr * source :=
  match so_chunks s with
  | [] => ([], Some (so_end s), s)
  | c :: cs =>
    if (length c <=? n)%nat then (c, None, {| so_chunks := cs; so_end := so_end s |})
    else (take n c, None, {| so_chunks := drop n c :: cs; so_end := so_end s |})
  end.

#[export] Instance source_reader : Reader source := {
  rd_read := source_read;
  rd_content s := List.concat (so_chunks s);
  rd_end := so_end;
  rd_measure s := (length (so_chunks s) + length (List.concat (so_chunks s)))%nat;
}.

#[export] Instance source_reader_ok : ReaderOk source.
Proof.
  split.
  - intros n [cs e] d r' Hn. cbn. unfold source_read. cbn.
    destruct cs as [|c cs]; [done|].
    destruct (Nat.leb_spec (length c) n); intros [= <- <-]; cbn;
      rewrite ?length_app, ?length_take, ?length_drop, ?app_assoc, ?take_drop;
      repeat split; lia.
  - intros n [cs e] d e' r' Hn. cbn. unfold source_read. cbn.
    destruct cs as [|c cs]; [by intros [= <- <- <-]|].
    by destruct (Nat.leb_spec (length c) n).
Qed.

(** [bytes.NewReader]: everything is there at once. *)
Definition whole (b : bytes) : source := {| so_chunks := [b]; so_end := EOF |}.

(** One byte per call, as in testing/iotest's [OneByteReader]. *)
Definition one_by_one (b : bytes) : source :=
  {| so_chunks := (fun x => [x]) <$> b; so_end := EOF |}.

(** [bufio.Reader] with its default buffer: a call is answered from the
    buffer when that is not empty; a large call on an empty buffer goes
    straight to the underlying reader; a small one refills the buffer by one
    underlying call first. *)

Definition defaultBufSize : nat := 4096.

Record bufio (R : Type) : Type := { bf_buf : bytes; bf_src : R }.
Arguments bf_buf {R}.
Arguments bf_src {R}.

Definition NewReader {R} (r : R) : bufio R := {| bf_buf := []; bf_src := r |}.

Definition bufio_read {R} `{Reader R} (n : nat) (b : bufio R) :
    bytes * option ioerr * bufio R :=
  match bf_buf b with
  | [] =>
    if (defaultBufSize <=? n)%nat then
      let '(d, err, r) := rd_read n (bf_src b) in
      (d, err, {| bf_buf := []; bf_src := r |})
    else
      let '(d, err, r) := rd_read defaultBufSize (bf_src b) in
      match err with
      | Some e => ([], Some e, {| bf_buf := []; bf_src := r |})
      | None => (take n d, None, {| bf_buf := drop n d; bf_src := r |})
      end
  | buf => (take n buf, None, {| bf_buf := drop n buf; bf_src := bf_src b |})
  end.

#[export] Instance bufio_reader {R} `{Reader R} : Reader (bufio R) := {
  rd_read := bufio_read;
  rd_content b := bf_buf b ++ rd_content (bf_src b);
  rd_end b := rd_end (bf_src b);
  rd_measure b :=
    (length (bf_buf b) + length (rd_content (bf_src b)) + rd_measure (bf_src b))%nat;
}.

#[export] Instance bufio_reader_ok {R} `{ReaderOk R} : ReaderOk (bufio R).
Proof.
  split.
  - intros n [buf s] d r' Hn. unfold rd_read, rd_content, rd_end, rd_measure, bufio_reader, bufio_read.
    cbn [bf_buf bf_src].
    destruct buf as [|x buf].
    + destruct (Nat.leb_spec defaultBufSize n) as [Hb|Hb].
      * destruct (rd_read n s) as [[d1 [e|]] s'] eqn:E; intros Heq; simplify_eq/=.
        apply rd_read_data in E as (? & -> & -> & ?); [|lia].
        rewrite length_app. repeat split; lia.
      * destruct (rd_read defaultBufSize s) as [[d1 [e|]] s'] eqn:E; intros Heq; simplify_eq/=.
        apply rd_read_data in E as (? & -> & -> & ?); [|unfold defaultBufSize; lia]. cbn.
        rewrite app_assoc, take_drop, !length_app, length_take, length_drop.
        repeat split; lia.
    + intros [= <- <-]. cbn [bf_buf bf_src].
      rewrite app_assoc, take_drop, length_take, length_drop. cbn [length].
      repeat split; lia.
  - intros n [buf s] d e r' Hn. unfold rd_read, rd_content, rd_end, rd_measure, bufio_reader, bufio_read.
    cbn [bf_buf bf_src].
    destruct buf as [|x buf]; [|done].
    destruct (Nat.leb_spec defaultBufSize n) as [Hb|Hb].
    + destruct (rd_read n s) as [[d1 [e1|]] s'] eqn:E; intros Heq; simplify_eq/=.
      by apply rd_read_err in E as (-> & -> & -> & -> & ->).
    + destruct (rd_read defaultBufSize s) as [[d1 [e1|]] s'] eqn:E; intros Heq; simplify_eq/=.
      apply rd_read_err in E as (-> & -> & -> & -> & ->); [done | unfold defaultBufSize; lia].
Qed.

(** ** io.Writer

    [wr_write b w] is [w.Write(b)]: the count, the error and the writer
    afterwards; [wr_out] is everything the writer has accepted. *)

Class Writer (W : Type) : Type := {
  wr_write : bytes -> W -> nat * option ioerr * W;
  wr_out : W -> bytes;
}.

Class WriterOk (W : Type) `{Writer W} : Prop := {
  wr_write_out b w n err w' :
    wr_write b w = (n, err, w') ->
    (n <= length b)%nat /\ wr_out w' = wr_out w ++ take n b;
}.

(** [sink] answers each call by the next entry of a script: how many bytes it
    takes and the error it reports, if any.  When the script is used up it
    takes everything. *)

Record sink : Type := { sk_out : bytes; sk_script : list (nat * option ioerr) }.

Definition sink_write (b : bytes) (s : sink) : nat * option ioerr * sink :=
  match sk_script s with
  | [] => (length b, None, {| sk_out := sk_out s ++ b; sk_script := [] |})
  | (n, err) :: rest =>
    let n := (n `min` length b)%nat in
    (n, err, {| sk_out := sk_out s ++ take n b; sk_script := rest |})
  end.

#[export] Instance sink_writer : Writer sink := {
  wr_write := sink_write; wr_out := sk_out }.

#[export] Instance sink_writer_ok : WriterOk sink.
Proof.
  split. intros b [o sc] n err w'. cbn. unfold sink_write. cbn.
  destruct sc as [|[m e] sc]; intros [= <- <- <-]; cbn; split; try lia; [|done].
  by rewrite take_ge by lia.
Qed.

(** A writer that never fails and takes whatever it is given. *)
Definition buffer : sink := {| sk_out := []; sk_script := [] |}.

(** ** What a routine does to its reader

    [rsteps r d r']: some calls of [Read] take [r] to [r'] and store the bytes
    [d].  Every routine above is such a run, so whatever each single call
    preserves the routine preserves. *)

Inductive rsteps {R} `{Reader R} : R -> bytes -> R -> Prop :=
  | rsteps_nil r : rsteps r [] r
  | rsteps_cons n r d e r1 d' r2 :
      (0 < n)%nat -> rd_read n r = (d, e, r1) -> rsteps r1 d' r2 -> rsteps r (d ++ d') r2.

Section Steps.
Context {R : Type} `{Reader R}.

Lemma rsteps_app (r1 r2 r3 : R) d d' :
  rsteps r1 d r2 -> rsteps r2 d' r3 -> rsteps r1 (d ++ d') r3.
Proof.
  induction 1 as [|n r d1 e ra d2 rb Hn Hr _ IH]; intros H2; [done|].
  rewrite <- app_assoc. eapply rsteps_cons; eauto.
Qed.

Lemma read_loop_steps fuel n (r : R) d err r' :
  read_loop fuel n r = (d, err, r') -> rsteps r d r'.
Proof.
  revert n r d err. induction fuel as [|fuel IH]; intros [|n] r d err; cbn [read_loop].
  1-3: intros [= <- _ <-]; constructor.
  destruct (rd_read (S n) r) as [[d1 [e|]] r1] eqn:E.
  - intros [= <- _ <-]. rewrite <- (app_nil_r d1).
    by eapply rsteps_cons; [|exact E|constructor]; lia.
  - destruct (read_loop fuel (S n - length d1) r1) as [[d2 e2] r2] eqn:E2.
    intros [= <- _ <-]. eapply rsteps_cons; [|exact E|]; [lia|]. by eapply IH.
Qed.

Lemma ReadFull_steps n (r : R) d err r' : ReadFull n r = (d, err, r') -> rsteps r d r'.
Proof.
  unfold ReadFull. destruct (read_upto (Z.to_nat n) r) as [[d1 e1] r1] eqn:E.
  apply read_loop_steps in E. intros Heq.
  assert (d1 = d /\ r1 = r') as [-> ->]; [|done].
  by destruct e1 as [[]|]; injection Heq as -> _ ->.
Qed.

Lemma CopyN_steps n (r : R) err r' :
  CopyN_Discard n r = (err, r') -> exists d, rsteps r d r'.
Proof.
  unfold CopyN_Discard. destruct (read_upto (Z.to_nat n) r) as [[d1 e1] r1] eqn:E.
  intros [= _ <-]. exists d1. by apply read_loop_steps in E.
Qed.

Lemma Copy_Discard_Limit_steps n (r : R) : exists d, rsteps r d (Copy_Discard_Limit n r).
Proof.
  unfold Copy_Discard_Limit. destruct (read_upto (Z.to_nat n) r) as [[d1 e1] r1] eqn:E.
  exists d1. by apply read_loop_steps in E.
Qed.
End Steps.

(** A run takes what it stores off the stream. *)
Lemma rsteps_content {R} `{ReaderOk R} (r r' : R) d :
  rsteps r d r' -> rd_content r = d ++ rd_content r' /\ rd_end r' = rd_end r.
Proof.
  induction 1 as [r|n r d e r1 d' r2 Hn Hr _ [Hc He]]; [done|]. destruct e as [e|].
  - apply rd_read_err in Hr as (-> & Hc0 & _ & Hc1 & He1); [|done].
    rewrite Hc1 in Hc. rewrite Hc0, He, He1. by split.
  - apply rd_read_data in Hr as (_ & Hc0 & He0 & _); [|done].
    by rewrite Hc0, Hc, app_assoc, He, He0.
Qed.

(** A run of a [bufio.Reader] is a run of the reader under it that fetches
    what the buffer lacks. *)
Lemma bufio_steps {R} `{ReaderOk R} (b b' : bufio R) d :
  rsteps b d b' ->
  exists d', rsteps (bf_src b) d' (bf_src b') /\ bf_buf b ++ d' = d ++ bf_buf b'.
Proof.
  induction 1 as [b|n [buf s] d e b1 d1 b2 Hn Hr _ (d2 & Hs & E)].
  { exists []. split; [constructor | by rewrite app_nil_r]. }
  unfold rd_read, bufio_reader, bufio_read in Hr. cbn [bf_buf bf_src] in Hr |- *.
  destruct buf as [|x buf].
  - destruct (Nat.leb_spec defaultBufSize n) as [Hb|Hb].
    + destruct (rd_read n s) as [[d' e'] s'] eqn:Er. injection Hr as <- <- <-. cbn [bf_buf bf_src] in *.
      exists (d' ++ d2). split; [eapply rsteps_cons; [|exact Er|exact Hs]; lia|].
      cbn in E |- *. by rewrite E, app_assoc.
    + destruct (rd_read defaultBufSize s) as [[d' e'] s'] eqn:Er.
      assert (Hst : forall d3, rsteps s' d3 (bf_src b2) -> rsteps s (d' ++ d3) (bf_src b2)).
      { intros d3 H3. eapply rsteps_cons; [|exact Er|exact H3]. unfold defaultBufSize. lia. }
      destruct e' as [e'|].
      * injection Hr as <- <- <-. cbn [bf_buf bf_src] in *.
        apply rd_read_err in Er as (-> & _); [|unfold defaultBufSize; lia].
        exists ([] ++ d2). split; [by apply Hst | done].
      * injection Hr as <- <- <-. cbn [bf_buf bf_src] in *.
        exists (d' ++ d2). split; [by apply Hst|].
        rewrite <- app_assoc, <- E, !app_assoc, take_drop. done.
  - injection Hr as <- <- <-. cbn [bf_buf bf_src] in *. exists d2. split; [done|].
    rewrite <- app_assoc, <- E, app_assoc, take_drop. done.
Qed.

(** The rest of the documented contract of [io.Writer]: a call without an
    error has taken everything.  ([writeAll] does not rely on it.) *)
Class WriterFull (W : Type) `{Writer W} : Prop :=
  wr_write_full b w n w' : wr_write b w = (n, None, w') -> n = length b.

(** [bytes.Buffer]. *)
Record Buffer : Type := MkBuffer { buf_bytes : bytes }.

#[export] Instance Buffer_writer : Writer Buffer := {
  wr_write b w := (length b, None, MkBuffer (buf_bytes w ++ b));
  wr_out := buf_bytes;
}.

#[export] Instance Buffer_writer_ok : WriterOk Buffer.
Proof. split. intros b w n err w' [= <- _ <-]. split; [done|]. cbn. by rewrite take_ge. Qed.

#[export] Instance Buffer_writer_full : WriterFull Buffer.
Proof. intros b w n w' [= <- _]. done. Qed.

(** A writer that never fails. *)
Class WriterReliable (W : Type) `{Writer W} : Prop :=
  wr_write_reliable b w :
    exists w', wr_write b w = (length b, None, w') /\ wr_out w' = wr_out w ++ b.

#[export] Instance Buffer_writer_reliable : WriterReliable Buffer.
Proof. intros b w. by eexists. Qed.

(** A writer that remembers each call. *)
Record Calls : Type := MkCalls { calls : list bytes }.

#[export] Instance Calls_writer : Writer Calls := {
  wr_write b w := (length b, None, MkCalls (calls w ++ [b]));
  wr_out w := List.concat (calls w);
}.

#[export] Instance Calls_writer_reliable : WriterReliable Calls.
Proof.
  intros b w. eexists. split; [done|]. cbn. rewrite concat_app. cbn. by rewrite app_nil_r.
Qed.

(** ** io.Copy *)

Definition copyBufSize : nat := Z.to_nat 32768.

Section Copy.
Context {W R : Type} `{Writer W, Reader R}.

(** The loop of [io.Copy(w, r)]: the bytes written, the error and both ends.
    A turn that goes on has taken a read off the measure. *)
Fixpoint copy_loop (fuel : nat) (written : Z) (w : W) (r : R) : Z * option ioerr * W * R :=
  match fuel with
  | O => (written, Some ErrFuel, w, r)
  | S fuel =>
    let '(d, er, r) := rd_read copyBufSize r in
    let '(written, ew, w) :=
      match d with
      | [] => (written, None, w)
      | _ =>
        let '(nw, ew, w) := wr_write d w in
        (written + Z.of_nat nw,
         match ew with Some e => Some e | None => if (nw =? length d)%nat then None else Some ErrShortWrite end, w)
      end in
    match ew with
    | Some e => (written, Some e, w, r)
    | None =>
      match er with
      | Some e => (written, (if decide (e = EOF) then None else Some e), w, r)
      | None => copy_loop fuel written w r
      end
    end
  end.

Definition Copy (w : W) (r : R) : Z * option ioerr * W * R := copy_loop (S (rd_measure r)) 0 w r.
End Copy.

Section CopyFacts.
Context {W R : Type} `{WriterReliable W, ReaderOk R}.

(** Into a writer that never fails everything goes, to the end of the reader. *)
Lemma copy_loop_reliable fuel n (w : W) (r : R) :
  (rd_measure r < fuel)%nat ->
  exists w' r', copy_loop fuel n w r =
      (n + len (rd_content r), (if decide (rd_end r = EOF) then None else Some (rd_end r)), w', r') /\
    wr_out w' = wr_out w ++ rd_content r.
Proof.
  revert n w r. induction fuel as [|fuel IH]; intros n w r Hf; [lia|]. cbn [copy_loop].
  assert (Hcap : (0 < copyBufSize)%nat) by (unfold copyBufSize; lia).
  destruct (rd_read copyBufSize r) as [[d [e|]] r1] eqn:Er.
  - apply rd_read_err in Er as (-> & Hc & -> & _ & _); [|done].
    exists w, r1. rewrite Hc, len_nil, Z.add_0_r. split; [done|]. by rewrite app_nil_r.
  - apply rd_read_data in Er as (_ & Hc & He & Hm); [|done].
    assert (Hput : exists w1, (match d with
      | [] => (n, None, w)
      | _ => let '(nw, ew, w) := wr_write d w in
        (n + Z.of_nat nw,
         match ew with Some e => Some e | None => if (nw =? length d)%nat then None else Some ErrShortWrite end, w)
      end) = (n + len d, None, w1) /\ wr_out w1 = wr_out w ++ d).
    { destruct d as [|x d]; [exists w; rewrite len_nil, Z.add_0_r, app_nil_r; done|].
      destruct (wr_write_reliable (x :: d) w) as (w1 & -> & Hw). exists w1. by rewrite Nat.eqb_refl. }
    destruct Hput as (w1 & -> & Hw1).
    destruct (IH (n + len d) w1 r1 ltac:(lia)) as (w2 & r2 & -> & Hw2). exists w2, r2.
    rewrite He, Hc, len_app, Z.add_assoc. split; [done|]. by rewrite Hw2, Hw1, <- app_assoc.
Qed.

Lemma Copy_reliable (w : W) (r : R) :
  exists w' r', Copy w r =
      (len (rd_content r), (if decide (rd_end r = EOF) then None else Some (rd_end r)), w', r') /\
    wr_out w' = wr_out w ++ rd_content r.
Proof. apply (copy_loop_reliable _ 0). lia. Qed.
End CopyFacts.
