(* ===== verification/Frame.v ===== *)
(** * internal/frame: reading and writing frames

    The frame record, [Encode], [Write]/[writeAll] and [Read], the reading
    rules of protocol/WIRE_FORMAT.md section 10 as an inductive relation
    [reads], and the proof that [Read] implements exactly that relation over
    every reader. *)

From S2P Require Import Prelude GoIO.

(** ** frame.go *)

Definition HeaderSize : Z := 12.
Definition MaxPayload : Z := 16384.

(** [Type] and [Flags] are [uint8] in the source. *)
Abbreviation Type_ := byte (only parsing).
Abbreviation Flags := byte (only parsing).

Definition TypeRequest : Type_ := x01.
Definition TypeResponse : Type_ := x02.
Definition TypeData : Type_ := x03.
Definition TypeError : Type_ := x04.

Definition known (t : Type_) : bool :=
  (bz TypeRequest <=? bz t) && (bz t <=? bz TypeError).

Definition needsStream (t : Type_) : bool :=
  (bz TypeRequest <=? bz t) && (bz t <=? bz TypeData).

Definition FlagEndStream : Flags := x01.

(** [f&mask == mask]. *)
Definition Has (f mask : Flags) : bool := Z.land (bz f) (bz mask) =? bz mask.

Record Frame : Type := MkFrame {
  fr_type : Type_;
  fr_flags : Flags;
  fr_stream : Z;
  fr_payload : bytes;
}.

#[export] Instance Frame_eq_dec : EqDecision Frame.
Proof. solve_decision. Defined.

(** The package's error values; [IOError] carries an error that comes from
    the underlying reader or writer untouched. *)
Inductive frame_error : Type :=
  | ErrTruncated
  | ErrPayloadTooLarge
  | ErrStreamZero
  | OversizeError (typ : Type_) (length : Z)
  | IOError (e : ioerr).

#[export] Instance frame_error_eq_dec : EqDecision frame_error.
Proof. solve_decision. Defined.

Definition Encode (f : Frame) : result frame_error bytes :=
  if MaxPayload <? len (fr_payload f) then Err ErrPayloadTooLarge
  else if needsStream (fr_type f) && (fr_stream f =? 0) then Err ErrStreamZero
  else Ok (put32 (len (fr_payload f)) ++ [fr_type f; fr_flags f] ++ [x00; x00] ++
           put32 (fr_stream f) ++ fr_payload f).

(** ** reader.go *)

Definition truncatedOr (err : ioerr) : frame_error :=
  if decide (err = EOF) then ErrTruncated
  else if decide (err = ErrUnexpectedEOF) then ErrTruncated
  else IOError err.

Section Read.
Context {R : Type} `{Reader R}.

(** One iteration of the loop in [Read] per unit of fuel. *)
Fixpoint Read_loop (fuel : nat) (r : R) : result frame_error Frame * R :=
  match fuel with
  | O => (Err (IOError ErrFuel), r)
  | S fuel =>
    let '(hdr, err, r) := ReadFull HeaderSize r in
    match err with
    | Some e =>
      (Err (if decide (e = ErrUnexpectedEOF) then ErrTruncated else IOError e), r)
    | None =>
      let length := Uint32 (take 4 hdr) in
      let typ := hdr !!! 4%nat in
      if MaxPayload <? length then (Err (OversizeError typ length), r)
      else if negb (known typ) then
        let '(err, r) := CopyN_Discard length r in
        match err with
        | Some e => (Err (truncatedOr e), r)
        | None => Read_loop fuel r
        end
      else
        let '(payload, err, r) := ReadFull length r in
        match err with
        | Some e => (Err (truncatedOr e), r)
        | None =>
          let f := {| fr_type := typ;
                      fr_flags := hdr !!! 5%nat;
                      fr_stream := Uint32 (take 4 (drop 8 hdr));
                      fr_payload := payload |} in
          if needsStream typ && (fr_stream f =? 0) then (Err ErrStreamZero, r)
          else (Ok f, r)
        end
    end
  end.

(** Every iteration that goes round again has consumed a header, so the
    length of the stream is more than enough fuel. *)
Definition Read (r : R) : result frame_error Frame * R :=
  Read_loop (S (length (rd_content r))) r.
End Read.

(** ** writer.go *)

Section Write.
Context {W : Type} `{Writer W}.

(** A round of the loop in [writeAll] that goes on has written a byte. *)
Fixpoint writeAll_loop (fuel : nat) (w : W) (b : bytes) : option ioerr * W :=
  match b with
  | [] => (None, w)
  | _ =>
    match fuel with
    | O => (Some ErrFuel, w)
    | S fuel =>
      let '(n, err, w) := wr_write b w in
      match err with
      | Some e => (Some e, w)
      | None =>
        if (n <=? 0)%nat then (Some ErrShortWrite, w)
        else writeAll_loop fuel w (drop n b)
      end
    end
  end.

Definition writeAll (w : W) (b : bytes) : option ioerr * W :=
  writeAll_loop (length b) w b.

Definition Write (w : W) (f : Frame) : option frame_error * W :=
  match Encode f with
  | Err e => (Some e, w)
  | Ok b => let '(err, w) := writeAll w b in (IOError <$> err, w)
  end.
End Write.

(** ** The layout of a header *)

(** Twelve bytes: the length, the type, the flags, the reserved field and the
    stream id (protocol/WIRE_FORMAT.md section 2). *)
Definition header (length : Z) (t : Type_) (fl : Flags) (reserved : Z) (stream : Z) : bytes :=
  put32 length ++ [t; fl] ++ put16 reserved ++ put32 stream.

(** The widths of the frame's fields, which Go's types enforce. *)
Definition wf_frame (f : Frame) : Prop := 0 <= fr_stream f < 4294967296.

(** A frame as a conforming peer may send it: any reserved value. *)
Definition wire (reserved : Z) (f : Frame) : bytes :=
  header (len (fr_payload f)) (fr_type f) (fr_flags f) reserved (fr_stream f) ++ fr_payload f.

Lemma len_header l t fl res s : len (header l t fl res s) = 12.
Proof. reflexivity. Qed.

Lemma header_length_field l t fl res s rest :
  0 <= l < 4294967296 -> Uint32 (take 4 (header l t fl res s ++ rest)) = l.
Proof. intros. by apply (Uint32_put32 l). Qed.

Lemma header_stream_field l t fl res s :
  0 <= s < 4294967296 -> Uint32 (take 4 (drop 8 (header l t fl res s))) = s.
Proof. intros. by apply (Uint32_put32 s). Qed.

(** Any twelve bytes are the header of some fields. *)
Lemma header_of_bytes h :
  len h = 12 ->
  exists l t fl res s, h = header l t fl res s /\
    0 <= l < 4294967296 /\ 0 <= res < 65536 /\ 0 <= s < 4294967296.
Proof.
  unfold len. intros Hl.
  do 12 (destruct h as [|? h]; [by cbn in Hl|]). destruct h; [|cbn in Hl; lia].
  match goal with |- exists l t fl res s, [?a; ?b; ?c; ?d; ?e; ?f; ?g; ?h; ?i; ?j; ?k; ?m] = _ /\ _ =>
    exists (Uint32 [a; b; c; d]), e, f, (Uint16 [g; h]), (Uint32 [i; j; k; m]) end.
  unfold header. rewrite !put32_Uint32, put16_Uint16.
  repeat split; auto using Uint16_range; try apply Uint32_range; apply Uint16_range.
Qed.

(** ** The reading rules *)

(** What a stream that ends between frames is reported as. *)
Definition cut_between (fin : ioerr) : frame_error :=
  if decide (fin = ErrUnexpectedEOF) then ErrTruncated else IOError fin.

(** [reads fin b out rest]: reading the next frame from a stream that holds
    [b] and then fails with [fin] gives [out] and leaves [rest]. *)
Inductive reads (fin : ioerr) : bytes -> result frame_error Frame -> bytes -> Prop :=
  | reads_end :
      reads fin [] (Err (cut_between fin)) []
  | reads_cut_header b :
      0 < len b < HeaderSize ->
      reads fin b (Err (truncatedOr fin)) []
  | reads_oversize l t fl res s rest :
      MaxPayload < l < 4294967296 -> 0 <= s < 4294967296 ->
      reads fin (header l t fl res s ++ rest) (Err (OversizeError t l)) rest
  | reads_skip t fl res s p rest out rest' :
      known t = false -> len p <= MaxPayload -> 0 <= s < 4294967296 ->
      reads fin rest out rest' ->
      reads fin (header (len p) t fl res s ++ p ++ rest) out rest'
  | reads_cut_payload l t fl res s p :
      l <= MaxPayload -> len p < l -> 0 <= s < 4294967296 ->
      reads fin (header l t fl res s ++ p) (Err (truncatedOr fin)) []
  | reads_stream_zero t fl res p rest :
      needsStream t = true -> len p <= MaxPayload ->
      reads fin (header (len p) t fl res 0 ++ p ++ rest) (Err ErrStreamZero) rest
  | reads_frame res f rest :
      known (fr_type f) = true -> len (fr_payload f) <= MaxPayload -> wf_frame f ->
      (needsStream (fr_type f) = true -> fr_stream f <> 0) ->
      reads fin (wire res f ++ rest) (Ok f) rest.

(** ** [Read] implements the reading rules *)

(** [lia] with the package's limits. *)
Ltac flia := unfold HeaderSize, MaxPayload, wf_frame in *; lia.

Lemma known_of_needsStream t : needsStream t = true -> known t = true.
Proof.
  unfold known, needsStream. intros. unbool. cbn in *.
  apply andb_true_iff; split; apply Z.leb_le; lia.
Qed.

Section ReadFacts.
Context {R : Type} `{ReaderOk R}.
Implicit Types r : R.

(** One iteration of the loop when a whole header is there. *)
Lemma Read_loop_header fuel r l t fl res s rest :
  rd_content r = header l t fl res s ++ rest ->
  0 <= l < 4294967296 -> 0 <= s < 4294967296 ->
  exists r1, rd_content r1 = rest /\ rd_end r1 = rd_end r /\
    Read_loop (S fuel) r =
      if MaxPayload <? l then (Err (OversizeError t l), r1)
      else if negb (known t) then
        let '(err, r2) := CopyN_Discard l r1 in
        match err with
        | Some e => (Err (truncatedOr e), r2)
        | None => Read_loop fuel r2
        end
      else
        let '(payload, err, r2) := ReadFull l r1 in
        match err with
        | Some e => (Err (truncatedOr e), r2)
        | None =>
          if needsStream t && (s =? 0) then (Err ErrStreamZero, r2)
          else (Ok (MkFrame t fl s payload), r2)
        end.
Proof.
  intros Hc Hl Hs.
  destruct (ReadFull_enough HeaderSize r (header l t fl res s) rest) as (r1 & E & Hr & He);
    [done | done |].
  exists r1. split; [done|]. split; [done|]. cbn [Read_loop]. rewrite E.
  rewrite header_stream_field by done.
  replace (Uint32 (take 4 (header l t fl res s))) with l; [done|].
  rewrite <- (app_nil_r (header _ _ _ _ _)). by rewrite header_length_field.
Qed.

Lemma Read_loop_short fuel r :
  len (rd_content r) < HeaderSize ->
  exists r', Read_loop (S fuel) r =
      (Err (if decide (rd_content r = []) then cut_between (rd_end r)
            else truncatedOr (rd_end r)), r') /\
    rd_content r' = [] /\ rd_end r' = rd_end r.
Proof.
  intros Hl. destruct (ReadFull_short HeaderSize r Hl) as (r' & E & Hr & He).
  exists r'. split; [|done]. cbn [Read_loop]. rewrite E.
  do 2 f_equal. unfold cut_between, truncatedOr.
  generalize (rd_end r). by intros []; destruct (decide (rd_content r = [])).
Qed.

(** Completeness: whatever the rules derive, [Read] returns. *)
Lemma Read_loop_complete fuel fin b out rest r :
  reads fin b out rest -> rd_content r = b -> rd_end r = fin ->
  (length b < fuel)%nat ->
  exists r', Read_loop fuel r = (out, r') /\ rd_content r' = rest /\ rd_end r' = fin.
Proof.
  intros Hr. revert fuel r.
  induction Hr as [|b Hb|l t fl res s rest Hl Hs|t fl res s p rest out rest' Hk Hp Hs Hr IH
                  |l t fl res s p Hl Hp Hs|t fl res p rest Hn Hp|res f rest Hk Hp Hw Hn];
    intros [|fuel] r Hc He Hf; try lia.
  - destruct (Read_loop_short fuel r) as (r' & -> & ? & ?); [by rewrite Hc|].
    exists r'. rewrite Hc, decide_True, He by done. split; [done|]. split; congruence.
  - destruct (Read_loop_short fuel r) as (r' & -> & ? & ?); [rewrite Hc; lia|].
    exists r'. rewrite Hc, He, decide_False by (intros ->; unfold len in Hb; cbn in Hb; lia).
    split; [done|]. split; congruence.
  - destruct (Read_loop_header fuel r _ _ _ _ _ _ Hc) as (r1 & ? & ? & ->); [flia | done |].
    exists r1. rewrite (proj2 (Z.ltb_lt _ _)) by flia. split; [done|]. split; congruence.
  - pose proof (len_nonneg p).
    destruct (Read_loop_header fuel r _ _ _ _ _ _ Hc) as (r1 & Hc1 & He1 & ->); [flia | done |].
    rewrite (proj2 (Z.ltb_ge _ _)), Hk by flia. cbn [negb].
    destruct (CopyN_enough (len p) r1 p rest) as (r2 & -> & Hc2 & He2); [done | done |].
    apply IH; [done | congruence |].
    rewrite !length_app in Hf. change (length (header (len p) t fl res s)) with 12%nat in Hf. lia.
  - pose proof (len_nonneg p).
    destruct (Read_loop_header fuel r _ _ _ _ _ _ Hc) as (r1 & Hc1 & He1 & ->); [flia | done |].
    rewrite (proj2 (Z.ltb_ge _ _)) by flia.
    destruct (known t); cbn [negb].
    + destruct (ReadFull_short l r1) as (r2 & -> & Hc2 & He2); [by rewrite Hc1|].
      exists r2. split; [|split; congruence]. do 2 f_equal.
      rewrite He1, He. by destruct fin, (decide (rd_content r1 = [])).
    + destruct (CopyN_short l r1) as (r2 & -> & Hc2 & He2); [by rewrite Hc1|].
      exists r2. split; [|split; congruence]. by rewrite He1, He.
  - pose proof (len_nonneg p).
    destruct (Read_loop_header fuel r _ _ _ _ _ _ Hc) as (r1 & Hc1 & He1 & ->); [flia | lia |].
    rewrite (proj2 (Z.ltb_ge _ _)), (known_of_needsStream _ Hn) by flia. cbn [negb].
    destruct (ReadFull_enough (len p) r1 p rest) as (r2 & -> & Hc2 & He2); [done | done |].
    rewrite Hn. cbn. exists r2. split; [done|]. split; congruence.
  - pose proof (len_nonneg (fr_payload f)). unfold wire in Hc. rewrite <- app_assoc in Hc.
    destruct (Read_loop_header fuel r _ _ _ _ _ _ Hc) as (r1 & Hc1 & He1 & ->); [flia | done |].
    rewrite (proj2 (Z.ltb_ge _ _)), Hk by flia. cbn [negb].
    destruct (ReadFull_enough (len (fr_payload f)) r1 (fr_payload f) rest) as (r2 & -> & Hc2 & He2); [done | done |].
    exists r2. destruct f as [t fl s p]. cbn in *.
    destruct (needsStream t); cbn; [rewrite (proj2 (Z.eqb_neq _ _)) by auto|];
      (split; [done|]; split; congruence).
Qed.

(** Soundness: what [Read] returns, the rules derive. *)
Lemma reads_total fin b : exists out rest, reads fin b out rest.
Proof.
  remember (length b) as n eqn:Hn. revert b Hn.
  induction (lt_wf n) as [n _ IH]. intros b ->.
  destruct (Z.lt_ge_cases (len b) HeaderSize) as [Hs|Hs].
  { destruct b as [|x b]; [eexists _, _; apply reads_end|].
    eexists _, _. apply reads_cut_header. len_solve. }
  unfold HeaderSize in Hs.
  rewrite <- (ztake_zdrop 12 b) in IH |- *.
  destruct (header_of_bytes (ztake 12 b)) as (l & t & fl & res & s & E & Hl & _ & Hst);
    [by apply len_ztake|].
  rewrite E in IH |- *. set (rest := zdrop 12 b) in *. clearbody rest. clear E Hs b.
  destruct (Z.lt_ge_cases MaxPayload l) as [Hm|Hm].
  { eexists _, _. apply reads_oversize; [lia | done]. }
  destruct (Z.lt_ge_cases (len rest) l) as [Hp|Hp].
  { eexists _, _. by apply reads_cut_payload. }
  rewrite <- (ztake_zdrop l rest) in IH |- *.
  assert (len (ztake l rest) = l) as E by (apply len_ztake; lia).
  set (p := ztake l rest) in *. set (rest' := zdrop l rest) in *. clearbody p rest'.
  subst l. clear Hp.
  destruct (known t) eqn:Hk.
  - destruct (decide (needsStream t = true /\ s = 0)) as [[Hn ->]|Hn].
    + eexists _, _. by apply reads_stream_zero.
    + eexists (Ok (MkFrame t fl s p)), rest'. rewrite app_assoc.
      apply (reads_frame fin res (MkFrame t fl s p)); cbn;
        [done | done | done | intros ? ->; by apply Hn].
  - destruct (IH (length rest')) with (b := rest') as (out & rest'' & Hr); [|done|].
    { rewrite !length_app. change (length (header (len p) t fl res s)) with 12%nat. lia. }
    exists out, rest''. by apply reads_skip.
Qed.

Lemma Read_complete fin b out rest r :
  reads fin b out rest -> rd_content r = b -> rd_end r = fin ->
  exists r', Read r = (out, r') /\ rd_content r' = rest /\ rd_end r' = fin.
Proof. intros. unfold Read. eapply Read_loop_complete; subst; eauto with lia. Qed.

Lemma Read_sound r :
  exists out r', Read r = (out, r') /\ rd_end r' = rd_end r /\
    reads (rd_end r) (rd_content r) out (rd_content r').
Proof.
  destruct (reads_total (rd_end r) (rd_content r)) as (out & rest & Hr).
  destruct (Read_complete _ _ _ _ r Hr) as (r' & E & <- & ?); [done | done |]. eauto.
Qed.
End ReadFacts.

Lemma reads_deterministic fin b out1 rest1 out2 rest2 :
  reads fin b out1 rest1 -> reads fin b out2 rest2 -> out1 = out2 /\ rest1 = rest2.
Proof.
  intros H1 H2. set (r := {| so_chunks := [b]; so_end := fin |}).
  assert (rd_content r = b) as Hc by (cbn; apply app_nil_r).
  destruct (Read_complete _ _ _ _ r H1) as (r1 & E1 & ? & _); [done | done |].
  destruct (Read_complete _ _ _ _ r H2) as (r2 & E2 & ? & _); [done | done |].
  split; congruence.
Qed.

(** ** Facts about the codec *)

Lemma Encode_Ok f b :
  Encode f = Ok b <->
  len (fr_payload f) <= MaxPayload /\
  (needsStream (fr_type f) = true -> fr_stream f <> 0) /\ b = wire 0 f.
Proof.
  unfold Encode. destruct (Z.ltb_spec MaxPayload (len (fr_payload f))).
  { split; [done | lia]. }
  destruct (needsStream (fr_type f)) eqn:En, (Z.eqb_spec (fr_stream f) 0); cbn [andb].
  1: split; [done | tauto].
  all: split; [intros [= <-] | intros (_ & _ & ->)]; try done;
    (split; [done|]; split; [done|]; unfold wire, header; by rewrite <- !app_assoc).
Qed.

(** [Read] is a run of its reader, of at least a header when it returns a
    frame. *)
Lemma Read_loop_steps {R} `{ReaderOk R} fuel (r : R) out r' :
  Read_loop fuel r = (out, r') ->
  exists d, rsteps r d r' /\ (is_ok out = true -> HeaderSize <= len d).
Proof.
  revert r. induction fuel as [|fuel IH]; intros r; cbn [Read_loop].
  { intros [= <- <-]. exists []. split; [constructor|done]. }
  destruct (ReadFull HeaderSize r) as [[hdr e] r1] eqn:E1.
  destruct e as [e|].
  { intros [= <- <-]. exists hdr. split; [by eapply ReadFull_steps|done]. }
  pose proof (ReadFull_None _ _ _ _ E1 ltac:(done)) as Hlen. apply ReadFull_steps in E1.
  assert (Hdone : forall (o : result frame_error Frame) ra da, rsteps r1 da ra ->
    exists d, rsteps r d ra /\ (is_ok o = true -> HeaderSize <= len d)).
  { intros o ra da Hda. exists (hdr ++ da). split; [by eapply rsteps_app|]. intros _.
    rewrite len_app. pose proof (len_nonneg da). unfold HeaderSize in *. lia. }
  case_match; [intros [= <- <-]; eapply Hdone; constructor|].
  case_match.
  - destruct (CopyN_Discard _ r1) as [e r2] eqn:E2.
    pose proof (CopyN_steps _ _ _ _ E2) as (d2 & Hd2).
    destruct e as [e|]; [intros [= <- <-]; by eapply Hdone|]. intros E.
    apply IH in E as (d3 & Hd3 & _). eapply Hdone, rsteps_app; eauto.
  - destruct (ReadFull _ r1) as [[p e] r2] eqn:E2. apply ReadFull_steps in E2.
    destruct e as [e|]; [intros [= <- <-]; by eapply Hdone|].
    case_match; intros [= <- <-]; by eapply Hdone.
Qed.

Lemma Read_steps {R} `{ReaderOk R} (r : R) out r' :
  Read r = (out, r') ->
  exists d, rsteps r d r' /\ (is_ok out = true -> HeaderSize <= len d).
Proof. apply Read_loop_steps. Qed.

(** What [Read] can return. *)
Lemma reads_ok_inv fin b out rest :
  reads fin b out rest -> forall f, out = Ok f ->
  known (fr_type f) = true /\ len (fr_payload f) <= MaxPayload /\ wf_frame f /\
  (needsStream (fr_type f) = true -> fr_stream f <> 0).
Proof. induction 1; intros ? Heq; simplify_eq; eauto. Qed.

Lemma reads_suffix fin b out rest :
  reads fin b out rest -> exists used, b = used ++ rest.
Proof.
  induction 1 as [| | |t fl res s p rest out rest' Hk Hp Hs Hr [u ->] | | |].
  - by exists [].
  - exists b. by rewrite app_nil_r.
  - by eexists.
  - eexists. by rewrite !app_assoc.
  - eexists. by rewrite app_nil_r.
  - eexists. by rewrite app_assoc.
  - by eexists.
Qed.

(** Reading a frame always consumes at least its header. *)
(** Reading a frame looks at nothing beyond it. *)
Lemma reads_local fin u r f : reads fin (u ++ r) (Ok f) r -> forall fin' r', reads fin' (u ++ r') (Ok f) r'.
Proof.
  remember (u ++ r) as b eqn:Eb. remember (Ok f) as out eqn:Eo. intros Hr. revert u Eb.
  induction Hr as [| | |t fl res s p rest out rest' Hk Hp Hs Hr IH
    | | |res g rest Hk Hp Hw Hn]; intros u Eb fin' r'; try done.
  - pose proof (reads_suffix _ _ _ _ Hr) as [v Ev].
    rewrite Ev, !app_assoc in Eb. apply app_inv_tail in Eb as <-.
    rewrite <- !app_assoc. apply reads_skip; try done. by apply (IH Eo v).
  - injection Eo as ->. apply app_inv_tail in Eb as <-. by apply reads_frame.
Qed.

Lemma reads_ok_size fin b f rest :
  reads fin b (Ok f) rest -> len rest + HeaderSize + len (fr_payload f) <= len b.
Proof.
  remember (Ok f) as out eqn:E. induction 1 as [| | |t fl res s p rest out rest' Hk Hp Hs Hr IH
    | | |res g rest Hk Hp Hw Hn]; try done.
  - specialize (IH E). rewrite !len_app, len_header. pose proof (len_nonneg p). flia.
  - injection E as ->. unfold wire. rewrite !len_app, len_header. flia.
Qed.

Lemma reads_ok_shorter fin b f rest :
  reads fin b (Ok f) rest -> len rest + HeaderSize <= len b.
Proof. intros Hr%reads_ok_size. pose proof (len_nonneg (fr_payload f)). lia. Qed.

(** ** Whole streams

    [reads_all fin b fs e]: reading frames one after the other from [b]
    yields [fs] and then the error [e]. *)

Inductive reads_all (fin : ioerr) : bytes -> list Frame -> frame_error -> Prop :=
  | reads_all_end b e rest :
      reads fin b (Err e) rest -> reads_all fin b [] e
  | reads_all_next b f rest fs e :
      reads fin b (Ok f) rest -> reads_all fin rest fs e -> reads_all fin b (f :: fs) e.

Lemma reads_all_total fin b : exists fs e, reads_all fin b fs e.
Proof.
  remember (length b) as n eqn:Hn. revert b Hn.
  induction (lt_wf n) as [n _ IH]. intros b ->.
  destruct (reads_total fin b) as ([f|e] & rest & Hr).
  - pose proof (reads_ok_shorter _ _ _ _ Hr) as Hl.
    destruct (IH (length rest)) with (b := rest) as (fs & e & Ha); [|done|].
    { unfold len in Hl. flia. }
    exists (f :: fs), e. by eapply reads_all_next.
  - exists [], e. by eapply reads_all_end.
Qed.

Lemma reads_all_deterministic fin b fs1 e1 fs2 e2 :
  reads_all fin b fs1 e1 -> reads_all fin b fs2 e2 -> fs1 = fs2 /\ e1 = e2.
Proof.
  intros H1. revert fs2 e2.
  induction H1 as [b e rest Hr|b f rest fs e Hr Ha IH]; intros fs2 e2 H2;
    inversion H2 as [? ? rest2 Hr2|? f2 rest2 fs' ? Hr2 Ha2]; subst;
    destruct (reads_deterministic _ _ _ _ _ _ Hr Hr2) as [[=] ?]; subst; [done|].
  by destruct (IH _ _ Ha2) as [-> ->].
Qed.

(** An unknown frame in front of a stream changes nothing. *)
Lemma reads_all_skip fin t fl res s p b fs e :
  known t = false -> len p <= MaxPayload -> 0 <= s < 4294967296 ->
  reads_all fin b fs e -> reads_all fin (header (len p) t fl res s ++ p ++ b) fs e.
Proof.
  intros ? ? ?. destruct 1; [eapply reads_all_end | eapply reads_all_next; [|done]];
    by eapply reads_skip.
Qed.

(** ** Facts about [writeAll] *)

Section WriteFacts.
Context {W : Type} `{WriterOk W}.
Implicit Types w : W.

Lemma writeAll_loop_out fuel w b err w' :
  writeAll_loop fuel w b = (err, w') ->
  exists k, (k <= length b)%nat /\ wr_out w' = wr_out w ++ take k b /\
    (err = None -> k = length b).
Proof.
  revert w b. induction fuel as [|fuel IH]; intros w [|x b]; cbn [writeAll_loop].
  1,3: intros [= <- <-]; exists 0%nat; by rewrite app_nil_r.
  { intros [= <- <-]. exists 0%nat. rewrite app_nil_r. split; [cbn; lia|]. done. }
  destruct (wr_write (x :: b) w) as [[n e] w1] eqn:E.
  destruct (wr_write_out _ _ _ _ _ E) as [Hn Hout].
  destruct e as [e|]; [intros [= <- <-]; by exists n|].
  destruct (Nat.leb_spec n 0) as [H1|H1].
  { intros [= <- <-]. by exists n. }
  intros (k & Hk & Ho & Hnone)%IH. exists (n + k)%nat.
  rewrite length_drop in *. split; [lia|]. split; [|intros; specialize (Hnone ltac:(done)); lia].
  rewrite Ho, Hout, <- app_assoc. f_equal. by rewrite take_take_drop.
Qed.

(** With as much fuel as bytes the loop ends on its own: more fuel changes
    nothing. *)
Lemma writeAll_loop_fuel fuel1 fuel2 w b :
  (length b <= fuel1)%nat -> (length b <= fuel2)%nat ->
  writeAll_loop fuel1 w b = writeAll_loop fuel2 w b.
Proof.
  revert fuel2 w b. induction fuel1 as [|fuel1 IH]; intros [|fuel2] w [|x b] Hf1 Hf2;
    cbn [writeAll_loop]; try done; [cbn in *; lia..|].
  destruct (wr_write (x :: b) w) as [[n [e|]] w1]; [done|].
  destruct (Nat.leb_spec n 0); [done|].
  apply IH; rewrite length_drop; lia.
Qed.
End WriteFacts.

(** A sink whose script only makes progress takes everything. *)
Lemma writeAll_loop_progress fuel (w : sink) b :
  Forall (fun p => (0 < p.1)%nat /\ p.2 = None) (sk_script w) ->
  (length b <= fuel)%nat -> exists w', writeAll_loop fuel w b = (None, w').
Proof.
  revert w b. induction fuel as [|fuel IH]; intros w [|x b] Hs Hf;
    cbn [writeAll_loop]; try (by eexists); [cbn in Hf; lia|].
  cbn [wr_write sink_writer]. unfold sink_write.
  destruct w as [o [|[n e] sc]]; cbn [sk_script sk_out] in *.
  - destruct (Nat.leb_spec (length (x :: b)) 0) as [Hl|]; [cbn in Hl; lia|].
    apply IH; [done|]. rewrite length_drop. lia.
  - apply Forall_cons in Hs as [[Hn He] Hs]. cbn [fst snd] in *. subst e.
    destruct (Nat.leb_spec (n `min` length (x :: b)) 0) as [Hl|]; [cbn in Hl; lia|].
    apply IH; [done|]. rewrite length_drop. cbn [length] in *. lia.
Qed.

(** ** Properties *)

(** (C4) [Read] implements the reading rules of the wire format: over any
    reader, it returns [out] and leaves [rest] on the stream exactly when the
    rules derive that outcome.  In particular it always returns. *)
Theorem Read_refines_reading_rules {R} `{ReaderOk R} (r : R) out rest :
  (exists r', Read r = (out, r') /\ rd_content r' = rest /\ rd_end r' = rd_end r) <->
  reads (rd_end r) (rd_content r) out rest.
Proof.
  split.
  - intros (r' & E & <- & _).
    destruct (Read_sound r) as (out' & r'' & E' & _ & Hr).
    rewrite E in E'. by injection E' as -> ->.
  - intros Hr. by eapply Read_complete.
Qed.

Definition demo_frame : Frame :=
  {| fr_type := TypeData; fr_flags := FlagEndStream; fr_stream := 7; fr_payload := str "abc" |}.

Example Read_refines_reading_rules_witness :
  exists r', Read (one_by_one (wire 0 demo_frame)) = (Ok demo_frame, r') /\
    rd_content r' = [] /\ rd_end r' = rd_end (one_by_one (wire 0 demo_frame)).
Proof.
  apply Read_refines_reading_rules.
  change (rd_content (one_by_one (wire 0 demo_frame))) with (wire 0 demo_frame ++ []).
  apply reads_frame; [reflexivity | vm_compute; discriminate | unfold wf_frame; cbn; lia | discriminate].
Defined.

(** Framing is immune to how the transport slices the bytes: two readers
    of any kinds that deliver the same bytes and then the same error give the
    same result and are left with the same bytes. *)
Theorem Read_ignores_boundaries {R1 R2} `{ReaderOk R1, ReaderOk R2} (r1 : R1) (r2 : R2) :
  same_stream r1 r2 ->
  fst (Read r1) = fst (Read r2) /\ same_stream (snd (Read r1)) (snd (Read r2)).
Proof.
  intros [Hc He].
  destruct (Read_sound r1) as (o1 & r1' & -> & He1 & Hr1).
  destruct (Read_sound r2) as (o2 & r2' & -> & He2 & Hr2).
  rewrite Hc, He in Hr1. destruct (reads_deterministic _ _ _ _ _ _ Hr1 Hr2) as [-> Hrest].
  split; [done|]. split; cbn; congruence.
Qed.

Example Read_ignores_boundaries_witness :
  same_stream (whole (wire 5 demo_frame)) (NewReader (one_by_one (wire 5 demo_frame))) /\
  fst (Read (whole (wire 5 demo_frame))) =
    fst (Read (NewReader (one_by_one (wire 5 demo_frame)))).
Proof.
  split; [by split|].
  apply (Read_ignores_boundaries (whole (wire 5 demo_frame))
    (NewReader (one_by_one (wire 5 demo_frame)))). by split.
Defined.

(** (C24) Round trip: what [Encode] produces for a frame of a known type is
    read back as that frame, however it is delivered and whatever follows it,
    and exactly the frame's bytes are consumed. *)
Theorem Read_Encode_roundtrip {R} `{ReaderOk R} (r : R) f b rest :
  Encode f = Ok b -> known (fr_type f) = true -> wf_frame f -> rd_content r = b ++ rest ->
  exists r', Read r = (Ok f, r') /\ rd_content r' = rest /\ rd_end r' = rd_end r.
Proof.
  intros (Hl & Hs & ->)%Encode_Ok Hk Hw Hc.
  by apply (Read_complete _ _ _ _ r (reads_frame _ 0 f rest Hk Hl Hw Hs)).
Qed.

Example Read_Encode_roundtrip_witness :
  Encode demo_frame = Ok (wire 0 demo_frame) /\
  exists r', Read (one_by_one (wire 0 demo_frame ++ str "next")) = (Ok demo_frame, r') /\
    rd_content r' = str "next" /\ rd_end r' = EOF.
Proof.
  split; [reflexivity|].
  change EOF with (rd_end (one_by_one (wire 0 demo_frame ++ str "next"))).
  apply (Read_Encode_roundtrip (one_by_one (wire 0 demo_frame ++ str "next")) demo_frame
           (wire 0 demo_frame) (str "next"));
    [reflexivity | reflexivity | unfold wf_frame; cbn; lia | vm_compute; reflexivity].
Defined.

(** A frame of an unknown type is invisible whatever its flags, reserved
    field, stream id and payload: the frames and the final error read from a
    stream are those read without it. *)
Theorem unknown_frames_are_skipped fin t fl res s p b fs e :
  known t = false -> len p <= MaxPayload -> 0 <= s < 4294967296 ->
  reads_all fin (header (len p) t fl res s ++ p ++ b) fs e <-> reads_all fin b fs e.
Proof.
  intros Hk Hp Hs. split; [|by apply reads_all_skip]. intros Ha.
  destruct (reads_all_total fin b) as (fs' & e' & Hb).
  by destruct (reads_all_deterministic _ _ _ _ _ _ Ha
    (reads_all_skip fin t fl res s p b fs' e' Hk Hp Hs Hb)) as [-> ->].
Qed.

Example unknown_frames_are_skipped_witness :
  reads_all EOF (header 2 x7e xff 9 0 ++ str "zz" ++ []) [] (IOError EOF).
Proof.
  apply (unknown_frames_are_skipped EOF x7e xff 9 0 (str "zz") [] [] (IOError EOF));
    [reflexivity | vm_compute; discriminate | lia |].
  eapply reads_all_end, reads_end.
Defined.

(** (C32) Whatever the peer sends, a frame [Read] returns is well formed: a
    known type, at most [MaxPayload] payload bytes (the most it ever holds),
    a 32-bit stream id that is not zero where one is needed, and so a frame
    [Encode] accepts. *)
Theorem Read_returns_valid_frames {R} `{ReaderOk R} (r : R) f r' :
  Read r = (Ok f, r') ->
  known (fr_type f) = true /\ len (fr_payload f) <= MaxPayload /\ wf_frame f /\
  (needsStream (fr_type f) = true -> fr_stream f <> 0) /\ Encode f = Ok (wire 0 f).
Proof.
  intros E. destruct (Read_sound r) as (out & r'' & E' & _ & Hr).
  rewrite E in E'. injection E' as <- <-.
  destruct (reads_ok_inv _ _ _ _ Hr f eq_refl) as (? & ? & ? & ?).
  repeat (split; [done|]). by apply Encode_Ok.
Qed.

Example Read_returns_valid_frames_witness :
  Encode demo_frame = Ok (wire 0 demo_frame).
Proof.
  refine (let H := Read_returns_valid_frames (whole (wire 3 demo_frame)) demo_frame
    (snd (Read (whole (wire 3 demo_frame)))) _ in proj2 (proj2 (proj2 (proj2 H)))).
  vm_compute. reflexivity.
Defined.

(** An oversized length is refused after the twelve header bytes alone,
    for every type, whatever comes after; nothing of the payload is read. *)
Theorem oversize_is_refused_at_the_header {R} `{ReaderOk R} (r : R) l t fl res s rest :
  MaxPayload < l < 4294967296 -> 0 <= s < 4294967296 ->
  rd_content r = header l t fl res s ++ rest ->
  exists r', Read r = (Err (OversizeError t l), r') /\ rd_content r' = rest.
Proof.
  intros Hl Hs Hc.
  destruct (Read_complete _ _ _ _ r (reads_oversize (rd_end r) l t fl res s rest Hl Hs))
    as (r' & ? & ? & _); eauto.
Qed.

Example oversize_is_refused_at_the_header_witness :
  exists r', Read (whole (str "GET / HTTP/1.1")) =
    (Err (OversizeError x2f 1195725856), r') /\ rd_content r' = str ".1".
Proof.
  apply (oversize_is_refused_at_the_header (whole (str "GET / HTTP/1.1")) 1195725856 x2f x20
    (Uint16 (str "HT")) (Uint32 (str "TP/1")) (str ".1"));
    [unfold MaxPayload; lia | apply Uint32_range | vm_compute; reflexivity].
Defined.

(** [writeAll] never loses or reorders a byte: what the writer has taken
    is a prefix of the buffer, all of it when there is no error; and the loop
    ends on its own for every writer, so more fuel never changes the result. *)
Theorem writeAll_delivers {W} `{WriterOk W} (w : W) b :
  (exists k, (k <= length b)%nat /\ wr_out (snd (writeAll w b)) = wr_out w ++ take k b /\
     (fst (writeAll w b) = None -> k = length b)) /\
  (forall fuel, (length b <= fuel)%nat -> writeAll_loop fuel w b = writeAll w b).
Proof.
  split; [|intros; by apply writeAll_loop_fuel].
  destruct (writeAll w b) as [err w'] eqn:E. by apply (writeAll_loop_out (length b)).
Qed.

(** A writer that takes two bytes, then one, then fails. *)
Definition failing_sink : sink :=
  {| sk_out := []; sk_script := [(2%nat, None); (1%nat, Some ErrClosed)] |}.

Example writeAll_delivers_witness :
  writeAll failing_sink (str "hello") =
    (Some ErrClosed, {| sk_out := str "hel"; sk_script := [] |}) /\
  forall fuel, (5 <= fuel)%nat ->
    writeAll_loop fuel failing_sink (str "hello") = writeAll failing_sink (str "hello").
Proof. split; [reflexivity | exact (proj2 (writeAll_delivers failing_sink (str "hello")))]. Defined.

(** Short writes are retried to the end: a writer that takes at least one
    byte per call and reports no error receives exactly the encoded frame. *)
Theorem Write_survives_short_writes (w : sink) f b :
  Encode f = Ok b -> Forall (fun p => (0 < p.1)%nat /\ p.2 = None) (sk_script w) ->
  exists w', Write w f = (None, w') /\ sk_out w' = sk_out w ++ b.
Proof.
  intros E Hs. unfold Write. rewrite E.
  destruct (writeAll_loop_progress (length b) w b Hs) as [w' Hw]; [lia|].
  unfold writeAll. rewrite Hw. exists w'. split; [done|].
  destruct (writeAll_loop_out _ _ _ _ _ Hw) as (k & _ & Ho & Hk).
  cbn in Ho. by rewrite Ho, Hk, firstn_all.
Qed.

Example Write_survives_short_writes_witness :
  exists w', Write {| sk_out := []; sk_script := [(1%nat, None); (3%nat, None)] |} demo_frame =
    (None, w') /\ sk_out w' = [] ++ wire 0 demo_frame.
Proof.
  apply (Write_survives_short_writes
    {| sk_out := []; sk_script := [(1%nat, None); (3%nat, None)] |} demo_frame);
    [reflexivity | repeat constructor].
Defined.
