(* ===== verification/Utf8.v ===== *)
(** * UTF-8 validity

    [utf8.Valid] of the Go standard library, which internal/protocol and
    internal/server call on request paths, with the proof that it accepts
    exactly the encodings of sequences of Unicode scalar values (RFC 3629: no
    overlong forms, no surrogates, nothing above U+10FFFF). *)

From S2P Require Import Prelude.

(** The library's table [first] with its accept ranges: the size of a
    sequence and the range of its second byte, by its first byte. *)
Definition utf8_first (b : byte) : option (Z * Z * Z) :=
  let x := bz b in
  if x <? 0xC2 then None
  else if x <=? 0xDF then Some (2, 0x80, 0xBF)
  else if x =? 0xE0 then Some (3, 0xA0, 0xBF)
  else if x <=? 0xEC then Some (3, 0x80, 0xBF)
  else if x =? 0xED then Some (3, 0x80, 0x9F)
  else if x <=? 0xEF then Some (3, 0x80, 0xBF)
  else if x =? 0xF0 then Some (4, 0x90, 0xBF)
  else if x <=? 0xF3 then Some (4, 0x80, 0xBF)
  else if x =? 0xF4 then Some (4, 0x80, 0x8F)
  else None.

Definition in_range (lo hi : Z) (b : byte) : bool := (lo <=? bz b) && (bz b <=? hi).

Fixpoint utf8_valid (p : bytes) : bool :=
  match p with
  | [] => true
  | a :: p =>
    if bz a <? 0x80 then utf8_valid p else
    match utf8_first a, p with
    | Some (size, lo, hi), c1 :: p =>
      in_range lo hi c1 &&
      if size =? 2 then utf8_valid p else
      match p with
      | c2 :: p =>
        in_range 0x80 0xBF c2 &&
        if size =? 3 then utf8_valid p else
        match p with
        | c3 :: p => in_range 0x80 0xBF c3 && utf8_valid p
        | [] => false
        end
      | [] => false
      end
    | _, _ => false
    end
  end.

(** ** The encoding of RFC 3629 *)

Definition scalar (c : Z) : Prop := 0 <= c < 0xD800 \/ 0xE000 <= c <= 0x10FFFF.

Definition utf8_encode (c : Z) : bytes :=
  if c <? 0x80 then [zb c]
  else if c <? 0x800 then [zb (0xC0 + c / 64); zb (0x80 + c mod 64)]
  else if c <? 0x10000 then
    [zb (0xE0 + c / 4096); zb (0x80 + c / 64 mod 64); zb (0x80 + c mod 64)]
  else
    [zb (0xF0 + c / 262144); zb (0x80 + c / 4096 mod 64);
     zb (0x80 + c / 64 mod 64); zb (0x80 + c mod 64)].

Lemma in_range_iff lo hi b : in_range lo hi b = true <-> lo <= bz b <= hi.
Proof. unfold in_range. rewrite andb_true_iff, !Z.leb_le. tauto. Qed.

(** The ranges of the first two bytes, spelt out. *)
Lemma utf8_first_Some b size lo hi :
  utf8_first b = Some (size, lo, hi) ->
  (size = 2 /\ 0xC2 <= bz b <= 0xDF /\ lo = 0x80 /\ hi = 0xBF) \/
  (size = 3 /\ 0xE0 <= bz b <= 0xEF /\
     lo = (if bz b =? 0xE0 then 0xA0 else 0x80) /\
     hi = (if bz b =? 0xED then 0x9F else 0xBF)) \/
  (size = 4 /\ 0xF0 <= bz b <= 0xF4 /\
     lo = (if bz b =? 0xF0 then 0x90 else 0x80) /\
     hi = (if bz b =? 0xF4 then 0x8F else 0xBF)).
Proof.
  unfold utf8_first. intros H.
  repeat match goal with
  | H : context [if ?c then _ else _] |- _ => destruct c eqn:?
  end; simplify_eq; unbool;
    repeat match goal with
    | |- context [?a =? ?b] => destruct (Z.eqb_spec a b)
    end; lia.
Qed.

Lemma zb_eq z b : z = bz b -> zb z = b.
Proof. intros ->. apply zb_bz. Qed.

(** A sequence the decoder accepts is the encoding of a scalar value. *)
Lemma utf8_encode_2 a c1 :
  0xC2 <= bz a <= 0xDF -> 0x80 <= bz c1 <= 0xBF ->
  exists c, scalar c /\ utf8_encode c = [a; c1].
Proof.
  intros. exists ((bz a - 0xC0) * 64 + (bz c1 - 0x80)). split; [unfold scalar; lia|].
  unfold utf8_encode. cmp_cases. repeat f_equal; apply zb_eq; zlia.
Qed.

Lemma utf8_encode_3 a c1 c2 :
  0xE0 <= bz a <= 0xEF ->
  (if bz a =? 0xE0 then 0xA0 else 0x80) <= bz c1 <= (if bz a =? 0xED then 0x9F else 0xBF) ->
  0x80 <= bz c2 <= 0xBF ->
  exists c, scalar c /\ utf8_encode c = [a; c1; c2].
Proof.
  intros Ha H1 H2.
  exists ((bz a - 0xE0) * 4096 + (bz c1 - 0x80) * 64 + (bz c2 - 0x80)).
  destruct (Z.eqb_spec (bz a) 0xE0), (Z.eqb_spec (bz a) 0xED);
    (split; [unfold scalar; lia|]);
    unfold utf8_encode; cmp_cases; repeat f_equal; apply zb_eq; zlia.
Qed.

Lemma utf8_encode_4 a c1 c2 c3 :
  0xF0 <= bz a <= 0xF4 ->
  (if bz a =? 0xF0 then 0x90 else 0x80) <= bz c1 <= (if bz a =? 0xF4 then 0x8F else 0xBF) ->
  0x80 <= bz c2 <= 0xBF -> 0x80 <= bz c3 <= 0xBF ->
  exists c, scalar c /\ utf8_encode c = [a; c1; c2; c3].
Proof.
  intros Ha H1 H2 H3.
  exists ((bz a - 0xF0) * 262144 + (bz c1 - 0x80) * 4096 + (bz c2 - 0x80) * 64 + (bz c3 - 0x80)).
  destruct (Z.eqb_spec (bz a) 0xF0), (Z.eqb_spec (bz a) 0xF4);
    (split; [unfold scalar; lia|]);
    unfold utf8_encode; cmp_cases; repeat f_equal; apply zb_eq; zlia.
Qed.

(** One character off the front of an accepted string. *)
Lemma utf8_valid_inv p :
  utf8_valid p = true -> p <> [] ->
  exists c p', scalar c /\ p = utf8_encode c ++ p' /\ utf8_valid p' = true.
Proof.
  destruct p as [|a p]; [done|]. intros H _. cbn [utf8_valid] in H.
  destruct (Z.ltb_spec (bz a) 0x80) as [Ha|Ha].
  { exists (bz a), p. pose proof (bz_range a). split; [unfold scalar; lia|].
    unfold utf8_encode. rewrite (proj2 (Z.ltb_lt _ _)), zb_bz by lia. done. }
  destruct (utf8_first a) as [[[size lo] hi]|] eqn:Ef; [|done].
  destruct p as [|c1 p]; [done|]. apply andb_true_iff in H as [H1 H].
  apply in_range_iff in H1.
  destruct (utf8_first_Some _ _ _ _ Ef) as [(-> & ? & -> & ->)|[(-> & ? & -> & ->)|(-> & ? & -> & ->)]];
    cbn in H.
  - destruct (utf8_encode_2 a c1) as (c & ? & E); [done..|]. exists c, p. by rewrite E.
  - destruct p as [|c2 p]; [done|]. apply andb_true_iff in H as [H2 H].
    apply in_range_iff in H2.
    destruct (utf8_encode_3 a c1 c2) as (c & ? & E); [done..|]. exists c, p. by rewrite E.
  - destruct p as [|c2 p]; [done|]. apply andb_true_iff in H as [H2 H].
    apply in_range_iff in H2.
    destruct p as [|c3 p]; [done|]. apply andb_true_iff in H as [H3 H].
    apply in_range_iff in H3.
    destruct (utf8_encode_4 a c1 c2 c3) as (c & ? & E); [done..|]. exists c, p. by rewrite E.
Qed.

(** The encoding of a scalar value is accepted and read to its end. *)
Lemma utf8_valid_encode c p : scalar c -> utf8_valid (utf8_encode c ++ p) = utf8_valid p.
Proof.
  intros Hc. unfold utf8_encode.
  assert (0 <= c <= 0x10FFFF) by (unfold scalar in Hc; lia).
  destruct (Z.ltb_spec c 0x80); [|destruct (Z.ltb_spec c 0x800);
    [|destruct (Z.ltb_spec c 0x10000)]];
    cbn [app utf8_valid]; unfold utf8_first, in_range;
    rewrite ?bz_zb_small by zlia; unfold scalar in Hc; by cmp_cases.
Qed.

Lemma utf8_valid_iff p :
  utf8_valid p = true <-> exists cs, Forall scalar cs /\ p = List.concat (utf8_encode <$> cs).
Proof.
  split.
  - remember (length p) as n eqn:Hn. revert p Hn.
    induction (lt_wf n) as [n _ IH]. intros p -> H.
    destruct p as [|a p]; [by exists []|].
    destruct (utf8_valid_inv _ H) as (c & p' & Hc & E & Hv); [done|].
    destruct (IH (length p')) with (p := p') as (cs & Hcs & E'); [|done|done|].
    { rewrite E, length_app.
      assert (length (utf8_encode c) <> 0%nat); [|lia].
      unfold utf8_encode. by repeat case_match. }
    exists (c :: cs). split; [by constructor|]. rewrite E, E'. done.
  - intros (cs & Hcs & ->). induction Hcs as [|c cs Hc Hcs IH]; [done|].
    cbn. by rewrite utf8_valid_encode.
Qed.

Lemma utf8_valid_app p q : utf8_valid p = true -> utf8_valid (p ++ q) = utf8_valid q.
Proof.
  intros (cs & Hcs & ->)%utf8_valid_iff.
  induction Hcs as [|c cs Hc Hcs IH]; [done|].
  cbn. by rewrite <- app_assoc, utf8_valid_encode.
Qed.
