(* ===== verification/Headers.v ===== *)
(** * internal/protocol: the cursor and the header codec

    [protocol.go] (limits, errors, the bounds-checked cursor) and
    [headers.go] (the header table, [appendHeaders], [readHeaders]).  The
    cursor is a state and error monad; a small calculus of grammars
    ([parses]) gives every decoder its language. *)

From S2P Require Import Prelude GoIO.

(** ** protocol.go *)

Definition MaxPathLen : Z := 4096.
Definition MaxHeaders : Z := 255.
Definition MaxCustomNameLen : Z := 255.
Definition maxHeaderValueLen : Z := 0xFFFF.
Definition maxFramePayload : Z := 16384.

Abbreviation Method := byte (only parsing).
Definition MethodGet : Method := x01.

(** Every [malformed(...)] of the package, with the arguments of its message;
    all of them wrap [ErrMalformed]. *)
Inductive malformed : Type :=
  | NeedMoreBytes (need remain : Z)
  | UnexpectedBytes (n : Z)
  | HeadersAnnounced (count remain : Z)
  | NameLenOutside (n : Z)
  | NameNotAllowed (n : Z)
  | MustUseTableID (name : bytes)
  | MethodNotSupported (method : byte)
  | PathLenOutside (n : Z)
  | PathNotUTF8
  | StatusOutside (status : Z).

(** The errors of the encoders; [ErrTooLarge] is the package's sentinel. *)
Inductive encode_error : Type :=
  | TooManyHeaders (n : Z)
  | ValueTooLong (name : bytes) (n : Z)
  | InvalidHeaderName (name : bytes)
  | UnsupportedMethod (m : Method)
  | BadPathLength (n : Z)
  | BadPathUTF8
  | BadStatus (s : Z)
  | ErrTooLarge.

(** The cursor: [c.b] is the state; on an error nothing is read any more, so
    the state after it does not matter. *)
Definition parser (A : Type) : Type := bytes -> result malformed (A * bytes).

#[export] Instance parser_ret : MRet parser := fun A a c => Ok (a, c).
#[export] Instance parser_bind : MBind parser := fun A B f p c =>
  match p c with
  | Ok (a, c) => f a c
  | Err e => Err e
  end.

Definition fail {A} (e : malformed) : parser A := fun _ => Err e.

Definition remaining : parser Z := fun c => Ok (len c, c).

Definition cursor_take (n : Z) : parser bytes := fun c =>
  if (n <? 0) || (len c <? n) then Err (NeedMoreBytes n (len c))
  else Ok (ztake n c, zdrop n c).

Definition u8 : parser byte := b ← cursor_take 1; mret (b !!! 0%nat).

Definition u16 : parser Z := b ← cursor_take 2; mret (Uint16 b).

Definition finish : parser unit := fun c =>
  if negb (len c =? 0) then Err (UnexpectedBytes (len c)) else Ok ((), c).

Definition appendU16 (dst : bytes) (v : Z) : bytes := dst ++ put16 v.

(** ** headers.go *)

Definition HeaderContentType : bytes := str "content-type".
Definition HeaderContentLength : bytes := str "content-length".
Definition HeaderServer : bytes := str "server".
Definition HeaderDate : bytes := str "date".
Definition HeaderConnection : bytes := str "connection".
Definition HeaderContentEncoding : bytes := str "content-encoding".
Definition HeaderCacheControl : bytes := str "cache-control".
Definition HeaderLastModified : bytes := str "last-modified".

Definition tableNames : list bytes :=
  [ []; HeaderContentType; HeaderContentLength; HeaderServer; HeaderDate;
    HeaderConnection; HeaderContentEncoding; HeaderCacheControl; HeaderLastModified ].

Definition tableIDs : gmap bytes byte :=
  foldl (fun m '(id, name) => if decide (name = []) then m else <[name := zb (Z.of_nat id)]> m)
    ∅ (imap pair tableNames).

Record Header : Type := MkHeader { h_name : bytes; h_value : bytes }.

#[export] Instance Header_eq_dec : EqDecision Header.
Proof. solve_decision. Defined.

Definition NewHeader (name value : bytes) : Header := MkHeader name value.

Fixpoint Get (headers : list Header) (name : bytes) : option bytes :=
  match headers with
  | [] => None
  | h :: hs => if decide (h_name h = name) then Some (h_value h) else Get hs name
  end.

Definition validNameByte (c : byte) : bool :=
  ((bz x61 <=? bz c) && (bz c <=? bz x7a)) || ((bz x30 <=? bz c) && (bz c <=? bz x39))
  || byte_eqb c x2d || byte_eqb c x5f || byte_eqb c x2e.

Definition validCustomName (name : bytes) : bool :=
  if (len name =? 0) || (MaxCustomNameLen <? len name) then false
  else forallb validNameByte name.

(** The loop of [appendHeaders]. *)
Fixpoint append_each (dst : bytes) (headers : list Header) : result encode_error bytes :=
  match headers with
  | [] => Ok dst
  | h :: hs =>
    if maxHeaderValueLen <? len (h_value h) then Err (ValueTooLong (h_name h) (len (h_value h)))
    else
      dst ←
        match tableIDs !! h_name h with
        | Some id => Ok (dst ++ [id])
        | None =>
          if negb (validCustomName (h_name h)) then Err (InvalidHeaderName (h_name h))
          else Ok (appendU16 (dst ++ [x00]) (len (h_name h)) ++ h_name h)
        end;
      append_each (appendU16 dst (len (h_value h)) ++ h_value h) hs
  end.

Definition appendHeaders (dst : bytes) (headers : list Header) : result encode_error bytes :=
  if MaxHeaders <? len headers then Err (TooManyHeaders (len headers))
  else append_each (dst ++ [zb (len headers)]) headers.

Inductive nameRules : Type := strictNames | structuralNames.

#[export] Instance nameRules_eq_dec : EqDecision nameRules.
Proof. solve_decision. Defined.

Definition in_table (name : bytes) : bool := bool_decide (is_Some (tableIDs !! name)).

(** The name of a header and whether it is returned: the [switch] of
    [readHeaders] on the identifier. *)
Definition read_name (rules : nameRules) (id : byte) : parser (bytes * bool) :=
  if bz id =? 0 then
    nameLen ← u16;
    name ← cursor_take nameLen;
    if (nameLen =? 0) || (MaxCustomNameLen <? nameLen) then fail (NameLenOutside nameLen)
    else
      let clash := in_table name in
      let strict := bool_decide (rules = strictNames) in
      if strict && negb (validCustomName name) then fail (NameNotAllowed nameLen)
      else if strict && clash then fail (MustUseTableID name)
      else if clash then mret (name, false)
      else mret (name, true)
  else if bz id <? len tableNames then mret (tableNames !!! Z.to_nat (bz id), true)
  else mret ([], false).

(** One round of the loop of [readHeaders]. *)
Definition read_header (rules : nameRules) : parser (option Header) :=
  id ← u8;
  named ← read_name rules id;
  valueLen ← u16;
  value ← cursor_take valueLen;
  mret (if named.2 : bool then Some (MkHeader named.1 value) else None).

Fixpoint read_each (rules : nameRules) (count : nat) : parser (list Header) :=
  match count with
  | O => mret []
  | S count =>
    h ← read_header rules;
    hs ← read_each rules count;
    mret (match h with Some h => h :: hs | None => hs end)
  end.

Definition readHeaders (rules : nameRules) : parser (list Header) :=
  count ← u8;
  rest ← remaining;
  if rest <? bz count * 3 then fail (HeadersAnnounced (bz count) rest)
  else read_each rules (Z.to_nat (bz count)).

(** ** Grammars of parsers

    [parses p G]: the parser [p] succeeds exactly on the inputs that start
    with a string of the language [G], with the value [G] gives it, and leaves
    the rest. *)

Definition language (A : Type) : Type := bytes -> A -> Prop.

Definition parses {A} (p : parser A) (G : language A) : Prop :=
  forall c a c', p c = Ok (a, c') <-> exists b, G b a /\ c = b ++ c'.

Definition seq_lang {A B} (G : language A) (H : A -> language B) : language B :=
  fun b y => exists b1 b2 x, G b1 x /\ H x b2 y /\ b = b1 ++ b2.

Definition eps {A} (a : A) : language A := fun b x => b = [] /\ x = a.

Lemma parses_ret {A} (a : A) : parses (mret a) (eps a).
Proof.
  intros c x c'. unfold eps, mret, parser_ret. split.
  - intros [= -> ->]. by exists [].
  - by intros (b & [-> ->] & ->).
Qed.

Lemma parses_fail {A} e (G : language A) : (forall b a, ~ G b a) -> parses (fail e) G.
Proof. intros HG c a c'. split; [done|]. by intros (b & Hb & _); destruct (HG b a). Qed.

Lemma parses_bind {A B} (p : parser A) (f : A -> parser B) G H :
  parses p G -> (forall a, parses (f a) (H a)) -> parses (p ≫= f) (seq_lang G H).
Proof.
  intros Hp Hf c y c'. unfold mbind, parser_bind, seq_lang. split.
  - destruct (p c) as [[x c1]|e] eqn:E; [|done].
    apply Hp in E as (b1 & HG & ->). intros (b2 & HH & ->)%Hf.
    exists (b1 ++ b2). split; [by exists b1, b2, x | by rewrite app_assoc].
  - intros (b & (b1 & b2 & x & HG & HH & ->) & ->). rewrite <- app_assoc.
    rewrite (proj2 (Hp (b1 ++ b2 ++ c') x (b2 ++ c'))) by eauto. apply Hf. eauto.
Qed.

Lemma parses_ext {A} (p : parser A) (G H : language A) :
  parses p G -> (forall b a, G b a <-> H b a) -> parses p H.
Proof.
  intros Hp HG c a c'. rewrite (Hp c a c').
  split; intros (b & Hb & ->); exists b; by apply HG in Hb.
Qed.

Lemma parses_take n : parses (cursor_take n) (fun b x => b = x /\ len x = n).
Proof.
  intros c x c'. unfold cursor_take. split.
  - destruct (Z.ltb_spec n 0), (Z.ltb_spec (len c) n); cbn; try done.
    intros [= <- <-]. exists (ztake n c). rewrite ztake_zdrop, len_ztake by lia. done.
  - intros (b & [-> <-] & ->). pose proof (len_nonneg x). pose proof (len_nonneg c').
    rewrite len_app, ztake_app, zdrop_app by done.
    by destruct (Z.ltb_spec (len x) 0), (Z.ltb_spec (len x + len c') (len x)); try lia.
Qed.

Lemma parses_u8 : parses u8 (fun b x => b = [x]).
Proof.
  eapply parses_ext; [apply parses_bind; [apply parses_take | intros; apply parses_ret]|].
  intros b a. unfold seq_lang, eps. split.
  - intros (b1 & b2 & x & [-> Hx] & [-> ->] & ->). rewrite app_nil_r.
    destruct x as [|x [|y z]]; try done; unfold len in Hx; cbn in Hx; lia.
  - intros ->. exists [a], [], [a]. by repeat split.
Qed.

Lemma parses_u16 : parses u16 (fun b v => 0 <= v < 65536 /\ b = put16 v).
Proof.
  eapply parses_ext; [apply parses_bind; [apply parses_take | intros; apply parses_ret]|].
  intros b v. unfold seq_lang, eps. split.
  - intros (b1 & b2 & x & [-> Hx] & [-> ->] & ->). rewrite app_nil_r.
    split; [apply Uint16_range|].
    destruct x as [|x [|y [|z w]]]; unfold len in Hx; cbn in Hx; try lia.
    by rewrite put16_Uint16.
  - intros [Hv ->]. exists (put16 v), [], (put16 v). repeat split.
    by rewrite Uint16_put16.
Qed.

Lemma parses_finish c a c' : finish c = Ok (a, c') <-> c = [] /\ c' = [].
Proof.
  unfold finish. destruct a. split.
  - destruct (Z.eqb_spec (len c) 0) as [E|]; [|done]. apply len_0_nil in E as ->.
    by intros [= <-].
  - by intros [-> ->].
Qed.

(** ** The header table *)

Lemma tableIDs_lookup name id :
  tableIDs !! name = Some id <->
  1 <= bz id <= 8 /\ tableNames !!! Z.to_nat (bz id) = name.
Proof.
  split.
  - intros H%elem_of_map_to_list.
    assert (E : forallb (fun p => (1 <=? bz p.2) && (bz p.2 <=? 8) &&
        bool_decide (tableNames !!! Z.to_nat (bz p.2) = p.1)) (map_to_list tableIDs) = true)
      by (vm_compute; reflexivity).
    rewrite forallb_forall in E. apply list_elem_of_In, E in H. cbn in H.
    unbool. by apply bool_decide_eq_true in H0.
  - intros [Hr <-].
    assert (E : forallb (fun k => bool_decide
        (tableIDs !! (tableNames !!! k) = Some (zb (Z.of_nat k)))) (seq 1 8) = true)
      by (vm_compute; reflexivity).
    rewrite forallb_forall in E.
    specialize (E (Z.to_nat (bz id))).
    rewrite in_seq, bool_decide_eq_true, Z2Nat.id, zb_bz in E by lia. apply E. lia.
Qed.

Lemma in_table_true name : in_table name = true <-> exists id, tableIDs !! name = Some id.
Proof. unfold in_table. by rewrite bool_decide_eq_true. Qed.

Lemma in_table_false name : in_table name = false <-> tableIDs !! name = None.
Proof. unfold in_table. by rewrite bool_decide_eq_false, <- eq_None_not_Some. Qed.

Lemma table_name_len name id : tableIDs !! name = Some id -> 1 <= len name <= 255.
Proof.
  intros H%elem_of_map_to_list.
  assert (E : forallb (fun p => (1 <=? len p.1) && (len p.1 <=? 255)) (map_to_list tableIDs) = true)
    by (vm_compute; reflexivity).
  rewrite forallb_forall in E. apply list_elem_of_In, E in H. cbn in H. by unbool.
Qed.

Lemma validCustomName_len name : validCustomName name = true -> 1 <= len name <= 255.
Proof.
  unfold validCustomName, MaxCustomNameLen. pose proof (len_nonneg name).
  destruct (Z.eqb_spec (len name) 0), (Z.ltb_spec 255 (len name)); cbn; try done; lia.
Qed.

(** ** The wire format of headers (protocol/WIRE_FORMAT.md section 7)

    A known header, a header with an identifier this version does not assign
    (parsed, not returned), a custom header, and, where the names are only
    checked for structure, a custom header that borrows a table name (parsed,
    not returned). *)

Definition value_wire (v : bytes) : bytes := put16 (len v) ++ v.

Inductive header_wire (rules : nameRules) : language (option Header) :=
  | hw_table id name v :
      tableIDs !! name = Some id -> len v < 65536 ->
      header_wire rules ([id] ++ value_wire v) (Some (MkHeader name v))
  | hw_unassigned id v :
      9 <= bz id -> len v < 65536 ->
      header_wire rules ([id] ++ value_wire v) None
  | hw_custom name v :
      1 <= len name <= 255 -> tableIDs !! name = None -> len v < 65536 ->
      (rules = strictNames -> validCustomName name = true) ->
      header_wire rules ([x00] ++ put16 (len name) ++ name ++ value_wire v)
        (Some (MkHeader name v))
  | hw_borrowed id name v :
      rules = structuralNames -> tableIDs !! name = Some id -> len v < 65536 ->
      header_wire rules ([x00] ++ put16 (len name) ++ name ++ value_wire v) None.

(** A count byte and that many headers; [None]s are dropped from the result. *)
Definition headers_wire (rules : nameRules) : language (list Header) := fun b hs =>
  exists ws : list (bytes * option Header),
    len ws <= 255 /\ Forall (fun w => header_wire rules w.1 w.2) ws /\
    b = [zb (len ws)] ++ List.concat (fst <$> ws) /\ hs = omap snd ws.

(** ** The decoder reads exactly that format *)

Definition name_lang (rules : nameRules) (id : byte) : language (bytes * bool) := fun b nk =>
  (bz id = 0 /\ b = put16 (len nk.1) ++ nk.1 /\ 1 <= len nk.1 <= 255 /\
     nk.2 = negb (in_table nk.1) /\
     (rules = strictNames -> validCustomName nk.1 = true /\ nk.2 = true)) \/
  (b = [] /\ tableIDs !! nk.1 = Some id /\ nk.2 = true) \/
  (b = [] /\ 9 <= bz id /\ nk = ([], false)).

Lemma read_custom_name_inv rules nameLen name c nk c' :
  (if (nameLen =? 0) || (MaxCustomNameLen <? nameLen) then fail (NameLenOutside nameLen)
   else
     let clash := in_table name in
     let strict := bool_decide (rules = strictNames) in
     if strict && negb (validCustomName name) then fail (NameNotAllowed nameLen)
     else if strict && clash then fail (MustUseTableID name)
     else if clash then mret (name, false)
     else mret (name, true)) c = Ok (nk, c') <->
  (nameLen <> 0 /\ nameLen <= 255 /\ c = c' /\ nk = (name, negb (in_table name)) /\
   (rules = strictNames -> validCustomName name = true /\ nk.2 = true)).
Proof.
  unfold MaxCustomNameLen, fail, mret, parser_ret.
  destruct (Z.eqb_spec nameLen 0), (Z.ltb_spec 255 nameLen); cbn [orb];
    try (split; [done | lia]).
  destruct rules; rewrite ?bool_decide_true, ?bool_decide_false by done;
    destruct (validCustomName name), (in_table name); cbn [andb negb];
    (split; [try done; by intros [= <- <-] | intros (_ & _ & -> & -> & Hs)]);
    cbn in Hs; try done; by destruct Hs.
Qed.

Lemma parses_read_name rules id : parses (read_name rules id) (name_lang rules id).
Proof.
  unfold read_name. pose proof (bz_range id) as Hid.
  destruct (Z.eqb_spec (bz id) 0) as [E0|E0].
  - eapply parses_ext.
    { apply parses_bind; [apply parses_u16|]. intros n.
      apply (parses_bind _ _ _ (fun name b nk => b = [] /\
        (n <> 0 /\ n <= 255 /\ nk = (name, negb (in_table name)) /\
         (rules = strictNames -> validCustomName name = true /\ nk.2 = true)))
        (parses_take n)).
      intros name c nk c'. rewrite read_custom_name_inv. split.
      - intros (? & ? & -> & ? & ?). by exists [].
      - by intros (b & (-> & ? & ? & ? & ?) & ->). }
    intros b [name k]. unfold seq_lang, name_lang. cbn [fst snd]. split.
    + intros (b1 & b2 & n & [Hn ->] & (b3 & b4 & x & [-> Hx] & (-> & ? & ? & [= -> ->] & ?) & ->) & ->).
      left. rewrite app_nil_r, Hx. repeat (split; [done || lia|]). done.
    + intros [(_ & -> & Hl & -> & Hs)|[(-> & Ht & ->)|(_ & ? & _)]].
      * exists (put16 (len name)), name, (len name). split; [split; [lia|done]|].
        split; [|done]. exists name, [], name. rewrite app_nil_r. 
        split; [done|]. split; [|done]. repeat (split; [done || lia|]). done.
      * apply tableIDs_lookup in Ht as [? _]. lia.
      * lia.
  - assert (len tableNames = 9) as -> by reflexivity.
    destruct (Z.ltb_spec (bz id) 9).
    + eapply parses_ext; [apply parses_ret|]. intros b [name k]. unfold eps, name_lang.
      cbn [fst snd]. split.
      * intros [-> [= -> ->]]. right. left. repeat split. apply tableIDs_lookup. split; [lia|done].
      * intros [(? & _)|[(-> & [_ <-]%tableIDs_lookup & ->)|(_ & ? & _)]]; [lia | done | lia].
    + eapply parses_ext; [apply parses_ret|]. intros b [name k]. unfold eps, name_lang.
      cbn [fst snd]. split.
      * intros [-> [= -> ->]]. right. right. done.
      * intros [(? & _)|[(-> & [? _]%tableIDs_lookup & ->)|(-> & ? & ->)]]; [lia | lia | done].
Qed.

Lemma len_value_wire v : len (value_wire v) = 2 + len v.
Proof. unfold value_wire. by rewrite len_app. Qed.

(** The value and what is made of it. *)
Lemma parses_value {B} (f : bytes -> B) :
  parses (n ← u16; v ← cursor_take n; mret (f v))
    (fun b x => exists v, len v < 65536 /\ b = value_wire v /\ x = f v).
Proof.
  eapply parses_ext.
  { apply parses_bind; [apply parses_u16 | intros].
    apply parses_bind; [apply parses_take | intros; apply parses_ret]. }
  intros b x. unfold seq_lang, eps, value_wire. split.
  - intros (b1 & b2 & n & [Hn ->] & (b3 & b4 & v & [-> <-] & [-> ->] & ->) & ->).
    exists v. rewrite app_nil_r. split; [lia | done].
  - intros (v & Hv & -> & ->). pose proof (len_nonneg v).
    exists (put16 (len v)), v, (len v). split; [split; [lia|done]|]. split; [|done].
    exists v, [], v. by rewrite app_nil_r.
Qed.

Lemma parses_read_header rules : parses (read_header rules) (header_wire rules).
Proof.
  eapply parses_ext.
  { apply parses_bind; [apply parses_u8 | intros id].
    apply parses_bind; [apply parses_read_name | intros named].
    apply (parses_value (fun v => if named.2 : bool then Some (MkHeader named.1 v) else None)). }
  intros b o. unfold seq_lang. split.
  - intros (b1 & b2 & id & -> & (b3 & b4 & [name k] & Hn & (v & Hv & -> & ->) & ->) & ->).
    unfold name_lang in Hn. cbn [fst snd] in *.
    destruct Hn as [(Hid & -> & Hl & -> & Hs)|[(-> & Ht & ->)|(-> & Hid & [= -> ->])]].
    + assert (id = x00) as -> by (by apply (inj bz)). rewrite <- (app_assoc (put16 _)).
      destruct (in_table name) eqn:Et; cbn [negb] in *.
      * apply in_table_true in Et as [id Ht]. apply (hw_borrowed rules id); try done.
        destruct rules; [|done]. by destruct Hs as [_ [=]].
      * apply in_table_false in Et. apply hw_custom; [done..|by intros Hr; destruct (Hs Hr)].
    + by apply hw_table.
    + by apply hw_unassigned.
  - intros Hw.
    assert (Hgoal : forall id b' name k v, name_lang rules id b' (name, k) -> len v < 65536 ->
      exists b1 b2 x, b1 = [x] /\ (exists b3 b4 nk, name_lang rules x b3 nk /\
        (exists v0, len v0 < 65536 /\ b4 = value_wire v0 /\
          (if k then Some (MkHeader name v) else None) =
          (if nk.2 : bool then Some (MkHeader nk.1 v0) else None)) /\ b2 = b3 ++ b4) /\
        [id] ++ b' ++ value_wire v = b1 ++ b2).
    { intros id b' name k v Hn Hv. exists [id], (b' ++ value_wire v), id. split; [done|].
      split; [|done]. exists b', (value_wire v), (name, k). split; [done|]. split; [|done].
      by exists v. }
    destruct Hw as [id name v Ht Hv|id v Hi Hv|name v Hl Ht Hv Hs|id name v -> Ht Hv].
    + apply (Hgoal id [] name true v); [|done]. right; by left.
    + apply (Hgoal id [] [] false v); [|done]. right; by right.
    + rewrite (app_assoc (put16 _)). apply (Hgoal x00 _ name true v); [|done].
      left. cbn [fst snd]. apply in_table_false in Ht as ->. repeat split; try done; try lia; auto.
    + rewrite (app_assoc (put16 _)). apply (Hgoal x00 _ name false v); [|done].
      left. cbn [fst snd]. pose proof (table_name_len _ _ Ht).
      assert (in_table name = true) as -> by (apply in_table_true; eauto).
      by repeat (split; [done|]).
Qed.

(** Every header takes at least three bytes. *)
Lemma header_wire_len rules b o : header_wire rules b o -> 3 <= len b.
Proof.
  destruct 1; rewrite ?len_app, len_value_wire;
    pose proof (len_nonneg v); len_simpl; try lia;
    pose proof (len_nonneg name); lia.
Qed.

Definition each_lang (rules : nameRules) (n : nat) : language (list Header) := fun b hs =>
  exists ws : list (bytes * option Header),
    length ws = n /\ Forall (fun w => header_wire rules w.1 w.2) ws /\
    b = List.concat (fst <$> ws) /\ hs = omap snd ws.

Lemma parses_read_each rules n : parses (read_each rules n) (each_lang rules n).
Proof.
  induction n as [|n IH]; cbn [read_each].
  - eapply parses_ext; [apply parses_ret|]. intros b hs. unfold eps, each_lang. split.
    + intros [-> ->]. by exists [].
    + intros ([|] & ? & _ & -> & ->); done.
  - eapply parses_ext.
    { apply parses_bind; [apply parses_read_header | intros o].
      apply parses_bind; [apply IH | intros; apply parses_ret]. }
    intros b hs. unfold seq_lang, eps. split.
    + intros (b1 & b2 & o & Ho & (b3 & b4 & hs' & (ws & Hn & Hws & -> & ->) & [-> ->] & ->) & ->).
      exists ((b1, o) :: ws). rewrite app_nil_r. cbn. split; [congruence|].
      split; [by constructor|]. split; [done|]. by destruct o.
    + intros ([|[b1 o] ws] & Hn & Hws & -> & ->); [done|].
      apply Forall_cons in Hws as [Ho Hws]. injection Hn as Hn.
      exists b1, (List.concat (fst <$> ws)), o. split; [done|]. split; [|done].
      exists (List.concat (fst <$> ws)), [], (omap snd ws).
      rewrite app_nil_r. split; [by exists ws|]. split; [split; [done|]|done].
      by destruct o.
Qed.

Lemma each_lang_len rules n b hs : each_lang rules n b hs -> 3 * Z.of_nat n <= len b.
Proof.
  intros (ws & <- & Hws & -> & _). induction Hws as [|w ws Hw Hws IH]; [done|].
  apply header_wire_len in Hw. cbn. rewrite len_app. lia.
Qed.

(** The early check on the count never rejects a payload the loop would have
    accepted, so it does not change the language. *)
Lemma parses_readHeaders rules : parses (readHeaders rules) (headers_wire rules).
Proof.
  eapply parses_ext.
  { apply parses_bind; [apply parses_u8 | intros count].
    instantiate (1 := fun count => each_lang rules (Z.to_nat (bz count))). cbn beta.
    intros c hs c'. unfold remaining, mbind, parser_bind at 1. cbn beta iota.
    rewrite <- (parses_read_each rules (Z.to_nat (bz count)) c hs c').
    destruct (Z.ltb_spec (len c) (bz count * 3)) as [Hl|]; [|done].
    split; [done|]. intros (b & Hb & ->)%parses_read_each.
    apply each_lang_len in Hb. pose proof (bz_range count).
    rewrite len_app in Hl. pose proof (len_nonneg c'). lia. }
  intros b hs. unfold seq_lang, headers_wire, each_lang. split.
  - intros (b1 & b2 & count & -> & (ws & Hn & Hws & -> & ->) & ->).
    pose proof (bz_range count). exists ws.
    assert (len ws = bz count) as -> by (unfold len; lia).
    rewrite zb_bz. repeat split; [lia | done].
  - intros (ws & Hn & Hws & -> & ->). pose proof (len_nonneg ws).
    exists [zb (len ws)], (List.concat (fst <$> ws)), (zb (len ws)). split; [done|]. split; [|done].
    exists ws. rewrite bz_zb_small by lia. repeat split; [unfold len; lia | done].
Qed.

(** ** The encoder writes the same format *)

(** One header, the way [appendHeaders] writes it. *)
Definition encode_header (h : Header) : bytes :=
  match tableIDs !! h_name h with
  | Some id => [id]
  | None => [x00] ++ put16 (len (h_name h)) ++ h_name h
  end ++ value_wire (h_value h).

(** The headers [appendHeaders] accepts. *)
Definition header_ok (h : Header) : Prop :=
  len (h_value h) < 65536 /\
  (in_table (h_name h) = true \/ validCustomName (h_name h) = true).

Lemma append_each_Ok dst hs b :
  append_each dst hs = Ok b <->
  Forall header_ok hs /\ b = dst ++ List.concat (encode_header <$> hs).
Proof.
  revert dst. induction hs as [|h hs IH]; intros dst; cbn [append_each].
  { cbn. rewrite app_nil_r. split; [by intros [= ->] | by intros [_ ->]]. }
  rewrite Forall_cons. unfold header_ok at 1, maxHeaderValueLen.
  destruct (Z.ltb_spec 65535 (len (h_value h))) as [Hv|Hv].
  { split; [done | lia]. }
  cbn [fmap list_fmap List.concat]. unfold encode_header at 1, appendU16, value_wire.
  destruct (tableIDs !! h_name h) as [id|] eqn:Et.
  - cbn. rewrite IH, <- !app_assoc.
    rewrite (proj2 (in_table_true (h_name h))) by eauto. intuition (auto; lia).
  - apply in_table_false in Et. rewrite Et.
    destruct (validCustomName (h_name h)); cbn; [|intuition congruence].
    rewrite IH, <- !app_assoc. cbn. intuition (auto; lia).
Qed.

Lemma appendHeaders_Ok dst hs b :
  appendHeaders dst hs = Ok b <->
  len hs <= 255 /\ Forall header_ok hs /\
  b = dst ++ [zb (len hs)] ++ List.concat (encode_header <$> hs).
Proof.
  unfold appendHeaders, MaxHeaders. destruct (Z.ltb_spec 255 (len hs)).
  - split; [done | lia].
  - rewrite append_each_Ok, <- app_assoc. intuition.
Qed.

Lemma encode_header_wire rules h : header_ok h -> header_wire rules (encode_header h) (Some h).
Proof.
  intros [Hv Hn]. destruct h as [name v]. unfold encode_header. cbn [h_name h_value] in *.
  destruct (tableIDs !! name) as [id|] eqn:Et; [by apply hw_table|].
  rewrite <- !app_assoc. apply in_table_false in Et as Et'. rewrite Et' in Hn.
  destruct Hn as [[=]|Hn]. apply hw_custom; try done. by apply validCustomName_len.
Qed.

Lemma encoded_headers_wire rules hs :
  len hs <= 255 -> Forall header_ok hs ->
  headers_wire rules ([zb (len hs)] ++ List.concat (encode_header <$> hs)) hs.
Proof.
  intros Hl Hok. exists ((fun h => (encode_header h, Some h)) <$> hs).
  assert (len ((fun h => (encode_header h, Some h)) <$> hs) = len hs) as E
    by (unfold len; by rewrite length_fmap).
  rewrite E. split; [done|]. split; [|split].
  - apply Forall_fmap. eapply Forall_impl; [done|]. intros h. cbn. apply encode_header_wire.
  - by rewrite <- list_fmap_compose.
  - clear. induction hs as [|h hs IH]; [done|]. cbn. by f_equal.
Qed.

(** Under the strict rules the format is canonical: a header that is returned
    was written the one way the encoder writes it. *)
Lemma header_wire_canonical b h :
  header_wire strictNames b (Some h) -> header_ok h /\ b = encode_header h.
Proof.
  inversion 1 as [id name v Ht Hv| |name v Hl Ht Hv Hs|]; subst;
    unfold encode_header, header_ok; cbn [h_name h_value].
  - rewrite Ht. split; [|done]. split; [done|]. left. apply in_table_true. eauto.
  - rewrite Ht, <- !app_assoc. split; [|done]. split; [done|]. right. auto.
Qed.

Lemma headers_wire_canonical b hs :
  headers_wire strictNames b hs ->
  Forall header_ok hs /\ len hs <= 255 /\
  len ([zb (len hs)] ++ List.concat (encode_header <$> hs)) <= len b.
Proof.
  intros (ws & Hn & Hws & -> & ->).
  assert (Forall header_ok (omap snd ws) /\ len (omap snd ws) <= len ws /\
    len (List.concat (encode_header <$> omap snd ws)) <= len (List.concat (fst <$> ws))) as (? & ? & ?).
  { clear Hn. induction Hws as [|[b o] ws Hw Hws (IH1 & IH2 & IH3)]; [done|].
    cbn in Hw |- *. destruct o as [h|].
    - apply header_wire_canonical in Hw as [Hok ->]. cbn. rewrite !len_app, !len_cons.
      split; [by constructor|]. split; [lia|]. cbn in *. lia.
    - rewrite !len_app, len_cons. pose proof (len_nonneg b). cbn in *. split; [done|]. lia. }
  rewrite !len_app. repeat split; [done | lia | cbn; unfold len in *; cbn in *; lia].
Qed.

(** Nothing was dropped: the payload is the canonical one. *)
Lemma headers_wire_exact b hs count rest :
  headers_wire strictNames b hs -> b = count :: rest -> bz count = len hs ->
  b = [zb (len hs)] ++ List.concat (encode_header <$> hs).
Proof.
  intros (ws & Hn & Hws & -> & ->) [= <- <-] Hc.
  pose proof (len_nonneg ws). rewrite bz_zb_small in Hc by lia. rewrite <- Hc.
  f_equal. f_equal.
  assert (length ws = length (omap snd ws)) as Hl by (unfold len in Hc; lia).
  clear Hn Hc H. induction Hws as [|[b o] ws Hw Hws IH]; [done|].
  cbn in Hw, Hl |- *. destruct o as [h|]; cbn in Hl |- *.
  - apply header_wire_canonical in Hw as [_ ->]. f_equal. apply IH. by injection Hl.
  - exfalso. assert (length (omap snd ws) <= length ws)%nat; [|cbn in *; lia].
    clear. induction ws as [|[b [h|]] ws IH]; cbn; lia.
Qed.
