(* ===== verification/Messages.v ===== *)
(** * internal/protocol: request, response and error payloads

    [messages.go]: the three payload codecs, the languages of
    protocol/WIRE_FORMAT.md sections 5, 6 and 9, the proof that each decoder
    accepts exactly its language, and the round trips in both directions. *)

From S2P Require Import Prelude GoIO Utf8 Headers.

(** ** Requests *)

Record Request : Type := MkRequest {
  req_method : Method;
  req_path : bytes;
  req_headers : list Header;
}.

Definition validUTF8 (b : bytes) : bool := utf8_valid b.

Definition Request_Encode (r : Request) : result encode_error bytes :=
  if negb (byte_eqb (req_method r) MethodGet) then Err (UnsupportedMethod (req_method r))
  else if (len (req_path r) =? 0) || (MaxPathLen <? len (req_path r)) then
    Err (BadPathLength (len (req_path r)))
  else if negb (validUTF8 (req_path r)) then Err BadPathUTF8
  else
    let b := [req_method r] in
    let b := appendU16 b (len (req_path r)) in
    let b := b ++ req_path r in
    b ← appendHeaders b (req_headers r);
    if maxFramePayload <? len b then Err ErrTooLarge else Ok b.

(** The decoders run on a whole payload: the cursor is dropped at the end. *)
Definition run {A} (p : parser A) (payload : bytes) : result malformed A :=
  match p payload with
  | Ok (a, _) => Ok a
  | Err e => Err e
  end.

Definition parse_request : parser Request :=
  method ← u8;
  if negb (byte_eqb method MethodGet) then fail (MethodNotSupported method) else
  pathLen ← u16;
  if (pathLen =? 0) || (MaxPathLen <? pathLen) then fail (PathLenOutside pathLen) else
  path ← cursor_take pathLen;
  if negb (validUTF8 path) then fail PathNotUTF8 else
  headers ← readHeaders strictNames;
  _ ← finish;
  mret (MkRequest MethodGet path headers).

Definition DecodeRequest (payload : bytes) : result malformed Request :=
  run parse_request payload.

(** ** Responses *)

Record Response : Type := MkResponse {
  rsp_status : Z;
  rsp_headers : list Header;
}.

Definition validStatus (s : Z) : bool := (100 <=? s) && (s <=? 599).

Definition Response_Encode (r : Response) : result encode_error bytes :=
  if negb (validStatus (rsp_status r)) then Err (BadStatus (rsp_status r))
  else
    let b := appendU16 [] (rsp_status r) in
    b ← appendHeaders b (rsp_headers r);
    if maxFramePayload <? len b then Err ErrTooLarge else Ok b.

Definition parse_response : parser Response :=
  status ← u16;
  if negb (validStatus status) then fail (StatusOutside status) else
  headers ← readHeaders structuralNames;
  _ ← finish;
  mret (MkResponse status headers).

Definition DecodeResponse (payload : bytes) : result malformed Response :=
  run parse_response payload.

(** ** Connection errors *)

(** [ErrorCode] is [uint16]. *)
Definition CodeFrameTooLarge : Z := 1.
Definition CodeInvalidStreamID : Z := 2.
Definition CodeProtocolError : Z := 3.

Record ConnError : Type := MkConnError { ce_code : Z; ce_message : bytes }.

Definition ConnError_Encode (e : ConnError) : result encode_error bytes :=
  if maxFramePayload <? 4 + len (ce_message e) then Err ErrTooLarge
  else
    let b := appendU16 [] (ce_code e) in
    let b := appendU16 b (len (ce_message e)) in
    Ok (b ++ ce_message e).

Definition parse_conn_error : parser ConnError :=
  code ← u16;
  msgLen ← u16;
  msg ← cursor_take msgLen;
  _ ← finish;
  mret (MkConnError code msg).

Definition DecodeConnError (payload : bytes) : result malformed ConnError :=
  run parse_conn_error payload.

(** ** The languages of the payloads *)

Inductive request_wire : bytes -> Request -> Prop :=
  | rq_wire path hb hs :
      1 <= len path <= MaxPathLen -> utf8_valid path = true ->
      headers_wire strictNames hb hs ->
      request_wire ([MethodGet] ++ put16 (len path) ++ path ++ hb)
        (MkRequest MethodGet path hs).

Inductive response_wire : bytes -> Response -> Prop :=
  | rs_wire status hb hs :
      100 <= status <= 599 -> headers_wire structuralNames hb hs ->
      response_wire (put16 status ++ hb) (MkResponse status hs).

Inductive conn_error_wire : bytes -> ConnError -> Prop :=
  | ce_wire code msg :
      0 <= code < 65536 -> len msg < 65536 ->
      conn_error_wire (put16 code ++ put16 (len msg) ++ msg) (MkConnError code msg).

(** [accepts p G]: the parser [p], run on a whole payload, succeeds exactly on
    the language [G]. *)
Definition accepts {A} (p : parser A) (G : language A) : Prop :=
  forall payload a, run p payload = Ok a <-> G payload a.

Lemma accepts_finish {A} (a : A) : accepts (_ ← finish; mret a) (eps a).
Proof.
  intros payload x. unfold run, eps, mbind, parser_bind, mret, parser_ret.
  destruct (finish payload) as [[[] c]|] eqn:Ef.
  - apply parses_finish in Ef as [-> ->]. split; [by intros [= ->] | by intros [_ ->]].
  - split; [done|]. intros [-> _]. done.
Qed.

Lemma accepts_bind {A B} (p : parser A) (f : A -> parser B) G H :
  parses p G -> (forall a, accepts (f a) (H a)) -> accepts (p ≫= f) (seq_lang G H).
Proof.
  intros Hp Hf payload y. unfold run, mbind, parser_bind, seq_lang. split.
  - destruct (p payload) as [[x c]|e] eqn:E; [|done].
    apply Hp in E as (b1 & HG & ->). intros HH.
    exists b1, c, x. split; [done|]. split; [|done]. by apply Hf.
  - intros (b1 & b2 & x & HG & HH & ->).
    rewrite (proj2 (Hp (b1 ++ b2) x b2)) by eauto. by apply Hf in HH.
Qed.

(** An early exit narrows the language. *)
Lemma accepts_guard {A} (bad : bool) e (p : parser A) G :
  accepts p G -> accepts (if bad then fail e else p) (fun b a => bad = false /\ G b a).
Proof.
  intros Hp payload a. destruct bad; [split; [done | by intros []]|].
  rewrite (Hp payload a). intuition.
Qed.

Lemma accepts_ext {A} (p : parser A) (G H : language A) :
  accepts p G -> (forall b a, G b a <-> H b a) -> accepts p H.
Proof. intros Hp HG payload a. by rewrite (Hp payload a). Qed.

Lemma DecodeRequest_wire payload r : DecodeRequest payload = Ok r <-> request_wire payload r.
Proof.
  revert payload r. unfold DecodeRequest, parse_request. eapply accepts_ext.
  { apply accepts_bind; [apply parses_u8 | intros].
    apply accepts_guard, accepts_bind; [apply parses_u16 | intros].
    apply accepts_guard, accepts_bind; [apply parses_take | intros].
    apply accepts_guard, accepts_bind; [apply parses_readHeaders | intros; apply accepts_finish]. }
  intros b rq. unfold seq_lang, eps. split.
  - intros (b1 & b2 & m & -> & (Hm & b3 & b4 & n & [Hn ->] & (Hl & b5 & b6 & path &
      [-> Hp] & (Hv & hb & b8 & hs & Hh & [-> ->] & ->) & ->) & ->) & ->).
    unbool. subst. rewrite app_nil_r. by apply rq_wire; [lia|..].
  - destruct 1 as [path hb hs Hl Hv Hh]. unfold MaxPathLen in Hl.
    exists [MethodGet], (put16 (len path) ++ path ++ hb), MethodGet. split; [done|].
    split; [|done]. split; [done|].
    exists (put16 (len path)), (path ++ hb), (len path). split; [split; [lia|done]|].
    split; [|done]. split.
    { unfold MaxPathLen. cmp_cases; done. }
    exists path, hb, path. split; [done|]. split; [|done].
    split; [by unfold validUTF8; rewrite Hv|].
    exists hb, [], hs. by rewrite app_nil_r.
Qed.

Lemma DecodeResponse_wire payload r : DecodeResponse payload = Ok r <-> response_wire payload r.
Proof.
  revert payload r. unfold DecodeResponse, parse_response. eapply accepts_ext.
  { apply accepts_bind; [apply parses_u16 | intros].
    apply accepts_guard, accepts_bind; [apply parses_readHeaders | intros; apply accepts_finish]. }
  intros b rs. unfold seq_lang, eps, validStatus. split.
  - intros (b1 & b2 & st & [Hst ->] & (Hv & hb & b3 & hs & Hh & [-> ->] & ->) & ->).
    unbool. rewrite app_nil_r. by apply rs_wire.
  - destruct 1 as [status hb hs Hs Hh].
    exists (put16 status), hb, status. split; [split; [lia|done]|]. split; [|done].
    split; [cmp_cases; done|]. exists hb, [], hs. by rewrite app_nil_r.
Qed.

Lemma DecodeConnError_wire payload e :
  DecodeConnError payload = Ok e <-> conn_error_wire payload e.
Proof.
  revert payload e. unfold DecodeConnError, parse_conn_error. eapply accepts_ext.
  { apply accepts_bind; [apply parses_u16 | intros].
    apply accepts_bind; [apply parses_u16 | intros].
    apply accepts_bind; [apply parses_take | intros; apply accepts_finish]. }
  intros b ce. unfold seq_lang, eps. split.
  - intros (b1 & b2 & code & [Hc ->] & (b3 & b4 & n & [Hn ->] & (b5 & b6 & msg & [-> <-] & [-> ->]
      & ->) & ->) & ->).
    rewrite app_nil_r. apply ce_wire; lia.
  - destruct 1 as [code msg Hc Hm]. pose proof (len_nonneg msg).
    exists (put16 code), (put16 (len msg) ++ msg), code. split; [done|]. split; [|done].
    exists (put16 (len msg)), msg, (len msg). split; [split; [lia|done]|]. split; [|done].
    exists msg, [], msg. by rewrite app_nil_r.
Qed.

(** ** The encoders *)

Definition request_bytes (r : Request) : bytes :=
  [req_method r] ++ put16 (len (req_path r)) ++ req_path r ++
  [zb (len (req_headers r))] ++ List.concat (encode_header <$> req_headers r).

Definition response_bytes (r : Response) : bytes :=
  put16 (rsp_status r) ++
  [zb (len (rsp_headers r))] ++ List.concat (encode_header <$> rsp_headers r).

Lemma encoded_payload_Ok dst hs b :
  (b' ← appendHeaders dst hs; if maxFramePayload <? len b' then Err ErrTooLarge else Ok b') = Ok b <->
  len hs <= 255 /\ Forall header_ok hs /\
  b = dst ++ [zb (len hs)] ++ List.concat (encode_header <$> hs) /\ len b <= maxFramePayload.
Proof.
  rewrite bind_Ok. split.
  - intros (b' & (? & ? & ->)%appendHeaders_Ok & E).
    destruct (Z.ltb_spec maxFramePayload (len (dst ++ [zb (len hs)] ++ List.concat (encode_header <$> hs))));
      by simplify_eq.
  - intros (? & ? & -> & Hl). eexists. split; [by apply appendHeaders_Ok|].
    by destruct (Z.ltb_spec maxFramePayload (len (dst ++ [zb (len hs)] ++ List.concat (encode_header <$> hs))));
      [lia|].
Qed.

Lemma Request_Encode_Ok r b :
  Request_Encode r = Ok b <->
  req_method r = MethodGet /\ 1 <= len (req_path r) <= MaxPathLen /\
  utf8_valid (req_path r) = true /\ len (req_headers r) <= 255 /\
  Forall header_ok (req_headers r) /\ b = request_bytes r /\ len b <= maxFramePayload.
Proof.
  unfold Request_Encode, request_bytes, appendU16, validUTF8.
  pose proof (len_nonneg (req_path r)).
  destruct (byte_eqb (req_method r) MethodGet) eqn:Em; cbn [negb].
  2: { split; [done|]. intros [E%byte_eqb_eq _]. congruence. }
  unbool. unfold MaxPathLen.
  destruct (Z.eqb_spec (len (req_path r)) 0), (Z.ltb_spec 4096 (len (req_path r)));
    cbn [orb]; try (split; [done | lia]).
  destruct (utf8_valid (req_path r)); cbn [negb]; [|split; [done | by intros (? & ? & ? & ?)]].
  rewrite encoded_payload_Ok, <- !app_assoc.
  split; [|tauto]. intros (? & ? & ? & ?). by repeat (split; [done || lia|]).
Qed.

Lemma Response_Encode_Ok r b :
  Response_Encode r = Ok b <->
  100 <= rsp_status r <= 599 /\ len (rsp_headers r) <= 255 /\
  Forall header_ok (rsp_headers r) /\ b = response_bytes r /\ len b <= maxFramePayload.
Proof.
  unfold Response_Encode, response_bytes, appendU16, validStatus.
  destruct (Z.leb_spec 100 (rsp_status r)), (Z.leb_spec (rsp_status r) 599);
    cbn [andb negb]; try (split; [done | lia]).
  rewrite encoded_payload_Ok. cbn [app]. intuition.
Qed.

Lemma ConnError_Encode_Ok e b :
  ConnError_Encode e = Ok b <->
  4 + len (ce_message e) <= maxFramePayload /\
  b = put16 (ce_code e) ++ put16 (len (ce_message e)) ++ ce_message e.
Proof.
  unfold ConnError_Encode, appendU16.
  destruct (Z.ltb_spec maxFramePayload (4 + len (ce_message e))); [split; [done | lia]|].
  rewrite <- app_assoc. cbn [app]. split; [by intros [= <-] | by intros [_ ->]].
Qed.

Lemma request_bytes_wire r :
  req_method r = MethodGet -> 1 <= len (req_path r) <= MaxPathLen ->
  utf8_valid (req_path r) = true -> len (req_headers r) <= 255 ->
  Forall header_ok (req_headers r) -> request_wire (request_bytes r) r.
Proof.
  destruct r as [m path hs]. cbn. intros -> Hp Hu Hl Hok.
  by apply rq_wire, encoded_headers_wire.
Qed.

(** ** Prefix-freeness *)

Lemma parses_prefix_free {A} (p : parser A) G b x a a' :
  parses p G -> G b a -> G (b ++ x) a' -> x = [] /\ a' = a.
Proof.
  intros Hp Hb Hx.
  assert (E1 : p (b ++ x) = Ok (a, x)) by (apply Hp; eauto).
  assert (E2 : p (b ++ x) = Ok (a', [])) by (apply Hp; eexists; by rewrite app_nil_r).
  rewrite E1 in E2. by injection E2.
Qed.

Lemma put16_inj v w : 0 <= v < 65536 -> 0 <= w < 65536 -> put16 v = put16 w -> v = w.
Proof. intros Hv Hw E. by rewrite <- (Uint16_put16 v), E, Uint16_put16. Qed.

(** The request that a payload extended by [x] would encode. *)
Lemma request_wire_prefix_free b x r r' :
  request_wire b r -> request_wire (b ++ x) r' -> x = [].
Proof.
  intros [path hb hs Hp _ Hh] H2.
  match type of H2 with request_wire ?bx _ => remember bx as all eqn:E end.
  destruct H2 as [path' hb' hs' Hp' _ Hh'].
  unfold MaxPathLen in *. apply (f_equal (drop 1)) in E.
  change (put16 (len path') ++ path' ++ hb' = (put16 (len path) ++ path ++ hb) ++ x) in E.
  rewrite <- !app_assoc in E. apply app_inj_1 in E as [Hn E]; [|done].
  apply put16_inj in Hn; [|lia..].
  apply app_inj_1 in E as [-> ->]; [|unfold len in Hn; lia].
  by destruct (parses_prefix_free _ _ _ _ _ _ (parses_readHeaders strictNames) Hh Hh').
Qed.

(** ** Properties *)

Definition demo_request : Request :=
  MkRequest MethodGet (str "/index.html")
    [NewHeader HeaderConnection (str "x"); NewHeader (str "x-demo") (str "hello")].

(** (C5) [DecodeRequest] accepts exactly the REQUEST payloads of the wire
    format and computes the request they denote: method GET, a UTF-8 path of
    1 to 4096 bytes, well-formed headers under the strict rules (those with
    unassigned identifiers dropped), and nothing after the last header. *)
Theorem DecodeRequest_accepts_the_wire_format payload r :
  DecodeRequest payload = Ok r <-> request_wire payload r.
Proof. apply DecodeRequest_wire. Qed.

(** (C25) [DecodeResponse] accepts exactly the RESPONSE payloads of the wire
    format: a status in 100..599 and headers checked for structure only,
    where a custom header that borrows a table name is parsed and dropped. *)
Theorem DecodeResponse_accepts_the_wire_format payload r :
  DecodeResponse payload = Ok r <-> response_wire payload r.
Proof. apply DecodeResponse_wire. Qed.

(** (C26) Requests round trip: what [Encode] builds fits one frame and decodes
    to the same request, headers in order and values byte for byte. *)
Theorem Request_roundtrip r b :
  Request_Encode r = Ok b -> len b <= maxFramePayload /\ DecodeRequest b = Ok r.
Proof.
  intros (Hm & Hp & Hu & Hl & Hok & -> & Hb)%Request_Encode_Ok. split; [done|].
  by apply DecodeRequest_wire, request_bytes_wire.
Qed.

Example Request_roundtrip_witness :
  len (request_bytes demo_request) <= maxFramePayload /\
  DecodeRequest (request_bytes demo_request) = Ok demo_request.
Proof. apply Request_roundtrip. vm_compute. reflexivity. Defined.

(** Anything the decoder accepts can be sent again: the decoded request
    encodes to a payload no longer than the original that decodes to the same
    request, and to the very same payload when no header was dropped. *)
Theorem DecodeRequest_reencodes payload r :
  len payload <= maxFramePayload -> DecodeRequest payload = Ok r ->
  exists payload', Request_Encode r = Ok payload' /\ len payload' <= len payload /\
    DecodeRequest payload' = Ok r /\
    (forall n, payload !! Z.to_nat (3 + len (req_path r)) = Some n ->
       bz n = len (req_headers r) -> payload' = payload).
Proof.
  intros Hlen Hw%DecodeRequest_wire. exists (request_bytes r).
  destruct Hw as [path hb hs Hp Hu Hh].
  destruct (headers_wire_canonical _ _ Hh) as (Hok & Hn & Hl).
  assert (len (request_bytes (MkRequest MethodGet path hs)) <=
    len ([MethodGet] ++ put16 (len path) ++ path ++ hb)).
  { unfold request_bytes. cbn [req_method req_path req_headers].
    rewrite !len_app in *. lia. }
  split.
  { apply Request_Encode_Ok. cbn [req_method req_path req_headers].
    repeat (split; [done || lia|]). lia. }
  split; [done|]. split; [by apply DecodeRequest_wire, request_bytes_wire|].
  intros n Hget Hcount. unfold request_bytes. cbn [req_method req_path req_headers] in *.
  do 3 f_equal. symmetry.
  assert (hb !! 0%nat = Some n) as E.
  { rewrite <- Hget. rewrite !app_assoc, lookup_app_r.
    - f_equal. rewrite !length_app. unfold len. cbn. lia.
    - rewrite !length_app. unfold len. cbn. lia. }
  destruct hb as [|n' rest]; [done|]. injection E as ->.
  by eapply headers_wire_exact.
Qed.

Example DecodeRequest_reencodes_witness :
  exists payload', Request_Encode demo_request = Ok payload' /\
    len payload' <= len (request_bytes demo_request) /\ DecodeRequest payload' = Ok demo_request.
Proof.
  destruct (DecodeRequest_reencodes (request_bytes demo_request) demo_request) as (p & ? & ? & ? & _);
    [vm_compute; discriminate | vm_compute; reflexivity | by exists p].
Defined.

(** The whole payload must be used: after a payload the decoder accepts,
    any further byte makes the message malformed, and no proper prefix of an
    accepted payload is accepted. *)
Theorem DecodeRequest_is_exact payload r x :
  DecodeRequest payload = Ok r -> x <> [] ->
  forall r', DecodeRequest (payload ++ x) <> Ok r'.
Proof.
  intros Hw%DecodeRequest_wire Hx r' Hw'%DecodeRequest_wire.
  by apply Hx, (request_wire_prefix_free _ _ _ _ Hw Hw').
Qed.

Example DecodeRequest_is_exact_witness :
  DecodeRequest (request_bytes demo_request ++ [x00]) <> Ok demo_request.
Proof. apply (DecodeRequest_is_exact _ demo_request); [vm_compute; reflexivity | done]. Defined.

(** Responses round trip: what [Encode] builds fits one frame and decodes
    to the same response. *)
Theorem Response_roundtrip r b :
  Response_Encode r = Ok b -> len b <= maxFramePayload /\ DecodeResponse b = Ok r.
Proof.
  intros (Hs & Hl & Hok & -> & Hb)%Response_Encode_Ok. split; [done|].
  apply DecodeResponse_wire. destruct r as [st hs]. by apply rs_wire, encoded_headers_wire.
Qed.

Definition demo_response : Response :=
  MkResponse 404 [NewHeader HeaderContentLength (str "0"); NewHeader HeaderServer (str "bserve/1")].

Example Response_roundtrip_witness :
  len (response_bytes demo_response) <= maxFramePayload /\
  DecodeResponse (response_bytes demo_response) = Ok demo_response.
Proof. apply Response_roundtrip. vm_compute. reflexivity. Defined.

(** Connection errors round trip in both directions: an encodable error
    with a 16-bit code decodes to itself, and a payload that decodes, to
    whatever code, is the encoding of the result. *)
Theorem ConnError_roundtrip e b :
  len b <= maxFramePayload ->
  (ConnError_Encode e = Ok b /\ 0 <= ce_code e < 65536) <-> DecodeConnError b = Ok e.
Proof.
  intros Hb. rewrite DecodeConnError_wire, ConnError_Encode_Ok. split.
  - intros [[Hl ->] Hc]. destruct e as [code msg]. cbn in *. unfold maxFramePayload in *.
    apply ce_wire; lia.
  - destruct 1 as [code msg Hc Hm]. cbn. rewrite !len_app, !len_put16 in Hb.
    repeat split; lia.
Qed.

Example ConnError_roundtrip_witness :
  DecodeConnError (put16 77 ++ put16 2 ++ str "no") = Ok (MkConnError 77 (str "no")).
Proof.
  apply ConnError_roundtrip; [vm_compute; discriminate|].
  split; [vm_compute; reflexivity | cbn; lia].
Defined.

(** (C33) A path is accepted as UTF-8 exactly when it is the encoding of a
    sequence of Unicode scalar values. *)
Theorem validUTF8_is_rfc3629 b :
  validUTF8 b = true <-> exists cs, Forall scalar cs /\ b = List.concat (utf8_encode <$> cs).
Proof. apply utf8_valid_iff. Qed.
