(* ===== verification/Conn.v ===== *)
(** * net.Conn: connections, deadlines and time

    The connection both the server and the client hold: a clock, the pieces
    the peer will send with the times they arrive, a writer with the time each
    call takes, the two deadlines, and the half-closed and closed flags.  It
    is an instance of [Reader] and [Writer], so package frame runs on it. *)

From S2P Require Import Prelude GoIO.

(** Times and [time.Duration]s are nanoseconds. *)
Definition Millisecond : Z := 1000000.
Definition Second : Z := 1000 * Millisecond.

Record conn : Type := MkConn {
  c_now : Z;                       (** the clock *)
  c_in : list (Z * bytes);         (** arrival time and piece *)
  c_fin : Z * ioerr;               (** when and how the input ends *)
  c_rdl : option Z;                (** read deadline *)
  c_out : sink;                    (** everything written *)
  c_wdelay : list Z;               (** how long each coming write takes *)
  c_wdl : option Z;                (** write deadline *)
  c_halfcloses : bool;             (** has a [CloseWrite] method *)
  c_wshut : bool;                  (** write side shut down *)
  c_closed : bool;
}.

Definition with_now (t : Z) (c : conn) : conn :=
  MkConn t (c_in c) (c_fin c) (c_rdl c) (c_out c) (c_wdelay c) (c_wdl c)
    (c_halfcloses c) (c_wshut c) (c_closed c).
Definition with_in (ps : list (Z * bytes)) (c : conn) : conn :=
  MkConn (c_now c) ps (c_fin c) (c_rdl c) (c_out c) (c_wdelay c) (c_wdl c)
    (c_halfcloses c) (c_wshut c) (c_closed c).
Definition with_rdl (d : option Z) (c : conn) : conn :=
  MkConn (c_now c) (c_in c) (c_fin c) d (c_out c) (c_wdelay c) (c_wdl c)
    (c_halfcloses c) (c_wshut c) (c_closed c).
Definition with_out (o : sink) (ds : list Z) (c : conn) : conn :=
  MkConn (c_now c) (c_in c) (c_fin c) (c_rdl c) o ds (c_wdl c)
    (c_halfcloses c) (c_wshut c) (c_closed c).
Definition with_wdl (d : option Z) (c : conn) : conn :=
  MkConn (c_now c) (c_in c) (c_fin c) (c_rdl c) (c_out c) (c_wdelay c) d
    (c_halfcloses c) (c_wshut c) (c_closed c).

(** What a holder of a [net.Conn] calls besides [Read] and [Write]; a
    connection wrapped by another one has the same interface.
    [nc_pending] is what the peer will still send, whenever that is. *)
Class NetConn (C : Type) : Type := {
  nc_SetReadDeadline : Z -> C -> C;
  nc_SetWriteDeadline : Z -> C -> C;
  nc_CloseWrite : C -> C;
  nc_Close : C -> C;
  nc_pending : C -> bytes;
}.

(** [conn.SetReadDeadline(time.Now().Add(d))] and its write twin. *)
Definition SetReadDeadline (d : Z) (c : conn) : conn := with_rdl (Some (c_now c + d)) c.
Definition SetWriteDeadline (d : Z) (c : conn) : conn := with_wdl (Some (c_now c + d)) c.

(** [conn.Close()]. *)
Definition Close (c : conn) : conn :=
  MkConn (c_now c) (c_in c) (c_fin c) (c_rdl c) (c_out c) (c_wdelay c) (c_wdl c)
    (c_halfcloses c) (c_wshut c) true.

(** [if cw, ok := conn.(interface{ CloseWrite() error }); ok { cw.CloseWrite() }]. *)
Definition CloseWrite (c : conn) : conn :=
  if c_halfcloses c then
    MkConn (c_now c) (c_in c) (c_fin c) (c_rdl c) (c_out c) (c_wdelay c) (c_wdl c)
      (c_halfcloses c) true (c_closed c)
  else c.

(** Whether time [t] is past a deadline. *)
Definition past (deadline : option Z) (t : Z) : bool :=
  match deadline with
  | None => false
  | Some d => d <? t
  end.

(** The clock after waiting for a deadline. *)
Definition wait_deadline (deadline : option Z) (t : Z) : Z :=
  match deadline with
  | None => t
  | Some d => Z.max t d
  end.

(** A read waits for the next piece, or for the deadline if that comes
    first. *)
Definition conn_read (n : nat) (c : conn) : bytes * option ioerr * conn :=
  if c_closed c then ([], Some ErrClosed, c)
  else
    match c_in c with
    | (t, b) :: rest =>
      let t' := Z.max (c_now c) t in
      if past (c_rdl c) t' then
        ([], Some ErrTimeout, with_now (wait_deadline (c_rdl c) (c_now c)) c)
      else if (length b <=? n)%nat then (b, None, with_in rest (with_now t' c))
      else (take n b, None, with_in ((t, drop n b) :: rest) (with_now t' c))
    | [] =>
      let t' := Z.max (c_now c) (c_fin c).1 in
      if past (c_rdl c) t' then
        ([], Some ErrTimeout, with_now (wait_deadline (c_rdl c) (c_now c)) c)
      else ([], Some (c_fin c).2, with_now t' c)
    end.

(** What a connection can still deliver before the current deadline, and the
    error it ends with. *)
Fixpoint stream_of (rdl : option Z) (now : Z) (fin : Z * ioerr) (ps : list (Z * bytes)) :
    bytes * ioerr :=
  match ps with
  | (t, b) :: rest =>
    let t' := Z.max now t in
    if past rdl t' then ([], ErrTimeout)
    else let '(d, e) := stream_of rdl t' fin rest in (b ++ d, e)
  | [] =>
    if past rdl (Z.max now fin.1) then ([], ErrTimeout) else ([], fin.2)
  end.

Definition conn_stream (c : conn) : bytes * ioerr :=
  if c_closed c then ([], ErrClosed) else stream_of (c_rdl c) (c_now c) (c_fin c) (c_in c).

#[export] Instance conn_reader : Reader conn := {
  rd_read := conn_read;
  rd_content c := (conn_stream c).1;
  rd_end c := (conn_stream c).2;
  rd_measure c := (length (c_in c) + length (List.concat (snd <$> c_in c)))%nat;
}.

(** A write takes its time and fails without taking anything when that is
    past the deadline. *)
Definition conn_write (b : bytes) (c : conn) : nat * option ioerr * conn :=
  if c_wshut c || c_closed c then (0%nat, Some ErrClosed, c)
  else
    let t := c_now c + hd 0 (c_wdelay c) in
    let rest := tl (c_wdelay c) in
    if past (c_wdl c) t then
      (0%nat, Some ErrTimeout,
       with_out (c_out c) rest (with_now (wait_deadline (c_wdl c) (c_now c)) c))
    else
      let '(n, err, o) := sink_write b (c_out c) in
      (n, err, with_out o rest (with_now t c)).

Definition pending (c : conn) : bytes := List.concat (snd <$> c_in c).

#[export] Instance conn_writer : Writer conn := {
  wr_write := conn_write;
  wr_out c := sk_out (c_out c);
}.

#[export] Instance conn_netconn : NetConn conn := {
  nc_SetReadDeadline := SetReadDeadline;
  nc_SetWriteDeadline := SetWriteDeadline;
  nc_CloseWrite := CloseWrite;
  nc_Close := Close;
  nc_pending := pending;
}.

(** ** The laws of the interfaces *)

(** Waiting for a deadline in vain does not bring the stream back. *)
Lemma stream_of_past rdl now fin ps :
  (match ps with (t, _) :: _ => past rdl (Z.max now t) | [] => past rdl (Z.max now fin.1) end) = true ->
  stream_of rdl (wait_deadline rdl now) fin ps = ([], ErrTimeout).
Proof.
  destruct rdl as [d|]; [|by destruct ps as [|[]]].
  intros H. destruct ps as [|[t b] ps]; cbn in *;
    rewrite (proj2 (Z.ltb_lt _ _)); try done; apply Z.ltb_lt in H; lia.
Qed.

#[export] Instance conn_reader_ok : ReaderOk conn.
Proof.
  split.
  - intros n c d c' Hn. unfold rd_read, rd_content, rd_end, rd_measure, conn_reader, conn_read, conn_stream.
    destruct c as [now ps fin rdl out wd wdl hc ws cl]. cbn [c_now c_in c_fin c_rdl c_closed].
    destruct cl; [done|].
    destruct ps as [|[t b] ps]; cbn [stream_of].
    { by destruct (past rdl _). }
    destruct (past rdl (Z.max now t)) eqn:Ep; [done|].
    destruct (Nat.leb_spec (length b) n) as [Hl|Hl]; intros [= <- <-].
    + cbn. destruct (stream_of rdl (Z.max now t) fin ps) as [d e].
      rewrite length_app. repeat split; lia.
    + cbn -[Nat.add Z.max]. replace (Z.max (Z.max now t) t) with (Z.max now t) by lia. rewrite Ep.
      destruct (stream_of rdl (Z.max now t) fin ps) as [d e].
      cbn [fst snd]. rewrite app_assoc, take_drop, !length_app, length_take, length_drop.
      repeat split; lia.
  - intros n c d e c' Hn. unfold rd_read, rd_content, rd_end, conn_reader, conn_read, conn_stream.
    destruct c as [now ps fin rdl out wd wdl hc ws cl]. cbn [c_now c_in c_fin c_rdl c_closed].
    destruct cl; [by intros [= <- <- <-]|].
    destruct ps as [|[t b] ps].
    + cbn [stream_of]. destruct (past rdl (Z.max now fin.1)) eqn:Ep; intros [= <- <- <-].
      * cbn -[stream_of]. by rewrite (stream_of_past rdl now fin []).
      * cbn -[Z.max]. replace (Z.max (Z.max now fin.1) fin.1) with (Z.max now fin.1) by lia.
        by rewrite Ep.
    + cbn [stream_of]. destruct (past rdl (Z.max now t)) eqn:Ep.
      * intros [= <- <- <-]. cbn -[stream_of].
        by rewrite (stream_of_past rdl now fin ((t, b) :: ps)).
      * by destruct (Nat.leb_spec (length b) n).
Qed.

#[export] Instance conn_writer_ok : WriterOk conn.
Proof.
  split. intros b c n err c'. unfold wr_write, wr_out, conn_writer, conn_write.
  destruct (c_wshut c || c_closed c).
  { intros [= <- <- <-]. split; [lia|]. by rewrite take_0, app_nil_r. }
  destruct (past (c_wdl c) _).
  { intros [= <- <- <-]. split; [lia|]. by rewrite take_0, app_nil_r. }
  destruct (sink_write b (c_out c)) as [[n' e] o] eqn:E. intros [= <- <- <-].
  exact (wr_write_out b (c_out c) n' e o E).
Qed.

(** ** What reading leaves alone, and the time it takes *)

(** A run of reads that stored [d]. *)
Record conn_ran (c : conn) (d : bytes) (c' : conn) : Prop := {
  ran_pending : pending c = d ++ pending c';
  ran_times T : Forall (fun p => p.1 <= T) (c_in c) -> Forall (fun p => p.1 <= T) (c_in c');
  ran_same : c' = with_now (c_now c') (with_in (c_in c') c);
  ran_now : c_now c <= c_now c';
  ran_deadline dl : c_rdl c = Some dl -> c_now c' <= Z.max (c_now c) dl;
}.

Lemma conn_ran_refl c : conn_ran c [] c.
Proof. split; try done; [by destruct c | lia]. Qed.

Lemma conn_ran_trans c1 c2 c3 d d' :
  conn_ran c1 d c2 -> conn_ran c2 d' c3 -> conn_ran c1 (d ++ d') c3.
Proof.
  intros [P1 T1 S1 N1 D1] [P2 T2 S2 N2 D2]. split.
  - by rewrite P1, P2, app_assoc.
  - auto.
  - rewrite S2, S1. by destruct c1, c2, c3.
  - lia.
  - intros dl E. assert (c_rdl c2 = Some dl) as E2 by (by rewrite S1).
    specialize (D1 dl E). specialize (D2 dl E2). lia.
Qed.

Lemma conn_read_ran n c d e c' : conn_read n c = (d, e, c') -> conn_ran c d c'.
Proof.
  unfold conn_read. destruct c as [now ps fin rdl out wd wdl hc ws cl].
  cbn [c_now c_in c_fin c_rdl c_closed].
  destruct cl; [intros [= <- _ <-]; apply conn_ran_refl|].
  assert (Hto : forall t, past rdl t = true -> now <= t ->
    conn_ran (MkConn now ps fin rdl out wd wdl hc ws false) []
      (with_now (wait_deadline rdl now) (MkConn now ps fin rdl out wd wdl hc ws false))).
  { intros t Ht Hn. destruct rdl as [dl|]; [|done]. split; cbn; try done; [lia|].
    intros ? [= ->]. lia. }
  assert (Hbound : forall t dl, past rdl t = false -> rdl = Some dl -> t <= Z.max now dl).
  { intros t dl Ht ->. cbn in Ht. apply Z.ltb_ge in Ht. lia. }
  destruct ps as [|[t b] ps].
  { destruct (past rdl (Z.max now fin.1)) eqn:Ep; intros [= <- _ <-]; [by eapply Hto, Z.le_max_l|].
    split; cbn; try done; [lia|]. by intros dl Hdl; apply (Hbound _ dl Ep). }
  destruct (past rdl (Z.max now t)) eqn:Ep; [intros [= <- _ <-]; by eapply Hto, Z.le_max_l|].
  destruct (Nat.leb_spec (length b) n) as [Hl|Hl]; intros [= <- _ <-]; split; cbn; try done.
  - by intros T [_ ?]%Forall_cons.
  - lia.
  - by intros dl Hdl; apply (Hbound _ dl Ep).
  - by rewrite app_assoc, take_drop.
  - intros T [? ?]%Forall_cons. by constructor.
  - lia.
  - by intros dl Hdl; apply (Hbound _ dl Ep).
Qed.

Lemma conn_steps_ran (c c' : conn) d : rsteps c d c' -> conn_ran c d c'.
Proof.
  induction 1 as [c|n c d e c1 d' c2 Hn Hr _ IH]; [apply conn_ran_refl|].
  eapply conn_ran_trans; [by eapply conn_read_ran | done].
Qed.

(** A connection on which everything has arrived by time [T], the deadline no
    earlier, delivers all of it. *)
Lemma stream_of_prompt T rdl now fin ps :
  Forall (fun p => p.1 <= T) ps -> fin.1 <= T -> now <= T ->
  (forall dl, rdl = Some dl -> T <= dl) ->
  stream_of rdl now fin ps = (List.concat (snd <$> ps), fin.2).
Proof.
  intros Hps Hf Hn Hd.
  assert (Hp : forall t, t <= T -> past rdl t = false).
  { intros t Ht. destruct rdl as [dl|]; [|done]. cbn. apply Z.ltb_ge. specialize (Hd dl eq_refl). lia. }
  revert now Hn. induction Hps as [|[t b] ps Ht Hps IH]; intros now Hn; cbn [stream_of].
  - by rewrite Hp by lia.
  - cbn in Ht. rewrite Hp, IH by lia. done.
Qed.
