(* ===== verification/Net.v ===== *)
(** * Frames over a connection

    What both ends of a connection do with package frame: set a deadline and
    read a frame through the buffered reader, set a deadline and write one.
    Each is characterised on any network, and on one that keeps the
    deadlines ([prompt]). *)

From S2P Require Import Prelude GoIO Frame Conn.

(** The bytes of some frames. *)
Definition wires (fs : list Frame) : bytes := List.concat (wire 0 <$> fs).

Lemma wires_app fs gs : wires (fs ++ gs) = wires fs ++ wires gs.
Proof. unfold wires. by rewrite fmap_app, concat_app. Qed.

Lemma wires_cons f fs : wires (f :: fs) = wire 0 f ++ wires fs.
Proof. done. Qed.

(** A frame of any type, known or not, with the reserved bytes it came with. *)
Record raw_frame : Type := MkRaw {
  rw_type : Type_; rw_flags : Flags; rw_reserved : Z; rw_stream : Z; rw_payload : bytes }.

Definition raw_bytes (f : raw_frame) : bytes :=
  header (len (rw_payload f)) (rw_type f) (rw_flags f) (rw_reserved f) (rw_stream f) ++ rw_payload f.

Definition raw_ok (f : raw_frame) : Prop :=
  len (rw_payload f) <= MaxPayload /\ 0 <= rw_stream f < 4294967296 /\ 0 <= rw_reserved f < 65536.

Lemma length_raw_bytes fs : (length fs <= length (List.concat (raw_bytes <$> fs)))%nat.
Proof.
  induction fs as [|f fs IH]; [done|]. cbn [fmap list_fmap List.concat length].
  rewrite length_app. unfold raw_bytes at 1, header. rewrite length_app. cbn. lia.
Qed.

(** *** Streams taken apart *)

(** Bytes no whole frame can be taken from yet. *)
Definition incomplete (cut : bytes) : Prop :=
  len cut < HeaderSize \/
  exists l ty fl res s d, 0 <= l <= MaxPayload /\ len d < l /\ cut = header l ty fl res s ++ d.

(** A header that declares too much, and whatever follows it. *)
Definition unreadable (tail : bytes) : Prop :=
  exists l t fl res s rest, MaxPayload < l < 4294967296 /\ tail = header l t fl res s ++ rest.

(** What frames can end in. *)
Definition ends_frames (tail : bytes) : Prop := incomplete tail \/ unreadable tail.

Lemma incomplete_nil : incomplete [].
Proof. by left. Qed.

Lemma incomplete_short cut : incomplete cut -> len cut < HeaderSize + MaxPayload.
Proof.
  intros [Hc|(l & ty & fl & res & s & d & Hl & Hd & ->)]; [unfold MaxPayload; lia|].
  rewrite len_app, len_header. unfold HeaderSize. lia.
Qed.

Lemma unreadable_app tail b : unreadable tail -> unreadable (tail ++ b).
Proof.
  intros (l & t & fl & res & s & rest & Hl & ->). exists l, t, fl, res, s, (rest ++ b).
  split; [done|]. by rewrite <- app_assoc.
Qed.

(** The front of a stream by its length field: [total] bytes are a frame,
    fewer are the beginning of one. *)
Lemma stream_front b :
  HeaderSize <= len b ->
  let length := Uint32 (take 4 b) in
  let total := HeaderSize + length in
  (MaxPayload < length -> unreadable b) /\
  (length <= MaxPayload -> len b < total -> incomplete b) /\
  (length <= MaxPayload -> total <= len b -> exists r, raw_ok r /\ ztake total b = raw_bytes r).
Proof.
  intros Hb length total. unfold HeaderSize in Hb.
  assert (Hh : len (take 12 b) = 12) by (unfold len in *; rewrite length_take; lia).
  destruct (header_of_bytes _ Hh) as (l & t & fl & res & s & Eh & Hl & Hres & Hs).
  assert (Eb : b = header l t fl res s ++ drop 12 b) by (by rewrite <- Eh, take_drop).
  assert (El : length = l) by (unfold length; rewrite Eb; by apply header_length_field).
  assert (Elen : len b = 12 + len (drop 12 b)) by (by rewrite Eb at 1; rewrite len_app, len_header).
  unfold total, HeaderSize. rewrite El. split; [|split].
  - intros Hm. exists l, t, fl, res, s, (drop 12 b). split; [lia|done].
  - intros Hm Ht. right. exists l, t, fl, res, s, (drop 12 b). split; [lia|]. split; [lia|done].
  - intros Hm Ht. set (pl := take (Z.to_nat l) (drop 12 b)).
    assert (Epl : len pl = l) by (unfold pl, len in *; rewrite length_take; lia).
    exists (MkRaw t fl res s pl). split; [split; cbn; lia|].
    unfold raw_bytes. cbn [rw_type rw_flags rw_reserved rw_stream rw_payload]. rewrite Epl, <- Eh.
    unfold pl, ztake. rewrite take_take_drop. f_equal. lia.
Qed.

(** A stream of frames of any types and its end. *)
Record splits (b : bytes) (raws : list raw_frame) (tail : bytes) : Prop := {
  sp_raws : Forall raw_ok raws;
  sp_tail : ends_frames tail;
  sp_bytes : b = List.concat (raw_bytes <$> raws) ++ tail;
}.

Lemma splits_cons r b raws tail : raw_ok r -> splits b raws tail -> splits (raw_bytes r ++ b) (r :: raws) tail.
Proof.
  intros Hr [Hraws Htail ->]. split; [by constructor|done|]. cbn [fmap list_fmap List.concat]. by rewrite <- app_assoc.
Qed.

(** Every stream is one. *)
Lemma stream_splits b : exists raws tail, splits b raws tail.
Proof.
  remember (length b) as n eqn:En. revert b En. induction (lt_wf n) as [n _ IH]. intros b ->.
  destruct (Z.ltb_spec (len b) HeaderSize) as [Hs|Hh]; [exists [], b; split; [done|by left; left|done]|].
  destruct (stream_front b Hh) as (Hbad & Hcut & Hwhole).
  destruct (Z.ltb_spec MaxPayload (Uint32 (take 4 b))) as [Hm|Hm].
  { exists [], b. split; [done|right; auto|done]. }
  destruct (Z.ltb_spec (len b) (HeaderSize + Uint32 (take 4 b))) as [Ht|Ht].
  { exists [], b. split; [done|left; auto|done]. }
  destruct (Hwhole Hm Ht) as (r & Hr & Er). set (total := HeaderSize + _) in *.
  pose proof (ztake_zdrop total b) as Eb. rewrite Er in Eb.
  destruct (IH (length (zdrop total b))) with (b := zdrop total b) as (raws & tail & Hsp); [|done|].
  { rewrite <- Eb at 2. rewrite length_app. unfold raw_bytes, header. rewrite length_app. cbn. lia. }
  exists (r :: raws), tail. rewrite <- Eb. by apply splits_cons.
Qed.

(** What the length field in front of a stream says of it. *)
Lemma raw_front r b :
  raw_ok r ->
  Uint32 (take 4 (raw_bytes r ++ b)) = len (rw_payload r) /\ len (raw_bytes r) = HeaderSize + len (rw_payload r).
Proof.
  intros (Hl & _). pose proof (len_nonneg (rw_payload r)). unfold raw_bytes.
  split; [|by rewrite len_app, len_header].
  rewrite <- app_assoc. apply header_length_field. unfold MaxPayload in Hl. lia.
Qed.

Lemma ends_no_frame r b : raw_ok r -> ~ ends_frames (raw_bytes r ++ b).
Proof.
  intros Hr He. destruct (raw_front r b Hr) as [Ef El]. destruct Hr as (Hl & _).
  pose proof (len_nonneg (rw_payload r)). pose proof (len_nonneg b).
  assert (Hlen : len (raw_bytes r ++ b) = HeaderSize + len (rw_payload r) + len b) by (by rewrite len_app, El).
  destruct He as [[Hs|(l & t & fl & res & s & d & Hl' & Hd & E)]|(l & t & fl & res & s & d & Hl' & E)].
  - lia.
  - rewrite E, header_length_field in Ef by (unfold MaxPayload in Hl'; lia).
    rewrite E, len_app, len_header in Hlen. unfold HeaderSize in Hlen. lia.
  - rewrite E, header_length_field in Ef by (unfold MaxPayload in Hl'; lia). lia.
Qed.

(** A stream is taken apart in one way only. *)
Lemma splits_unique b raws1 tail1 raws2 tail2 :
  splits b raws1 tail1 -> splits b raws2 tail2 ->
  List.concat (raw_bytes <$> raws1) = List.concat (raw_bytes <$> raws2) /\ tail1 = tail2.
Proof.
  intros [H1 T1 E1] [H2 T2 E2]. subst b. revert raws2 H2 E2.
  induction H1 as [|r raws1 Hr H1 IH]; intros raws2 H2 E2; destruct H2 as [|r2 raws2 Hr2 H2];
    cbn [fmap list_fmap List.concat] in *; rewrite <- ?app_assoc in E2.
  - done.
  - cbn in E2. rewrite E2 in T1. by apply ends_no_frame in T1.
  - cbn in E2. rewrite <- E2 in T2. by apply ends_no_frame in T2.
  - set (x1 := List.concat (raw_bytes <$> raws1) ++ tail1) in *. set (x2 := List.concat (raw_bytes <$> raws2) ++ tail2) in *.
    destruct (raw_front r x1 Hr) as [F1 L1], (raw_front r2 x2 Hr2) as [F2 L2].
    rewrite E2, F2 in F1. rewrite F1, <- L1 in L2. unfold len in L2.
    apply app_inj_1 in E2 as [Er Ex]; [|lia].
    destruct (IH raws2 H2 Ex) as [Ec ->]. by rewrite Er, Ec.
Qed.

(** An ERROR frame. *)
Definition error_frame (code : Z) (msg : bytes) : Frame :=
  {| fr_type := TypeError; fr_flags := x00; fr_stream := 0;
     fr_payload := put16 code ++ put16 (len msg) ++ msg |}.

(** A network that keeps the deadlines: the peer's bytes and its hang-up are
    there by [T], within the read timeout [rt], and no write is slower than
    the write timeout [wt]. *)
Record prompt (rt wt T : Z) (c : conn) : Prop := {
  pr_open : c_closed c = false;
  pr_wopen : c_wshut c = false;
  pr_in : Forall (fun p => p.1 <= T) (c_in c);
  pr_fin : (c_fin c).1 <= T;
  pr_time : T <= c_now c + rt;
  pr_delay : Forall (fun d => 0 <= d <= wt) (c_wdelay c);
  pr_script : sk_script (c_out c) = [];
}.

(** All that the holder of a buffered connection will ever be able to read. *)
Definition buffered (b : bufio conn) : bytes := bf_buf b ++ pending (bf_src b).

(** ** Writing a frame *)

Definition same_input (c c' : conn) : Prop :=
  c_in c' = c_in c /\ c_fin c' = c_fin c /\ c_closed c' = c_closed c /\ c_wshut c' = c_wshut c.

Lemma conn_write_same b c n e c' : conn_write b c = (n, e, c') -> same_input c c'.
Proof.
  unfold conn_write. destruct (c_wshut c || c_closed c); [by intros [= _ _ <-]|].
  destruct (past (c_wdl c) _); [by intros [= _ _ <-]|].
  destruct (sink_write b (c_out c)) as [[n1 e1] o1]. by intros [= _ _ <-].
Qed.

Lemma writeAll_loop_same fuel (c : conn) b e c' :
  writeAll_loop fuel c b = (e, c') -> same_input c c'.
Proof.
  revert c b. induction fuel as [|fuel IH]; intros c [|x b]; cbn [writeAll_loop];
    try by intros [= _ <-].
  cbn [wr_write conn_writer]. destruct (conn_write (x :: b) c) as [[n e1] c1] eqn:E.
  apply conn_write_same in E. intros Hw.
  assert (same_input c1 c') as H1.
  { destruct e1; [by injection Hw as _ <-|]. case_match; [by injection Hw as _ <-|]. by eapply IH. }
  unfold same_input in *. intuition congruence.
Qed.

(** One call of a sink without a script takes everything, in time. *)
Lemma writeAll_prompt (c : conn) b timeout :
  c_closed c = false -> c_wshut c = false -> sk_script (c_out c) = [] ->
  Forall (fun d => 0 <= d <= timeout) (c_wdelay c) -> c_wdl c = Some (c_now c + timeout) ->
  0 <= timeout ->
  exists c', writeAll c b = (None, c') /\ sk_script (c_out c') = [] /\
    Forall (fun d => 0 <= d <= timeout) (c_wdelay c') /\ c_now c <= c_now c'.
Proof.
  intros Hc Hs Hsc Hd Hdl Ht. destruct b as [|x b].
  { exists c. split; [done|]. repeat split; [done..|lia]. }
  unfold writeAll. cbn [writeAll_loop length wr_write conn_writer]. unfold conn_write.
  rewrite Hc, Hs. cbn [orb].
  assert (Hh : 0 <= hd 0 (c_wdelay c) <= timeout) by (destruct Hd; cbn; lia).
  rewrite Hdl. unfold past. rewrite (proj2 (Z.ltb_ge _ _)) by lia.
  unfold sink_write. rewrite Hsc. cbn [length Nat.leb].
  rewrite drop_ge by done.
  eexists. split; [by destruct (length b)|]. cbn. split; [done|]. split; [by destruct Hd|lia].
Qed.

(** The encoding of a frame that may be sent. *)
Definition sendable (f : Frame) : Prop :=
  len (fr_payload f) <= MaxPayload /\ (needsStream (fr_type f) = true -> fr_stream f <> 0).

Lemma Write_spec wt c f err c' :
  0 <= wt -> sendable f -> Write (SetWriteDeadline wt c) f = (err, c') ->
  same_input c c' /\
  (forall rt T, prompt rt wt T c -> err = None /\ prompt rt wt T c') /\
  exists k, wr_out c' = wr_out c ++ take k (wire 0 f) /\
    (err = None -> (length (wire 0 f) <= k)%nat).
Proof.
  intros Ht [Hl Hs] Hw. unfold Write in Hw.
  assert (He : Encode f = Ok (wire 0 f)) by (by apply Encode_Ok). rewrite He in Hw.
  destruct (writeAll (SetWriteDeadline wt c) (wire 0 f)) as [e c1] eqn:E. injection Hw as <- <-.
  pose proof (writeAll_loop_same _ _ _ _ _ E) as Hsame. split; [done|]. split.
  - intros rt T [].
    destruct (writeAll_prompt (SetWriteDeadline wt c) (wire 0 f) wt) as (c2 & E2 & Hsc & Hd & Hn); try done.
    rewrite E in E2. injection E2 as -> ->. split; [done|].
    destruct Hsame as (H1 & H2 & H3 & H4). cbn in *. split; cbn; try congruence; lia.
  - pose proof (writeAll_loop_out _ _ _ _ _ E) as (k & Hk & Ho & Hn).
    exists k. split; [exact Ho|]. destruct e; [done|]. intros _. by rewrite Hn.
Qed.

(** A frame as [frame.Read] returns it. *)
Definition received (f : Frame) : Prop :=
  known (fr_type f) = true /\ (needsStream (fr_type f) = true -> fr_stream f <> 0).

(** Reading on a network of any kind: a frame comes off the front of what the
    peer sends, and the connection is otherwise as it was. *)
Lemma Read_spec rt (b : bufio conn) r b' :
  Read {| bf_buf := bf_buf b; bf_src := SetReadDeadline rt (bf_src b) |} = (r, b') ->
  wr_out (bf_src b') = wr_out (bf_src b) /\ c_fin (bf_src b') = c_fin (bf_src b) /\
  (forall wt T, prompt rt wt T (bf_src b) -> prompt rt wt T (bf_src b')) /\
  match r with
  | Ok f => received f /\ len (buffered b') + HeaderSize <= len (buffered b) /\
      forall fin, reads fin (buffered b) (Ok f) (buffered b')
  | Err e => forall wt T, 0 <= rt -> prompt rt wt T (bf_src b) ->
      exists rest, reads (c_fin (bf_src b)).2 (buffered b) (Err e) rest
  end.
Proof.
  set (b0 := {| bf_buf := bf_buf b; bf_src := SetReadDeadline rt (bf_src b) |}). intros Er.
  destruct (Read_steps _ _ _ Er) as (d & Hd & _).
  pose proof (rsteps_content _ _ _ Hd) as [Hc _].
  destruct (bufio_steps _ _ _ Hd) as (d' & Hcd & Hbuf). apply conn_steps_ran in Hcd.
  destruct Hcd as [Hp Htm Hsame Hnow _].
  assert (Hin : buffered b = d ++ buffered b').
  { unfold buffered. change (pending (bf_src b)) with (pending (bf_src b0)). rewrite Hp, app_assoc.
    change (bf_buf b) with (bf_buf b0). by rewrite Hbuf, app_assoc. }
  destruct (Read_sound b0) as (o & b2 & Er2 & _ & Hreads).
  rewrite Er in Er2. injection Er2 as <- <-.
  pose proof (f_equal c_closed Hsame) as F1. pose proof (f_equal c_wshut Hsame) as F2.
  pose proof (f_equal c_fin Hsame) as F3. pose proof (f_equal c_wdelay Hsame) as F4.
  pose proof (f_equal c_out Hsame) as F5. clear Hsame. cbn in F1, F2, F3, F4, F5, Hnow.
  split; [cbn; by rewrite F5|]. split; [done|]. split.
  - intros wt T []. split; rewrite ?F1, ?F2, ?F3, ?F4, ?F5; try done; [by apply Htm | lia].
  - destruct r as [f|e].
    + rewrite Hc in Hreads. pose proof (reads_ok_inv _ _ _ _ Hreads f eq_refl) as (Hk & _ & _ & Hs).
      pose proof (reads_local _ _ _ _ Hreads) as Hl.
      assert (Hall : forall fin, reads fin (buffered b) (Ok f) (buffered b')).
      { intros fin. rewrite Hin. apply Hl. }
      split; [by split|]. split; [|done]. by apply (reads_ok_shorter EOF _ f).
    + intros wt T Hrt []. exists (rd_content b').
      assert (E : rd_content b0 = buffered b /\ rd_end b0 = (c_fin (bf_src b)).2).
      { assert (Hst : conn_stream (bf_src b0) = (pending (bf_src b), (c_fin (bf_src b)).2)).
        { unfold conn_stream. cbn [bf_src b0 SetReadDeadline with_rdl c_closed c_rdl c_now c_fin c_in].
          rewrite pr_open0. apply (stream_of_prompt (Z.max (c_now (bf_src b)) T)); try lia.
          - eapply Forall_impl; [exact pr_in0|]. cbn. intros p Hpt. lia.
          - intros dl [= <-]. lia. }
        unfold buffered, rd_content, rd_end, bufio_reader. cbn [bf_buf]. split.
        - change (rd_content (bf_src b0)) with (conn_stream (bf_src b0)).1. by rewrite Hst.
        - change (rd_end (bf_src b0)) with (conn_stream (bf_src b0)).2. by rewrite Hst. }
      destruct E as [E1 E2]. by rewrite E1, E2 in Hreads.
Qed.

(** ** Time *)

Lemma conn_write_time b c n e c' dl :
  c_wdl c = Some dl -> conn_write b c = (n, e, c') ->
  c_wdl c' = Some dl /\ c_now c' <= Z.max (c_now c) dl.
Proof.
  intros Hd. unfold conn_write. destruct (c_wshut c || c_closed c); [intros [= _ _ <-]; split; [done|lia]|].
  rewrite Hd. unfold past. destruct (Z.ltb_spec dl (c_now c + hd 0 (c_wdelay c))).
  - intros [= _ _ <-]. cbn. split; [done|lia].
  - destruct (sink_write b (c_out c)) as [[n1 e1] o1]. intros [= _ _ <-]. cbn. split; [done|lia].
Qed.

Lemma writeAll_loop_time fuel (c : conn) b e c' dl :
  c_wdl c = Some dl -> writeAll_loop fuel c b = (e, c') -> c_now c' <= Z.max (c_now c) dl.
Proof.
  revert c b. induction fuel as [|fuel IH]; intros c [|x b] Hd; cbn [writeAll_loop];
    try (intros [= _ <-]; lia).
  cbn [wr_write conn_writer]. destruct (conn_write (x :: b) c) as [[n e1] c1] eqn:E.
  destruct (conn_write_time _ _ _ _ _ _ Hd E) as [Hd1 Hn1].
  destruct e1; [intros [= _ <-]; lia|]. destruct (n <=? 0)%nat; [intros [= _ <-]; lia|].
  intros Hl. pose proof (IH _ _ Hd1 Hl). lia.
Qed.

Lemma Write_time wt c f err c' :
  0 <= wt -> Write (SetWriteDeadline wt c) f = (err, c') -> c_now c' <= c_now c + wt.
Proof.
  intros Hw. unfold Write. destruct (Encode f) as [b|e].
  - destruct (writeAll _ b) as [e c1] eqn:E. intros [= _ <-].
    pose proof (writeAll_loop_time _ (SetWriteDeadline wt c) _ _ _ _ eq_refl E) as Hn. cbn in Hn. lia.
  - intros [= _ <-]. cbn. lia.
Qed.

Lemma Read_time rt (b : bufio conn) r b' :
  0 <= rt -> Read {| bf_buf := bf_buf b; bf_src := SetReadDeadline rt (bf_src b) |} = (r, b') ->
  c_now (bf_src b') <= c_now (bf_src b) + rt.
Proof.
  intros Hr E. destruct (Read_steps _ _ _ E) as (d & Hd & _).
  destruct (bufio_steps _ _ _ Hd) as (d' & Hc & _).
  apply conn_steps_ran in Hc as [_ _ _ _ Hb]. specialize (Hb _ eq_refl). cbn in Hb. lia.
Qed.
