(* ===== verification/Paths.v ===== *)
(** * Strings and slash-separated paths

    The functions of packages strings, strconv and path/filepath (on Unix)
    that the program calls, on [list byte].  [Clean], [Join] and [Rel] work on
    the components between slashes. *)

From S2P Require Import Prelude GoIO.

(** ** strings *)

Definition slash : byte := x2f.
Definition dot : byte := x2e.

Fixpoint HasPrefix (s p : bytes) {struct p} : bool :=
  match p, s with
  | [], _ => true
  | x :: p, y :: s => byte_eqb x y && HasPrefix s p
  | _, [] => false
  end.

Definition HasSuffix (s p : bytes) : bool :=
  (len p <=? len s) && HasPrefix (zdrop (len s - len p) s) p.

Fixpoint Contains (s p : bytes) : bool :=
  HasPrefix s p || match s with [] => false | _ :: s => Contains s p end.

(** [strings.IndexByte]: -1 when the byte is absent. *)
Fixpoint IndexByte_from (i : Z) (s : bytes) (c : byte) : Z :=
  match s with
  | [] => -1
  | x :: s => if byte_eqb x c then i else IndexByte_from (i + 1) s c
  end.

Definition IndexByte (s : bytes) (c : byte) : Z := IndexByte_from 0 s c.

(** [strings.Split(s, c)] for a one-byte separator: never empty. *)
Fixpoint Split (s : bytes) (c : byte) : list bytes :=
  match s with
  | [] => [[]]
  | x :: s =>
    if byte_eqb x c then [] :: Split s c
    else match Split s c with
         | seg :: segs => (x :: seg) :: segs
         | [] => [[x]]
         end
  end.

Fixpoint TrimLeft (s : bytes) (c : byte) : bytes :=
  match s with
  | x :: s' => if byte_eqb x c then TrimLeft s' c else s
  | [] => []
  end.

(** [strings.Trim(s, c)] for a one-byte cutset. *)
Definition Trim (s : bytes) (c : byte) : bytes := rev (TrimLeft (rev (TrimLeft s c)) c).

Definition upper_byte (b : byte) : byte :=
  if (bz x61 <=? bz b) && (bz b <=? bz x7a) then zb (bz b - 32) else b.

Definition lower_byte (b : byte) : byte :=
  if (bz x41 <=? bz b) && (bz b <=? bz x5a) then zb (bz b + 32) else b.

(** [strings.ToUpper] and [ToLower] as far as a comparison with an ASCII
    string can tell: ASCII letters, and the only other letters whose upper
    (dotless i, long s) or lower case (dotted I, Kelvin sign) is ASCII.  Every
    other non-ASCII letter stays non-ASCII. *)
Fixpoint ToUpper (s : bytes) : bytes :=
  match s with
  | xc4 :: xb1 :: s => x49 :: ToUpper s
  | xc5 :: xbf :: s => x53 :: ToUpper s
  | b :: s => upper_byte b :: ToUpper s
  | [] => []
  end.

Fixpoint ToLower (s : bytes) : bytes :=
  match s with
  | xc4 :: xb0 :: s => x69 :: ToLower s
  | xe2 :: x84 :: xaa :: s => x6b :: ToLower s
  | b :: s => lower_byte b :: ToLower s
  | [] => []
  end.

(** ** strconv *)

Fixpoint digits (fuel : nat) (n : Z) (acc : bytes) : bytes :=
  match fuel with
  | O => acc
  | S fuel =>
    let acc := zb (48 + n mod 10) :: acc in
    if n <? 10 then acc else digits fuel (n / 10) acc
  end.

(** [strconv.FormatInt(n, 10)]: nineteen digits are enough for an int64. *)
Definition FormatInt (n : Z) : bytes :=
  if n <? 0 then x2d :: digits 20 (- n) [] else digits 20 n [].

(** The value of a string of decimal digits. *)
Definition decimal (s : bytes) : Z :=
  foldl (fun acc b => acc * 10 + (bz b - 48)) 0 s.

Definition is_digit (b : byte) : bool := (bz x30 <=? bz b) && (bz b <=? bz x39).

(** ** path/filepath on Unix *)

(** The extension: from the last dot of the last component. *)
Fixpoint ext_rev (rs acc : bytes) : bytes :=
  match rs with
  | [] => []
  | b :: rs =>
    if byte_eqb b slash then []
    else if byte_eqb b dot then dot :: acc
    else ext_rev rs (b :: acc)
  end.

Definition Ext (path : bytes) : bytes := ext_rev (rev path) [].

Definition dotdot : bytes := [dot; dot].

(** One component of [Clean]: [out] is what has been kept, last first. *)
Definition clean_step (rooted : bool) (out : list bytes) (c : bytes) : list bytes :=
  if decide (c = []) then out
  else if decide (c = [dot]) then out
  else if decide (c = dotdot) then
    match out with
    | top :: rest => if decide (top = dotdot) then c :: out else rest
    | [] => if rooted then [] else [c]
    end
  else c :: out.

Fixpoint join_slash (cs : list bytes) : bytes :=
  match cs with
  | [] => []
  | [c] => c
  | c :: cs => c ++ [slash] ++ join_slash cs
  end.

Definition rooted (p : bytes) : bool := HasPrefix p [slash].

Definition Clean (path : bytes) : bytes :=
  if decide (path = []) then [dot]
  else
    let out := rev (foldl (clean_step (rooted path)) [] (Split path slash)) in
    let res := (if rooted path then [slash] else []) ++ join_slash out in
    if decide (res = []) then [dot] else res.

(** [filepath.Join] of two elements. *)
Definition Join (a b : bytes) : bytes :=
  if negb (len a =? 0) then Clean (a ++ [slash] ++ b)
  else if negb (len b =? 0) then Clean b
  else [].

(** The components of a cleaned path. *)
Definition components (p : bytes) : list bytes :=
  filter (fun c => c <> []) (Split p slash).

Fixpoint strip_common (base targ : list bytes) : list bytes * list bytes :=
  match base, targ with
  | b :: base', t :: targ' =>
    if decide (b = t) then strip_common base' targ' else (base, targ)
  | _, _ => (base, targ)
  end.

(** [filepath.Rel]; [None] is its error. *)
Definition Rel (basePath targPath : bytes) : option bytes :=
  let base := Clean basePath in
  let targ := Clean targPath in
  if decide (targ = base) then Some [dot]
  else
    let base := if decide (base = [dot]) then [] else base in
    if negb (eqb (rooted base) (rooted targ)) then None
    else
      let '(b, t) := strip_common (components base) (components targ) in
      match t with
      | _ :: _ =>
        if decide (head b = Some dotdot) then None
        else Some (join_slash (((fun _ => dotdot) <$> b) ++ t))
      | [] => Some (join_slash ((fun _ => dotdot) <$> b))
      end.

(** ** Facts *)

Lemma HasPrefix_iff s p : HasPrefix s p = true <-> exists r, s = p ++ r.
Proof.
  revert s. induction p as [|x p IH]; intros s; cbn; [split; eauto|].
  destruct s as [|y s]; [split; [done | by intros [r [=]]]|].
  rewrite andb_true_iff, byte_eqb_eq, IH. split.
  - intros [-> [r ->]]. by exists r.
  - intros [r [= -> ->]]. eauto.
Qed.

Lemma HasSuffix_iff s p : HasSuffix s p = true <-> exists r, s = r ++ p.
Proof.
  unfold HasSuffix. rewrite andb_true_iff, Z.leb_le, HasPrefix_iff. split.
  - intros [Hl [r Hr]]. exists (ztake (len s - len p) s).
    assert (len r = 0) as E.
    { pose proof (len_nonneg p). apply (f_equal len) in Hr.
      rewrite len_app, len_zdrop in Hr; lia. }
    apply len_0_nil in E as ->. rewrite app_nil_r in Hr. rewrite <- (ztake_zdrop (len s - len p) s) at 1. by f_equal.
  - intros [r ->]. rewrite len_app. pose proof (len_nonneg r). split; [lia|].
    exists []. rewrite app_nil_r. apply zdrop_app. lia.
Qed.

Lemma Contains_iff s p : Contains s p = true <-> exists a b, s = a ++ p ++ b.
Proof.
  induction s as [|x s IH]; cbn; rewrite orb_true_iff, HasPrefix_iff.
  - split.
    + intros [[r E]|]; [|done]. by exists [], r.
    + intros (a & b & E). left. exists b. by destruct a.
  - rewrite IH. split.
    + intros [[r ->]|(a & b & ->)]; [by exists [], r | by exists (x :: a), b].
    + intros ([|y a] & b & E); [left; by exists b|]. injection E as -> ->. right. eauto.
Qed.

Lemma Split_cons_ne s c : Split s c <> [].
Proof. destruct s as [|x s]; cbn; [done|]. by repeat case_match. Qed.

(** A string without the separator is one segment. *)
Lemma Split_plain s c : c ∉ s -> Split s c = [s].
Proof.
  induction s as [|x s IH]; cbn; [done|]. intros Hc.
  destruct (byte_eqb x c) eqn:E; [apply byte_eqb_eq in E; set_solver|].
  rewrite IH by set_solver. done.
Qed.

Lemma Split_app a b c : c ∉ a -> Split (a ++ [c] ++ b) c = a :: Split b c.
Proof.
  induction a as [|x a IH]; cbn; intros Hc.
  - by rewrite (proj2 (byte_eqb_eq c c)).
  - destruct (byte_eqb x c) eqn:E; [apply byte_eqb_eq in E; set_solver|].
    cbn in IH. rewrite IH by set_solver. done.
Qed.

Lemma Split_join cs c :
  cs <> [] -> Forall (fun s => c ∉ s) cs -> c = slash -> Split (join_slash cs) c = cs.
Proof.
  intros Hne Hcs ->. induction Hcs as [|s cs Hs Hcs IH]; [done|].
  destruct cs as [|s' cs]; [by apply Split_plain|].
  change (join_slash (s :: s' :: cs)) with (s ++ [slash] ++ join_slash (s' :: cs)).
  by rewrite Split_app, IH.
Qed.

(** The first place of a byte, if it is there. *)
Lemma IndexByte_from_spec i s c :
  0 <= i ->
  (c ∉ s /\ IndexByte_from i s c = -1) \/
  (exists a b, s = a ++ c :: b /\ c ∉ a /\ IndexByte_from i s c = i + len a).
Proof.
  revert i. induction s as [|x s IH]; intros i Hi; cbn.
  { left. split; [set_solver|done]. }
  destruct (byte_eqb x c) eqn:E.
  - apply byte_eqb_eq in E as ->. right. exists [], s. split; [done|]. split; [set_solver|].
    rewrite len_nil. lia.
  - assert (x <> c) by (intros ->; by rewrite (proj2 (byte_eqb_eq c c)) in E).
    destruct (IH (i + 1)) as [[Hn ->]|(a & b & -> & Ha & ->)]; [lia| |].
    + left. split; [set_solver|done].
    + right. exists (x :: a), b. split; [done|]. split; [set_solver|].
      rewrite len_cons. lia.
Qed.

(** Joining the segments gives the string back. *)
Lemma join_Split s : join_slash (Split s slash) = s.
Proof.
  induction s as [|x s IH]; [done|]. cbn [Split].
  pose proof (Split_cons_ne s slash) as Hne.
  destruct (byte_eqb x slash) eqn:E.
  - apply byte_eqb_eq in E as ->. destruct (Split s slash) as [|seg segs]; [done|].
    change (join_slash ([] :: seg :: segs)) with (slash :: join_slash (seg :: segs)).
    by rewrite IH.
  - destruct (Split s slash) as [|seg segs]; [done|].
    destruct segs as [|seg' segs]; cbn in *; by rewrite IH.
Qed.

(** *** Decimal numbers *)

Lemma decimal_app s b : decimal (s ++ [b]) = decimal s * 10 + (bz b - 48).
Proof. unfold decimal. by rewrite foldl_app. Qed.

Lemma digits_acc fuel n acc : digits fuel n acc = digits fuel n [] ++ acc.
Proof.
  revert n acc. induction fuel as [|fuel IH]; intros n acc; cbn [digits]; [done|].
  destruct (Z.ltb_spec n 10); [done|].
  rewrite (IH _ (_ :: acc)), (IH _ [_]), <- app_assoc. done.
Qed.

Lemma digits_spec fuel n :
  0 <= n < 10 ^ Z.of_nat fuel ->
  decimal (digits fuel n []) = n /\ forallb is_digit (digits fuel n []) = true /\
  len (digits fuel n []) <= Z.of_nat fuel /\ (fuel <> O -> 1 <= len (digits fuel n [])).
Proof.
  revert n. induction fuel as [|fuel IH]; intros n Hn.
  { cbn. change (10 ^ Z.of_nat 0) with 1 in Hn. split; [lia|]. done. }
  cbn [digits]. rewrite Nat2Z.inj_succ, Z.pow_succ_r in Hn by lia.
  pose proof (Z.mod_pos_bound n 10 eq_refl) as Hm.
  assert (Hd : is_digit (zb (48 + n mod 10)) = true).
  { unfold is_digit. rewrite bz_zb_small by lia. cbn.
    apply andb_true_iff; split; apply Z.leb_le; lia. }
  destruct (Z.ltb_spec n 10) as [Hs|Hs].
  - unfold decimal. cbn [foldl forallb]. rewrite Hd, bz_zb_small by lia.
    rewrite Z.mod_small by lia. split; [lia|]. split; [done|].
    unfold len. cbn [length]. split; lia.
  - rewrite digits_acc. destruct (IH (n / 10)) as (Hv & Hf & Hl & _).
    { split; [apply Z.div_pos; lia | apply Z.div_lt_upper_bound; lia]. }
    rewrite decimal_app, Hv, bz_zb_small, forallb_app, Hf, len_app by lia.
    cbn [forallb]. rewrite Hd. pose proof (Z.div_mod n 10).
    pose proof (len_nonneg (digits fuel (n / 10) [])).
    split; [lia|]. split; [done|]. unfold len at 2 4. cbn [length]. split; lia.
Qed.

Lemma digits_more_fuel fuel m acc :
  0 <= m < 10 ^ Z.of_nat fuel -> fuel <> O -> digits (S fuel) m acc = digits fuel m acc.
Proof.
  revert m acc. induction fuel as [|fuel IH]; intros m acc Hm Hf; [done|].
  rewrite Nat2Z.inj_succ, Z.pow_succ_r in Hm by lia.
  cbn [digits] in IH |- *. destruct (Z.ltb_spec m 10); [done|].
  destruct fuel as [|fuel]; [change (10 ^ Z.of_nat 0) with 1 in Hm; lia|].
  apply IH; [|done]. split; [apply Z.div_pos; lia | apply Z.div_lt_upper_bound; lia].
Qed.

Lemma FormatInt_spec n :
  0 <= n < 2 ^ 63 ->
  decimal (FormatInt n) = n /\ forallb is_digit (FormatInt n) = true /\
  1 <= len (FormatInt n) <= 19.
Proof.
  intros Hn. assert (H19 : 10 ^ Z.of_nat 19 = 10000000000000000000) by reflexivity.
  unfold FormatInt. rewrite (proj2 (Z.ltb_ge n 0)) by lia.
  rewrite (digits_more_fuel 19) by (lia || done).
  destruct (digits_spec 19 n) as (? & ? & ? & Hl); [lia|].
  repeat split; [done | done | by apply Hl | done].
Qed.

(** What a number is written with. *)
Definition numeral (c : byte) : Prop := c = x2d \/ is_digit c = true.

Lemma FormatInt_numerals n : Forall numeral (FormatInt n).
Proof.
  assert (Hd : forall fuel n acc, Forall numeral acc -> Forall numeral (digits fuel n acc)).
  { intros fuel. induction fuel as [|fuel IH]; intros m acc Ha; [done|]. cbn [digits].
    assert (Hc : Forall numeral (zb (48 + m mod 10) :: acc)).
    { apply Forall_cons. split; [|done]. right. pose proof (Z.mod_pos_bound m 10 eq_refl).
      unfold is_digit. rewrite bz_zb_small by lia. change (bz x30) with 48. change (bz x39) with 57.
      apply andb_true_iff. split; apply Z.leb_le; lia. }
    destruct (m <? 10); [done|by apply IH]. }
  unfold FormatInt. destruct (n <? 0); [apply Forall_cons; split; [by left|]|]; apply Hd, Forall_nil_2.
Qed.

(** *** Clean absolute paths *)

(** A component that names an entry of its directory. *)
Definition plain (c : bytes) : Prop :=
  c <> [] /\ c <> [dot] /\ c <> dotdot /\ slash ∉ c.

Definition abs_path (cs : list bytes) : bytes := slash :: join_slash cs.

(** A path in the form [filepath.Clean] gives an absolute path. *)
Definition clean_abs (p : bytes) : Prop := exists cs, Forall plain cs /\ p = abs_path cs.

Lemma abs_path_rooted cs : rooted (abs_path cs) = true.
Proof. done. Qed.

Lemma Split_abs_path cs :
  Forall plain cs -> Split (abs_path cs) slash = [] :: (if decide (cs = []) then [[]] else cs).
Proof.
  intros Hcs. unfold abs_path. change (slash :: join_slash cs) with ([] ++ [slash] ++ join_slash cs).
  rewrite Split_app by set_solver. f_equal.
  destruct (decide (cs = [])) as [->|Hne]; [done|].
  apply Split_join; [done | | done].
  eapply Forall_impl; [done|]. by intros c (_ & _ & _ & ?).
Qed.

Lemma components_abs_path cs : Forall plain cs -> components (abs_path cs) = cs.
Proof.
  intros Hcs. unfold components. rewrite Split_abs_path by done.
  rewrite filter_cons_False by naive_solver.
  destruct (decide (cs = [])) as [->|]; [done|].
  induction Hcs as [|c cs (Hc & _) Hcs IH]; [done|].
  rewrite filter_cons_True by done. f_equal.
  destruct cs; [done|]. by apply IH.
Qed.

Lemma clean_step_plain r out c : plain c -> clean_step r out c = c :: out.
Proof. intros (H1 & H2 & H3 & _). unfold clean_step. by rewrite !decide_False. Qed.

Lemma foldl_clean_plain r out cs :
  Forall plain cs -> foldl (clean_step r) out cs = rev cs ++ out.
Proof.
  intros Hcs. revert out. induction Hcs as [|c cs Hc Hcs IH]; intros out; [done|].
  cbn [foldl rev]. by rewrite clean_step_plain, IH, <- app_assoc.
Qed.

(** [Clean] leaves a clean absolute path alone. *)
Lemma Clean_abs_path cs : Forall plain cs -> Clean (abs_path cs) = abs_path cs.
Proof.
  intros Hcs. unfold Clean. rewrite decide_False by done. rewrite abs_path_rooted, Split_abs_path by done.
  cbn [foldl]. assert (clean_step true [] [] = []) as -> by done.
  destruct (decide (cs = [])) as [->|]; [done|].
  rewrite foldl_clean_plain, app_nil_r, rev_involutive by done. done.
Qed.

Lemma abs_path_inj cs ds :
  Forall plain cs -> Forall plain ds -> abs_path cs = abs_path ds -> cs = ds.
Proof. intros Hc Hd E. by rewrite <- (components_abs_path cs), E, components_abs_path. Qed.

Lemma strip_common_spec bs ts :
  exists pre b t, strip_common bs ts = (b, t) /\ bs = pre ++ b /\ ts = pre ++ t.
Proof.
  revert ts. induction bs as [|b bs IH]; intros ts; cbn.
  { by exists [], [], ts. }
  destruct ts as [|t ts]; [by exists [], (b :: bs), []|].
  destruct (decide (b = t)) as [->|]; [|by exists [], (b :: bs), (t :: ts)].
  destruct (IH ts) as (pre & b' & t' & -> & -> & ->). by exists (t :: pre), b', t'.
Qed.

Lemma strip_common_app pre t : strip_common pre (pre ++ t) = ([], t).
Proof. induction pre as [|c pre IH]; [by destruct t|]. cbn. by rewrite decide_True. Qed.

(** The test [within] makes on the result of [Rel]. *)
Definition escapes (rel : bytes) : bool :=
  bool_decide (rel = dotdot) || HasPrefix rel (dotdot ++ [slash]).

Lemma escapes_up ds t : escapes (join_slash (dotdot :: ds ++ t)) = true.
Proof.
  unfold escapes. destruct (ds ++ t) as [|c cs]; [done|].
  apply orb_true_iff. right. apply HasPrefix_iff. by exists (join_slash (c :: cs)).
Qed.

Lemma escapes_plain cs : Forall plain cs -> escapes (join_slash cs) = false.
Proof.
  intros Hcs. unfold escapes. apply orb_false_iff.
  assert (Hd : forall r, join_slash cs <> dotdot ++ [slash] ++ r /\ join_slash cs <> dotdot).
  { destruct Hcs as [|c cs (H1 & H2 & H3 & H4) Hcs]; [done|]. intros r.
    destruct cs as [|c' cs]; cbn [join_slash].
    - split; [|done]. intros ->. apply H4. unfold dotdot. set_solver.
    - split; intros E.
      + apply (f_equal (fun s => Split s slash)) in E.
        rewrite !Split_app in E; [|by vm_compute; set_solver|done]. naive_solver.
      + apply (f_equal (fun s => Split s slash)) in E. rewrite Split_app in E by done.
        injection E as E1 E2. by apply Split_cons_ne in E2. }
  split.
  - apply bool_decide_eq_false. by destruct (Hd []).
  - destruct (HasPrefix _ _) eqn:E; [|done]. apply HasPrefix_iff in E as [r E].
    rewrite <- app_assoc in E. by destruct (Hd r).
Qed.

(** For clean absolute paths [Rel] stays inside exactly when the base is a
    prefix, component by component. *)
Lemma Rel_inside bs ts :
  Forall plain bs -> Forall plain ts ->
  (exists rel, Rel (abs_path bs) (abs_path ts) = Some rel /\ escapes rel = false) <->
  bs `prefix_of` ts.
Proof.
  intros Hb Ht. unfold Rel. rewrite !Clean_abs_path by done.
  destruct (decide (abs_path ts = abs_path bs)) as [E|Hne].
  { apply abs_path_inj in E as ->; [|done..]. split; [done|]. intros _. by exists [dot]. }
  rewrite decide_False by done. rewrite !abs_path_rooted. cbn [negb eqb].
  rewrite !components_abs_path by done.
  destruct (strip_common_spec bs ts) as (pre & b & t & E & -> & ->). rewrite E.
  destruct b as [|x b].
  - rewrite app_nil_r in *. split; [by exists t|]. intros _.
    apply Forall_app in Ht as [_ Ht]. destruct t as [|y t]; [by rewrite app_nil_r in Hne|].
    exists (join_slash (y :: t)). split; [done|]. by apply escapes_plain.
  - split.
    + intros (rel & Hr & He). exfalso. destruct t as [|y t].
      * assert (rel = join_slash (dotdot :: ((fun _ => dotdot) <$> b) ++ [])) as ->
          by (rewrite app_nil_r; injection Hr as Hr; symmetry; exact Hr).
        by rewrite escapes_up in He.
      * destruct (decide _); [done|].
        assert (rel = join_slash (dotdot :: ((fun _ => dotdot) <$> b) ++ y :: t)) as ->
          by (injection Hr as Hr; symmetry; exact Hr).
        by rewrite escapes_up in He.
    + intros [k Hk]. rewrite <- app_assoc in Hk. apply app_inv_head in Hk as ->.
      exfalso. rewrite app_assoc, strip_common_app in E. done.
Qed.

(** *** Splitting, trimming and joining *)

Lemma Split_app_gen a b c : Split (a ++ [c] ++ b) c = Split a c ++ Split b c.
Proof.
  induction a as [|x a IH]; cbn.
  - by rewrite (proj2 (byte_eqb_eq c c)).
  - cbn in IH. rewrite IH. pose proof (Split_cons_ne a c).
    destruct (byte_eqb x c); [done|]. by destruct (Split a c).
Qed.

Lemma Split_no_sep s c : Forall (fun seg => c ∉ seg) (Split s c).
Proof.
  induction s as [|x s IH]; cbn; [constructor; [set_solver|done]|].
  destruct (byte_eqb x c) eqn:E; [by constructor; [set_solver|]|].
  destruct IH as [|seg segs Hs IH]; constructor; [|constructor | |done].
  - intros ->%list_elem_of_singleton. by rewrite (proj2 (byte_eqb_eq x x)) in E.
  - intros [->|?]%elem_of_cons; [|done]. by rewrite (proj2 (byte_eqb_eq x x)) in E.
Qed.

Lemma TrimLeft_head s c :
  match TrimLeft s c with [] => True | x :: _ => x <> c end.
Proof.
  induction s as [|x s IH]; cbn; [done|].
  destruct (byte_eqb x c) eqn:E; [done|]. intros ->. by rewrite (proj2 (byte_eqb_eq c c)) in E.
Qed.

Lemma TrimLeft_slash s : TrimLeft (slash :: s) slash = TrimLeft s slash.
Proof. done. Qed.

Lemma TrimLeft_other x s c : x <> c -> TrimLeft (x :: s) c = x :: s.
Proof.
  intros Hx. cbn. destruct (byte_eqb x c) eqn:E; [|done]. by apply byte_eqb_eq in E.
Qed.

Lemma plain_head c : plain c -> exists x s, c = x :: s /\ x <> slash.
Proof.
  intros (Hne & _ & _ & Hs). destruct c as [|x s]; [done|]. exists x, s.
  split; [done|]. set_solver.
Qed.

Lemma plain_last c : plain c -> exists s x, c = s ++ [x] /\ x <> slash.
Proof.
  intros (Hne & _ & _ & Hs). destruct (exists_last Hne) as (s & x & ->). exists s, x.
  split; [done|]. set_solver.
Qed.

Lemma join_slash_snoc cs c : cs <> [] -> join_slash (cs ++ [c]) = join_slash cs ++ [slash] ++ c.
Proof.
  induction cs as [|d cs IH]; [done|]. intros _. destruct cs as [|d' cs]; [done|].
  change (join_slash ((d :: d' :: cs) ++ [c])) with (d ++ [slash] ++ join_slash ((d' :: cs) ++ [c])).
  rewrite IH by done.
  change (join_slash (d :: d' :: cs)) with (d ++ [slash] ++ join_slash (d' :: cs)).
  by rewrite <- !app_assoc.
Qed.

(** A path made of plain components starts and ends with other bytes than a
    slash. *)
Lemma join_slash_head cs : Forall plain cs -> cs <> [] ->
  exists x s, join_slash cs = x :: s /\ x <> slash.
Proof.
  intros [|c cs' Hc Hcs] Hne; [done|]. destruct (plain_head c Hc) as (x & s & -> & Hx).
  exists x. destruct cs'; eexists; (split; [|done]); reflexivity.
Qed.

Lemma join_slash_last cs : Forall plain cs -> cs <> [] ->
  exists s x, join_slash cs = s ++ [x] /\ x <> slash.
Proof.
  intros Hcs Hne. destruct (exists_last Hne) as (cs' & c & ->).
  apply Forall_app in Hcs as [_ Hc]. apply Forall_cons in Hc as [Hc _].
  destruct (plain_last c Hc) as (s & x & -> & Hx).
  destruct (decide (cs' = [])) as [->|]; [by exists s, x|].
  rewrite join_slash_snoc by done. exists (join_slash cs' ++ [slash] ++ s), x.
  by rewrite <- !app_assoc.
Qed.

Lemma Trim_path cs tail :
  Forall plain cs -> tail = [] \/ tail = [slash] ->
  Trim (slash :: join_slash cs ++ tail) slash = join_slash cs.
Proof.
  intros Hcs Ht. unfold Trim. rewrite TrimLeft_slash.
  destruct (decide (cs = [])) as [->|Hne]; [by destruct Ht as [-> | ->]|].
  destruct (join_slash_head cs Hcs Hne) as (x & s & E & Hx).
  destruct (join_slash_last cs Hcs Hne) as (s' & y & E' & Hy).
  assert (TrimLeft (join_slash cs ++ tail) slash = join_slash cs ++ tail) as ->
    by (rewrite E; by apply TrimLeft_other).
  rewrite rev_app_distr.
  assert (TrimLeft (rev tail ++ rev (join_slash cs)) slash = TrimLeft (rev (join_slash cs)) slash) as ->
    by (by destruct Ht as [-> | ->]).
  rewrite E', rev_app_distr. cbn [rev app]. rewrite TrimLeft_other by done.
  change (y :: rev s') with ([y] ++ rev s'). by rewrite rev_app_distr, rev_involutive.
Qed.

(** Joining plain components below a clean absolute path. *)
Lemma Join_abs_path rs cs :
  Forall plain rs -> Forall plain cs ->
  Join (abs_path rs) (join_slash cs) = abs_path (rs ++ cs).
Proof.
  intros Hr Hc. unfold Join. rewrite (proj2 (Z.eqb_neq _ 0)) by (unfold len; cbn; lia). cbn [negb].
  unfold Clean. rewrite decide_False by done. rewrite Split_app_gen, Split_abs_path by done.
  assert (rooted (abs_path rs ++ [slash] ++ join_slash cs) = true) as -> by done.
  rewrite foldl_app. cbn [foldl]. assert (clean_step true [] [] = []) as -> by done.
  assert (foldl (clean_step true) [] (if decide (rs = []) then [[]] else rs) = rev rs) as ->.
  { destruct (decide (rs = [])) as [->|]; [done|]. by rewrite foldl_clean_plain, app_nil_r. }
  assert (foldl (clean_step true) (rev rs) (Split (join_slash cs) slash) = rev (rs ++ cs)) as ->.
  { destruct (decide (cs = [])) as [->|Hne]; [cbn; by rewrite app_nil_r|].
    rewrite Split_join, foldl_clean_plain, rev_app_distr; try done.
    eapply Forall_impl; [done|]. by intros c (_ & _ & _ & ?). }
  by rewrite rev_involutive.
Qed.

(** [Clean] of a path that starts with a slash is a clean absolute path. *)
Lemma Clean_rooted p : rooted p = true -> clean_abs (Clean p).
Proof.
  intros Hr. unfold Clean. destruct (decide (p = [])) as [->|_]; [done|]. rewrite Hr.
  assert (Hinv : forall ss out, Forall (fun seg => slash ∉ seg) ss -> Forall plain out ->
    Forall plain (foldl (clean_step true) out ss)).
  { induction ss as [|s ss IH]; intros out Hss Ho; [done|].
    apply Forall_cons in Hss as [Hs Hss]. apply IH; [done|]. unfold clean_step.
    case_decide; [done|]. case_decide; [done|]. case_decide; [|by constructor].
    destruct Ho as [|top rest (_ & _ & Ht & _) Ho]; [constructor|].
    by rewrite decide_False. }
  exists (rev (foldl (clean_step true) [] (Split p slash))).
  split; [|done]. apply Forall_rev, Hinv; [apply Split_no_sep | constructor].
Qed.

Lemma Join_clean_abs a b : clean_abs a -> clean_abs (Join a b).
Proof.
  intros (cs & Hcs & ->). unfold Join.
  rewrite (proj2 (Z.eqb_neq _ 0)) by (unfold len; cbn; lia). by apply Clean_rooted.
Qed.
