(* ===== verification/OsFs.v ===== *)
(** * The file system as the server sees it

    The operating system is a parameter of the development: the interface
    [Filesystem] has the calls of [os] and [path/filepath] that
    internal/server makes, and [FilesystemOk] the two documented facts about
    [EvalSymlinks] the resolver relies on.  It is the same at every call: what
    others do to the files between two calls is not modelled, except that a
    file may hold more or less than its size says.  [memfs] is a small tree with
    directories, files, symbolic links and special files that satisfies them;
    the witnesses run the server on it. *)

From S2P Require Import Prelude GoIO Paths.

(** ** The file system *)

Inductive oserr : Type :=
  | ErrNotExist
  | ENOTDIR
  | ENAMETOOLONG
  | ErrPermission
  | OsOther (code : Z).

(** What [fs.FileInfo] is asked for. *)
Record fileinfo : Type := MkInfo {
  fi_name : bytes;
  fi_size : Z;
  fi_isdir : bool;
  fi_regular : bool;
}.

(** An [*os.File]: the answer to [f.Stat()] and the bytes that reading it
    will give, which need not be as many as its size says. *)
Record file : Type := MkFile {
  f_stat : result oserr fileinfo;
  f_data : source;
}.

Class Filesystem (FS : Type) : Type := {
  EvalSymlinks : FS -> bytes -> result oserr bytes;
  Stat : FS -> bytes -> result oserr fileinfo;
  Open : FS -> bytes -> result oserr file;
}.

(** [filepath.EvalSymlinks] on a clean absolute path gives a clean absolute
    path, in which there is nothing left to resolve. *)
Class FilesystemOk (FS : Type) `{Filesystem FS} : Prop := {
  EvalSymlinks_clean fs p q :
    clean_abs p -> EvalSymlinks fs p = Ok q -> clean_abs q;
  EvalSymlinks_resolved fs p q :
    clean_abs p -> EvalSymlinks fs p = Ok q -> EvalSymlinks fs q = Ok q;
}.

(** ** A file system in memory *)

(** A regular file announces a size and holds some bytes: the two differ when
    the file is truncated or grows while it is served. *)
Inductive node : Type :=
  | Dir
  | Regular (size : Z) (data : bytes)
  | Link (target : bytes)
  | Special
  | Unreadable.

(** Nodes by the components of their path; the root directory is implicit. *)
Record memfs : Type := MkMemfs { nodes : gmap (list bytes) node }.

Definition ELOOP : oserr := OsOther 40.

(** Walk the components [todo] from the directory [at_], following at most
    [budget] links. *)
Fixpoint walk (fs : memfs) (budget : nat) : list bytes -> list bytes -> result oserr (list bytes) :=
  fix go (at_ todo : list bytes) {struct todo} :=
    match todo with
    | [] => Ok at_
    | c :: rest =>
      if decide (c = [] \/ c = [dot]) then go at_ rest
      else if decide (c = dotdot) then go (removelast at_) rest
      else if 255 <? len c then Err ENAMETOOLONG
      else
        match nodes fs !! (at_ ++ [c]) with
        | None => Err ErrNotExist
        | Some Dir => go (at_ ++ [c]) rest
        | Some (Link target) =>
          match budget with
          | O => Err ELOOP
          | S budget =>
            walk fs budget (if rooted target then [] else at_) (Split target slash ++ rest)
          end
        | Some _ => if decide (rest = []) then Ok (at_ ++ [c]) else Err ENOTDIR
        end
    end.

Definition max_links : nat := 255.

Definition mem_EvalSymlinks (fs : memfs) (p : bytes) : result oserr bytes :=
  cs ← walk fs max_links [] (Split p slash); Ok (abs_path cs).

Definition mem_find (fs : memfs) (p : bytes) : result oserr (bytes * node) :=
  cs ← walk fs max_links [] (Split p slash);
  match cs with
  | [] => Ok ([slash], Dir)
  | _ =>
    match nodes fs !! cs with
    | Some nd => Ok (List.last (components p) [], nd)
    | None => Err ErrNotExist
    end
  end.

Definition node_info (name : bytes) (nd : node) : fileinfo :=
  {| fi_name := name;
     fi_size := match nd with Regular size _ => size | _ => 0 end;
     fi_isdir := match nd with Dir => true | _ => false end;
     fi_regular := match nd with Regular _ _ | Unreadable => true | _ => false end |}.

Definition mem_Stat (fs : memfs) (p : bytes) : result oserr fileinfo :=
  '(name, nd) ← mem_find fs p; Ok (node_info name nd).

Definition mem_Open (fs : memfs) (p : bytes) : result oserr file :=
  '(name, nd) ← mem_find fs p;
  match nd with
  | Unreadable => Err ErrPermission
  | _ =>
    Ok {| f_stat := Ok (node_info name nd);
          f_data := whole (match nd with Regular _ data => data | _ => [] end) |}
  end.

#[export] Instance memfs_Filesystem : Filesystem memfs :=
  {| EvalSymlinks := mem_EvalSymlinks; Stat := mem_Stat; Open := mem_Open |}.

(** *** Its laws *)

(** A place a walk can be in or end at: every component but the last is a
    directory, and none is a link. *)
Definition place (fs : memfs) (dirs : list bytes) : Prop :=
  Forall plain dirs /\
  forall a c b, dirs = a ++ c :: b -> len c <= 255 /\ nodes fs !! (a ++ [c]) = Some Dir.

Definition resolved (fs : memfs) (cs : list bytes) : Prop :=
  place fs cs \/
  exists dirs c nd, cs = dirs ++ [c] /\ place fs dirs /\ plain c /\ len c <= 255 /\
    nodes fs !! cs = Some nd /\ (forall t, nd <> Link t).

Lemma place_nil fs : place fs [].
Proof. split; [constructor|]. by intros [|??] ? ?. Qed.

Lemma place_snoc fs dirs c :
  place fs dirs -> plain c -> len c <= 255 -> nodes fs !! (dirs ++ [c]) = Some Dir ->
  place fs (dirs ++ [c]).
Proof.
  intros [Hp Hd] Hc Hl Hn. split; [apply Forall_app; split; [done | by apply Forall_singleton]|].
  intros a x b E. destruct b as [|y b _] using rev_ind.
  - apply app_inj_tail in E as [<- <-]. done.
  - change (x :: b ++ [y]) with ((x :: b) ++ [y]) in E. rewrite app_assoc in E.
    apply app_inj_tail in E as [E _]. by apply (Hd a x b).
Qed.

Lemma place_removelast fs dirs : place fs dirs -> place fs (removelast dirs).
Proof.
  destruct dirs as [|c dirs _] using rev_ind; [done|]. rewrite removelast_last.
  intros [Hp Hd]. split; [by apply Forall_app in Hp as [? _]|].
  intros a x b ->. apply (Hd a x (b ++ [c])). by rewrite <- app_assoc.
Qed.

Lemma resolved_snoc fs dirs c nd :
  place fs dirs -> plain c -> len c <= 255 -> (forall t, nd <> Link t) ->
  nodes fs !! (dirs ++ [c]) = Some nd -> resolved fs (dirs ++ [c]).
Proof. intros. right. by exists dirs, c, nd. Qed.

Lemma walk_resolved fs budget at_ todo cs :
  place fs at_ -> Forall (fun c => slash ∉ c) todo ->
  walk fs budget at_ todo = Ok cs -> resolved fs cs.
Proof.
  revert at_ todo. induction budget as [|budget IHb]; intros at_ todo; revert at_.
  all: induction todo as [|c rest IH]; intros at_ Hat Ht Hw;
    [injection Hw as <-; by left|];
    apply Forall_cons in Ht as [Hc Ht]; cbn -[nodes Split dotdot rooted] in Hw.
  all: case_decide as H1; [by apply (IH at_)|].
  all: case_decide as H2; [apply (IH (removelast at_)); by try apply place_removelast|].
  all: destruct (Z.ltb_spec 255 (len c)) as [Hl|Hl]; [done|].
  all: assert (Hpl : plain c) by (repeat split; tauto).
  all: destruct (nodes fs !! (at_ ++ [c])) as [nd|] eqn:En; [|done].
  all: destruct nd as [|size data|target| |];
    try (apply (IH (at_ ++ [c])); by try apply place_snoc).
  all: try (case_decide; [|done]; injection Hw as <-;
    by eapply resolved_snoc, En).
  eapply (IHb (if rooted target then [] else at_)); [| |exact Hw].
  - destruct (rooted target); [apply place_nil|done].
  - apply Forall_app. split; [apply Split_no_sep|done].
Qed.

Lemma walk_dirs fs budget at_ dirs rest :
  place fs (at_ ++ dirs) -> walk fs budget at_ (dirs ++ rest) = walk fs budget (at_ ++ dirs) rest.
Proof.
  revert at_. induction dirs as [|c dirs IH]; intros at_ Hp; [by rewrite app_nil_r|].
  destruct Hp as [Hpl Hd]. pose proof (Hd at_ c dirs eq_refl) as [Hl Hn].
  assert (plain c) as (Hc1 & Hc2 & Hc3 & _).
  { rewrite Forall_forall in Hpl. apply Hpl, elem_of_app. right. by left. }
  assert (place fs ((at_ ++ [c]) ++ dirs)) as Hp by (rewrite <- app_assoc; by split).
  apply IH in Hp. rewrite <- app_assoc in Hp. cbn [app] in Hp. rewrite <- Hp.
  destruct budget; cbn -[nodes Split dotdot rooted];
    by rewrite decide_False, decide_False, (proj2 (Z.ltb_ge _ _)), Hn by tauto.
Qed.

Lemma walk_place fs budget dirs :
  place fs dirs -> walk fs budget [] dirs = Ok dirs.
Proof.
  intros Hp. pose proof (walk_dirs fs budget [] dirs [] Hp) as E. rewrite app_nil_r in E.
  rewrite E. by destruct budget.
Qed.

Lemma walk_entry fs budget at_ c nd :
  plain c -> len c <= 255 -> nodes fs !! (at_ ++ [c]) = Some nd -> (forall t, nd <> Link t) ->
  walk fs budget at_ [c] = Ok (at_ ++ [c]).
Proof.
  intros (Hc1 & Hc2 & Hc3 & _) Hl Hn Hnl.
  destruct budget; cbn -[nodes Split dotdot rooted];
    rewrite decide_False, decide_False, (proj2 (Z.ltb_ge _ _)), Hn by tauto;
    destruct nd; try done; by destruct (Hnl target).
Qed.

Lemma walk_again fs budget cs : resolved fs cs -> walk fs budget [] cs = Ok cs.
Proof.
  intros [Hp | (dirs & c & nd & -> & Hp & Hc & Hl & Hn & Hnl)]; [by apply walk_place|].
  rewrite (walk_dirs fs budget [] dirs [c]) by done. by apply (walk_entry fs budget _ c nd).
Qed.

Lemma resolved_plain fs cs : resolved fs cs -> Forall plain cs.
Proof.
  intros [[Hp _] | (dirs & c & nd & -> & [Hp _] & Hc & _)]; [done|].
  apply Forall_app. split; [done | by apply Forall_singleton].
Qed.

(** Empty components do not matter to a walk. *)
Lemma walk_empty fs budget at_ rest : walk fs budget at_ ([] :: rest) = walk fs budget at_ rest.
Proof. by destruct budget. Qed.

Lemma walk_abs_path fs budget cs :
  Forall plain cs -> walk fs budget [] (Split (abs_path cs) slash) = walk fs budget [] cs.
Proof.
  intros Hcs. rewrite Split_abs_path by done. rewrite walk_empty.
  case_decide as E; [|done]. subst. by rewrite walk_empty.
Qed.

#[export] Instance memfs_FilesystemOk : FilesystemOk memfs.
Proof.
  split; intros fs p q _; unfold EvalSymlinks; cbn [memfs_Filesystem]; unfold mem_EvalSymlinks;
    intros (cs & Hw & [= <-])%bind_Ok;
    apply walk_resolved in Hw; try apply place_nil; try apply Split_no_sep.
  - exists cs. split; [by eapply resolved_plain|done].
  - rewrite walk_abs_path by (by eapply resolved_plain). by rewrite walk_again.
Qed.
