(* ===== verification/Resolver.v ===== *)
(** * internal/server: path rules, resolution and content types

    [resolver.go], [badname_other.go] and [mime.go], over the file system
    interface of OsFs.v; of the build for Windows only the function of
    [badname_windows.go]. *)

From S2P Require Import Prelude GoIO Utf8 Paths OsFs.

(** ** Errors *)

Inductive resolve_error : Type :=
  | errBadPath
  | errNotFound
  | OsErr (e : oserr).

Definition isUnrepresentableName (e : oserr) : bool :=
  match e with ENAMETOOLONG => true | _ => false end.

(** The same in the build for Windows, on the code [errors.As] finds, if any:
    ERROR_INVALID_NAME, ERROR_BAD_PATHNAME, ERROR_FILENAME_EXCED_RANGE. *)
Definition isUnrepresentableName_windows (errno : option Z) : bool :=
  match errno with
  | Some errno => (errno =? 123) || (errno =? 161) || (errno =? 206)
  | None => false
  end.

Definition missingOr (e : oserr) : resolve_error :=
  match e with
  | ErrNotExist | ENOTDIR => errNotFound
  | _ => if isUnrepresentableName e then errNotFound else OsErr e
  end.

Definition or_missing {A} (m : result oserr A) : result resolve_error A :=
  match m with Ok a => Ok a | Err e => Err (missingOr e) end.

(** ** checkPath *)

Definition forbidden : bytes := str "\:*?" ++ [x22] ++ str "<>|".

Definition badByte (c : byte) : bool :=
  (bz c <? 0x20) || (bz c =? 0x7F) || (0 <=? IndexByte forbidden c).

Definition reservedDeviceName (seg : bytes) : bool :=
  let i := IndexByte seg dot in
  let stem := ToUpper (if 0 <=? i then ztake i seg else seg) in
  if decide (stem = str "CON" \/ stem = str "PRN" \/ stem = str "AUX" \/ stem = str "NUL") then true
  else if (len stem =? 4) && (HasPrefix stem (str "COM") || HasPrefix stem (str "LPT")) then
    (bz x31 <=? bz (stem !!! 3%nat)) && (bz (stem !!! 3%nat) <=? bz x39)
  else false.

(** What the loop over the segments rejects; an empty segment is passed
    over. *)
Definition badSegment (seg : bytes) : bool :=
  if decide (seg = []) then false
  else if decide (seg = [dot] \/ seg = dotdot) then true
  else
    let last := List.last seg x00 in
    if byte_eqb last dot || byte_eqb last x20 then true
    else reservedDeviceName seg.

Definition checkPath (p : bytes) : result resolve_error unit :=
  if negb (HasPrefix p [slash]) || negb (utf8_valid p) || Contains p [slash; slash] then
    Err errBadPath
  else if existsb badByte p then Err errBadPath
  else if existsb badSegment (Split (zdrop 1 p) slash) then Err errBadPath
  else Ok ().

(** ** The resolver *)

Record resolver : Type := MkResolver { root : bytes }.

Inductive root_error : Type :=
  | RootError (e : oserr)
  | NotADirectory.

Definition or_root {A} (m : result oserr A) : result root_error A :=
  match m with Ok a => Ok a | Err e => Err (RootError e) end.

Section Resolver.
Context {FS : Type} `{Filesystem FS}.

(** [cwd] is what [filepath.Abs] makes a relative path absolute with. *)
Definition newResolver (fs : FS) (cwd : result oserr bytes) (root : bytes) :
    result root_error resolver :=
  abs ← or_root (if rooted root then Ok (Clean root) else dir ← cwd; Ok (Join dir root));
  real ← or_root (EvalSymlinks fs abs);
  info ← or_root (Stat fs real);
  if negb (fi_isdir info) then Err NotADirectory else Ok (MkResolver real).

Definition within (fs : FS) (r : resolver) (path : bytes) : result resolve_error bytes :=
  resolved ← or_missing (EvalSymlinks fs path);
  match Rel (root r) resolved with
  | None => Err errNotFound
  | Some rel => if escapes rel then Err errNotFound else Ok resolved
  end.

(** The part of [open] before [os.Open]: the path that will be opened. *)
Definition open_target (fs : FS) (r : resolver) (urlPath : bytes) : result resolve_error bytes :=
  _ ← checkPath urlPath;
  let trailingSlash := HasSuffix urlPath [slash] in
  let rel := Trim urlPath slash in
  target ← within fs r (Join (root r) rel);
  info ← or_missing (Stat fs target);
  if fi_isdir info then within fs r (Join target (str "index.html"))
  else if trailingSlash then Err errNotFound
  else Ok target.

(** [open]; the number is how many file handles the process holds, so that
    every [f.Close()] shows. *)
Definition open (fs : FS) (r : resolver) (urlPath : bytes) (handles : Z) :
    result resolve_error (file * fileinfo) * Z :=
  match open_target fs r urlPath with
  | Err e => (Err e, handles)
  | Ok target =>
    match or_missing (Open fs target) with
    | Err e => (Err e, handles)
    | Ok f =>
      let handles := handles + 1 in
      match f_stat f with
      | Err e => (Err (OsErr e), handles - 1)
      | Ok fi =>
        if negb (fi_regular fi) then (Err errNotFound, handles - 1)
        else (Ok (f, fi), handles)
      end
    end
  end.
End Resolver.

(** ** mime.go *)

Definition contentTypes : gmap bytes bytes := list_to_map
  [ (str ".html", str "text/html"); (str ".htm", str "text/html"); (str ".css", str "text/css");
    (str ".js", str "text/javascript"); (str ".json", str "application/json");
    (str ".txt", str "text/plain"); (str ".xml", str "application/xml");
    (str ".svg", str "image/svg+xml"); (str ".png", str "image/png");
    (str ".jpg", str "image/jpeg"); (str ".jpeg", str "image/jpeg");
    (str ".gif", str "image/gif"); (str ".webp", str "image/webp");
    (str ".ico", str "image/x-icon"); (str ".pdf", str "application/pdf");
    (str ".zip", str "application/zip"); (str ".wasm", str "application/wasm") ].

Definition contentType (name : bytes) : bytes :=
  default (str "application/octet-stream") (contentTypes !! ToLower (Ext name)).

(** ** The path rules of protocol/SPEC.md section 11.1 *)

Definition device_names : list bytes :=
  [str "CON"; str "PRN"; str "AUX"; str "NUL"] ++
  ((fun d => str "COM" ++ [d]) <$> str "123456789") ++
  ((fun d => str "LPT" ++ [d]) <$> str "123456789").

(** The text before the first dot, ignoring case. *)
Definition device_stem (seg : bytes) : bytes := ToUpper (hd [] (Split seg dot)).

Definition byte_allowed (c : byte) : Prop :=
  0x20 <= bz c /\ bz c <> 0x7F /\ c ∉ forbidden.

Definition seg_allowed (seg : bytes) : Prop :=
  seg <> [] /\ seg <> [dot] /\ seg <> dotdot /\
  List.last seg x00 <> dot /\ List.last seg x00 <> x20 /\
  device_stem seg ∉ device_names.

(** A path is a slash, allowed segments separated by single slashes, and at
    most one slash at the end. *)
Definition path_allowed (p : bytes) : Prop :=
  (exists segs tail, Forall seg_allowed segs /\ Forall (fun seg => slash ∉ seg) segs /\
     (tail = [] \/ tail = [slash] /\ segs <> []) /\
     p = slash :: join_slash segs ++ tail) /\
  utf8_valid p = true /\ Forall byte_allowed p.

Lemma badByte_false c : badByte c = false <-> byte_allowed c.
Proof.
  unfold badByte, byte_allowed, IndexByte. rewrite !orb_false_iff, Z.ltb_ge, Z.eqb_neq, Z.leb_gt.
  destruct (IndexByte_from_spec 0 forbidden c) as [[Hn ->]|(a & b & E & _ & ->)]; [lia| |].
  - intuition lia.
  - pose proof (len_nonneg a). rewrite E. split; [lia|]. intros (_ & _ & Hn).
    exfalso. apply Hn. set_solver.
Qed.

Lemma stem_Split seg :
  (if 0 <=? IndexByte seg dot then ztake (IndexByte seg dot) seg else seg) = hd [] (Split seg dot).
Proof.
  unfold IndexByte.
  destruct (IndexByte_from_spec 0 seg dot) as [[Hn ->]|(a & b & -> & Ha & ->)]; [lia| |].
  - by rewrite Split_plain.
  - pose proof (len_nonneg a). rewrite (proj2 (Z.leb_le _ _)) by lia.
    change (a ++ dot :: b) with (a ++ [dot] ++ b). rewrite Split_app by done.
    by apply ztake_app.
Qed.

(** A fourth byte between 1 and 9. *)
Lemma digit_1_9 d : bz x31 <= bz d <= bz x39 <-> d ∈ str "123456789".
Proof.
  rewrite list_elem_of_In. split.
  - intros [H1 H2]. destruct d; cbn in H1, H2; try lia; cbn; tauto.
  - intros H. assert (E : forallb (fun d => (bz x31 <=? bz d) && (bz d <=? bz x39)) (str "123456789") = true)
      by reflexivity.
    rewrite forallb_forall in E. apply E in H. by unbool.
Qed.

Lemma port_name prefix stem :
  len prefix = 3 ->
  (len stem = 4 /\ HasPrefix stem prefix = true /\ bz x31 <= bz (stem !!! 3%nat) <= bz x39) <->
  stem ∈ (fun d => prefix ++ [d]) <$> str "123456789".
Proof.
  intros Hp. rewrite list_elem_of_fmap. split.
  - intros (Hl & [r ->]%HasPrefix_iff & Hd). rewrite len_app, Hp in Hl.
    destruct r as [|d [|d' r]]; [unfold len in Hl; cbn in Hl; lia | |
      rewrite !len_cons in Hl; pose proof (len_nonneg r); lia].
    exists d. split; [done|]. apply digit_1_9.
    by rewrite lookup_total_app_r in Hd by (unfold len in Hp; lia);
      replace (3 - length prefix)%nat with 0%nat in Hd by (unfold len in Hp; lia).
  - intros (d & -> & Hd%digit_1_9). rewrite len_app, Hp. split; [done|].
    split; [apply HasPrefix_iff; by exists [d]|].
    rewrite lookup_total_app_r by (unfold len in Hp; lia).
    by replace (3 - length prefix)%nat with 0%nat by (unfold len in Hp; lia).
Qed.

Lemma reservedDeviceName_iff seg :
  reservedDeviceName seg = true <-> device_stem seg ∈ device_names.
Proof.
  unfold reservedDeviceName, device_stem, device_names. cbv zeta. rewrite stem_Split.
  set (stem := ToUpper (hd [] (Split seg dot))). rewrite !elem_of_app.
  rewrite <- !port_name by done.
  rewrite !elem_of_cons.
  case_decide as Hd; [tauto|].
  destruct (Z.eqb_spec (len stem) 4) as [Hl|Hl]; cbn [andb]; [|split; [done|set_solver]].
  destruct (HasPrefix stem (str "COM")), (HasPrefix stem (str "LPT")); cbn [orb andb];
    rewrite ?andb_true_iff, ?Z.leb_le; split; try done; set_solver.
Qed.

Lemma badSegment_false seg : badSegment seg = false <-> seg = [] \/ seg_allowed seg.
Proof.
  unfold badSegment, seg_allowed. case_decide as H0; [tauto|].
  case_decide as H1; [split; [done | intuition]|].
  destruct (byte_eqb (List.last seg x00) dot) eqn:E1;
    [apply byte_eqb_eq in E1; split; [done | intuition]|].
  destruct (byte_eqb (List.last seg x00) x20) eqn:E2;
    [apply byte_eqb_eq in E2; split; [done | intuition]|].
  assert (List.last seg x00 <> dot) by (intros E; by apply byte_eqb_eq in E; congruence).
  assert (List.last seg x00 <> x20) by (intros E; by apply byte_eqb_eq in E; congruence).
  cbn [orb]. rewrite <- reservedDeviceName_iff, not_true_iff_false. intuition.
Qed.

Lemma existsb_false {A} (f : A -> bool) l :
  existsb f l = false <-> Forall (fun x => f x = false) l.
Proof.
  induction l as [|x l IH]; cbn; [by split|]. rewrite orb_false_iff, Forall_cons. by rewrite IH.
Qed.

(** An empty segment before the last one puts two slashes in a row. *)
Lemma join_slash_empty a c cs :
  exists before after, slash :: join_slash (a ++ [] :: c :: cs) = before ++ [slash; slash] ++ after.
Proof.
  induction a as [|x a (before & after & IH)].
  - by exists [], (join_slash (c :: cs)).
  - exists ([slash] ++ x ++ before), after.
    assert (E : join_slash ((x :: a) ++ [] :: c :: cs) = x ++ slash :: join_slash (a ++ [] :: c :: cs))
      by (by destruct a).
    rewrite E, IH. by rewrite <- !app_assoc.
Qed.

(** Segments joined by slashes hold no two slashes in a row. *)
Lemma checkPath_segments p :
  HasPrefix p [slash] = true -> Contains p [slash; slash] = false ->
  (existsb badSegment (Split (zdrop 1 p) slash) = false <->
   exists segs tail, Forall seg_allowed segs /\ Forall (fun seg => slash ∉ seg) segs /\
     (tail = [] \/ tail = [slash] /\ segs <> []) /\ p = slash :: join_slash segs ++ tail).
Proof.
  intros [rest ->]%HasPrefix_iff Hc. rewrite zdrop_app, existsb_false by done. cbn [app].
  split.
  - intros Hs. pose proof (Split_no_sep rest slash) as Hn.
    pose proof (join_Split rest) as Ej.
    assert (Hsegs : Forall (fun seg => seg = [] \/ seg_allowed seg) (Split rest slash)).
    { eapply Forall_impl; [exact Hs|]. intros seg. apply badSegment_false. }
    destruct (exists_last (Split_cons_ne rest slash)) as (segs & last & E).
    rewrite E in *. apply Forall_app in Hsegs as [Hsegs Hlast].
    apply Forall_app in Hn as [Hn Hnl]. apply Forall_cons in Hlast as [Hlast _].
    apply Forall_cons in Hnl as [Hnl _].
    assert (Hne : forall a b seg, segs = a ++ seg :: b -> seg <> []).
    { intros a b seg -> ->. apply not_true_iff_false in Hc. apply Hc, Contains_iff.
      rewrite <- Ej, <- app_assoc. cbn [app]. destruct (b ++ [last]) as [|c cs] eqn:Eb; [by destruct b|].
      apply join_slash_empty. }
    assert (Hall : Forall seg_allowed segs).
    { apply Forall_forall. intros seg Hin. pose proof Hin as (a & b & Es)%list_elem_of_split.
      rewrite Forall_forall in Hsegs. destruct (Hsegs _ Hin) as [->|]; [|done].
      by destruct (Hne _ _ _ Es). }
    destruct (decide (last = [])) as [->|Hl].
    + destruct (decide (segs = [])) as [->|Hsn].
      * exists [], []. rewrite <- Ej. repeat split; auto.
      * exists segs, [slash]. rewrite <- Ej, join_slash_snoc by done. repeat split; auto.
    + exists (segs ++ [last]), []. rewrite app_nil_r, Ej. destruct Hlast as [->|Hlast]; [done|].
      repeat split; auto; apply Forall_app; auto.
  - intros (segs & tail & Hs & Hn & Ht & [= ->]).
    assert (Hok : Forall (fun seg => badSegment seg = false) segs).
    { eapply Forall_impl; [exact Hs|]. intros seg ?. apply badSegment_false. by right. }
    destruct Ht as [-> | [-> Hne]].
    + rewrite app_nil_r. destruct (decide (segs = [])) as [->|]; [by repeat constructor|].
      by rewrite Split_join.
    + rewrite <- (app_nil_r [slash]), Split_app_gen, Split_join by done.
      apply Forall_app. split; [done|]. by repeat constructor.
Qed.

Lemma path_allowed_no_double p : path_allowed p -> Contains p [slash; slash] = false.
Proof.
  intros [(segs & tail & Hs & Hn & Ht & ->) _]. apply not_true_iff_false.
  intros (a & b & E)%Contains_iff.
  assert (Hsp : Split (slash :: join_slash segs ++ tail) slash =
    [] :: (if decide (segs = []) then [[]] else segs ++ (if decide (tail = []) then [] else [[]]))).
  { change (slash :: ?l) with ([] ++ [slash] ++ l). rewrite Split_app by set_solver. f_equal.
    destruct (decide (segs = [])) as [->|Hne]; [by destruct Ht as [-> | [-> ?]]|].
    destruct Ht as [-> | [-> _]]; [by rewrite !app_nil_r, Split_join|].
    by rewrite <- (app_nil_r [slash]), Split_app_gen, Split_join. }
  rewrite E in Hsp. change (a ++ [slash; slash] ++ b) with (a ++ [slash] ++ ([] ++ [slash] ++ b)) in Hsp.
  rewrite !Split_app_gen in Hsp. cbn [Split app] in Hsp.
  pose proof (Split_cons_ne a slash) as Ha. pose proof (Split_cons_ne b slash) as Hb.
  destruct (Split a slash) as [|sa ssa]; [done|]. injection Hsp as _ Hsp.
  destruct (decide (segs = [])).
  - destruct ssa as [|? [|? ?]]; [|done..]. injection Hsp as Hsp. done.
  - assert (Hin : forall x y, ssa ++ [] :: x :: y = segs ++ (if decide (tail = []) then [] else [[]]) -> False).
    { intros x y Hxy. rewrite Forall_forall in Hs.
      destruct (decide (tail = [])).
      - rewrite app_nil_r in Hxy. destruct (Hs []) as [? _]; [|done]. rewrite <- Hxy. set_solver.
      - destruct (exists_last (l := x :: y)) as (xy & z & Ez); [done|]. rewrite Ez in Hxy.
        change (ssa ++ [] :: xy ++ [z]) with (ssa ++ ([] :: xy) ++ [z]) in Hxy.
        rewrite app_assoc in Hxy. apply app_inj_tail in Hxy as [Hxy _].
        destruct (Hs []) as [? _]; [|done]. rewrite <- Hxy. set_solver. }
    destruct (Split b slash) as [|sb ssb]; [done|]. by apply Hin in Hsp.
Qed.

Lemma checkPath_Ok p : checkPath p = Ok () <-> path_allowed p.
Proof.
  unfold checkPath. split.
  - destruct (HasPrefix p [slash]) eqn:Ep; [|done].
    destruct (utf8_valid p) eqn:Eu; [|done].
    destruct (Contains p [slash; slash]) eqn:Ec; [done|]. cbn [negb orb].
    destruct (existsb badByte p) eqn:Eb; [done|].
    destruct (existsb badSegment _) eqn:Es; [done|]. intros _.
    apply checkPath_segments in Es; [|done..]. split; [done|]. split; [done|].
    apply existsb_false in Eb. eapply Forall_impl; [exact Eb|]. intros c. apply badByte_false.
  - intros Hp. pose proof (path_allowed_no_double p Hp) as Ec.
    destruct Hp as [Hsegs [Hu Hb]].
    assert (Ep : HasPrefix p [slash] = true) by (by destruct Hsegs as (? & ? & _ & _ & _ & ->)).
    rewrite Ep, Hu, Ec. cbn [negb orb].
    assert (existsb badByte p = false) as ->.
    { apply existsb_false. eapply Forall_impl; [exact Hb|]. intros c. apply badByte_false. }
    by rewrite (proj2 (checkPath_segments p Ep Ec) Hsegs).
Qed.

Lemma checkPath_result p : checkPath p = Ok () \/ checkPath p = Err errBadPath.
Proof. unfold checkPath. repeat case_match; auto. Qed.

Lemma seg_allowed_plain seg : seg_allowed seg -> slash ∉ seg -> plain seg.
Proof. by intros (? & ? & ? & _). Qed.

(** Where an allowed path leads below a root, before any link is followed. *)
Lemma allowed_path_join rs p segs tail :
  Forall plain rs -> Forall plain segs -> tail = [] \/ tail = [slash] ->
  p = slash :: join_slash segs ++ tail ->
  Join (abs_path rs) (Trim p slash) = abs_path (rs ++ segs).
Proof. intros Hr Hs Ht ->. by rewrite Trim_path, Join_abs_path. Qed.

Section ResolverFacts.
Context {FS : Type} `{FilesystemOk FS}.

(** A root as [newResolver] leaves it: clean, absolute and resolved. *)
Definition root_ok (r : resolver) : Prop := clean_abs (root r).

Lemma within_Ok fs r path q :
  root_ok r -> clean_abs path ->
  within fs r path = Ok q <->
  EvalSymlinks fs path = Ok q /\
  exists rs cs, root r = abs_path rs /\ q = abs_path (rs ++ cs) /\
    Forall plain rs /\ Forall plain cs.
Proof.
  intros (rs & Hrs & Er) Hp. unfold within.
  destruct (EvalSymlinks fs path) as [res|e] eqn:Ee; cbn; [|split; [done | by intros [? _]]].
  pose proof (EvalSymlinks_clean fs path res Hp Ee) as (ts & Hts & ->).
  rewrite Er. pose proof (Rel_inside rs ts Hrs Hts) as Hin. split.
  - destruct (Rel (abs_path rs) (abs_path ts)) as [rel|]; [|done].
    destruct (escapes rel) eqn:Esc; [done|]. intros [= <-]. split; [done|].
    destruct (proj1 Hin) as [k ->]; [by exists rel|]. exists rs, k.
    apply Forall_app in Hts as [_ Hk]. done.
  - intros [[= <-] (rs' & cs & Er' & Eq & Hrs' & Hcs)].
    apply abs_path_inj in Er' as <-; [|done..].
    apply abs_path_inj in Eq; [|done|by apply Forall_app].
    destruct (proj2 Hin) as (rel & -> & ->); [by exists cs | done].
Qed.

(** Whatever [open] opens lies below the root and has no link left in it. *)
Lemma open_target_inside fs r p t :
  root_ok r -> open_target fs r p = Ok t ->
  exists rs cs, root r = abs_path rs /\ t = abs_path (rs ++ cs) /\
    Forall plain rs /\ Forall plain cs /\ EvalSymlinks fs t = Ok t.
Proof.
  intros Hr Ho. unfold open_target in Ho.
  apply bind_Ok in Ho as ([] & _ & Ho). apply bind_Ok in Ho as (t1 & E1 & Ho).
  apply bind_Ok in Ho as (info & _ & Ho).
  assert (Hj : clean_abs (Join (root r) (Trim p slash))) by (by apply Join_clean_abs).
  pose proof E1 as [Ev1 (rs & cs & Er & -> & Hrs & Hcs)]%within_Ok; [|done..].
  assert (Hc1 : clean_abs (abs_path (rs ++ cs))) by (exists (rs ++ cs); split; [apply Forall_app; by split|done]).
  destruct (fi_isdir info).
  - assert (Hj2 : clean_abs (Join (abs_path (rs ++ cs)) (str "index.html")))
      by (by apply Join_clean_abs).
    pose proof Ho as [Ev2 (rs2 & cs2 & Er2 & -> & Hrs2 & Hcs2)]%within_Ok; [|done..].
    exists rs2, cs2. repeat (split; [done|]). by apply EvalSymlinks_resolved in Ev2.
  - destruct (HasSuffix p [slash]); [done|]. injection Ho as <-.
    exists rs, cs. repeat (split; [done|]). by apply EvalSymlinks_resolved in Ev1.
Qed.
End ResolverFacts.

(** ** On a tree without links *)

(** Links are what makes resolution differ from looking a path up.  Without
    them the server's answer is a lookup of the path's segments. *)
Definition entry (fs : memfs) (cs : list bytes) : option node :=
  if decide (cs = []) then Some Dir else nodes fs !! cs.

(** Every entry is in a directory, has a name of at most 255 bytes, and none
    is a link. *)
Definition tree_ok (fs : memfs) : Prop :=
  forall dir c nd, nodes fs !! (dir ++ [c]) = Some nd ->
    entry fs dir = Some Dir /\ len c <= 255 /\ forall t, nd <> Link t.

Definition opened (cs : list bytes) (handles : Z) (nd : option node) :
    result resolve_error (file * fileinfo) * Z :=
  match nd with
  | Some (Regular size data) =>
    let fi := node_info (List.last cs []) (Regular size data) in
    (Ok ({| f_stat := Ok fi; f_data := whole data |}, fi), handles + 1)
  | Some Unreadable => (Err (OsErr ErrPermission), handles)
  | _ => (Err errNotFound, handles)
  end.

Definition lookup_open (fs : memfs) (rs segs : list bytes) (trailing : bool) (handles : Z) :
    result resolve_error (file * fileinfo) * Z :=
  let cs := rs ++ segs in
  match entry fs cs with
  | Some Dir =>
    let index := cs ++ [str "index.html"] in opened index handles (entry fs index)
  | nd => if trailing then (Err errNotFound, handles) else opened cs handles nd
  end.

Lemma entry_snoc fs dir c : entry fs (dir ++ [c]) = nodes fs !! (dir ++ [c]).
Proof. unfold entry. rewrite decide_False; [done|]. by destruct dir. Qed.

Lemma place_entry fs cs : place fs cs -> entry fs cs = Some Dir.
Proof.
  destruct cs as [|c cs _] using rev_ind; [done|]. rewrite entry_snoc. intros [_ Hd].
  by destruct (Hd cs c []).
Qed.

(** Only directories have entries below them. *)
Lemma entry_below fs dir cs :
  tree_ok fs -> cs <> [] -> entry fs dir <> Some Dir -> entry fs (dir ++ cs) = None.
Proof.
  intros Ht. induction cs as [|c cs IH] using rev_ind; [done|]. intros _ Hd.
  rewrite app_assoc, entry_snoc. destruct (nodes fs !! _) eqn:E; [|done].
  apply Ht in E as (E & _). destruct (decide (cs = [])) as [->|Hc].
  - by rewrite app_nil_r in E.
  - by rewrite IH in E.
Qed.

Lemma walk_tree fs budget at_ segs :
  tree_ok fs -> place fs at_ -> Forall plain segs ->
  or_missing (walk fs budget at_ segs) =
    match entry fs (at_ ++ segs) with Some _ => Ok (at_ ++ segs) | None => Err errNotFound end.
Proof.
  intros Ht. revert at_. induction segs as [|c segs IH]; intros at_ Hat Hs.
  { rewrite app_nil_r, place_entry by done. by destruct budget. }
  apply Forall_cons in Hs as [Hc Hs]. pose proof Hc as (Hc1 & Hc2 & Hc3 & _).
  assert (Hstep : walk fs budget at_ (c :: segs) =
    if 255 <? len c then Err ENAMETOOLONG
    else match nodes fs !! (at_ ++ [c]) with
         | None => Err ErrNotExist
         | Some Dir => walk fs budget (at_ ++ [c]) segs
         | Some _ => if decide (segs = []) then Ok (at_ ++ [c]) else Err ENOTDIR
         end).
  { assert (forall t, nodes fs !! (at_ ++ [c]) <> Some (Link t)) as Hnl.
    { intros t E. apply Ht in E as (_ & _ & Hn). by destruct (Hn t). }
    destruct budget; cbn -[nodes Split dotdot rooted];
      rewrite decide_False, decide_False by tauto; (case_match; [done|]);
      (destruct (nodes fs !! (at_ ++ [c])) as [[]|]; try done; by destruct (Hnl target)). }
  rewrite Hstep. clear Hstep.
  change (c :: segs) with ([c] ++ segs). rewrite app_assoc.
  destruct (nodes fs !! (at_ ++ [c])) as [nd|] eqn:En.
  - pose proof (Ht _ _ _ En) as (_ & Hl & Hnl). rewrite (proj2 (Z.ltb_ge _ _)) by done.
    assert (Hfile : nd <> Dir -> segs <> [] -> entry fs ((at_ ++ [c]) ++ segs) = None).
    { intros Hd Hne. apply entry_below; [done..|]. rewrite entry_snoc, En. congruence. }
    destruct nd; try by (case_decide as E;
      [subst segs; by rewrite app_nil_r, entry_snoc, En | by rewrite Hfile]).
    apply IH; [|done]. by apply place_snoc.
  - assert (entry fs ((at_ ++ [c]) ++ segs) = None) as ->.
    { destruct (decide (segs = [])) as [->|]; [by rewrite app_nil_r, entry_snoc|].
      apply entry_below; [done..|]. by rewrite entry_snoc, En. }
    by case_match.
Qed.

Lemma or_missing_Ok {A} (m : result oserr A) a : or_missing m = Ok a <-> m = Ok a.
Proof. destruct m; cbn; split; congruence. Qed.

Lemma walk_tree_path fs cs :
  tree_ok fs -> Forall plain cs ->
  or_missing (walk fs max_links [] (Split (abs_path cs) slash)) =
    match entry fs cs with Some _ => Ok cs | None => Err errNotFound end.
Proof.
  intros Ht Hcs. rewrite walk_abs_path by done.
  by apply (walk_tree fs max_links [] cs Ht (place_nil fs)).
Qed.

Lemma within_tree fs rs segs :
  tree_ok fs -> Forall plain rs -> Forall plain segs ->
  within fs (MkResolver (abs_path rs)) (abs_path (rs ++ segs)) =
    match entry fs (rs ++ segs) with
    | Some _ => Ok (abs_path (rs ++ segs)) | None => Err errNotFound end.
Proof.
  intros Ht Hr Hs. assert (Hrs : Forall plain (rs ++ segs)) by (by apply Forall_app).
  pose proof (walk_tree_path fs _ Ht Hrs) as Hw.
  unfold within, EvalSymlinks. cbn [memfs_Filesystem root]. unfold mem_EvalSymlinks.
  destruct (walk fs max_links [] (Split (abs_path (rs ++ segs)) slash)) as [cs|e]; cbn in Hw |- *.
  - destruct (entry fs (rs ++ segs)); [|done]. injection Hw as ->.
    destruct (proj2 (Rel_inside rs (rs ++ segs) Hr Hrs)) as (rel & -> & ->); [by exists segs|done].
  - destruct (entry fs (rs ++ segs)); [done|]. by injection Hw as ->.
Qed.

Lemma mem_find_tree fs cs nd :
  tree_ok fs -> Forall plain cs -> entry fs cs = Some nd ->
  exists name, mem_find fs (abs_path cs) = Ok (name, nd) /\ (cs <> [] -> name = List.last cs []).
Proof.
  intros Ht Hcs He. pose proof (walk_tree_path fs cs Ht Hcs) as Hw. rewrite He in Hw.
  apply or_missing_Ok in Hw. unfold mem_find. rewrite Hw, components_abs_path by done. cbn.
  unfold entry in He. destruct cs as [|c cs]; [injection He as <-; by exists [slash]|].
  rewrite decide_False in He by done. rewrite He. by eexists.
Qed.

Lemma open_opened fs cs handles nd :
  tree_ok fs -> Forall plain cs -> cs <> [] -> entry fs cs = Some nd ->
  match or_missing (Open fs (abs_path cs)) with
  | Err e => (Err e, handles)
  | Ok f =>
    match f_stat f with
    | Err e => (Err (OsErr e), handles + 1 - 1)
    | Ok fi => if negb (fi_regular fi) then (Err errNotFound, handles + 1 - 1)
               else (Ok (f, fi), handles + 1)
    end
  end = opened cs handles (Some nd).
Proof.
  intros Ht Hcs Hne He. destruct (mem_find_tree fs cs nd Ht Hcs He) as (name & Hf & Hn).
  specialize (Hn Hne) as ->. unfold Open. cbn [memfs_Filesystem]. unfold mem_Open. rewrite Hf.
  destruct nd; cbn; rewrite ?Z.add_simpl_r; try done.
Qed.

Lemma index_plain : plain (str "index.html").
Proof. repeat split; [done..|]. apply (bool_decide_eq_true_1 (slash ∉ str "index.html")). reflexivity. Qed.

Lemma Join_index cs :
  Forall plain cs -> Join (abs_path cs) (str "index.html") = abs_path (cs ++ [str "index.html"]).
Proof.
  intros Hcs. change (str "index.html") with (join_slash [str "index.html"]) at 1.
  apply Join_abs_path; [done | apply Forall_singleton, index_plain].
Qed.

Lemma open_tree fs rs segs p tail handles :
  tree_ok fs -> Forall plain rs -> entry fs rs = Some Dir ->
  Forall plain segs -> checkPath p = Ok () ->
  p = slash :: join_slash segs ++ tail -> tail = [] \/ tail = [slash] ->
  open fs (MkResolver (abs_path rs)) p handles =
    lookup_open fs rs segs (HasSuffix p [slash]) handles.
Proof.
  intros Ht Hr Hrd Hs Hc Hp Htail.
  assert (Hrs : Forall plain (rs ++ segs)) by (by apply Forall_app).
  assert (Ej : Join (abs_path rs) (Trim p slash) = abs_path (rs ++ segs)).
  { by apply (allowed_path_join rs p segs tail). }
  assert (Hi : Forall plain (segs ++ [str "index.html"]))
    by (apply Forall_app; split; [done | apply Forall_singleton, index_plain]).
  assert (Hri : Forall plain ((rs ++ segs) ++ [str "index.html"]))
    by (apply Forall_app; split; [done | apply Forall_singleton, index_plain]).
  unfold open, open_target. rewrite Hc. cbn [mbind result_bind root]. rewrite Ej, within_tree by done.
  unfold lookup_open. destruct (entry fs (rs ++ segs)) as [nd|] eqn:E; cbn [mbind result_bind];
    [|by destruct (HasSuffix p [slash])].
  destruct (mem_find_tree fs _ nd Ht Hrs E) as (name & Hf & _).
  unfold Stat. cbn [memfs_Filesystem]. unfold mem_Stat at 1. rewrite Hf. cbn [mbind result_bind mret or_missing].
  assert (Hfile : fi_isdir (node_info name nd) = false -> (rs ++ segs) <> []).
  { intros Hd Hnil. rewrite Hnil in E. injection E as <-. done. }
  destruct (fi_isdir (node_info name nd)) eqn:Ed.
  - destruct nd; try done. rewrite Join_index, <- app_assoc, within_tree, app_assoc by done.
    set (idx := (rs ++ segs) ++ [str "index.html"]).
    destruct (entry fs idx) as [nd|] eqn:Ei; [|done].
    rewrite <- (open_opened fs idx handles nd); try done. by destruct (rs ++ segs).
  - transitivity (if HasSuffix p [slash] then (Err errNotFound, handles)
                  else opened (rs ++ segs) handles (Some nd)); [|by destruct nd].
    destruct (HasSuffix p [slash]); [done|].
    rewrite <- (open_opened fs (rs ++ segs) handles nd); by try apply Hfile.
Qed.

(** ** Properties *)

Section ResolverProps.
Context {FS : Type} `{FilesystemOk FS}.

Lemma newResolver_root_ok fs cwd dir r :
  (forall d, cwd = Ok d -> clean_abs d) ->
  newResolver fs cwd dir = Ok r -> root_ok r /\ EvalSymlinks fs (root r) = Ok (root r).
Proof.
  intros Hcwd Hn. unfold newResolver in Hn.
  apply bind_Ok in Hn as (abs & Ha & Hn). apply bind_Ok in Hn as (real & Er & Hn).
  apply bind_Ok in Hn as (info & _ & Hn). destruct (negb _); [done|]. injection Hn as <-.
  assert (Hc : clean_abs abs).
  { destruct (if rooted dir then Ok (Clean dir) else dir' ← cwd; Ok (Join dir' dir)) eqn:E; [|done].
    injection Ha as ->. destruct (rooted dir) eqn:Ed.
    - injection E as <-. by apply Clean_rooted.
    - apply bind_Ok in E as (d & Ed' & [= <-]). by apply Join_clean_abs, Hcwd. }
  destruct (EvalSymlinks fs abs) as [q|] eqn:Ee; [|done]. injection Er as <-.
  split; [by eapply EvalSymlinks_clean | by eapply EvalSymlinks_resolved].
Qed.

Lemma open_target_bad fs r p : open_target fs r p = Err errBadPath <-> ~ path_allowed p.
Proof.
  rewrite <- checkPath_Ok. unfold open_target.
  destruct (checkPath_result p) as [-> | ->]; [|cbn; split; [by intros _ ?|done]].
  assert (Hw : forall path, within fs r path <> Err errBadPath).
  { intros path. unfold within. destruct (EvalSymlinks fs path) as [q|e]; cbn.
    - destruct (Rel (root r) q); [by case_match|done].
    - by destruct e. }
  assert (Hm : forall e, missingOr e <> errBadPath) by (by intros []).
  split; [|by intros []]. cbn. intros E.
  pose proof (Hw (Join (root r) (Trim p slash))) as Hw1.
  destruct (within fs r (Join (root r) (Trim p slash))) as [t|e]; cbn in E; [|congruence].
  destruct (Stat fs t) as [info|e]; cbn in E; [|by injection E as E; apply Hm in E].
  destruct (fi_isdir info); [by apply Hw in E|]. by case_match.
Qed.

Lemma open_handles fs r p h :
  match open fs r p h with
  | (Ok (f, fi), h') =>
      h' = h + 1 /\ f_stat f = Ok fi /\ fi_regular fi = true /\
      exists t, open_target fs r p = Ok t /\ Open fs t = Ok f
  | (Err e, h') => h' = h /\ (e = errBadPath <-> ~ path_allowed p)
  end.
Proof.
  assert (Hm : forall e, missingOr e <> errBadPath) by (by intros []).
  pose proof (open_target_bad fs r p) as Hb. unfold open.
  destruct (open_target fs r p) as [t|e] eqn:Et.
  - assert (Hok : forall e : resolve_error, e <> errBadPath -> e = errBadPath <-> ~ path_allowed p).
    { intros e He. split; [done|]. intros Hn. by apply Hb in Hn. }
    destruct (Open fs t) as [f|e] eqn:Eo; cbn; [|split; [done | by apply Hok]].
    destruct (f_stat f) as [fi|e] eqn:Es; [|split; [lia | by apply Hok]].
    destruct (fi_regular fi) eqn:Er; cbn; [|split; [lia | by apply Hok]].
    repeat split; try done. by exists t.
  - split; [done|]. rewrite <- Hb. split; congruence.
Qed.

(** (C29) The path rules: [checkPath] accepts exactly the paths of section 11.1 of
    protocol/SPEC.md -- a slash, then segments that are not empty, not "." or
    "..", do not end in a dot or a space and are not a device name, separated
    by single slashes and with at most one slash at the end, in UTF-8 without
    control characters or the forbidden punctuation -- and answers
    [errBadPath] for every other string. *)
Theorem checkPath_rules p :
  (checkPath p = Ok () <-> path_allowed p) /\
  (checkPath p = Err errBadPath <-> ~ path_allowed p).
Proof.
  pose proof (checkPath_Ok p) as Hok. split; [done|]. rewrite <- Hok.
  destruct (checkPath_result p) as [-> | ->]; split; congruence.
Qed.

(** (C8) Containment: whatever file [open] hands out was opened at a path with no
    symbolic link left in it that lies at or below the resolver's root, for
    an allowed request path; the info is the open handle's own and says the
    file is regular; and one handle was taken. *)
Theorem open_contained fs cwd dir r p h f fi h' :
  (forall d, cwd = Ok d -> clean_abs d) ->
  newResolver fs cwd dir = Ok r ->
  open fs r p h = (Ok (f, fi), h') ->
  exists rs cs, let t := abs_path (rs ++ cs) in
    root r = abs_path rs /\ Forall plain rs /\ Forall plain cs /\
    EvalSymlinks fs t = Ok t /\ Open fs t = Ok f /\
    f_stat f = Ok fi /\ fi_regular fi = true /\ path_allowed p /\ h' = h + 1.
Proof.
  intros Hcwd Hnew Ho. apply newResolver_root_ok in Hnew as [Hr _]; [|done].
  pose proof (open_handles fs r p h) as Hh. rewrite Ho in Hh.
  destruct Hh as (-> & Hs & Hreg & t & Ht & Hop).
  pose proof (open_target_inside fs r p t Hr Ht) as (rs & cs & Er & -> & Hrs & Hcs & He).
  exists rs, cs. repeat (split; [done|]). split; [|done].
  apply bind_Ok in Ht as ([] & Hc & _). by apply checkPath_Ok.
Qed.

(** (C34) A failed [open] leaves no handle behind, and it fails with [errBadPath]
    exactly on the paths that are not allowed. *)
Theorem open_failure fs r p h e h' :
  open fs r p h = (Err e, h') -> h' = h /\ (e = errBadPath <-> ~ path_allowed p).
Proof. intros Ho. pose proof (open_handles fs r p h) as Hh. by rewrite Ho in Hh. Qed.

(** (C35) A path that leads outside the root, through whatever links, gets the
    same answer as one that names nothing, so that a probe learns nothing. *)
Theorem open_outside_looks_missing fs r p q h :
  root_ok r -> path_allowed p ->
  EvalSymlinks fs (Join (root r) (Trim p slash)) = Ok q ->
  (forall rs cs, root r = abs_path rs -> Forall plain rs -> Forall plain cs -> q <> abs_path (rs ++ cs)) ->
  open fs r p h = (Err errNotFound, h) /\
  (forall FS' (fs' : FS') (H' : Filesystem FS'),
     EvalSymlinks fs' (Join (root r) (Trim p slash)) = Err ErrNotExist ->
     open fs' r p h = (Err errNotFound, h)).
Proof.
  intros Hr Hp Hq Hout. apply checkPath_Ok in Hp. split.
  - unfold open, open_target. rewrite Hp. cbn [mbind result_bind].
    assert (Ew : within fs r (Join (root r) (Trim p slash)) = Err errNotFound).
    { destruct (within fs r _) as [t|e] eqn:Ew.
      - apply within_Ok in Ew as [Et (rs & cs & Er & -> & Hrs & Hcs)]; [|done|by apply Join_clean_abs].
        rewrite Hq in Et. injection Et as ->. by destruct (Hout rs cs).
      - unfold within in Ew. rewrite Hq in Ew. cbn in Ew. by repeat case_match. }
    by rewrite Ew.
  - intros FS' fs' H' He. unfold open, open_target, within. rewrite Hp. cbn. by rewrite He.
Qed.
End ResolverProps.

(** A tree with a link inside the root and one that leads out of it. *)
Definition sample_fs : memfs := MkMemfs (list_to_map
  [ ([str "srv"], Dir); ([str "srv"; str "www"], Dir);
    ([str "srv"; str "www"; str "index.html"], Regular 5 (str "hello"));
    ([str "srv"; str "www"; str "here"], Link (str "../www/index.html"));
    ([str "srv"; str "www"; str "out"], Link (str "/etc/passwd"));
    ([str "etc"], Dir); ([str "etc"; str "passwd"], Regular 4 (str "root")) ]).

Definition sample_root : resolver := MkResolver (abs_path [str "srv"; str "www"]).

Lemma sample_root_ok : root_ok sample_root.
Proof.
  exists [str "srv"; str "www"]. split; [|done].
  repeat constructor; try done; apply (bool_decide_eq_true_1 (slash ∉ _)); reflexivity.
Qed.

Lemma open_contained_witness :
  exists f fi, open sample_fs sample_root (str "/here") 0 = (Ok (f, fi), 1) /\
  exists rs cs, let t := abs_path (rs ++ cs) in
    root sample_root = abs_path rs /\ Forall plain rs /\ Forall plain cs /\
    EvalSymlinks sample_fs t = Ok t /\ Open sample_fs t = Ok f /\
    f_stat f = Ok fi /\ fi_regular fi = true /\ path_allowed (str "/here") /\ 1 = 0 + 1.
Proof.
  eexists _, _. split; [vm_compute; reflexivity|].
  eapply (open_contained sample_fs (Err ErrNotExist) (str "/srv//www/.")); [by intros| |].
  - vm_compute. reflexivity.
  - vm_compute. reflexivity.
Defined.

Lemma open_failure_witness :
  open sample_fs sample_root (str "/a/../b") 7 = (Err errBadPath, 7) /\
  ~ path_allowed (str "/a/../b").
Proof.
  assert (Ho : open sample_fs sample_root (str "/a/../b") 7 = (Err errBadPath, 7))
    by (vm_compute; reflexivity).
  split; [exact Ho|]. by apply (open_failure sample_fs _ _ _ _ _ Ho).
Defined.

Lemma open_outside_looks_missing_witness :
  open sample_fs sample_root (str "/out") 0 = (Err errNotFound, 0).
Proof.
  refine (proj1 (open_outside_looks_missing sample_fs sample_root (str "/out")
                   (str "/etc/passwd") 0 _ _ _ _)).
  - apply sample_root_ok.
  - apply checkPath_Ok. vm_compute. reflexivity.
  - vm_compute. reflexivity.
  - intros rs cs Hr Hrs _ E. destruct sample_root_ok as (ds & Hds & Er).
    rewrite Hr in Er. apply abs_path_inj in Er as ->; [|done..].
    assert (Heq : abs_path [str "srv"; str "www"] = abs_path ds) by (by rewrite <- Hr).
    apply (f_equal components) in Heq. rewrite (components_abs_path ds) in Heq by done.
    vm_compute in Heq. subst ds. vm_compute in E. done.
Defined.

(** (C27) On a tree without links, serving is looking up: [open] answers with the
    regular file at the path's segments below the root, with a directory's
    index.html, and with not-found (or the permission error) in every other
    case, among them a file asked for with a trailing slash. *)
Theorem open_is_lookup fs rs segs p tail handles :
  tree_ok fs -> Forall plain rs -> entry fs rs = Some Dir ->
  Forall seg_allowed segs -> Forall (fun seg => slash ∉ seg) segs -> path_allowed p ->
  p = slash :: join_slash segs ++ tail -> tail = [] \/ tail = [slash] ->
  open fs (MkResolver (abs_path rs)) p handles =
    lookup_open fs rs segs (HasSuffix p [slash]) handles.
Proof.
  intros Ht Hr Hrd Hs Hn Hp E Htail.
  apply (open_tree fs rs segs p tail); try done; [|by apply checkPath_Ok].
  apply Forall_forall. intros seg Hin. rewrite Forall_forall in Hs, Hn.
  apply seg_allowed_plain; auto.
Qed.

Definition sample_tree : memfs := MkMemfs (list_to_map
  [ ([str "www"], Dir); ([str "www"; str "index.html"], Regular 5 (str "hello")) ]).

Lemma sample_tree_ok : tree_ok sample_tree.
Proof.
  intros dir c nd E. unfold sample_tree, nodes in E. cbn [list_to_map foldr fst snd] in E.
  apply lookup_insert_Some in E as [[Ek <-]|[_ E]].
  { change [str "www"] with ([] ++ [str "www"]) in Ek. by apply app_inj_tail in Ek as [<- <-]. }
  apply lookup_insert_Some in E as [[Ek <-]|[_ E]]; [|by rewrite lookup_empty in E].
  change [str "www"; str "index.html"] with ([str "www"] ++ [str "index.html"]) in Ek.
  by apply app_inj_tail in Ek as [<- <-].
Qed.

Lemma open_is_lookup_witness :
  fst (open sample_tree (MkResolver (abs_path [str "www"])) (str "/") 0) =
  fst (lookup_open sample_tree [str "www"] [] true 0) /\
  is_ok (fst (lookup_open sample_tree [str "www"] [] true 0)) = true.
Proof.
  split; [|vm_compute; reflexivity]. apply (f_equal fst).
  refine (open_is_lookup sample_tree [str "www"] [] (str "/") [] 0 sample_tree_ok _ eq_refl
            (Forall_nil_2 _) (Forall_nil_2 _) _ eq_refl (or_introl eq_refl)).
  - apply Forall_singleton. repeat split; try done.
    apply (bool_decide_eq_true_1 (slash ∉ _)); reflexivity.
  - apply checkPath_Ok. vm_compute. reflexivity.
Defined.
