(* ===== verification/Quote.v ===== *)
(** * strconv.Quote

    The Go string literal the server logs for a request path.  Which runes
    beyond ASCII are printable is a table of the library's: the parameter
    [IsPrint]. *)

From S2P Require Import Prelude Utf8.

Definition dquote : byte := x22.
Definition backslash : byte := x5c.

Definition lowerhex : bytes := str "0123456789abcdef".
Definition hex_digit (n : Z) : byte := lowerhex !!! Z.to_nat (n mod 16).

(** [n] hexadecimal digits of [v], most significant first. *)
Fixpoint hex_digits (n : nat) (v : Z) : bytes :=
  match n with
  | O => []
  | S n => hex_digits n (v / 16) ++ [hex_digit v]
  end.

(** [utf8.DecodeRuneInString] on a string that starts with a byte of 0x80 or
    more: the rune and its width, or [None] for [(RuneError, 1)]. *)
Definition decode_rune (p : bytes) : option (Z * nat) :=
  match p with
  | a :: c1 :: p =>
    match utf8_first a with
    | Some (size, lo, hi) =>
      if negb (in_range lo hi c1) then None
      else if size =? 2 then Some (bz a mod 32 * 64 + bz c1 mod 64, 2%nat)
      else
        match p with
        | c2 :: p =>
          if negb (in_range 0x80 0xBF c2) then None
          else if size =? 3 then
            Some (bz a mod 16 * 4096 + bz c1 mod 64 * 64 + bz c2 mod 64, 3%nat)
          else
            match p with
            | c3 :: _ =>
              if negb (in_range 0x80 0xBF c3) then None
              else Some (bz a mod 8 * 262144 + bz c1 mod 64 * 4096 + bz c2 mod 64 * 64 + bz c3 mod 64, 4%nat)
            | [] => None
            end
        | [] => None
        end
    | None => None
    end
  | _ => None
  end.

Section Quote.
Context (IsPrint : Z -> bool).

(** [appendEscapedRune] for a rune below 0x80. *)
Definition escape_ascii (c : byte) : bytes :=
  if byte_eqb c dquote || byte_eqb c backslash then [backslash; c]
  else if (0x20 <=? bz c) && (bz c <? 0x7F) then [c]
  else
    match c with
    | x07 => [backslash; x61]
    | x08 => [backslash; x62]
    | x0c => [backslash; x66]
    | x0a => [backslash; x6e]
    | x0d => [backslash; x72]
    | x09 => [backslash; x74]
    | x0b => [backslash; x76]
    | _ => [backslash; x78] ++ hex_digits 2 (bz c)
    end.

(** The same for a rune of 0x80 or more, whose encoding is [enc]. *)
Definition escape_rune (r : Z) (enc : bytes) : bytes :=
  if IsPrint r then enc
  else if r <? 0x10000 then [backslash; x75] ++ hex_digits 4 r
  else [backslash; x55] ++ hex_digits 8 r.

(** The loop of [appendQuotedWith]; [fuel] bounds the runes left. *)
Fixpoint quote_loop (fuel : nat) (s : bytes) : bytes :=
  match fuel, s with
  | S fuel, c :: rest =>
    if bz c <? 0x80 then escape_ascii c ++ quote_loop fuel rest
    else
      match decode_rune s with
      | None => [backslash; x78] ++ hex_digits 2 (bz c) ++ quote_loop fuel rest
      | Some (r, width) => escape_rune r (take width s) ++ quote_loop fuel (drop width s)
      end
  | _, _ => []
  end.

Definition Quote (s : bytes) : bytes :=
  [dquote] ++ quote_loop (length s) s ++ [dquote].
End Quote.

(** A byte that does not move the cursor of a terminal or a log reader: not
    an ASCII control character. *)
Definition visible (c : byte) : Prop := 0x20 <= bz c /\ bz c <> 0x7F.

Lemma hex_digit_visible n : visible (hex_digit n) /\ hex_digit n <> dquote.
Proof.
  unfold hex_digit. pose proof (Z.mod_pos_bound n 16 ltac:(lia)) as Hb.
  remember (Z.to_nat (n mod 16)) as k eqn:Ek.
  assert (Hk : (k < 16)%nat) by lia. clear -Hk. unfold visible.
  do 16 (destruct k as [|k]; [by vm_compute|]). lia.
Qed.

Lemma hex_digits_visible n v : Forall visible (hex_digits n v).
Proof.
  revert v. induction n as [|n IH]; intros v; [constructor|]. cbn.
  apply Forall_app. split; [apply IH|]. apply Forall_singleton, hex_digit_visible.
Qed.

Lemma length_hex_digits n v : length (hex_digits n v) = n.
Proof. revert v. induction n as [|n IH]; intros v; [done|]. cbn. rewrite length_app, IH. cbn. lia. Qed.

Lemma escape_ascii_visible c :
  bz c < 0x80 -> Forall visible (escape_ascii c) /\ (length (escape_ascii c) <= 4)%nat.
Proof.
  intros Hc. assert (E : forallb (fun c => implb (bz c <? 0x80)
    (forallb (fun d => (0x20 <=? bz d) && negb (bz d =? 0x7F)) (escape_ascii c) &&
     (length (escape_ascii c) <=? 4)%nat)) (zb <$> seqZ 0 256) = true) by (vm_compute; reflexivity).
  rewrite forallb_forall in E. specialize (E c).
  rewrite (proj2 (Z.ltb_lt _ _) Hc) in E. cbn [implb] in E.
  apply andb_true_iff in E as [E1 E2].
  - split; [|by apply Nat.leb_le]. apply Forall_forall. intros d Hd.
    rewrite forallb_forall in E1. specialize (E1 d). rewrite <- list_elem_of_In in E1.
    apply E1 in Hd. unfold visible. unbool. lia.
  - apply list_elem_of_In, list_elem_of_fmap. exists (bz c). split; [by rewrite zb_bz|].
    apply elem_of_seqZ. apply bz_range.
Qed.

(** What the decoder takes is 2 to 4 bytes of 0x80 or more. *)
Lemma decode_rune_Some p r w :
  decode_rune p = Some (r, w) ->
  (2 <= w <= 4)%nat /\ (w <= length p)%nat /\ Forall (fun b => 0x80 <= bz b) (take w p).
Proof.
  unfold decode_rune. destruct p as [|a [|c1 p]]; try done.
  destruct (utf8_first a) as [[[size lo] hi]|] eqn:Ef; [|done].
  assert (Ha : 0x80 <= bz a /\ 0x80 <= lo) 
    by (apply utf8_first_Some in Ef as [(_ & ? & -> & _)|[(_ & ? & -> & _)|(_ & ? & -> & _)]];
        repeat case_match; lia).
  destruct (in_range lo hi c1) eqn:E1; [|done]. apply in_range_iff in E1. cbn [negb].
  assert (H1 : 0x80 <= bz c1) by lia.
  case_match; [intros [= _ <-]; cbn; rewrite !Forall_cons, Forall_nil; lia|].
  destruct p as [|c2 p]; [done|]. destruct (in_range 0x80 0xBF c2) eqn:E2; [|done].
  apply in_range_iff in E2. cbn [negb].
  case_match; [intros [= _ <-]; cbn; rewrite !Forall_cons, Forall_nil; lia|].
  destruct p as [|c3 p]; [done|]. destruct (in_range 0x80 0xBF c3) eqn:E3; [|done].
  apply in_range_iff in E3. intros [= _ <-]; cbn; rewrite !Forall_cons, Forall_nil; lia.
Qed.

Lemma backslash_visible : visible backslash.
Proof. by vm_compute. Qed.

Lemma escape_visible x n v : visible x -> Forall visible ([backslash; x] ++ hex_digits n v).
Proof.
  intros Hx. apply Forall_cons. split; [apply backslash_visible|].
  apply Forall_cons. split; [done | apply hex_digits_visible].
Qed.

Lemma escape_rune_visible IsPrint r enc :
  Forall (fun b => 0x80 <= bz b) enc -> (2 <= length enc <= 4)%nat ->
  (r < 0x10000 \/ length enc = 4%nat) ->
  Forall visible (escape_rune IsPrint r enc) /\
  (length (escape_rune IsPrint r enc) <= 4 * length enc)%nat.
Proof.
  intros He Hl Hr. unfold escape_rune.
  destruct (IsPrint r).
  { split; [|lia]. eapply Forall_impl; [exact He|]. intros b Hb. cbn in Hb. unfold visible. lia. }
  destruct (Z.ltb_spec r 0x10000) as [Hs|Hs]; rewrite length_app, length_hex_digits; cbn [length].
  - split; [by apply escape_visible|lia].
  - split; [by apply escape_visible|lia].
Qed.

Lemma decode_rune_big p r w : decode_rune p = Some (r, w) -> r < 0x10000 \/ w = 4%nat.
Proof.
  unfold decode_rune. destruct p as [|a [|c1 p]]; try done.
  destruct (utf8_first a) as [[[size lo] hi]|]; [|done].
  case_match; [done|].
  pose proof (Z.mod_pos_bound (bz a) 32 ltac:(lia)). pose proof (Z.mod_pos_bound (bz c1) 64 ltac:(lia)).
  pose proof (Z.mod_pos_bound (bz a) 16 ltac:(lia)).
  case_match; [intros [= <- <-]; lia|].
  destruct p as [|c2 p]; [done|]. pose proof (Z.mod_pos_bound (bz c2) 64 ltac:(lia)).
  case_match; [done|]. case_match; [intros [= <- <-]; lia|].
  destruct p as [|c3 p]; [done|]. case_match; [done|]. intros [= _ <-]. auto.
Qed.

Lemma quote_loop_visible IsPrint fuel s :
  Forall visible (quote_loop IsPrint fuel s) /\
  (length (quote_loop IsPrint fuel s) <= 4 * length s)%nat.
Proof.
  revert s. induction fuel as [|fuel IH]; intros [|c s]; cbn [quote_loop];
    try (split; [constructor|cbn; lia]).
  destruct (Z.ltb_spec (bz c) 0x80) as [Hc|Hc].
  - destruct (escape_ascii_visible c Hc) as [Hv Hl]. destruct (IH s) as [IHv IHl].
    rewrite length_app. cbn [length]. split; [by apply Forall_app|lia].
  - destruct (decode_rune (c :: s)) as [[r w]|] eqn:Ed.
    + destruct (decode_rune_Some _ _ _ Ed) as (Hw & Hlen & Hb).
      pose proof (decode_rune_big _ _ _ Ed) as Hbig.
      destruct (IH (drop w (c :: s))) as [IHv IHl].
      assert (Ht : length (take w (c :: s)) = w) by (rewrite length_take; lia).
      destruct (escape_rune_visible IsPrint r (take w (c :: s))) as [Hv Hl];
        [done | lia | rewrite Ht; tauto|].
      rewrite length_app. rewrite length_drop in IHl. split; [by apply Forall_app|lia].
    + destruct (IH s) as [IHv IHl]. rewrite !length_app, length_hex_digits. cbn [length]. split; [|lia].
      rewrite app_assoc. apply Forall_app. split; [by apply escape_visible|done].
Qed.
