(* ===== verification/Addr.v ===== *)
(** * Addresses and header options

    What [cmd/bcurl/main.go] reads from its command line: the target, with
    [net.SplitHostPort] and [net.JoinHostPort], and the header options, with
    [strings.Cut] and [strings.TrimSpace]. *)

From S2P Require Import Prelude GoIO Frame Headers Messages Paths.

Definition colon : byte := x3a.
Definition lbracket : byte := x5b.
Definition rbracket : byte := x5d.

(** ** strings and net *)

Definition LastIndexByte (s : bytes) (c : byte) : Z :=
  let i := IndexByte (rev s) c in if i <? 0 then -1 else len s - 1 - i.

Inductive addr_error : Type :=
  | missingPort
  | tooManyColons
  | missingBracket
  | unexpectedOpen
  | unexpectedClose.

(** [net.SplitHostPort] *)
Definition SplitHostPort (hostport : bytes) : result addr_error (bytes * bytes) :=
  let i := LastIndexByte hostport colon in
  if i <? 0 then Err missingPort
  else
    let finish (host : bytes) (j k : Z) :=
      if 0 <=? IndexByte (zdrop j hostport) lbracket then Err unexpectedOpen
      else if 0 <=? IndexByte (zdrop k hostport) rbracket then Err unexpectedClose
      else Ok (host, zdrop (i + 1) hostport) in
    if HasPrefix hostport [lbracket] then
      let last := IndexByte hostport rbracket in
      if last <? 0 then Err missingBracket
      else if last + 1 =? len hostport then Err missingPort
      else if last + 1 =? i then finish (ztake (last - 1) (zdrop 1 hostport)) 1 (last + 1)
      else if byte_eqb (hostport !!! Z.to_nat (last + 1)) colon then Err tooManyColons
      else Err missingPort
    else
      let host := ztake i hostport in
      if 0 <=? IndexByte host colon then Err tooManyColons
      else finish host 0 0.

(** [net.JoinHostPort] *)
Definition JoinHostPort (host port : bytes) : bytes :=
  if 0 <=? IndexByte host colon then [lbracket] ++ host ++ [rbracket; colon] ++ port
  else host ++ [colon] ++ port.

(** [parseTarget]: the address to dial and the path to request. *)
Definition parseTarget (target : bytes) : option (bytes * bytes) :=
  let i := IndexByte target slash in
  let '(authority, path) :=
    if 0 <=? i then (ztake i target, zdrop i target) else (target, [slash]) in
  match SplitHostPort authority with
  | Err _ => None
  | Ok (host, port) =>
    if (len host =? 0) || (len port =? 0) then None
    else Some (JoinHostPort host port, path)
  end.

(** ** The language of addresses *)

Lemma IndexByte_spec s c :
  (IndexByte s c = -1 /\ c ∉ s) \/
  exists a b, s = a ++ c :: b /\ c ∉ a /\ IndexByte s c = len a.
Proof.
  destruct (IndexByte_from_spec 0 s c) as [[? ?]|(a & b & ? & ? & ?)]; [done|by left|right].
  by exists a, b.
Qed.

Lemma LastIndexByte_spec s c :
  (LastIndexByte s c = -1 /\ c ∉ s) \/
  exists a b, s = a ++ c :: b /\ c ∉ b /\ LastIndexByte s c = len a.
Proof.
  unfold LastIndexByte. destruct (IndexByte_spec (rev s) c) as [[-> Hn]|(a & b & E & Ha & ->)].
  - left. split; [done|]. intros Hin. apply Hn. rewrite list_elem_of_In. apply -> in_rev.
    by rewrite <- list_elem_of_In.
  - right. exists (rev b), (rev a). pose proof (len_nonneg a).
    assert (Es : s = rev b ++ c :: rev a).
    { rewrite <- (rev_involutive s), E, rev_app_distr. cbn. by rewrite <- app_assoc. }
    split; [done|]. split.
    + intros Hin. apply Ha. rewrite list_elem_of_In in Hin |- *. by apply in_rev.
    + rewrite (proj2 (Z.ltb_ge (len a) 0)) by lia. rewrite Es, len_app, len_cons. unfold len.
      rewrite !length_rev. lia.
Qed.

(** Whether a byte is there. *)
Lemma IndexByte_found s c : (0 <=? IndexByte s c) = bool_decide (c ∈ s).
Proof.
  destruct (IndexByte_spec s c) as [[-> Hn]|(a & b & -> & Ha & ->)].
  - by rewrite bool_decide_false.
  - rewrite bool_decide_true; [|set_solver]. apply Z.leb_le. apply len_nonneg.
Qed.

(** Without brackets or colons. *)
Definition bare (b : bytes) : Prop := lbracket ∉ b /\ rbracket ∉ b.

(** An authority with its host and port: the host in brackets if it holds a
    colon, optionally otherwise. *)
Inductive host_port : bytes -> bytes -> bytes -> Prop :=
  | hp_plain h p : bare h -> bare p -> colon ∉ h -> colon ∉ p -> host_port (h ++ colon :: p) h p
  | hp_bracket h p : bare h -> bare p -> colon ∉ p ->
      host_port (lbracket :: h ++ rbracket :: colon :: p) h p.

(** The place of the only separator. *)
Lemma first_place a c b : c ∉ a -> IndexByte (a ++ c :: b) c = len a.
Proof.
  intros Ha. destruct (IndexByte_spec (a ++ c :: b) c) as [[_ Hn]|(a' & b' & E & Ha' & ->)]; [set_solver|].
  revert a' E Ha'. induction a as [|x a IH]; intros [|y a'] E Ha'; try done.
  - injection E as -> _. set_solver.
  - injection E as <- _. set_solver.
  - injection E as <- E. rewrite !len_cons. f_equal. apply (IH ltac:(set_solver) a' E). set_solver.
Qed.

Lemma last_place a c b : c ∉ b -> LastIndexByte (a ++ c :: b) c = len a.
Proof.
  intros Hb. unfold LastIndexByte.
  assert (E : rev (a ++ c :: b) = rev b ++ c :: rev a).
  { rewrite rev_app_distr. cbn. by rewrite <- app_assoc. }
  rewrite E, first_place.
  - rewrite (proj2 (Z.ltb_ge _ 0)) by apply len_nonneg. rewrite len_app, len_cons. unfold len. rewrite length_rev. lia.
  - intros Hin. apply Hb. rewrite list_elem_of_In in Hin |- *. by apply in_rev.
Qed.

Lemma zdrop_cons {X} (a : list X) x b : zdrop (len a + 1) (a ++ x :: b) = b.
Proof.
  change (a ++ x :: b) with (a ++ [x] ++ b). rewrite app_assoc. apply zdrop_app.
  rewrite len_app. done.
Qed.

(** The text of an address is split exactly when it is one. *)
Lemma SplitHostPort_host_port a h p : host_port a h p -> SplitHostPort a = Ok (h, p).
Proof.
  intros [h' p' [Hh1 Hh2] [Hp1 Hp2] Hch Hcp|h' p' [Hh1 Hh2] [Hp1 Hp2] Hcp]; unfold SplitHostPort.
  - rewrite last_place by done. rewrite (proj2 (Z.ltb_ge _ 0)) by apply len_nonneg.
    assert (HasPrefix (h' ++ colon :: p') [lbracket] = false) as ->.
    { destruct h' as [|x h']; [done|]. cbn. rewrite andb_true_r.
      destruct (byte_eqb lbracket x) eqn:E; [|done]. apply byte_eqb_eq in E as <-. set_solver. }
    rewrite ztake_app by done. rewrite !IndexByte_found, zdrop_cons.
    rewrite !bool_decide_false; [done|..]; change (zdrop 0 (h' ++ colon :: p')) with (h' ++ colon :: p');
      try done; rewrite elem_of_app, elem_of_cons; by intros [?|[?|?]].
  - rewrite !app_comm_cons. change (rbracket :: colon :: p') with ([rbracket] ++ colon :: p').
    rewrite app_assoc, last_place by done. rewrite (proj2 (Z.ltb_ge _ 0)) by apply len_nonneg.
    set (s := ((lbracket :: h') ++ [rbracket]) ++ colon :: p').
    assert (Es : s = (lbracket :: h') ++ rbracket :: colon :: p') by (unfold s; by rewrite <- app_assoc).
    change (HasPrefix s [lbracket]) with true. cbn iota.
    assert (IndexByte s rbracket = len (lbracket :: h')) as -> by (rewrite Es; apply first_place; set_solver).
    pose proof (len_nonneg h'). pose proof (len_nonneg p'). rewrite !len_cons.
    rewrite (proj2 (Z.ltb_ge _ 0)) by lia.
    assert (Hls : len s = len h' + len p' + 3) by (rewrite Es, len_app, !len_cons; lia).
    rewrite Hls, (proj2 (Z.eqb_neq _ (len h' + len p' + 3))) by lia.
    rewrite len_app, len_cons. change (len [rbracket]) with 1. rewrite Z.eqb_refl. cbv zeta.
    assert (H1 : zdrop 1 s = h' ++ rbracket :: colon :: p') by (by rewrite Es).
    assert (H2 : zdrop (1 + len h' + 1) s = colon :: p').
    { unfold s. apply zdrop_app. rewrite len_app, len_cons. done. }
    assert (H3 : zdrop (1 + len h' + 1 + 1) s = p').
    { unfold s. rewrite <- (zdrop_cons ((lbracket :: h') ++ [rbracket]) colon p') at 2. f_equal.
      rewrite len_app, len_cons. done. }
    rewrite !IndexByte_found, H1, H2, H3, ztake_app by lia.
    rewrite !bool_decide_false; [done|..].
    + rewrite elem_of_cons. by intros [?|?].
    + rewrite elem_of_app, !elem_of_cons. by intros [?|[?|[?|?]]].
Qed.

Lemma SplitHostPort_Ok a h p : SplitHostPort a = Ok (h, p) -> host_port a h p.
Proof.
  unfold SplitHostPort.
  destruct (LastIndexByte_spec a colon) as [[-> _]|(u & v & -> & Hv & ->)]; [done|].
  rewrite (proj2 (Z.ltb_ge _ 0)) by apply len_nonneg. cbv zeta. rewrite zdrop_cons, ztake_app by done.
  rewrite !IndexByte_found. destruct (HasPrefix (u ++ colon :: v) [lbracket]) eqn:Epre.
  - destruct u as [|x u]; [done|]. cbn [HasPrefix app] in Epre. rewrite andb_true_r in Epre. apply byte_eqb_eq in Epre as <-.
    destruct (IndexByte_spec ((lbracket :: u) ++ colon :: v) rbracket) as [[-> _]|(b1 & b2 & E & Hb & ->)]; [done|].
    rewrite (proj2 (Z.ltb_ge _ 0)) by apply len_nonneg.
    destruct (_ =? len _); [done|].
    destruct (Z.eqb_spec (len b1 + 1) (len (lbracket :: u))) as [El|El]; [|by destruct (byte_eqb _ _)].
    assert (Hu : lbracket :: u = b1 ++ [rbracket] /\ b2 = colon :: v).
    { change (rbracket :: b2) with ([rbracket] ++ b2) in E. rewrite app_assoc in E.
      apply app_inj_1 in E as [-> <-]; [done|]. rewrite length_app. unfold len in El. cbn in *. lia. }
    destruct Hu as [Hu ->]. destruct b1 as [|y b1]; [done|]. injection Hu as <- ->.
    assert (H1 : zdrop 1 ((lbracket :: b1 ++ [rbracket]) ++ colon :: v) = b1 ++ rbracket :: colon :: v).
    { cbn. by rewrite <- app_assoc. }
    rewrite H1, len_cons, ztake_app by lia.
    assert (H2 : zdrop (1 + len b1 + 1) ((lbracket :: b1 ++ [rbracket]) ++ colon :: v) = colon :: v).
    { apply zdrop_app. rewrite len_cons, len_app. change (len [rbracket]) with 1. lia. }
    rewrite H2. case_bool_decide as D1; [done|]. case_bool_decide as D2; [done|]. intros [= <- <-].
    cbn. rewrite <- app_assoc. cbn. apply hp_bracket; [split|split|]; set_solver.
  - case_bool_decide as D0; [done|].
    change (zdrop 0 (u ++ colon :: v)) with (u ++ colon :: v).
    case_bool_decide as D1; [done|]. case_bool_decide as D2; [done|]. intros [= <- <-].
    apply hp_plain; [split|split|..]; set_solver.
Qed.

Lemma JoinHostPort_host_port a h p : host_port a h p -> host_port (JoinHostPort h p) h p.
Proof.
  intros Hhp. assert (Hb : bare h /\ bare p /\ colon ∉ p) by (by destruct Hhp).
  destruct Hb as (? & ? & ?). unfold JoinHostPort. rewrite IndexByte_found. case_bool_decide.
  - by apply hp_bracket.
  - by apply hp_plain.
Qed.

(** (C30) The targets bcurl takes are exactly those of its usage line: a host
    and a port, neither empty, with the host in brackets if it holds colons,
    and then nothing or a path that starts with a slash.  The path asked for
    is that path, or a slash; the address dialled splits into the same host
    and port. *)
Theorem parseTarget_rules target addr path :
  parseTarget target = Some (addr, path) <->
  exists authority host port,
    host_port authority host port /\ host <> [] /\ port <> [] /\ slash ∉ authority /\
    (target = authority /\ path = [slash] \/ exists rest, path = slash :: rest /\ target = authority ++ path) /\
    addr = JoinHostPort host port /\ SplitHostPort addr = Ok (host, port).
Proof.
  assert (Hempty : forall b : bytes, (len b =? 0) = false <-> b <> []).
  { intros b. rewrite Z.eqb_neq. split; intros Hb E; apply Hb; [by rewrite E|by apply len_0_nil]. }
  assert (Hsplit : forall authority path',
    match SplitHostPort authority with
    | Err _ => None
    | Ok (host, port) =>
      if (len host =? 0) || (len port =? 0) then None else Some (JoinHostPort host port, path')
    end = Some (addr, path) <->
    path = path' /\ exists host port, host_port authority host port /\ host <> [] /\ port <> [] /\
      addr = JoinHostPort host port /\ SplitHostPort addr = Ok (host, port)).
  { intros authority path'. split.
    - destruct (SplitHostPort authority) as [[host port]|] eqn:E; [|done].
      destruct (len host =? 0) eqn:E1; [done|]. destruct (len port =? 0) eqn:E2; [done|]. cbn [orb].
      intros [= <- <-]. split; [done|]. exists host, port. apply SplitHostPort_Ok in E.
      rewrite Hempty in E1, E2. repeat split; try done. by eapply SplitHostPort_host_port, JoinHostPort_host_port.
    - intros (-> & host & port & Hhp & H1 & H2 & -> & _).
      rewrite (SplitHostPort_host_port _ _ _ Hhp), (proj2 (Hempty _) H1), (proj2 (Hempty _) H2). done. }
  unfold parseTarget. destruct (IndexByte_spec target slash) as [[-> Hn]|(a & b & -> & Ha & ->)].
  - cbn [Z.leb Z.compare]. rewrite Hsplit. split.
    + intros (-> & host & port & ? & ? & ? & ? & ?). exists target, host, port. repeat split; try done. by left.
    + intros (authority & host & port & ? & ? & ? & ? & Hp & ? & ?).
      destruct Hp as [[<- ->]|(rest & -> & ->)]; [|set_solver]. split; [done|]. by exists host, port.
  - rewrite (proj2 (Z.leb_le 0 (len a))) by apply len_nonneg. rewrite ztake_app, zdrop_app by done.
    rewrite Hsplit. split.
    + intros (-> & host & port & ? & ? & ? & ? & ?). exists a, host, port.
      repeat split; try done. right. by exists b.
    + intros (authority & host & port & ? & ? & ? & Hs & Hp & ? & ?).
      destruct Hp as [[<- ->]|(rest & -> & E)]; [set_solver|].
      assert (authority = a /\ rest = b) as [-> ->].
      { pose proof (first_place a slash b Ha) as L1. pose proof (first_place authority slash rest Hs) as L2.
        rewrite E in L1. rewrite L1 in L2. unfold len in L2.
        apply app_inj_1 in E as [-> E]; [|lia]. by injection E as ->. }
      split; [done|]. by exists host, port.
Qed.

Example parseTarget_samples :
  parseTarget (str "localhost:9000/docs/") = Some (str "localhost:9000", str "/docs/") /\
  parseTarget (str "[::1]:9000") = Some (str "[::1]:9000", str "/") /\
  parseTarget (str "::1:9000/") = None /\ parseTarget (str "localhost") = None.
Proof. vm_compute. done. Qed.

(** ** Header options *)

(** The encodings of the runes [unicode.IsSpace] accepts. *)
Definition spaces : list bytes :=
  [[x09]; [x0a]; [x0b]; [x0c]; [x0d]; [x20]; [xc2; x85]; [xc2; xa0]; [xe1; x9a; x80];
   [xe2; x80; x80]; [xe2; x80; x81]; [xe2; x80; x82]; [xe2; x80; x83]; [xe2; x80; x84];
   [xe2; x80; x85]; [xe2; x80; x86]; [xe2; x80; x87]; [xe2; x80; x88]; [xe2; x80; x89];
   [xe2; x80; x8a]; [xe2; x80; xa8]; [xe2; x80; xa9]; [xe2; x80; xaf]; [xe2; x81; x9f];
   [xe3; x80; x80]].

(** Leading members of a list of words; a turn takes a byte at least. *)
Fixpoint trim_words (fuel : nat) (words : list bytes) (s : bytes) : bytes :=
  match fuel, List.find (HasPrefix s) words with
  | S fuel, Some w => trim_words fuel words (zdrop (len w) s)
  | _, _ => s
  end.

(** [strings.TrimSpace] *)
Definition TrimSpace (s : bytes) : bytes :=
  let s := trim_words (length s) spaces s in
  rev (trim_words (length s) (rev (A:=byte) <$> spaces) (rev s)).

(** [strings.TrimLeft(s, blanks)] for blank and tab. *)
Fixpoint TrimBlanks (s : bytes) : bytes :=
  match s with
  | c :: s' => if byte_eqb c x20 || byte_eqb c x09 then TrimBlanks s' else s
  | [] => []
  end.

Inductive set_error : Type := NotNameValue | NotEncodable (e : encode_error).

(** [headerFlags.Set] *)
Definition headerFlags_Set (v : bytes) (h : list Header) : result set_error (list Header) :=
  let i := IndexByte v colon in
  let ok := 0 <=? i in
  let '(name, value) := if ok then (ztake i v, zdrop (i + 1) v) else (v, []) in
  let name := ToLower (TrimSpace name) in
  if negb ok || (len name =? 0) then Err NotNameValue
  else
    let hdr := NewHeader name (TrimBlanks value) in
    match Request_Encode {| req_method := MethodGet; req_path := [slash]; req_headers := [hdr] |} with
    | Err e => Err (NotEncodable e)
    | Ok _ => Ok (h ++ [hdr])
    end.

Example headerFlags_samples :
  headerFlags_Set (str " X-Demo :  hello: world ") [] = Ok [NewHeader (str "x-demo") (str "hello: world ")] /\
  headerFlags_Set (str "no colon") [] = Err NotNameValue /\
  headerFlags_Set (str "a b: c") [] = Err (NotEncodable (InvalidHeaderName (str "a b"))).
Proof. vm_compute. done. Qed.
