(* ===== verification/Flags.v ===== *)
(** * Command lines

    What the three programs use of packages flag and strconv: a flag set
    that goes on after errors ([flag.ContinueOnError]), booleans, integers.
    The values of the flags are a record of the program's own; a flag is a
    way to set it. *)

From S2P Require Import Prelude Paths.

(** ** strconv *)

(** [strconv.ParseBool] *)
Definition ParseBool (s : bytes) : option bool :=
  if bool_decide (s ∈ [str "1"; str "t"; str "T"; str "true"; str "TRUE"; str "True"]) then Some true
  else if bool_decide (s ∈ [str "0"; str "f"; str "F"; str "false"; str "FALSE"; str "False"]) then Some false
  else None.

Definition plus : byte := x2b.
Definition minus : byte := x2d.
Definition underscore : byte := x5f.

(** [lower] of strconv: the bit that tells the cases of a letter apart, set. *)
Definition lower (c : byte) : Z := Z.lor (bz c) 0x20.

Definition is_letter (c : byte) (last : Z) : bool := (0x61 <=? lower c) && (lower c <=? last).

(** The value of a digit, in bases up to 36. *)
Definition digit_value (c : byte) : option Z :=
  if is_digit c then Some (bz c - 0x30)
  else if is_letter c 0x7A then Some (lower c - 0x61 + 10)
  else None.

(** The loop of [ParseUint]; [under] lets underscores be skipped.  The sum is
    not bounded here but by the callers: the loop's own range error and theirs
    are the same to the programs. *)
Fixpoint parse_digits (under : bool) (base n : Z) (s : bytes) : option Z :=
  match s with
  | [] => Some n
  | c :: s =>
    if byte_eqb c underscore && under then parse_digits under base n s
    else
      match digit_value c with
      | Some d => if base <=? d then None else parse_digits under base (n * base + d) s
      | None => None
      end
  end.

(** The base and the digits of a number in base 0. *)
Definition base_prefix (s : bytes) : Z * bytes :=
  match s with
  | x30 :: c :: d :: s' =>
    if lower c =? 0x62 then (2, d :: s')
    else if lower c =? 0x6F then (8, d :: s')
    else if lower c =? 0x78 then (16, d :: s')
    else (8, c :: d :: s')
  | x30 :: s' => (8, s')
  | _ => (10, s)
  end.

(** What [underscoreOK] saw last. *)
Inductive seen : Type := SawStart | SawDigit | SawUnderscore | SawOther.

Fixpoint underscores_from (hex : bool) (i : seen) (s : bytes) : bool :=
  match s with
  | [] => match i with SawUnderscore => false | _ => true end
  | c :: s =>
    if is_digit c || (hex && is_letter c 0x66) then underscores_from hex SawDigit s
    else if byte_eqb c underscore then
      match i with SawDigit => underscores_from hex SawUnderscore s | _ => false end
    else
      match i with SawUnderscore => false | _ => underscores_from hex SawOther s end
  end.

(** [underscoreOK], on a number whose sign is off. *)
Definition underscoreOK (s : bytes) : bool :=
  match s with
  | x30 :: c :: s' =>
    if (lower c =? 0x62) || (lower c =? 0x6F) || (lower c =? 0x78)
    then underscores_from (lower c =? 0x78) SawDigit s'
    else underscores_from false SawStart s
  | _ => underscores_from false SawStart s
  end.

(** [ParseUint(s, base, 64)] for base 10 or 0, without its bound. *)
Definition ParseUint (base0 : bool) (s : bytes) : option Z :=
  if len s =? 0 then None
  else
    let '(base, digits) := if base0 then base_prefix s else (10, s) in
    match parse_digits base0 base 0 digits with
    | None => None
    | Some n =>
      if base0 && bool_decide (underscore ∈ digits) && negb (underscoreOK s) then None else Some n
    end.

(** [ParseInt(s, base, 64)], and [Atoi] for base 10. *)
Definition ParseInt64 (base0 : bool) (s : bytes) : option Z :=
  let '(neg, s) :=
    match s with
    | c :: s' => if byte_eqb c plus then (false, s') else if byte_eqb c minus then (true, s') else (false, s)
    | [] => (false, [])
    end in
  match ParseUint base0 s with
  | None => None
  | Some un =>
    if neg then if 2 ^ 63 <? un then None else Some (- un)
    else if 2 ^ 63 <=? un then None else Some un
  end.

Definition Atoi (s : bytes) : option Z := ParseInt64 false s.

(** ** flag *)

Inductive flag_error : Type :=
  | BadSyntax (s : bytes)
  | ErrHelp
  | NotDefined (name : bytes)
  | InvalidBool (value name : bytes)
  | NeedsArgument (name : bytes)
  | InvalidValue (value name : bytes).

(** What a flag does to the values; a value it refuses is an error. *)
Inductive flag (S : Type) : Type :=
  | BoolFlag (set : bool -> S -> S)
  | ValueFlag (set : bytes -> S -> option S).
Arguments BoolFlag {S}.
Arguments ValueFlag {S}.

Definition equals : byte := x3d.

(** The name and the value of [name=value]; an equals sign is not first. *)
Definition cut_value (name : bytes) : bytes * option bytes :=
  match name with
  | [] => ([], None)
  | c :: rest =>
    let i := IndexByte rest equals in
    if 0 <=? i then (c :: ztake i rest, Some (zdrop (i + 1) rest)) else (name, None)
  end.

(** What an argument that is not the last of the flags says. *)
Inductive arg : Type :=
  | NotFlag                              (** the flags end before it *)
  | Terminator                           (** [--]: they end after it *)
  | BadFlag
  | Flag (name : bytes) (value : option bytes).

Definition flag_name (name : bytes) : arg :=
  match name with
  | [] => BadFlag
  | c :: _ =>
    if byte_eqb c minus || byte_eqb c equals then BadFlag
    else let '(name, value) := cut_value name in Flag name value
  end.

Definition read_arg (s : bytes) : arg :=
  match s with
  | c :: d :: rest =>
    if negb (byte_eqb c minus) then NotFlag
    else if byte_eqb d minus then match rest with [] => Terminator | _ => flag_name rest end
    else flag_name (d :: rest)
  | _ => NotFlag
  end.

Section Parse.
Context {S : Type} (formal : bytes -> option (flag S)).

(** [FlagSet.Parse]: the values, and the arguments after the flags. *)
Fixpoint Parse (args : list bytes) (st : S) : result flag_error (S * list bytes) :=
  match args with
  | [] => Ok (st, [])
  | s :: args' =>
    match read_arg s with
    | NotFlag => Ok (st, args)
    | Terminator => Ok (st, args')
    | BadFlag => Err (BadSyntax s)
    | Flag name value =>
      match formal name with
      | None => Err (if decide (name = str "help" \/ name = str "h") then ErrHelp else NotDefined name)
      | Some (BoolFlag set) =>
        match value with
        | None => Parse args' (set true st)
        | Some v =>
          match ParseBool v with
          | Some b => Parse args' (set b st)
          | None => Err (InvalidBool v name)
          end
        end
      | Some (ValueFlag set) =>
        match value, args' with
        | Some v, _ =>
          match set v st with Some st => Parse args' st | None => Err (InvalidValue v name) end
        | None, v :: args'' =>
          match set v st with Some st => Parse args'' st | None => Err (InvalidValue v name) end
        | None, [] => Err (NeedsArgument name)
        end
      end
    end
  end.
End Parse.

(** Values that every flag keeps related come out related, with the same
    arguments left or the same error. *)
Lemma Parse_related {S} (formal : bytes -> option (flag S)) (R : S -> S -> Prop) :
  (forall name set b x y, formal name = Some (BoolFlag set) -> R x y -> R (set b x) (set b y)) ->
  (forall name set v x y, formal name = Some (ValueFlag set) -> R x y ->
     match set v x, set v y with
     | Some x', Some y' => R x' y'
     | None, None => True
     | _, _ => False
     end) ->
  forall args x y, R x y ->
  match Parse formal args x, Parse formal args y with
  | Ok (x', rest), Ok (y', rest') => R x' y' /\ rest = rest'
  | Err e, Err e' => e = e'
  | _, _ => False
  end.
Proof.
  intros Hbool Hvalue args. remember (length args) as n eqn:Hn. revert args Hn.
  induction (lt_wf n) as [n _ IH]. intros [|s args] -> x y HR; [done|]. cbn [Parse].
  destruct (read_arg s) as [| | |name value]; try done.
  destruct (formal name) as [[set|set]|] eqn:Ef; [| |done].
  - destruct value as [v|]; [destruct (ParseBool v); [|done]|];
      (apply (IH (length args)); [cbn; lia|done|by eapply Hbool]).
  - destruct value as [v|]; [|destruct args as [|v args]; [done|]];
      specialize (Hvalue name set v x y Ef HR); destruct (set v x), (set v y); try done;
      (apply (IH (length args)); [cbn; lia|done|done]).
Qed.

(** What every flag keeps true of the values is true of the result. *)
Lemma Parse_invariant {S} (formal : bytes -> option (flag S)) (P : S -> Prop) :
  (forall name set b x, formal name = Some (BoolFlag set) -> P x -> P (set b x)) ->
  (forall name set v x x', formal name = Some (ValueFlag set) -> P x -> set v x = Some x' -> P x') ->
  forall args x x' rest, P x -> Parse formal args x = Ok (x', rest) -> P x'.
Proof.
  intros Hbool Hvalue args x x' rest Hx E.
  pose proof (Parse_related formal (fun a b => a = b /\ P a)) as Hrel.
  assert (H : match Parse formal args x, Parse formal args x with
    | Ok (a, r), Ok (b, r') => (a = b /\ P a) /\ r = r'
    | Err e, Err e' => e = e'
    | _, _ => False
    end); [|rewrite E in H; by destruct H as [[_ ?] _]].
  apply Hrel; [..|by split].
  - intros name set b a a' Ef [<- Ha]. split; [done|]. by eapply Hbool.
  - intros name set v a a' Ef [<- Ha]. destruct (set v a) eqn:Es; [|done]. split; [done|]. by eapply Hvalue.
Qed.

Example numbers :
  Atoi (str "+8080") = Some 8080 /\ Atoi (str "-1") = Some (-1) /\ Atoi (str "1_0") = None /\
  ParseInt64 true (str "1_000") = Some 1000 /\ ParseInt64 true (str "-0x1F") = Some (-31) /\
  ParseInt64 true (str "08") = None /\ ParseInt64 true (str "0") = Some 0 /\
  ParseInt64 true (str "1__0") = None /\ ParseInt64 true (str "0x_1") = Some 1 /\
  Atoi (str "9223372036854775808") = None /\ Atoi (str "-9223372036854775808") = Some (- 2 ^ 63).
Proof. vm_compute. done. Qed.
