(* ===== verification/Server.v ===== *)
(** * internal/server: one connection

    [request.go] and the connection half of [server.go]: what a server does
    with the connection it owns, from the first byte to the close.  The
    state is the buffered connection, the number of open file handles and
    the log; operations thread it.  Accepting, tracking and closing are in
    file Lifecycle.v. *)

From S2P Require Import Prelude GoIO Frame Utf8 Headers Messages Conn Paths OsFs Resolver Quote.

(** ** Configuration *)

Definition defaultIdleTimeout : Z := 30 * Second.
Definition defaultWriteTimeout : Z := 30 * Second.
Definition drainTime : Z := Second.
Definition drainBytes : Z := Z.shiftl 64 10.
Definition serverName : bytes := str "bserve/1".

Record Config : Type := MkConfig {
  cfg_Root : bytes;
  cfg_IdleTimeout : Z;
  cfg_WriteTimeout : Z;
  cfg_Logger : bool;
}.

(** The fields of [Server] that do not change after [New]. *)
Record Server : Type := MkServer {
  s_res : resolver;
  s_idleTimeout : Z;
  s_writeTimeout : Z;
  s_logger : bool;
}.

Definition New {FS} `{Filesystem FS} (fs : FS) (cwd : result oserr bytes) (cfg : Config) :
    result root_error Server :=
  res ← newResolver fs cwd (cfg_Root cfg);
  Ok {| s_res := res;
        s_idleTimeout :=
          if cfg_IdleTimeout cfg <=? 0 then defaultIdleTimeout else cfg_IdleTimeout cfg;
        s_writeTimeout :=
          if cfg_WriteTimeout cfg <=? 0 then defaultWriteTimeout else cfg_WriteTimeout cfg;
        s_logger := cfg_Logger cfg |}.

(** ** Errors, log lines and state *)

(** What makes [serveRequest] return an error: a response that cannot be
    built, a frame that cannot be written, or a body that ended early. *)
Inductive serve_error : Type :=
  | EncodeError (e : encode_error)
  | WriteError (e : frame_error)
  | bodyError (e : ioerr).

Inductive bad_request : Type :=
  | FlagsAreWrong
  | Undecodable (e : malformed)
  | PathNotAllowed.

(** One constructor per log statement, with its arguments; paths are those
    [printable] made.  The text of an error of the file system may repeat the
    path it is about, so [LogGet500] keeps the request's path [about]. *)
Inductive logline : Type :=
  | LogConnected
  | LogDisconnected
  | LogBadRequest (why : bad_request)
  | LogGet404 (path : bytes)
  | LogGet500 (path about : bytes) (e : resolve_error)
  | LogGet200 (path : bytes) (n : Z)
  | LogStatusFailed (e : serve_error)
  | LogErrorFrame
  | LogMidFrame
  | LogOversizedError
  | LogIdle
  | LogReadFailed (e : frame_error)
  | LogBody (e : serve_error)
  | LogWriteFailed (e : serve_error)
  | LogFail (msg : bytes).

(** The connection as [handle] holds it: [br] reads from the [conn] inside
    it, writes go to that [conn] directly. *)
Record hstate : Type := MkState {
  h_br : bufio conn;
  h_handles : Z;
  h_log : list logline;
}.

Definition h_conn (st : hstate) : conn := bf_src (h_br st).

Definition set_br (br : bufio conn) (st : hstate) : hstate :=
  MkState br (h_handles st) (h_log st).
Definition set_conn (c : conn) (st : hstate) : hstate :=
  set_br {| bf_buf := bf_buf (h_br st); bf_src := c |} st.
Definition set_handles (n : Z) (st : hstate) : hstate :=
  MkState (h_br st) n (h_log st).

Definition logf (s : Server) (l : logline) (st : hstate) : hstate :=
  if s_logger s then MkState (h_br st) (h_handles st) (h_log st ++ [l]) else st.

(** ** Writing *)

Definition write (s : Server) (f : Frame) (st : hstate) : option frame_error * hstate :=
  let '(err, c) := Write (SetWriteDeadline (s_writeTimeout s) (h_conn st)) f in
  (err, set_conn c st).

Definition sendResponse (s : Server) (stream status : Z) (headers : list Header)
    (endStream : bool) (st : hstate) : option serve_error * hstate :=
  match Response_Encode {| rsp_status := status; rsp_headers := headers |} with
  | Err e => (Some (EncodeError e), st)
  | Ok payload =>
    let f := {| fr_type := TypeResponse;
                fr_flags := if endStream then FlagEndStream else x00;
                fr_stream := stream; fr_payload := payload |} in
    let '(err, st) := write s f st in (WriteError <$> err, st)
  end.

Definition status_headers : list Header :=
  [NewHeader HeaderContentLength (str "0"); NewHeader HeaderServer serverName].

Definition sendStatus (s : Server) (stream status : Z) (st : hstate) :
    option serve_error * hstate :=
  sendResponse s stream status status_headers true st.

Definition reject (s : Server) (stream : Z) (why : bad_request) (st : hstate) :
    option serve_error * hstate :=
  sendStatus s stream 400 (logf s (LogBadRequest why) st).

(** ** Sending a file *)

(** The loop of [sendFile]: one DATA frame per turn.  The result is the count
    and the error [sendFile] returns. *)
Fixpoint sendFile_loop (s : Server) (fuel : nat) (stream : Z) (file : source)
    (size remaining : Z) (st : hstate) : Z * option serve_error * hstate :=
  if remaining <=? 0 then (size, None, st)
  else
    match fuel with
    | O => (size - remaining, Some (WriteError (IOError ErrFuel)), st)
    | S fuel =>
      let n := Z.min MaxPayload remaining in
      let '(chunk, err, file) := ReadFull n file in
      match err with
      | Some e => (size - remaining, Some (bodyError e), st)
      | None =>
        let remaining := remaining - n in
        let f := {| fr_type := TypeData;
                    fr_flags := if remaining =? 0 then FlagEndStream else x00;
                    fr_stream := stream; fr_payload := chunk |} in
        let '(err, st) := write s f st in
        match err with
        | Some e => (size - remaining, Some (WriteError e), st)
        | None => sendFile_loop s fuel stream file size remaining st
        end
      end
    end.

Definition file_headers (ctype : bytes) (size : Z) : list Header :=
  [NewHeader HeaderContentType ctype; NewHeader HeaderContentLength (FormatInt size);
   NewHeader HeaderServer serverName].

(** The fuel is one turn per [MaxPayload] bytes and one more. *)
Definition sendFile (s : Server) (stream : Z) (file : source) (size : Z) (ctype : bytes)
    (st : hstate) : Z * option serve_error * hstate :=
  let '(err, st) := sendResponse s stream 200 (file_headers ctype size) (size =? 0) st in
  match err with
  | Some e => (0, Some e, st)
  | None => sendFile_loop s (S (Z.to_nat (size / MaxPayload))) stream file size size st
  end.

(** ** Requests *)

(** [f.Flags&^frame.FlagEndStream != 0 || !f.Flags.Has(frame.FlagEndStream)] *)
Definition wrong_flags (fl : Flags) : bool :=
  negb (Z.ldiff (bz fl) (bz FlagEndStream) =? 0) || negb (Has fl FlagEndStream).

Section Handle.
Context {FS : Type} `{Filesystem FS} (IsPrint : Z -> bool) (fs : FS) (s : Server).

Definition printable (p : bytes) : bytes :=
  Quote IsPrint (if 120 <? len p then ztake 120 p ++ str "..." else p).

Definition serveRequest (f : Frame) (st : hstate) : option serve_error * hstate :=
  if wrong_flags (fr_flags f) then reject s (fr_stream f) FlagsAreWrong st
  else
    match DecodeRequest (fr_payload f) with
    | Err e => reject s (fr_stream f) (Undecodable e) st
    | Ok req =>
      let '(opened, handles) := open fs (s_res s) (req_path req) (h_handles st) in
      let st := set_handles handles st in
      match opened with
      | Err errBadPath => reject s (fr_stream f) PathNotAllowed st
      | Err errNotFound =>
        sendStatus s (fr_stream f) 404 (logf s (LogGet404 (printable (req_path req))) st)
      | Err e =>
        sendStatus s (fr_stream f) 500 (logf s (LogGet500 (printable (req_path req)) (req_path req) e) st)
      | Ok (file, info) =>
        let '(n, err, st) :=
          sendFile s (fr_stream f) (f_data file) (fi_size info) (contentType (fi_name info)) st in
        let st := match err with
                  | Some _ => st
                  | None => logf s (LogGet200 (printable (req_path req)) n) st
                  end in
        (err, set_handles (h_handles st - 1) st)
      end
    end.

(** ** Connection-level errors *)

Definition drain (c : conn) : conn :=
  Copy_Discard_Limit drainBytes (SetReadDeadline drainTime (CloseWrite c)).

Definition fail (code : Z) (msg : bytes) (st : hstate) : hstate :=
  let st := logf s (LogFail msg) st in
  match ConnError_Encode {| ce_code := code; ce_message := msg |} with
  | Err _ => st
  | Ok payload =>
    let '(err, st) :=
      write s {| fr_type := TypeError; fr_flags := x00; fr_stream := 0; fr_payload := payload |} st in
    match err with
    | Some _ => st
    | None => set_conn (drain (h_conn st)) st
    end
  end.

Definition onReadError (err : frame_error) (st : hstate) : hstate :=
  match err with
  | IOError EOF => st
  | ErrTruncated => logf s LogMidFrame st
  | ErrStreamZero => fail CodeInvalidStreamID (str "stream id 0 is not valid here") st
  | OversizeError typ _ =>
    if byte_eqb typ TypeError then logf s LogOversizedError st
    else fail CodeFrameTooLarge (str "frame payload is too large") st
  | IOError ErrTimeout => logf s LogIdle st
  | e => logf s (LogReadFailed e) st
  end.

Definition onServeError (err : serve_error) (st : hstate) : hstate :=
  match err with
  | bodyError _ =>
    fail CodeProtocolError (str "could not finish sending the response") (logf s (LogBody err) st)
  | _ => logf s (LogWriteFailed err) st
  end.

(** ** handle *)

(** The reading half of a turn of [handle]'s loop. *)
Definition next_frame (st : hstate) : result frame_error Frame * hstate :=
  let '(r, br) :=
    Read {| bf_buf := bf_buf (h_br st); bf_src := SetReadDeadline (s_idleTimeout s) (h_conn st) |} in
  (r, set_br br st).

(** The other half: the state, and whether the loop goes on. *)
Definition serve_frame (f : Frame) (st : hstate) : bool * hstate :=
  if byte_eqb (fr_type f) TypeRequest then
    let '(err, st) := serveRequest f st in
    match err with
    | Some e => (false, onServeError e st)
    | None => (true, st)
    end
  else if byte_eqb (fr_type f) TypeResponse || byte_eqb (fr_type f) TypeData then
    let '(err, st) := sendStatus s (fr_stream f) 400 st in
    match err with
    | Some e => (false, logf s (LogStatusFailed e) st)
    | None => (true, st)
    end
  else if byte_eqb (fr_type f) TypeError then (false, logf s LogErrorFrame st)
  else (true, st).

(** [None] if the fuel runs out. *)
Fixpoint handle_loop (fuel : nat) (st : hstate) : option hstate :=
  match fuel with
  | O => None
  | S fuel =>
    let '(r, st) := next_frame st in
    match r with
    | Err e => Some (onReadError e st)
    | Ok f =>
      let '(go_on, st) := serve_frame f st in
      if go_on then handle_loop fuel st else Some st
    end
  end.

(** Bytes the peer will still send: every turn that goes on takes twelve. *)
Definition input_left (st : hstate) : nat :=
  (length (bf_buf (h_br st)) + length (pending (h_conn st)))%nat.

(** [handle] up to its deferred [untrack]. *)
Definition handle (c : conn) (handles : Z) (log : list logline) : option hstate :=
  let st := logf s LogConnected (MkState (NewReader c) handles log) in
  st ← handle_loop (S (input_left st)) st;
  let st := logf s LogDisconnected st in
  Some (set_conn (Close (h_conn st)) st).
End Handle.
