(* ===== verification/ServerSpec.v ===== *)
(** * What a connection is answered

    The contract of the server's connection handler as frames: the answer to
    each frame a client may send, and the session they make.  File
    ServerProofs.v shows that [Server.handle] implements it. *)

From S2P Require Import Prelude GoIO Frame Headers Messages Net Paths OsFs Resolver Server.

Definition response_frame (stream status : Z) (hs : list Header) (endStream : bool) : Frame :=
  {| fr_type := TypeResponse; fr_flags := if endStream then FlagEndStream else x00;
     fr_stream := stream; fr_payload := response_bytes (MkResponse status hs) |}.

(** A response without a body. *)
Definition status_frame (stream status : Z) : Frame :=
  response_frame stream status status_headers true.

Definition data_frame (stream : Z) (endStream : bool) (p : bytes) : Frame :=
  {| fr_type := TypeData; fr_flags := if endStream then FlagEndStream else x00;
     fr_stream := stream; fr_payload := p |}.

(** DATA frames for the pieces of a body; the last one ends the stream if the
    body is complete. *)
Fixpoint data_frames (stream : Z) (complete : bool) (ps : list bytes) : list Frame :=
  match ps with
  | [] => []
  | [p] => [data_frame stream complete p]
  | p :: ps => data_frame stream false p :: data_frames stream complete ps
  end.

(** The first [n] pieces of at most [MaxPayload] bytes. *)
Fixpoint pieces (n : nat) (data : bytes) : list bytes :=
  match n with
  | O => []
  | S n => ztake MaxPayload data :: pieces n (zdrop MaxPayload data)
  end.

Definition pieces_for (size : Z) : nat := Z.to_nat ((size + MaxPayload - 1) / MaxPayload).

(** The DATA frames for [size] announced bytes of a file that holds [data]:
    all of them, or those before the first piece the data cannot fill. *)
Definition body_frames (stream size : Z) (data : bytes) : list Frame * bool :=
  if size <=? len data then
    (data_frames stream true (pieces (pieces_for size) (ztake size data)), true)
  else (data_frames stream false (pieces (Z.to_nat (len data / MaxPayload)) data), false).

Definition file_answer (stream size : Z) (ctype data : bytes) : list Frame * bool :=
  let '(frames, complete) := body_frames stream size data in
  (response_frame stream 200 (file_headers ctype size) (size =? 0) :: frames, complete).

Section Spec.
Context {FS : Type} `{Filesystem FS} (fs : FS) (res : resolver).

(** The answer to a request, and whether it was complete. *)
Definition request_answer (f : Frame) : list Frame * bool :=
  if wrong_flags (fr_flags f) then ([status_frame (fr_stream f) 400], true)
  else
    match DecodeRequest (fr_payload f) with
    | Err _ => ([status_frame (fr_stream f) 400], true)
    | Ok req =>
      match fst (open fs res (req_path req) 0) with
      | Err errBadPath => ([status_frame (fr_stream f) 400], true)
      | Err errNotFound => ([status_frame (fr_stream f) 404], true)
      | Err (OsErr _) => ([status_frame (fr_stream f) 500], true)
      | Ok (file, info) =>
        file_answer (fr_stream f) (fi_size info) (contentType (fi_name info))
          (rd_content (f_data file))
      end
    end.

(** The answer to any frame, and whether the connection goes on. *)
Definition reply (f : Frame) : list Frame * bool :=
  if byte_eqb (fr_type f) TypeRequest then
    let '(frames, complete) := request_answer f in
    if complete then (frames, true)
    else (frames ++ [error_frame CodeProtocolError (str "could not finish sending the response")], false)
  else if byte_eqb (fr_type f) TypeError then ([], false)
  else ([status_frame (fr_stream f) 400], true).

(** What the server says when reading fails. *)
Definition goodbye (e : frame_error) : list Frame :=
  match e with
  | ErrStreamZero => [error_frame CodeInvalidStreamID (str "stream id 0 is not valid here")]
  | OversizeError typ _ =>
    if byte_eqb typ TypeError then []
    else [error_frame CodeFrameTooLarge (str "frame payload is too large")]
  | _ => []
  end.

(** A session: the answers to the frames in order, up to the first that ends
    the connection, or the farewell for the error that ends the input. *)
Fixpoint session (frames : list Frame) (e : frame_error) : list Frame :=
  match frames with
  | [] => goodbye e
  | f :: frames =>
    let '(out, go_on) := reply f in
    out ++ if go_on then session frames e else []
  end.
End Spec.

(** ** The pieces of a body *)

Lemma concat_pieces n data : len data <= Z.of_nat n * MaxPayload -> List.concat (pieces n data) = data.
Proof.
  revert data. induction n as [|n IH]; intros data Hl; cbn [pieces List.concat].
  - destruct data; [done|]. rewrite len_cons in Hl. pose proof (len_nonneg data). lia.
  - rewrite IH; [apply ztake_zdrop|]. rewrite len_zdrop_max by done. unfold MaxPayload in *. lia.
Qed.

(** As many pieces as the data can fill. *)
Lemma concat_full_pieces n data :
  Z.of_nat n * MaxPayload <= len data ->
  data = List.concat (pieces n data) ++ zdrop (Z.of_nat n * MaxPayload) data.
Proof.
  revert data. induction n as [|n IH]; intros data Hl; [done|]. cbn [pieces List.concat].
  assert (Hd : len (zdrop MaxPayload data) = len data - MaxPayload)
    by (apply len_zdrop; unfold MaxPayload in *; lia).
  assert (zdrop (Z.of_nat (S n) * MaxPayload) data =
    zdrop (Z.of_nat n * MaxPayload) (zdrop MaxPayload data)) as ->.
  { unfold zdrop. rewrite drop_drop. f_equal. unfold MaxPayload. lia. }
  rewrite <- app_assoc, <- IH by lia. by rewrite ztake_zdrop.
Qed.

Lemma full_pieces n data :
  Z.of_nat n * MaxPayload <= len data -> Forall (fun p => len p = MaxPayload) (pieces n data).
Proof.
  revert data. induction n as [|n IH]; intros data Hl; [constructor|]. cbn [pieces]. constructor.
  - apply len_ztake. unfold MaxPayload in *. lia.
  - apply IH. rewrite len_zdrop; unfold MaxPayload in *; lia.
Qed.

Lemma length_pieces n data : length (pieces n data) = n.
Proof. revert data. induction n as [|n IH]; intros data; cbn; [done|]. by rewrite IH. Qed.

(** No piece is empty or over the limit, and all but the last are full. *)
Lemma pieces_sizes n data :
  (Z.of_nat n - 1) * MaxPayload < len data ->
  Forall (fun p => 1 <= len p <= MaxPayload) (pieces n data) /\
  Forall (fun p => len p = MaxPayload) (removelast (pieces n data)).
Proof.
  revert data. induction n as [|n IH]; intros data Hl; [by split|].
  assert (Hp : 1 <= len (ztake MaxPayload data) <= MaxPayload).
  { rewrite len_ztake_min by done. unfold MaxPayload in *. lia. }
  destruct n as [|n]; [split; [by apply Forall_singleton | constructor]|].
  destruct (IH (zdrop MaxPayload data)) as [H1 H2].
  { rewrite len_zdrop_max by done. unfold MaxPayload in *. lia. }
  cbn [pieces] in *. split; [by constructor|].
  change (removelast (?a :: ?b :: ?l)) with (a :: removelast (b :: l)).
  constructor; [|done]. rewrite len_ztake_min by done. unfold MaxPayload in *. lia.
Qed.

Lemma pieces_for_bounds size :
  0 <= size ->
  (Z.of_nat (pieces_for size) - 1) * MaxPayload < size \/ size = 0 /\ pieces_for size = 0%nat.
Proof.
  intros Hs. unfold pieces_for, MaxPayload. destruct (decide (size = 0)) as [->|]; [by right|].
  left. rewrite Z2Nat.id by zlia. zlia.
Qed.

Lemma pieces_for_enough size : 0 <= size -> size <= Z.of_nat (pieces_for size) * MaxPayload.
Proof. intros Hs. unfold pieces_for, MaxPayload. rewrite Z2Nat.id by zlia. zlia. Qed.

(** The DATA frames of a body carry its pieces in order on one stream, and
    END_STREAM is on the last and no other. *)
Lemma data_frames_payloads stream complete ps :
  fr_payload <$> data_frames stream complete ps = ps.
Proof.
  induction ps as [|p [|q ps] IH]; [done..|].
  change (p :: (fr_payload <$> data_frames stream complete (q :: ps)) = p :: q :: ps). by rewrite IH.
Qed.

Lemma data_frames_snoc stream complete ps p :
  data_frames stream complete (ps ++ [p]) =
    (data_frame stream false <$> ps) ++ [data_frame stream complete p].
Proof.
  induction ps as [|q ps IH]; [done|].
  assert (E : data_frames stream complete ((q :: ps) ++ [p]) =
    data_frame stream false q :: data_frames stream complete (ps ++ [p])) by (by destruct ps).
  rewrite E, IH. done.
Qed.

Lemma data_frames_cut stream ps :
  data_frames stream false ps = data_frame stream false <$> ps.
Proof.
  destruct ps as [|p ps _] using rev_ind; [done|]. by rewrite data_frames_snoc, fmap_app.
Qed.

Lemma body_frames_none stream data : body_frames stream 0 data = ([], true).
Proof. unfold body_frames. by rewrite (proj2 (Z.leb_le _ _)) by apply len_nonneg. Qed.

Lemma body_frames_short stream size data :
  0 < size -> len data < Z.min MaxPayload size -> body_frames stream size data = ([], false).
Proof.
  intros Hs Hl. unfold body_frames. rewrite (proj2 (Z.leb_gt _ _)) by lia.
  pose proof (len_nonneg data). by rewrite Z.div_small by lia.
Qed.

Lemma body_frames_step stream size data :
  0 < size -> let n := Z.min MaxPayload size in
  n <= len data ->
  body_frames stream size data =
    let '(frames, complete) := body_frames stream (size - n) (zdrop n data) in
    (data_frame stream (size - n =? 0) (ztake n data) :: frames, complete).
Proof.
  intros Hs n Hn. destruct (Z.eqb_spec (size - n) 0) as [E|E].
  - rewrite E, body_frames_none.
    assert (Hle : size <= MaxPayload) by (unfold n in E; lia). assert (n = size) as -> by lia.
    unfold body_frames.
    rewrite (proj2 (Z.leb_le _ _)) by lia.
    assert (pieces_for size = 1%nat) as ->.
    { unfold pieces_for, MaxPayload in *. apply Nat2Z.inj. rewrite Z2Nat.id by zlia. zlia. }
    cbn [pieces data_frames]. do 3 f_equal. unfold ztake. rewrite take_take.
    f_equal. unfold MaxPayload in *. lia.
  - assert (Hn' : n = MaxPayload) by (unfold n in *; lia).
    assert (Hle : MaxPayload < size) by (unfold n in *; lia). rewrite Hn' in *. clear n Hn'.
    unfold body_frames. rewrite len_zdrop by (unfold MaxPayload in *; lia).
    destruct (Z.leb_spec size (len data)) as [Hc|Hc].
    + rewrite (proj2 (Z.leb_le _ _)) by lia.
      assert (exists k, pieces_for (size - MaxPayload) = S k /\ pieces_for size = S (S k)) as (k & E1 & ->).
      { exists (pred (pieces_for (size - MaxPayload))). unfold pieces_for, MaxPayload in *.
        split; zlia. }
      rewrite E1. change (pieces (S (S k)) ?d) with (ztake MaxPayload d :: pieces (S k) (zdrop MaxPayload d)).
      assert (ztake MaxPayload (ztake size data) = ztake MaxPayload data) as ->.
      { unfold ztake. rewrite take_take. f_equal. unfold MaxPayload in *. lia. }
      assert (zdrop MaxPayload (ztake size data) = ztake (size - MaxPayload) (zdrop MaxPayload data)) as ->.
      { unfold ztake, zdrop. rewrite skipn_firstn_comm. f_equal. unfold MaxPayload in *. lia. }
      done.
    + rewrite (proj2 (Z.leb_gt _ _)) by lia.
      assert (Z.to_nat (len data / MaxPayload) = S (Z.to_nat ((len data - MaxPayload) / MaxPayload))) as ->.
      { unfold MaxPayload in *. zlia. }
      cbn [pieces]. by destruct (pieces (Z.to_nat _) (zdrop MaxPayload data)).
Qed.
