(* ===== verification/ServerProofs.v ===== *)
(** * The connection handler implements its contract

    On any network, what [Server.handle] emits is a prefix of the session of
    ServerSpec.v for the frames it read; on one that keeps the deadlines it
    is that session.  The handler terminates, closes the connection and gives
    every file handle back. *)

From S2P Require Import Prelude GoIO Frame Headers Messages Conn Net Paths OsFs Resolver.
From S2P Require Import Server ServerSpec.

(** ** What an operation writes and what it leaves alone *)

Definition out (st : hstate) : bytes := wr_out (h_conn st).
Definition input (st : hstate) : bytes := buffered (h_br st).

Definition healthy (s : Server) (T : Z) (st : hstate) : Prop :=
  prompt (s_idleTimeout s) (s_writeTimeout s) T (h_conn st).

(** [st'] is [st] after writing: the input side is untouched. *)
Record kept (s : Server) (st st' : hstate) : Prop := {
  kept_buf : bf_buf (h_br st') = bf_buf (h_br st);
  kept_in : c_in (h_conn st') = c_in (h_conn st);
  kept_fin : c_fin (h_conn st') = c_fin (h_conn st);
  kept_handles : h_handles st' = h_handles st;
  kept_healthy T : healthy s T st -> healthy s T st';
}.

(** At least a prefix of [bs] was written, all of it if [full]. *)
Definition emits (bs : bytes) (full : Prop) (st st' : hstate) : Prop :=
  exists k, out st' = out st ++ take k bs /\ (full -> (length bs <= k)%nat).

#[export] Instance kept_preorder s : PreOrder (kept s).
Proof.
  split; [by split|]. intros st1 st2 st3 [] []. split; try congruence; auto.
Qed.

Lemma emits_nil full st : emits [] full st st.
Proof. exists 0%nat. by rewrite app_nil_r. Qed.

Lemma emits_same bs (full : Prop) st st' : out st' = out st -> ~ full -> emits bs full st st'.
Proof. intros E Hf. exists 0%nat. by rewrite take_0, app_nil_r. Qed.

Lemma emits_trans b1 b2 (P : Prop) st st1 st2 :
  emits b1 True st st1 -> emits b2 P st1 st2 -> emits (b1 ++ b2) P st st2.
Proof.
  intros (k1 & E1 & F1) (k2 & E2 & F2). exists (length b1 + k2)%nat.
  rewrite E2, E1, (take_ge b1) by auto. split.
  - by rewrite take_app_add, app_assoc.
  - intros HP. rewrite length_app. specialize (F2 HP). lia.
Qed.

Lemma emits_more b1 b2 (P Q : Prop) st st1 : emits b1 P st st1 -> ~ Q -> emits (b1 ++ b2) Q st st1.
Proof.
  intros (k & E & _) Hq. exists (k `min` length b1)%nat. split; [|done].
  rewrite E, take_app_le by lia. f_equal.
  destruct (Nat.le_ge_cases k (length b1)).
  - by rewrite Nat.min_l.
  - by rewrite Nat.min_r, !take_ge.
Qed.

Lemma emits_weaken bs (P Q : Prop) st st' : emits bs P st st' -> (Q -> P) -> emits bs Q st st'.
Proof. intros (k & E & F) HQ. exists k. auto. Qed.

Lemma emits_out_eq bs P st st1 st2 : emits bs P st st1 -> out st2 = out st1 -> emits bs P st st2.
Proof. intros (k & E & F) E2. exists k. by rewrite E2. Qed.

Lemma kept_logf s l st : kept s st (logf s l st).
Proof. unfold logf. destruct (s_logger s); [|done]. by split. Qed.

Lemma out_logf s l st : out (logf s l st) = out st.
Proof. unfold logf. by destruct (s_logger s). Qed.

(** ** Writing a frame *)

Lemma write_spec s f st err st' :
  0 <= s_writeTimeout s -> sendable f -> write s f st = (err, st') ->
  kept s st st' /\ emits (wire 0 f) (err = None) st st' /\
  (forall T, healthy s T st -> err = None).
Proof.
  intros Ht Hs Hw. unfold write in Hw.
  destruct (Write (SetWriteDeadline (s_writeTimeout s) (h_conn st)) f) as [e c'] eqn:E.
  injection Hw as <- <-.
  apply Write_spec in E as ((Hin & Hfin & _) & Hp & Hk); [|done..].
  split; [|split; [exact Hk|]].
  - split; try done. intros T HT. by apply Hp.
  - intros T HT. by apply (Hp _ _ HT).
Qed.

(** What is known of an operation that sends [bs] and returns [err]. *)
Definition sends (s : Server) (bs : bytes) (delivered : Prop) (st st' : hstate) : Prop :=
  kept s st st' /\ emits bs delivered st st' /\ (forall T, healthy s T st -> delivered).

Lemma sends_trans s b1 b2 (P Q : Prop) st st1 st2 :
  P -> sends s b1 P st st1 -> sends s b2 Q st1 st2 -> sends s (b1 ++ b2) Q st st2.
Proof.
  intros HP (K1 & E1 & H1) (K2 & E2 & H2). split; [by etrans|]. split.
  - eapply emits_trans; [|done]. by eapply emits_weaken.
  - intros T HT. apply (H2 T). by apply K1.
Qed.

(** The first part failed, so the second was not tried. *)
Lemma sends_cut s b1 b2 (P Q : Prop) st st1 :
  ~ P -> ~ Q -> sends s b1 P st st1 -> sends s (b1 ++ b2) Q st st1.
Proof.
  intros HP HQ (K1 & E1 & H1). split; [done|]. split.
  - by eapply emits_more.
  - intros T HT. by destruct (HP (H1 T HT)).
Qed.

Lemma sends_nil s (P : Prop) st : P -> sends s [] P st st.
Proof. intros HP. split; [done|]. split; [apply emits_nil | done]. Qed.

Lemma sends_logf s bs P l st st' : sends s bs P (logf s l st) st' -> sends s bs P st st'.
Proof.
  intros (K & (k & E & F) & Hh). split; [etrans; [apply kept_logf|done]|]. split.
  - exists k. by rewrite out_logf in E.
  - intros T HT. apply (Hh T). by apply kept_logf.
Qed.

Lemma sends_logf_after s bs P l st st' : sends s bs P st st' -> sends s bs P st (logf s l st').
Proof.
  intros (K & E & Hh). split; [etrans; [done|apply kept_logf]|]. split; [|done].
  eapply emits_out_eq; [done | apply out_logf].
Qed.

(** ** Responses *)

Lemma header_ok_table name value :
  in_table name = true -> len value < 65536 -> header_ok (NewHeader name value).
Proof. intros. split; [done | by left]. Qed.

Lemma status_headers_ok : Forall header_ok status_headers.
Proof. repeat (apply Forall_cons; split; [by apply header_ok_table|]). apply Forall_nil. done. Qed.

Lemma sendResponse_spec s stream status hs endS st err st' :
  0 <= s_writeTimeout s -> stream <> 0 -> 100 <= status <= 599 -> len hs <= 255 ->
  Forall header_ok hs -> len (response_bytes (MkResponse status hs)) <= maxFramePayload ->
  sendResponse s stream status hs endS st = (err, st') ->
  sends s (wire 0 (response_frame stream status hs endS)) (err = None) st st' /\
  (err = None \/ exists e, err = Some (WriteError e)).
Proof.
  intros Ht Hs Hst Hl Hok Hb Hr. unfold sendResponse in Hr.
  assert (He : Response_Encode (MkResponse status hs) = Ok (response_bytes (MkResponse status hs)))
    by (by apply Response_Encode_Ok).
  rewrite He in Hr. change (MkFrame _ _ stream _) with (response_frame stream status hs endS) in Hr.
  destruct (write s (response_frame stream status hs endS) st) as [e st1] eqn:E.
  injection Hr as <- <-.
  apply write_spec in E as (K & Em & Hh); [|done|by split].
  split; [|destruct e; [right; by eexists | by left]]. split; [done|]. split.
  - eapply emits_weaken; [done|]. by destruct e.
  - intros T HT. by rewrite (Hh T HT).
Qed.

Lemma sendStatus_spec s stream status st err st' :
  0 <= s_writeTimeout s -> stream <> 0 -> 100 <= status <= 599 ->
  sendStatus s stream status st = (err, st') ->
  sends s (wires [status_frame stream status]) (err = None) st st' /\
  (err = None \/ exists e, err = Some (WriteError e)).
Proof.
  intros Ht Hs Hst Hr. unfold wires. cbn [fmap list_fmap List.concat]. rewrite app_nil_r.
  eapply sendResponse_spec; try done. apply status_headers_ok.
Qed.

(** ** Files *)

Lemma contentType_short name : len (contentType name) <= 24.
Proof.
  unfold contentType. destruct (contentTypes !! _) as [t|] eqn:E; [|by vm_compute].
  assert (Hall : map_Forall (fun _ t => len t <= 24) contentTypes)
    by (apply (bool_decide_eq_true_1 (map_Forall _ contentTypes)); vm_compute; reflexivity).
  by apply (Hall _ _ E).
Qed.

Lemma file_headers_ok ctype size :
  len ctype <= 24 -> 0 <= size < 9223372036854775808 -> Forall header_ok (file_headers ctype size).
Proof.
  intros Hc Hs. destruct (FormatInt_spec size Hs) as (_ & _ & Hl).
  unfold file_headers.
  repeat (apply Forall_cons; split; [apply header_ok_table; [done | (done || lia)]|]).
  by apply Forall_nil.
Qed.

Lemma file_response_fits ctype size :
  len ctype <= 24 -> 0 <= size < 9223372036854775808 ->
  len (response_bytes (MkResponse 200 (file_headers ctype size))) <= maxFramePayload.
Proof.
  intros Hc Hs. destruct (FormatInt_spec size Hs) as (_ & _ & Hl).
  unfold response_bytes, file_headers. cbn [rsp_status rsp_headers fmap list_fmap List.concat].
  assert (He : forall name v, in_table name = true -> len (encode_header (NewHeader name v)) = 3 + len v).
  { intros name v Hn. unfold encode_header, in_table in *. cbn [h_name h_value NewHeader].
    apply bool_decide_eq_true in Hn as [id ->]. rewrite len_app, len_value_wire, len_cons, len_nil. lia. }
  rewrite !len_app, len_put16, !He by done.
  change (len serverName) with 8. change (len [zb _]) with 1. change (@len byte []) with 0.
  unfold maxFramePayload. lia.
Qed.

(** The error means that everything was sent all the same: none, or a body
    that ended early. *)
Definition delivered (err : option serve_error) : Prop :=
  match err with None | Some (bodyError _) => True | Some _ => False end.

Definition int64 (n : Z) : Prop := 0 <= n < 9223372036854775808.

Lemma data_frame_sendable stream e p :
  stream <> 0 -> len p <= MaxPayload -> sendable (data_frame stream e p).
Proof. by split. Qed.

Lemma sendFile_loop_spec s fuel stream file size remaining st n err st' :
  0 <= s_writeTimeout s -> stream <> 0 -> 0 <= remaining ->
  remaining <= Z.of_nat fuel * MaxPayload ->
  sendFile_loop s fuel stream file size remaining st = (n, err, st') ->
  let '(frames, complete) := body_frames stream remaining (rd_content file) in
  sends s (wires frames) (delivered err) st st' /\
  (delivered err -> err = None <-> complete = true) /\ (err = None -> n = size).
Proof.
  intros Ht Hs. revert file remaining st.
  induction fuel as [|fuel IH]; intros file remaining st Hr Hf; cbn [sendFile_loop];
    destruct (Z.leb_spec remaining 0) as [H0|H0]; try lia.
  1-2: assert (remaining = 0) as -> by lia; rewrite body_frames_none; intros [= <- <- <-];
    by split; [apply sends_nil|].
  set (m := Z.min MaxPayload remaining).
  destruct (Z.lt_ge_cases (len (rd_content file)) m) as [Hm|Hm].
  { rewrite body_frames_short by done.
    destruct (ReadFull_short m file Hm) as (file' & -> & _ & _). intros [= <- <- <-].
    split; [by apply sends_nil|]. done. }
  rewrite body_frames_step by done. fold m.
  destruct (ReadFull_enough m file (ztake m (rd_content file)) (zdrop m (rd_content file)))
    as (file' & -> & Hc & _); [by rewrite ztake_zdrop | by apply len_ztake; unfold m, MaxPayload in *; lia|].
  set (f := data_frame stream (remaining - m =? 0) (ztake m (rd_content file))).
  change (write s _ st) with (write s f st). destruct (write s f st) as [werr st1] eqn:Ew.
  assert (Hsend : sendable f).
  { apply data_frame_sendable; [done|]. rewrite len_ztake_min by (unfold m, MaxPayload; lia). lia. }
  pose proof (write_spec _ _ _ _ _ Ht Hsend Ew) as (K & Em & Hh).
  destruct (body_frames stream (remaining - m) (zdrop m (rd_content file))) as [frames complete] eqn:Eb.
  rewrite wires_cons. destruct werr as [e|].
  { intros [= <- <- <-]. split; [|done]. eapply (sends_cut s _ _ (Some e = None)); [by intros ?|by intros []|done]. }
  intros Hloop. apply IH in Hloop; [| |].
  - rewrite Hc, Eb in Hloop. destruct Hloop as (Hsd & Hd & Hn).
    split; [|done]. by eapply (sends_trans s _ _ (None (A := frame_error) = None)).
  - unfold m, MaxPayload in *. lia.
  - unfold m, MaxPayload in *. lia.
Qed.

Lemma sendFile_spec s stream file size ctype st n err st' :
  0 <= s_writeTimeout s -> stream <> 0 -> int64 size -> len ctype <= 24 ->
  sendFile s stream file size ctype st = (n, err, st') ->
  let '(frames, complete) := file_answer stream size ctype (rd_content file) in
  sends s (wires frames) (delivered err) st st' /\
  (delivered err -> err = None <-> complete = true) /\ (err = None -> n = size).
Proof.
  intros Ht Hs Hsz Hct Hsf. unfold sendFile in Hsf. unfold file_answer.
  destruct (sendResponse s stream 200 (file_headers ctype size) (size =? 0) st) as [e st1] eqn:E.
  apply sendResponse_spec in E as [Hsend Hcases]; try done;
    [|by apply file_headers_ok | by apply file_response_fits].
  destruct (body_frames stream size (rd_content file)) as [frames complete] eqn:Eb.
  rewrite wires_cons. destruct e as [e|].
  - injection Hsf as <- <- <-. destruct Hcases as [?|[we [= ->]]]; [done|].
    split; [|done]. by eapply (sends_cut s _ _ (Some (WriteError we) = None)); [intros ?|intros []|].
  - apply sendFile_loop_spec in Hsf; [|done|done|by destruct Hsz|unfold MaxPayload, int64 in *; zlia].
    rewrite Eb in Hsf. destruct Hsf as (Hsd & Hd & Hn). split; [|done].
    by eapply (sends_trans s _ _ (None (A := serve_error) = None)).
Qed.

(** ** Requests *)

Lemma open_answer {FS} `{Filesystem FS} (fs : FS) r p h :
  fst (open fs r p h) = fst (open fs r p 0) /\
  snd (open fs r p h) = if is_ok (fst (open fs r p 0)) then h + 1 else h.
Proof.
  unfold open. destruct (open_target fs r p) as [t|e]; [|done].
  destruct (or_missing (Open fs t)) as [f|e]; [|done].
  destruct (f_stat f) as [fi|e]; [|cbn; split; [done|lia]].
  destruct (negb (fi_regular fi)); cbn; split; (done || lia).
Qed.

(** A handle that is given back was never taken. *)
Lemma sends_handle s bs P n st st' :
  sends s bs P (set_handles n st) st' ->
  sends s bs P st (set_handles (h_handles st) st').
Proof.
  intros (K & E & H). split; [|split].
  - destruct K as [K1 K2 K3 K4 K5]. split; try done.
  - exact E.
  - exact H.
Qed.

(** The sizes the operating system reports are those of an [int64]. *)
Definition files_sized {FS} `{Filesystem FS} (fs : FS) : Prop :=
  forall p f fi, Open fs p = Ok f -> f_stat f = Ok fi -> int64 (fi_size fi).

Lemma open_sized {FS} `{Filesystem FS} (fs : FS) r p h f fi :
  files_sized fs -> fst (open fs r p h) = Ok (f, fi) -> int64 (fi_size fi).
Proof.
  intros Hs Ho. unfold open in Ho. destruct (open_target fs r p) as [t|e]; [|done].
  destruct (Open fs t) as [f'|e] eqn:Eo; [|done]. cbn in Ho.
  destruct (f_stat f') as [fi'|e] eqn:Es; [|done].
  destruct (negb (fi_regular fi')); [done|]. injection Ho as <- <-. by eapply Hs.
Qed.

Section Requests.
Context {FS : Type} `{Filesystem FS} (IsPrint : Z -> bool) (fs : FS) (s : Server).
Context (Hsized : files_sized fs) (Ht : 0 <= s_writeTimeout s).

Lemma status_answer stream status st err st' :
  stream <> 0 -> 100 <= status <= 599 -> sendStatus s stream status st = (err, st') ->
  sends s (wires [status_frame stream status]) (delivered err) st st' /\
  (delivered err -> err = None <-> true = true).
Proof.
  intros Hs Hst E. apply sendStatus_spec in E as [Hsend Hcases]; [|done..].
  destruct Hsend as (K & Em & Hh). destruct Hcases as [-> | [e ->]]; (split; [|done]).
  - split; [done|]. split; [by eapply emits_weaken|done].
  - split; [done|]. split; [by eapply emits_weaken|]. intros T HT. by apply Hh in HT.
Qed.

Lemma logged_answer stream status l st err st' :
  stream <> 0 -> 100 <= status <= 599 -> sendStatus s stream status (logf s l st) = (err, st') ->
  sends s (wires [status_frame stream status]) (delivered err) st st' /\
  (delivered err -> err = None <-> true = true).
Proof.
  intros Hs Hst E. apply status_answer in E as [Hsend Hd]; [|done..]. split; [|done].
  by eapply sends_logf.
Qed.

Lemma serveRequest_spec f st err st' :
  fr_stream f <> 0 -> serveRequest IsPrint fs s f st = (err, st') ->
  let '(frames, complete) := request_answer fs (s_res s) f in
  sends s (wires frames) (delivered err) st st' /\
  (delivered err -> err = None <-> complete = true).
Proof.
  intros Hf. unfold serveRequest, request_answer, reject.
  destruct (wrong_flags (fr_flags f)); [by apply logged_answer|].
  destruct (DecodeRequest (fr_payload f)) as [req|e]; [|by apply logged_answer].
  pose proof (open_answer fs (s_res s) (req_path req) (h_handles st)) as [E1 E2].
  destruct (open fs (s_res s) (req_path req) (h_handles st)) as [opened handles] eqn:Eo.
  cbn [fst snd] in E1, E2. rewrite <- E1 in *.
  assert (Hsame : is_ok opened = false -> set_handles handles st = st).
  { intros Hok. rewrite Hok in E2. subst handles. by destruct st. }
  destruct opened as [[file info]|[| |e]].
  - destruct (sendFile s (fr_stream f) (f_data file) (fi_size info) (contentType (fi_name info))
                (set_handles handles st)) as [[n serr] st1] eqn:Esf.
    apply sendFile_spec in Esf; [|done|done| |apply contentType_short].
    2: { eapply (open_sized fs _ _ (h_handles st)); [done|]. by rewrite Eo. }
    destruct (file_answer _ _ _ _) as [frames complete]. destruct Esf as (Hsend & Hd & _).
    intros [= <- <-]. split; [|done].
    set (st2 := match serr with Some _ => st1 | None => _ end).
    assert (Hs2 : sends s (wires frames) (delivered serr) (set_handles handles st) st2).
    { destruct serr; [done|]. by apply sends_logf_after. }
    assert (h_handles st2 - 1 = h_handles st) as ->.
    { destruct Hs2 as ([_ _ _ Hk _] & _). rewrite Hk, E2. cbn. lia. }
    by eapply sends_handle.
  - rewrite Hsame by done. by apply logged_answer.
  - rewrite Hsame by done. by apply logged_answer.
  - rewrite Hsame by done. by apply logged_answer.
Qed.
End Requests.

(** ** Ending a connection *)

(** What is known of an operation after which the connection is closed. *)
Definition ends (s : Server) (bs : bytes) (st st' : hstate) : Prop :=
  emits bs (exists T, healthy s T st) st st' /\ h_handles st' = h_handles st.

Lemma ends_nil s st : ends s [] st st.
Proof. split; [apply emits_nil|done]. Qed.

Lemma ends_logf s bs l st st' : ends s bs (logf s l st) st' -> ends s bs st st'.
Proof.
  intros [(k & E & F) Hh]. rewrite out_logf in E. split.
  - exists k. split; [done|]. intros [T HT]. apply F. exists T. by apply kept_logf.
  - rewrite Hh. unfold logf. by destruct (s_logger s).
Qed.

Lemma ends_logged s l st : ends s [] st (logf s l st).
Proof. apply (ends_logf s [] l). apply ends_nil. Qed.

(** An operation that sent [b1] followed by one that ends the connection. *)
Lemma sends_ends s b1 b2 (P : Prop) st st1 st2 :
  P -> sends s b1 P st st1 -> ends s b2 st1 st2 -> ends s (b1 ++ b2) st st2.
Proof.
  intros HP (K & E1 & _) [E2 Hh]. split.
  - eapply emits_trans; [by eapply emits_weaken|]. eapply emits_weaken; [done|].
    intros [T HT]. exists T. by apply K.
  - rewrite Hh. apply K.
Qed.

(** An operation that failed to send [b1], after which nothing is sent. *)
Lemma sends_failed s b1 b2 (P : Prop) st st1 st2 :
  ~ P -> sends s b1 P st st1 -> out st2 = out st1 -> h_handles st2 = h_handles st1 ->
  ends s (b1 ++ b2) st st2 /\ forall T, ~ healthy s T st.
Proof.
  intros HP (K & E1 & Hh) Ho Hn. split; [|intros T HT; by apply HP, (Hh T)]. split.
  - eapply emits_out_eq; [|exact Ho]. eapply emits_more; [done|].
    intros [T HT]. by apply HP, (Hh T).
  - rewrite Hn. apply K.
Qed.

Lemma drain_out c : wr_out (drain c) = wr_out c.
Proof.
  unfold drain. destruct (Copy_Discard_Limit_steps drainBytes (SetReadDeadline drainTime (CloseWrite c)))
    as [d Hd]. apply conn_steps_ran in Hd as [_ _ -> _ _]. unfold CloseWrite.
  by destruct (c_halfcloses c).
Qed.

Lemma fail_spec s code msg st :
  0 <= s_writeTimeout s -> len msg <= 100 ->
  ends s (wires [error_frame code msg]) st (fail s code msg st).
Proof.
  intros Ht Hm. unfold fail. apply (ends_logf s _ (LogFail msg)).
  set (st0 := logf s (LogFail msg) st).
  assert (He : ConnError_Encode (MkConnError code msg) = Ok (put16 code ++ put16 (len msg) ++ msg)).
  { apply ConnError_Encode_Ok. cbn [ce_message ce_code]. unfold maxFramePayload. split; [lia|done]. }
  rewrite He. change (MkFrame TypeError x00 0 _) with (error_frame code msg).
  destruct (write s (error_frame code msg) st0) as [err st1] eqn:Ew.
  assert (Hs : sendable (error_frame code msg)).
  { split; [|done]. cbn [fr_payload error_frame]. rewrite !len_app, !len_put16. unfold MaxPayload. lia. }
  apply write_spec in Ew as (K & Em & Hh); [|done..].
  unfold wires. cbn [fmap list_fmap List.concat]. rewrite app_nil_r.
  assert (Hends : ends s (wire 0 (error_frame code msg)) st0 st1).
  { split; [|apply K]. eapply emits_weaken; [done|]. intros [T HT]. by apply Hh in HT. }
  destruct err as [e|]; [done|]. destruct Hends as [Hem Hn]. split; [|done].
  eapply emits_out_eq; [done|]. unfold out, h_conn at 1. cbn. apply drain_out.
Qed.

Lemma onReadError_spec s e st :
  0 <= s_writeTimeout s -> ends s (wires (goodbye e)) st (onReadError s e st).
Proof.
  intros Ht. unfold onReadError, goodbye.
  destruct e as [| | |typ l|e]; try apply ends_logged.
  - by apply fail_spec.
  - destruct (byte_eqb typ TypeError); [apply ends_logged | by apply fail_spec].
  - destruct e; (apply ends_nil || apply ends_logged).
Qed.

(** ** One frame *)

Lemma byte_eqb_neq a b : byte_eqb a b = false -> a <> b.
Proof. intros E ->. by rewrite (proj2 (byte_eqb_eq b b)) in E. Qed.

(** The four types are all there are. *)
Lemma known_types t :
  known t = true -> t = TypeRequest \/ t = TypeResponse \/ t = TypeData \/ t = TypeError.
Proof. destruct t; (done || tauto). Qed.

Section Turns.
Context {FS : Type} `{Filesystem FS} (IsPrint : Z -> bool) (fs : FS) (s : Server).
Context (Hsized : files_sized fs) (Ht : 0 <= s_writeTimeout s).

Lemma onServeError_body e st :
  ends s (wires [error_frame CodeProtocolError (str "could not finish sending the response")])
    st (onServeError s (bodyError e) st).
Proof. eapply ends_logf. by apply fail_spec. Qed.

(** If the loop goes on, the whole reply is out and nothing else changed; if
    it stops, what is out is a prefix of any session that starts with the
    reply, and all of it if the network was healthy. *)
Lemma serve_frame_spec f st go_on st' :
  received f -> serve_frame IsPrint fs s f st = (go_on, st') ->
  let '(frames, go) := reply fs (s_res s) f in
  if go_on then go = true /\ sends s (wires frames) True st st'
  else forall more, ends s (wires (frames ++ if go then more else [])) st st'.
Proof.
  intros [Hk Hn]. unfold serve_frame, reply.
  assert (Hfail : forall frames rest err l st1, sends s (wires frames) (delivered err) st st1 ->
    ~ delivered err -> ends s (wires (frames ++ rest)) st (logf s l st1)).
  { intros frames rest err l st1 Hs Hd. rewrite wires_app.
    eapply sends_failed; [done|done|apply out_logf|apply kept_logf]. }
  assert (Hstatus : fr_stream f <> 0 ->
    (let '(err, st1) := sendStatus s (fr_stream f) 400 st in
     match err with
     | Some e => (false, logf s (LogStatusFailed e) st1)
     | None => (true, st1)
     end) = (go_on, st') ->
    if go_on then true = true /\ sends s (wires [status_frame (fr_stream f) 400]) True st st'
    else forall more, ends s (wires ([status_frame (fr_stream f) 400] ++ more)) st st').
  { intros Hstream. destruct (sendStatus s (fr_stream f) 400 st) as [err st1] eqn:Es.
    apply status_answer in Es as [Hs Hd]; [|done..].
    destruct err as [e|]; intros [= <- <-]; [|by split].
    intros more. eapply Hfail; [exact Hs|]. intros Hdel.
    pose proof (proj2 (Hd Hdel) eq_refl). done. }
  destruct (known_types _ Hk) as [E|[E|[E|E]]]; rewrite E in *.
  - specialize (Hn eq_refl).
    change (byte_eqb TypeRequest TypeRequest) with true. cbn [orb].
    destruct (serveRequest IsPrint fs s f st) as [err st1] eqn:Er.
    apply serveRequest_spec in Er; [|done..].
    destruct (request_answer fs (s_res s) f) as [frames complete]. destruct Er as [Hs Hd].
    destruct err as [e|]; intros [= <- <-].
    + destruct e as [e|e|e].
      1,2: destruct complete; intros more; rewrite ?app_nil_r; eapply Hfail; first [exact Hs|by intros []].
      destruct complete; [by pose proof (proj2 (Hd I) eq_refl)|]. intros more.
      rewrite app_nil_r, wires_app. by eapply sends_ends; [|exact Hs|apply onServeError_body].
    + destruct complete; [|by pose proof (proj1 (Hd I) eq_refl)].
      split; [done|]. exact Hs.
  - exact (Hstatus (Hn eq_refl)).
  - exact (Hstatus (Hn eq_refl)).
  - change (byte_eqb TypeError TypeRequest) with false. change (byte_eqb TypeError TypeError) with true.
    change (byte_eqb TypeError TypeResponse) with false. change (byte_eqb TypeError TypeData) with false.
    cbn [orb]. intros [= <- <-] more. apply ends_logged.
Qed.

(** ** The loop *)

Lemma input_left_length st : input_left st = length (input st).
Proof. unfold input_left, input, buffered. by rewrite length_app. Qed.

Lemma next_frame_spec st r st' :
  next_frame s st = (r, st') ->
  out st' = out st /\ h_handles st' = h_handles st /\
  c_fin (h_conn st') = c_fin (h_conn st) /\
  (forall T, healthy s T st -> healthy s T st') /\
  match r with
  | Ok f => received f /\ len (input st') + HeaderSize <= len (input st) /\
      forall fin, reads fin (input st) (Ok f) (input st')
  | Err e => forall T, 0 <= s_idleTimeout s -> healthy s T st ->
      exists rest, reads (c_fin (h_conn st)).2 (input st) (Err e) rest
  end.
Proof.
  unfold next_frame. destruct (Read _) as [r0 b'] eqn:E. intros [= <- <-].
  apply Read_spec in E as (Ho & Hf & Hp & Hr). split; [done|]. split; [done|]. split; [done|].
  split; [intros T; apply Hp|]. destruct r0 as [f|e]; [done|]. intros T. apply Hr.
Qed.

(** The frames a peer sends in all, and the error that ends its stream. *)
Definition sent_frames (st : hstate) (frames : list Frame) (e : frame_error) : Prop :=
  reads_all (c_fin (h_conn st)).2 (input st) frames e.

Lemma handle_loop_spec fuel st frames e :
  0 <= s_idleTimeout s -> (input_left st < fuel)%nat -> sent_frames st frames e ->
  exists st' frames' e', handle_loop IsPrint fs s fuel st = Some st' /\
    frames' `prefix_of` frames /\
    ((exists T, healthy s T st) -> frames' = frames /\ e' = e) /\
    ends s (wires (session fs (s_res s) frames' e')) st st'.
Proof.
  intros Hidle. revert st frames e. induction fuel as [|fuel IH]; intros st frames e Hf Hall; [lia|].
  cbn [handle_loop]. destruct (next_frame s st) as [r st1] eqn:En.
  destruct (next_frame_spec _ _ _ En) as (Ho & Hh & Hfin & Hheal & Hr).
  assert (Hpre : forall bs st2, ends s bs st1 st2 -> ends s bs st st2).
  { intros bs st2 [(k & E & F) Hn]. rewrite Ho in E. split; [|congruence].
    exists k. split; [done|]. intros [T HT]. apply F. exists T. by apply Hheal. }
  destruct r as [f|e0].
  - destruct Hr as (Hrec & Hlen & Hreads).
    assert (exists rest, frames = f :: rest /\ sent_frames st1 rest e) as (rest & -> & Hrest).
    { unfold sent_frames in *. rewrite Hfin.
      destruct (reads_all_total (c_fin (h_conn st)).2 (input st1)) as (rest & e2 & Hrest).
      destruct (reads_all_deterministic _ _ _ _ _ _ Hall (reads_all_next _ _ _ _ _ _ (Hreads _) Hrest))
        as [-> ->]. by exists rest. }
    destruct (serve_frame IsPrint fs s f st1) as [go_on st2] eqn:Es.
    apply serve_frame_spec in Es; [|done]. cbn [session].
    destruct (reply fs (s_res s) f) as [out1 go] eqn:Erep.
    destruct go_on.
    + destruct Es as [-> Hsend]. pose proof Hsend as (K & _ & _).
      assert (Hin : input st2 = input st1).
      { destruct K as [K1 K2 _ _ _]. unfold h_conn in K2. unfold input, buffered, pending. by rewrite K1, K2. }
      destruct (IH st2 rest e) as (st' & fr' & e' & Hloop & Hpf & Hfull & Hends).
      { rewrite input_left_length, Hin. rewrite input_left_length in Hf.
        unfold len, HeaderSize in Hlen. lia. }
      { unfold sent_frames in *. rewrite Hin. by destruct K as [_ _ -> _ _]. }
      exists st', (f :: fr'), e'. split; [done|]. split; [by apply prefix_cons|]. split.
      { intros [T HT]. destruct Hfull as [-> ->]; [|done]. exists T. by apply K, Hheal. }
      cbn [session]. rewrite Erep, wires_app. apply Hpre.
      by eapply (sends_ends s _ _ True).
    + exists st2, (f :: rest), e. split; [done|]. split; [done|]. split; [done|].
      cbn [session]. rewrite Erep. by apply Hpre.
  - exists (onReadError s e0 st1), [], e0. split; [done|].
    split; [apply prefix_nil|]. split.
    + intros [T HT]. destruct (Hr T Hidle HT) as [rest0 Hr0].
      destruct (reads_all_deterministic _ _ _ _ _ _ Hall (reads_all_end _ _ _ _ Hr0)) as [-> ->]. done.
    + cbn [session]. apply Hpre. by apply onReadError_spec.
Qed.

(** A connection as [Accept] returns it. *)
Lemma handle_spec c handles log frames e :
  0 <= s_idleTimeout s -> reads_all (c_fin c).2 (pending c) frames e ->
  exists st' frames' e', handle IsPrint fs s c handles log = Some st' /\
    c_closed (h_conn st') = true /\ h_handles st' = handles /\
    frames' `prefix_of` frames /\
    ((exists T, healthy s T (MkState (NewReader c) handles log)) -> frames' = frames /\ e' = e) /\
    exists k, wr_out (h_conn st') = wr_out c ++ take k (wires (session fs (s_res s) frames' e')) /\
      ((exists T, healthy s T (MkState (NewReader c) handles log)) ->
       (length (wires (session fs (s_res s) frames' e')) <= k)%nat).
Proof.
  intros Hidle Hall. unfold handle. cbv zeta.
  set (st0 := logf s LogConnected (MkState (NewReader c) handles log)).
  assert (E0 : h_br st0 = NewReader c /\ h_handles st0 = handles).
  { unfold st0, logf. by destruct (s_logger s). }
  destruct E0 as [Ebr Eh].
  assert (Hheal : forall T, healthy s T (MkState (NewReader c) handles log) -> healthy s T st0).
  { intros T HT. by apply (kept_logf s LogConnected). }
  destruct (handle_loop_spec (S (input_left st0)) st0 frames e) as
    (st' & fr' & e' & Hloop & Hpf & Hfull & (k & Ek & Fk) & Hh); [done | lia | |].
  { unfold sent_frames, input, h_conn. by rewrite Ebr. }
  rewrite Hloop. cbn [mbind option_bind].
  eexists _, fr', e'. split; [done|]. split; [done|]. split.
  { cbn [h_handles set_conn set_br]. destruct (kept_logf s LogDisconnected st') as [_ _ _ -> _].
    congruence. }
  split; [done|]. split; [intros [T HT]; apply Hfull; exists T; by apply Hheal|].
  exists k. split.
  - assert (Hc : wr_out (Close (h_conn (logf s LogDisconnected st'))) = out st').
    { rewrite <- (out_logf s LogDisconnected st'). done. }
    unfold h_conn at 1. cbn [h_br set_conn set_br bf_src]. rewrite Hc, Ek.
    unfold out, h_conn. by rewrite Ebr.
  - intros [T HT]. apply Fk. exists T. by apply Hheal.
Qed.
End Turns.
