(* ===== verification/ServerProps.v ===== *)
(** * Properties of the connection handler

    The contract on networks that keep the deadlines and on any others, the
    answers to single requests, files that are sent and files that end early,
    waiting times, and the quoted path of the log. *)

From S2P Require Import Prelude GoIO Frame Headers Messages Conn Net Paths OsFs Resolver Quote.
From S2P Require Import Server ServerSpec ServerProofs.

(** ** A server to run *)

Lemma memfs_sized fs :
  map_Forall (fun _ nd => match nd with Regular size _ => int64 size | _ => True end) (nodes fs) ->
  files_sized fs.
Proof.
  intros Hall p f fi Ho Hs. unfold Open in Ho. cbn [memfs_Filesystem] in Ho. unfold mem_Open in Ho.
  destruct (mem_find fs p) as [[name nd]|e] eqn:Ef; [|done]. cbn in Ho.
  assert (Hnd : match nd with Regular size _ => int64 size | _ => True end).
  { unfold mem_find in Ef. destruct (walk _ _ _ _) as [cs|e]; [|done]. cbn in Ef.
    destruct cs as [|c cs]; [by injection Ef as _ <-|].
    destruct (nodes fs !! (c :: cs)) eqn:El; [|done]. injection Ef as _ <-. by apply (Hall _ _ El). }
  destruct nd; simplify_eq/=; solve [exact Hnd | by split].
Qed.

Lemma sample_sized : files_sized sample_fs.
Proof.
  apply memfs_sized. unfold sample_fs, nodes. cbn [list_to_map foldr fst snd].
  repeat (apply map_Forall_insert_2; [by vm_compute|]). apply map_Forall_empty.
Qed.

Definition sample_server : Server :=
  {| s_res := sample_root; s_idleTimeout := 30 * Second; s_writeTimeout := 30 * Second;
     s_logger := true |}.

Definition get_frame (stream : Z) (path : bytes) : Frame :=
  {| fr_type := TypeRequest; fr_flags := FlagEndStream; fr_stream := stream;
     fr_payload := request_bytes (MkRequest MethodGet path []) |}.

Definition sample_frames : list Frame :=
  [get_frame 1 (str "/here"); get_frame 2 (str "/none"); data_frame 3 true (str "what")].

(** The peer sends its frames in three odd pieces over twenty seconds and
    hangs up. *)
Definition sample_conn : conn :=
  {| c_now := 0;
     c_in := [(Second, take 5 (wires sample_frames)); (2 * Second, take 40 (drop 5 (wires sample_frames)));
              (20 * Second, drop 40 (drop 5 (wires sample_frames)))];
     c_fin := (25 * Second, EOF); c_rdl := None; c_out := buffer; c_wdelay := [Second; Second];
     c_wdl := None; c_halfcloses := true; c_wshut := false; c_closed := false |}.

Definition no_rune : Z -> bool := fun _ => false.

Lemma sample_healthy : healthy sample_server (25 * Second) (MkState (NewReader sample_conn) 0 []).
Proof.
  split; try done.
  - apply (bool_decide_eq_true_1 (Forall _ _)). vm_compute. reflexivity.
  - repeat (apply Forall_cons; split; [by vm_compute|]). by apply Forall_nil.
Qed.

Lemma reads_all_wires fin fs rest e :
  Forall (fun f => wf_frame f /\ received f /\ len (fr_payload f) <= MaxPayload) fs ->
  reads_all fin rest [] e -> reads_all fin (wires fs ++ rest) fs e.
Proof.
  intros Hfs Hr. induction Hfs as [|f fs (Hw & (Hk & Hn) & Hl) Hfs IH]; [done|].
  rewrite wires_cons, <- app_assoc. eapply reads_all_next; [by apply reads_frame|done].
Qed.

Lemma sample_reads : reads_all (c_fin sample_conn).2 (pending sample_conn) sample_frames (IOError EOF).
Proof.
  assert (E : pending sample_conn = wires sample_frames ++ []) by (vm_compute; reflexivity).
  rewrite E. apply reads_all_wires; [|eapply reads_all_end, reads_end].
  repeat (apply Forall_cons; split; [by vm_compute|]). by apply Forall_nil.
Qed.

(** ** The session *)

Section Session.
Context {FS : Type} `{Filesystem FS} (IsPrint : Z -> bool) (fs : FS) (s : Server).
Context (Hsized : files_sized fs) (Hw : 0 <= s_writeTimeout s) (Hi : 0 <= s_idleTimeout s).

(** (C3) The handler implements its contract: on a network that keeps the
    deadlines, however it cuts the peer's bytes into pieces, [handle] answers
    every frame of the stream in order as the session specification says --
    one response per request with its body, a 400 per stray response or data
    frame, an error frame for the error that ends the input -- and returns
    with the connection closed and every file handle given back. *)
Theorem handle_serves_session c T handles log frames e :
  healthy s T (MkState (NewReader c) handles log) ->
  reads_all (c_fin c).2 (pending c) frames e ->
  exists st', handle IsPrint fs s c handles log = Some st' /\
    wr_out (h_conn st') = wr_out c ++ wires (session fs (s_res s) frames e) /\
    c_closed (h_conn st') = true /\ h_handles st' = handles.
Proof.
  intros HT Hall.
  destruct (handle_spec IsPrint fs s Hsized Hw c handles log frames e)
    as (st' & fr' & e' & Hh & Hc & Hn & _ & Hfull & k & Ek & Fk); [done..|].
  destruct Hfull as [-> ->]; [by exists T|].
  exists st'. split; [done|]. split; [|done]. rewrite Ek, take_ge; [done|]. apply Fk. by exists T.
Qed.

(** (C9) On any network at all -- stalled, cut, slow, failing writes -- the
    handler still terminates, closes the connection and gives every file
    handle back, and what it has emitted is a prefix of the right answers to
    a prefix of the frames the peer sends: nothing is ever answered twice, out
    of order, or without having been asked. *)
Theorem handle_any_network c handles log frames e :
  reads_all (c_fin c).2 (pending c) frames e ->
  exists st' answered e' k, handle IsPrint fs s c handles log = Some st' /\
    c_closed (h_conn st') = true /\ h_handles st' = handles /\
    answered `prefix_of` frames /\
    wr_out (h_conn st') = wr_out c ++ take k (wires (session fs (s_res s) answered e')).
Proof.
  intros Hall.
  destruct (handle_spec IsPrint fs s Hsized Hw c handles log frames e)
    as (st' & fr' & e' & Hh & Hc & Hn & Hp & _ & k & Ek & _); [done..|].
  by exists st', fr', e', k.
Qed.
End Session.

Lemma handle_serves_session_witness :
  exists st', handle no_rune sample_fs sample_server sample_conn 0 [] = Some st' /\
    wr_out (h_conn st') = [] ++ wires (session sample_fs sample_root sample_frames (IOError EOF)) /\
    c_closed (h_conn st') = true /\ h_handles st' = 0.
Proof.
  apply (handle_serves_session no_rune sample_fs sample_server sample_sized ltac:(done) ltac:(done)
           sample_conn (25 * Second)); [apply sample_healthy | apply sample_reads].
Defined.

Definition broken_conn : conn :=
  {| c_now := 0; c_in := c_in sample_conn; c_fin := c_fin sample_conn; c_rdl := None;
     c_out := {| sk_out := []; sk_script := [(7%nat, None); (3%nat, Some ErrClosed)] |};
     c_wdelay := []; c_wdl := None; c_halfcloses := false; c_wshut := false; c_closed := false |}.

Lemma handle_any_network_witness :
  exists st' answered e' k, handle no_rune sample_fs sample_server broken_conn 0 [] = Some st' /\
    c_closed (h_conn st') = true /\ h_handles st' = 0 /\
    answered `prefix_of` sample_frames /\
    wr_out (h_conn st') = [] ++ take k (wires (session sample_fs sample_root answered e')).
Proof.
  apply (handle_any_network no_rune sample_fs sample_server sample_sized ltac:(done) ltac:(done)
           broken_conn 0 [] sample_frames (IOError EOF)). apply sample_reads.
Defined.

(** ** A file *)

(** A file that is as long as announced is sent exactly: one 200 RESPONSE
    whose content-length is the decimal form of the size, then DATA frames
    whose payloads joined are the first [size] bytes of the file, none empty
    or over the limit and all but the last full, END_STREAM on the last frame
    of the response and on no other -- on the RESPONSE itself for an empty
    file. *)
Theorem sendFile_delivers s T stream file size ctype st :
  0 <= s_writeTimeout s -> stream <> 0 -> int64 size -> len ctype <= 24 ->
  healthy s T st -> size <= len (rd_content file) ->
  exists st' ps, sendFile s stream file size ctype st = (size, None, st') /\
    wr_out (h_conn st') = wr_out (h_conn st) ++
      wires (response_frame stream 200
               [NewHeader HeaderContentType ctype; NewHeader HeaderContentLength (FormatInt size);
                NewHeader HeaderServer serverName] (bool_decide (ps = []))
             :: match ps with [] => [] | _ => (data_frame stream false <$> removelast ps) ++
                  [data_frame stream true (List.last ps [])] end) /\
    List.concat ps = ztake size (rd_content file) /\
    Forall (fun p => 1 <= len p <= MaxPayload) ps /\
    Forall (fun p => len p = MaxPayload) (removelast ps) /\
    decimal (FormatInt size) = size.
Proof.
  intros Hw Hs Hsz Hct HT Hlen.
  destruct (sendFile s stream file size ctype st) as [[n err] st'] eqn:E.
  apply sendFile_spec in E; [|done..]. unfold file_answer, body_frames in E.
  rewrite (proj2 (Z.leb_le _ _)) in E by done. destruct E as ((K & (k & Ek & Fk) & Hh) & Hd & Hn).
  specialize (Hh T HT). destruct (proj2 (Hd Hh) eq_refl). rewrite (Hn eq_refl).
  set (ps := pieces (pieces_for size) (ztake size (rd_content file))) in *.
  assert (Hlt : len (ztake size (rd_content file)) = size)
    by (apply len_ztake; destruct Hsz; lia).
  exists st', ps. split; [done|].
  assert (Hps : (size =? 0) = bool_decide (ps = []) /\
    Forall (fun p => 1 <= len p <= MaxPayload) ps /\ Forall (fun p => len p = MaxPayload) (removelast ps)).
  { destruct (pieces_for_bounds size) as [Hb|[-> E0]]; [by destruct Hsz| |].
    - split; [|by apply pieces_sizes; rewrite Hlt].
      pose proof (pieces_for_enough size (proj1 Hsz)) as He.
      destruct (Z.eqb_spec size 0) as [Hz|Hz]; symmetry.
      + apply bool_decide_eq_true. unfold ps. subst size. done.
      + apply bool_decide_eq_false. intros Hnil. apply (f_equal length) in Hnil.
        unfold ps in Hnil. rewrite length_pieces in Hnil. cbn in Hnil. rewrite Hnil in He. destruct Hsz. lia.
    - unfold ps. rewrite E0. by split. }
  destruct Hps as (Hz & H1 & H2). split; [|split; [|split; [done|split; [done|]]]].
  - rewrite <- Hz. unfold out in Ek. rewrite Ek, take_ge by (by apply Fk). do 3 f_equal.
    destruct ps as [|p ps' _] eqn:Eps using rev_ind; [done|].
    rewrite data_frames_snoc, removelast_last, last_last. by destruct ps'.
  - unfold ps. apply concat_pieces. rewrite Hlt. apply pieces_for_enough. by destruct Hsz.
  - by apply FormatInt_spec.
Qed.

Definition sample_state : hstate := MkState (NewReader sample_conn) 0 [].

Lemma sendFile_delivers_witness :
  exists st' ps, sendFile sample_server 7 (one_by_one (str "hello, world")) 5 (str "text/plain") sample_state
      = (5, None, st') /\
    wr_out (h_conn st') = wr_out (h_conn sample_state) ++
      wires (response_frame 7 200
               [NewHeader HeaderContentType (str "text/plain"); NewHeader HeaderContentLength (FormatInt 5);
                NewHeader HeaderServer serverName] (bool_decide (ps = []))
             :: match ps with [] => [] | _ => (data_frame 7 false <$> removelast ps) ++
                  [data_frame 7 true (List.last ps [])] end) /\
    List.concat ps = ztake 5 (rd_content (one_by_one (str "hello, world"))) /\
    Forall (fun p => 1 <= len p <= MaxPayload) ps /\
    Forall (fun p => len p = MaxPayload) (removelast ps) /\
    decimal (FormatInt 5) = 5.
Proof.
  apply (sendFile_delivers sample_server (25 * Second)); try done. apply sample_healthy.
Defined.

(** (C36) A file that ends before its announced size is never passed off as
    complete: what is sent has the announced length in its headers, only the
    full pieces that could be read, and no END_STREAM anywhere; [sendFile]
    reports a body error, and the connection then gets an ERROR frame with
    code 3. *)
Theorem short_file_is_reported s T stream file size ctype st :
  0 <= s_writeTimeout s -> stream <> 0 -> int64 size -> len ctype <= 24 ->
  healthy s T st -> len (rd_content file) < size ->
  exists st' n e ps, sendFile s stream file size ctype st = (n, Some (bodyError e), st') /\
    (exists more, rd_content file = List.concat ps ++ more /\ len more < MaxPayload) /\
    Forall (fun p => len p = MaxPayload) ps /\
    let frames := response_frame stream 200 (file_headers ctype size) false
                    :: (data_frame stream false <$> ps) in
    wr_out (h_conn st') = wr_out (h_conn st) ++ wires frames /\
    wr_out (h_conn (onServeError s (bodyError e) st')) = wr_out (h_conn st) ++
      wires (frames ++ [error_frame 3 (str "could not finish sending the response")]).
Proof.
  intros Hw Hs Hsz Hct HT Hlen.
  destruct (sendFile s stream file size ctype st) as [[n err] st'] eqn:E.
  apply sendFile_spec in E; [|done..]. unfold file_answer, body_frames in E.
  rewrite (proj2 (Z.leb_gt _ _)) in E by done. destruct E as ((K & (k & Ek & Fk) & Hh) & Hd & _).
  specialize (Hh T HT).
  destruct err as [[?|?|e]|]; [done|done| |by pose proof (proj1 (Hd Hh) eq_refl)].
  pose proof (len_nonneg (rd_content file)) as Hnn.
  rewrite (proj2 (Z.eqb_neq size 0)) in Ek by lia.
  rewrite (proj2 (Z.eqb_neq size 0)) in Fk by lia.
  rewrite data_frames_cut in Ek, Fk.
  set (m := Z.to_nat (len (rd_content file) / MaxPayload)) in *.
  set (ps := pieces m (rd_content file)) in *.
  assert (Eo : wr_out (h_conn st') = wr_out (h_conn st) ++
    wires (response_frame stream 200 (file_headers ctype size) false :: (data_frame stream false <$> ps))).
  { unfold out in Ek. by rewrite Ek, take_ge by (by apply Fk). }
  exists st', n, e, ps. split; [done|]. split; [|split; [|split; [done|]]].
  - exists (zdrop (Z.of_nat m * MaxPayload) (rd_content file)).
    split; [apply concat_full_pieces|rewrite len_zdrop_max]; unfold m, MaxPayload; zlia.
  - apply full_pieces. unfold m, MaxPayload. zlia.
  - assert (Hheal : healthy s T st') by (by apply K).
    assert (Hl : ends s (wires [error_frame 3 (str "could not finish sending the response")]) st'
      (onServeError s (bodyError e) st')).
    { eapply ends_logf. by apply fail_spec. }
    destruct Hl as [(k2 & Ek2 & Fk2) _]. unfold out in Ek2.
    rewrite Ek2, Eo, take_ge by (apply Fk2; by exists T). by rewrite wires_app, app_assoc.
Qed.

Lemma short_file_is_reported_witness :
  exists st' n e ps, sendFile sample_server 7 (whole (str "hi")) 5 (str "text/plain") sample_state
      = (n, Some (bodyError e), st') /\
    (exists more, rd_content (whole (str "hi")) = List.concat ps ++ more /\ len more < MaxPayload) /\
    Forall (fun p => len p = MaxPayload) ps /\
    let frames := response_frame 7 200 (file_headers (str "text/plain") 5) false
                    :: (data_frame 7 false <$> ps) in
    wr_out (h_conn st') = wr_out (h_conn sample_state) ++ wires frames /\
    wr_out (h_conn (onServeError sample_server (bodyError e) st')) = wr_out (h_conn sample_state) ++
      wires (frames ++ [error_frame 3 (str "could not finish sending the response")]).
Proof.
  apply (short_file_is_reported sample_server (25 * Second)); try done. apply sample_healthy.
Defined.

(** ** Statuses *)

(** The status a request is owed. *)
Definition status_of {FS} `{Filesystem FS} (fs : FS) (res : resolver) (f : Frame) : Z :=
  if decide (bz (fr_flags f) = 1) then
    match DecodeRequest (fr_payload f) with
    | Err _ => 400
    | Ok req =>
      match fst (open fs res (req_path req) 0) with
      | Ok _ => 200
      | Err errBadPath => 400
      | Err errNotFound => 404
      | Err (OsErr _) => 500
      end
    end
  else 400.

Lemma wrong_flags_iff fl : wrong_flags fl = negb (bz fl =? 1).
Proof.
  assert (E : forallb (fun z => Bool.eqb (wrong_flags (zb z)) (negb (bz (zb z) =? 1))) (seqZ 0 256) = true)
    by (vm_compute; reflexivity).
  rewrite forallb_forall in E. apply Bool.eqb_prop. rewrite <- (zb_bz fl). apply E.
  apply list_elem_of_In, elem_of_seqZ. apply bz_range.
Qed.

(** A mistake of the client costs it one request, never the connection:
    when the flags are not exactly END_STREAM, the payload does not decode, or
    the path is not allowed, missing, or fails to open, [serveRequest] returns
    no error and has sent precisely one response without a body -- 400, 404
    or 500 -- on the request's stream; otherwise the status is 200. *)
Theorem request_statuses {FS} `{Filesystem FS} IsPrint (fs : FS) s T f st :
  0 <= s_writeTimeout s -> files_sized fs -> fr_stream f <> 0 -> healthy s T st ->
  let status := status_of fs (s_res s) f in
  (status <> 200 ->
     (status = 400 \/ status = 404 \/ status = 500) /\
     exists st', serveRequest IsPrint fs s f st = (None, st') /\
       wr_out (h_conn st') = wr_out (h_conn st) ++
         wires [response_frame (fr_stream f) status
                  [NewHeader HeaderContentLength (str "0"); NewHeader HeaderServer serverName] true] /\
       h_handles st' = h_handles st /\ bf_buf (h_br st') = bf_buf (h_br st) /\
       healthy s T st') /\
  (status = 200 ->
     exists hs endS frames st', snd (serveRequest IsPrint fs s f st) = st' /\
       wr_out (h_conn st') = wr_out (h_conn st) ++
         wires (response_frame (fr_stream f) 200 hs endS :: frames)).
Proof.
  intros Hw Hsz Hf HT.
  destruct (serveRequest IsPrint fs s f st) as [err st'] eqn:Er.
  apply serveRequest_spec in Er; [|done..].
  assert (Hst : forall status, request_answer fs (s_res s) f = ([status_frame (fr_stream f) status], true) ->
    exists st'0, (err, st') = (None, st'0) /\
      wr_out (h_conn st'0) = wr_out (h_conn st) ++ wires [status_frame (fr_stream f) status] /\
      h_handles st'0 = h_handles st /\ bf_buf (h_br st'0) = bf_buf (h_br st) /\ healthy s T st'0).
  { intros status Ea. rewrite Ea in Er. destruct Er as ((K & (k & Ek & Fk) & Hh) & Hd).
    specialize (Hh T HT). exists st'. rewrite (proj2 (Hd Hh) eq_refl). split; [done|].
    unfold out in Ek. rewrite Ek, take_ge by (by apply Fk).
    split; [done|]. split; [apply K|]. split; [apply K|]. by apply K. }
  assert (Hfile : forall size ct data, request_answer fs (s_res s) f = file_answer (fr_stream f) size ct data ->
    exists hs endS frames st'0, st' = st'0 /\ wr_out (h_conn st'0) = wr_out (h_conn st) ++
      wires (response_frame (fr_stream f) 200 hs endS :: frames)).
  { intros size ct data Ea. rewrite Ea in Er. unfold file_answer in Er.
    destruct (body_frames _ _ _) as [frames complete]. destruct Er as ((_ & (k & Ek & Fk) & Hh) & _).
    eexists _, _, frames, st'. split; [done|]. unfold out in Ek. by rewrite Ek, take_ge by (by apply Fk, (Hh T)). }
  unfold status_of, request_answer in *. rewrite wrong_flags_iff in *.
  destruct (Z.eqb_spec (bz (fr_flags f)) 1) as [E1|E1]; cbn [negb] in *.
  - rewrite decide_True by done.
    destruct (DecodeRequest (fr_payload f)) as [req|e]; [|by split; [intros _; split; [auto|by apply Hst]|]].
    destruct (fst (open fs (s_res s) (req_path req) 0)) as [[file info]|[| |e]].
    + split; [done|]. intros _. by eapply Hfile.
    + by split; [intros _; split; [auto|by apply Hst]|].
    + by split; [intros _; split; [auto|by apply Hst]|].
    + by split; [intros _; split; [auto|by apply Hst]|].
  - rewrite decide_False by done. by split; [intros _; split; [auto|by apply Hst]|].
Qed.

Lemma request_statuses_witness :
  status_of sample_fs sample_root (get_frame 9 (str "/none")) = 404 /\
  exists st', serveRequest no_rune sample_fs sample_server (get_frame 9 (str "/none")) sample_state
      = (None, st') /\
    wr_out (h_conn st') = wr_out (h_conn sample_state) ++
      wires [response_frame 9 (status_of sample_fs sample_root (get_frame 9 (str "/none")))
               [NewHeader HeaderContentLength (str "0"); NewHeader HeaderServer serverName] true] /\
    h_handles st' = h_handles sample_state /\ bf_buf (h_br st') = bf_buf (h_br sample_state) /\
    healthy sample_server (25 * Second) st'.
Proof.
  assert (E : status_of sample_fs sample_root (get_frame 9 (str "/none")) = 404)
    by (vm_compute; reflexivity).
  split; [exact E|].
  refine (proj2 (proj1 (request_statuses no_rune sample_fs sample_server (25 * Second)
    (get_frame 9 (str "/none")) sample_state ltac:(done) sample_sized ltac:(done) sample_healthy) _)).
  change (s_res sample_server) with sample_root. by rewrite E.
Defined.

(** ** Time *)

Lemma write_time s f st err st' :
  0 <= s_writeTimeout s -> write s f st = (err, st') ->
  c_now (h_conn st') <= c_now (h_conn st) + s_writeTimeout s.
Proof.
  intros Hw. unfold write. destruct (Write _ f) as [e c'] eqn:E. intros [= _ <-].
  by apply Write_time in E.
Qed.

Lemma now_logf s l st : c_now (h_conn (logf s l st)) = c_now (h_conn st).
Proof. unfold logf. by destruct (s_logger s). Qed.

(** (C37) Nothing a peer does holds a connection longer than the configured
    bounds: waiting for a frame takes at most the idle timeout however the
    bytes trickle in, sending one takes at most the write timeout however
    slowly the peer reads, and saying goodbye after a connection error takes
    at most the write timeout and the drain time, and at most [drainBytes] of
    what the peer still sends. *)
Theorem waits_are_bounded s st :
  0 <= s_idleTimeout s -> 0 <= s_writeTimeout s ->
  c_now (h_conn (snd (next_frame s st))) <= c_now (h_conn st) + s_idleTimeout s /\
  (forall f, c_now (h_conn (snd (write s f st))) <= c_now (h_conn st) + s_writeTimeout s) /\
  (forall code msg, c_now (h_conn (fail s code msg st)) <=
     c_now (h_conn st) + s_writeTimeout s + drainTime) /\
  (forall c, exists d, pending c = d ++ pending (drain c) /\ len d <= drainBytes /\
     c_now (drain c) <= c_now c + drainTime).
Proof.
  intros Hi Hw.
  assert (Hdrain : forall c, exists d, pending c = d ++ pending (drain c) /\ len d <= drainBytes /\
     c_now (drain c) <= c_now c + drainTime).
  { intros c. unfold drain, Copy_Discard_Limit. set (c0 := SetReadDeadline drainTime (CloseWrite c)).
    assert (E0 : pending c = pending c0 /\ c_now c = c_now c0 /\ c_rdl c0 = Some (c_now c + drainTime)).
    { unfold c0, CloseWrite. by destruct (c_halfcloses c). }
    destruct E0 as (Ep & En & Ed).
    destruct (read_upto_spec (Z.to_nat drainBytes) c0) as (r & E & _ & _). rewrite E.
    exists (take (Z.to_nat drainBytes) (rd_content c0)).
    apply read_loop_steps, conn_steps_ran in E as [Hp _ _ _ Hd].
    specialize (Hd _ Ed). rewrite Ep. split; [done|]. unfold len. rewrite length_take.
    unfold drainTime, Second, Millisecond in *. change drainBytes with 65536 in *. split; lia. }
  split; [|split; [|split; [|done]]].
  - unfold next_frame. destruct (Read _) as [r b'] eqn:E. by apply Read_time in E.
  - intros f. destruct (write s f st) as [err st'] eqn:E. by eapply write_time.
  - intros code msg. unfold fail. rewrite <- (now_logf s (LogFail msg) st).
    set (st0 := logf s (LogFail msg) st).
    assert (0 <= drainTime) by (by vm_compute).
    destruct (ConnError_Encode _) as [p|e]; [|lia].
    destruct (write s _ st0) as [err st1] eqn:E. apply write_time in E; [|done].
    destruct err; [lia|]. unfold h_conn at 1. cbn.
    destruct (Hdrain (h_conn st1)) as (d & _ & _ & Hn). lia.
Qed.

Lemma waits_are_bounded_witness :
  c_now (h_conn (snd (next_frame sample_server sample_state))) <= 0 + 30 * Second.
Proof.
  apply (proj1 (waits_are_bounded sample_server sample_state ltac:(done) ltac:(done))).
Defined.

(** ** The log *)

(** A hostile path cannot disturb the log: what [printable] makes of any
    string holds no control character, is quoted, and is at most 494 bytes
    long. *)
Theorem printable_is_harmless IsPrint p :
  Forall visible (printable IsPrint p) /\ len (printable IsPrint p) <= 494 /\
  exists q, printable IsPrint p = [dquote] ++ q ++ [dquote].
Proof.
  unfold printable, Quote.
  set (t := if 120 <? len p then ztake 120 p ++ str "..." else p).
  assert (Ht : len t <= 123).
  { unfold t. destruct (Z.ltb_spec 120 (len p)); [|lia]. rewrite len_app, len_ztake by lia. by vm_compute. }
  destruct (quote_loop_visible IsPrint (length t) t) as [Hv Hl].
  split; [|split; [|by eexists]].
  - apply Forall_app. split; [by apply Forall_singleton|]. apply Forall_app.
    split; [done | by apply Forall_singleton].
  - rewrite !len_app. unfold len in *. cbn [length]. lia.
Qed.
