(* ===== verification/Client.v ===== *)
(** * internal/client

    [client.go]: one request at a time over one connection of any kind, with
    the checks that end it.  The client's state is its record; the body goes to an
    [io.Writer] of any kind. *)

From S2P Require Import Prelude GoIO Frame Headers Messages Conn Paths.

Definition defaultTimeout : Z := 30 * Second.
Definition client_drainTime : Z := Second.
Definition client_drainBytes : Z := Z.shiftl 64 10.

(** One constructor per error the package builds. *)
Inductive client_error : Type :=
  | ErrBroken
  | StreamIDsUsedUp
  | CannotBuild (e : encode_error)
  | SendingRequest (e : frame_error)
  | RemoteError (code : Z) (message : bytes)
  | ServerSentRequest
  | Unexpected (want : Type_) (id : Z) (got : Type_) (stream : Z)
  | UnreadableResponse (e : malformed)
  | WritingBody (e : ioerr)
  | ServerStreamZero
  | ServerOversize (length : Z)
  | ClosedEarly
  | ReadingResponse (e : frame_error)
  | BadContentLength (v : bytes)
  | LengthMismatch (want got : Z).

(** [int] and [int64] fields. *)
Record Result : Type := MkResult {
  res_Status : Z;
  res_Headers : list Header;
  res_BodyBytes : Z;
}.

(** The client of a connection of any kind. *)
Record Client (C : Type) : Type := MkClient {
  cl_Timeout : Z;
  cl_br : bufio C;          (** [br]; [conn] is the connection inside *)
  cl_next : Z;              (** [uint32] *)
  cl_exhausted : bool;
  cl_broken : bool;
}.
Arguments MkClient {C}.
Arguments cl_Timeout {C}.
Arguments cl_br {C}.
Arguments cl_next {C}.
Arguments cl_exhausted {C}.
Arguments cl_broken {C}.

Section Conn.
Context {C : Type} `{Reader C, Writer C, NetConn C}.
Implicit Types c : Client C.

Definition cl_conn (c : Client C) : C := bf_src (cl_br c).

Definition New (c : C) : Client C :=
  {| cl_Timeout := defaultTimeout; cl_br := NewReader c; cl_next := 1;
     cl_exhausted := false; cl_broken := false |}.

Definition with_br (br : bufio C) (c : Client C) : Client C :=
  MkClient (cl_Timeout c) br (cl_next c) (cl_exhausted c) (cl_broken c).
Definition with_conn (co : C) (c : Client C) : Client C :=
  with_br {| bf_buf := bf_buf (cl_br c); bf_src := co |} c.

(** [c.Close()] *)
Definition Client_Close (c : Client C) : Client C := with_conn (nc_Close (cl_conn c)) c.

(** [fail]: what it does besides returning its argument. *)
Definition client_fail (c : Client C) : Client C :=
  MkClient (cl_Timeout c)
    {| bf_buf := bf_buf (cl_br c); bf_src := nc_Close (cl_conn c) |}
    (cl_next c) (cl_exhausted c) true.

(** [c.conn.SetWriteDeadline(...)] and [frame.Write(c.conn, f)]. *)
Definition client_write (f : Frame) (c : Client C) : option frame_error * Client C :=
  let '(err, co) := Write (nc_SetWriteDeadline (cl_Timeout c) (cl_conn c)) f in
  (err, with_conn co c).

Definition sendError (code : Z) (msg : bytes) (c : Client C) : Client C :=
  match ConnError_Encode {| ce_code := code; ce_message := msg |} with
  | Err _ => c
  | Ok payload =>
    let '(err, c) := client_write
      {| fr_type := TypeError; fr_flags := x00; fr_stream := 0; fr_payload := payload |} c in
    match err with
    | Some _ => c
    | None =>
      let co := nc_SetReadDeadline client_drainTime (nc_CloseWrite (cl_conn c)) in
      let br := {| bf_buf := bf_buf (cl_br c); bf_src := co |} in
      with_br (Copy_Discard_Limit client_drainBytes br) c
    end
  end.

Definition remoteError (f : Frame) : client_error :=
  match DecodeConnError (fr_payload f) with
  | Err _ => RemoteError 0 (str "unreadable error message")
  | Ok ce => RemoteError (ce_code ce) (ce_message ce)
  end.

Definition readFrame (c : Client C) : result client_error Frame * Client C :=
  let '(r, br) :=
    Read {| bf_buf := bf_buf (cl_br c); bf_src := nc_SetReadDeadline (cl_Timeout c) (cl_conn c) |} in
  let c := with_br br c in
  match r with
  | Ok f => (Ok f, c)
  | Err ErrStreamZero =>
    (Err ServerStreamZero,
     sendError CodeInvalidStreamID (str "stream id 0 is not valid here") c)
  | Err (OversizeError typ length) =>
    (Err (ServerOversize length),
     if byte_eqb typ TypeError then c
     else sendError CodeFrameTooLarge (str "frame payload is too large") c)
  | Err (IOError EOF) | Err ErrTruncated => (Err ClosedEarly, c)
  | Err e => (Err (ReadingResponse e), c)
  end.

(** [expect]: the error if the frame is not the one wanted. *)
Definition expect (f : Frame) (want : Type_) (id : Z) (c : Client C) : option client_error * Client C :=
  if byte_eqb (fr_type f) TypeError then (Some (remoteError f), c)
  else if byte_eqb (fr_type f) TypeRequest then
    (Some ServerSentRequest, sendError CodeProtocolError (str "unexpected request from server") c)
  else if negb (byte_eqb (fr_type f) want) || negb (fr_stream f =? id) then
    (Some (Unexpected want id (fr_type f) (fr_stream f)), c)
  else (None, c).

(** [strconv.ParseInt(v, 10, 64)] on a string of digits. *)
Definition ParseInt (v : bytes) : option Z :=
  if (len v =? 0) || negb (forallb is_digit v) then None
  else if decimal v <? 2 ^ 63 then Some (decimal v) else None.

Fixpoint checkLength (headers : list Header) (got : Z) : option client_error :=
  match headers with
  | [] => None
  | h :: headers =>
    if decide (h_name h <> HeaderContentLength) then checkLength headers got
    else
      let v := h_value h in
      if (len v =? 0) || (19 <? len v) then Some (BadContentLength v)
      else if negb (forallb is_digit v) then Some (BadContentLength v)
      else
        match ParseInt v with
        | None => Some (BadContentLength v)
        | Some want =>
          if negb (want =? got) then Some (LengthMismatch want got)
          else checkLength headers got
        end
  end.

Section Get.
Context {W : Type} {HW : Writer W}.

(** The loop of [readResponse]: DATA frames until one ends the stream. *)
Fixpoint body_loop (fuel : nat) (id : Z) (res : Result) (body : W) (c : Client C) :
    result client_error Result * W * Client C :=
  match fuel with
  | O => (Err (ReadingResponse (IOError ErrFuel)), body, c)
  | S fuel =>
    let '(r, c) := readFrame c in
    match r with
    | Err e => (Err e, body, c)
    | Ok d =>
      let '(err, c) := expect d TypeData id c in
      match err with
      | Some e => (Err e, body, c)
      | None =>
        let '(_, err, body) := wr_write (fr_payload d) body in
        match err with
        | Some e => (Err (WritingBody e), body, c)
        | None =>
          let res := MkResult (res_Status res) (res_Headers res)
                       (add64 (res_BodyBytes res) (len (fr_payload d))) in
          if Has (fr_flags d) FlagEndStream then (Ok res, body, c)
          else body_loop fuel id res body c
        end
      end
    end
  end.

(** Every turn of the loop takes twelve bytes off what the server sends. *)
Definition body_fuel (c : Client C) : nat :=
  S (length (bf_buf (cl_br c)) + length (nc_pending (cl_conn c))).

Definition readResponse (id : Z) (body : W) (c : Client C) :
    result client_error Result * W * Client C :=
  let '(r, c) := readFrame c in
  match r with
  | Err e => (Err e, body, c)
  | Ok f =>
    let '(err, c) := expect f TypeResponse id c in
    match err with
    | Some e => (Err e, body, c)
    | None =>
      match DecodeResponse (fr_payload f) with
      | Err e => (Err (UnreadableResponse e), body, c)
      | Ok resp =>
        let res := MkResult (rsp_status resp) (rsp_headers resp) 0 in
        let '(r, body, c) :=
          if Has (fr_flags f) FlagEndStream then (Ok res, body, c)
          else body_loop (body_fuel c) id res body c in
        match r with
        | Err e => (Err e, body, c)
        | Ok res =>
          match checkLength (rsp_headers resp) (res_BodyBytes res) with
          | Some e => (Err e, body, c)
          | None => (Ok res, body, c)
          end
        end
      end
    end
  end.

(** The stream id of the next request, and the client that has used it. *)
Definition take_id (c : Client C) : Z * Client C :=
  let id := cl_next c in
  if id =? 0xFFFFFFFF then
    (id, MkClient (cl_Timeout c) (cl_br c) (cl_next c) true (cl_broken c))
  else
    (id, MkClient (cl_Timeout c) (cl_br c) ((id + 1) mod 4294967296) (cl_exhausted c) (cl_broken c)).

Definition Get (path : bytes) (body : W) (headers : list Header) (c : Client C) :
    result client_error Result * W * Client C :=
  if cl_broken c then (Err ErrBroken, body, c)
  else if cl_exhausted c then (Err StreamIDsUsedUp, body, client_fail c)
  else
    let '(id, c) := take_id c in
    match Request_Encode {| req_method := MethodGet; req_path := path; req_headers := headers |} with
    | Err e => (Err (CannotBuild e), body, c)
    | Ok payload =>
      let req := {| fr_type := TypeRequest; fr_flags := FlagEndStream;
                    fr_stream := id; fr_payload := payload |} in
      let '(err, c) := client_write req c in
      match err with
      | Some e => (Err (SendingRequest e), body, client_fail c)
      | None =>
        let '(r, body, c) := readResponse id body c in
        match r with
        | Err e => (Err e, body, client_fail c)
        | Ok res => (Ok res, body, c)
        end
      end
    end.
End Get.
End Conn.
