(* ===== verification/ClientProofs.v ===== *)
(** * The client accepts exactly the well-formed exchanges

    What makes a response ([response_frames], [lengths_agree]), and proofs
    that [Get] succeeds only on one and, on a network that keeps the
    deadlines, on every one. *)

From S2P Require Import Prelude GoIO Frame Headers Messages Conn Net Paths.
From S2P Require Import Client.

(** ** Responses as frames *)

Inductive data_run (id : Z) : list Frame -> bytes -> Prop :=
  | dr_last d :
      fr_type d = TypeData -> fr_stream d = id -> Has (fr_flags d) FlagEndStream = true ->
      data_run id [d] (fr_payload d)
  | dr_more d ds body :
      fr_type d = TypeData -> fr_stream d = id -> Has (fr_flags d) FlagEndStream = false ->
      data_run id ds body -> data_run id (d :: ds) (fr_payload d ++ body).

(** One response on stream [id]: its message and its body. *)
Inductive response_frames (id : Z) : list Frame -> Response -> bytes -> Prop :=
  | rf_alone f resp :
      fr_type f = TypeResponse -> fr_stream f = id -> DecodeResponse (fr_payload f) = Ok resp ->
      Has (fr_flags f) FlagEndStream = true -> response_frames id [f] resp []
  | rf_body f resp ds body :
      fr_type f = TypeResponse -> fr_stream f = id -> DecodeResponse (fr_payload f) = Ok resp ->
      Has (fr_flags f) FlagEndStream = false -> data_run id ds body ->
      response_frames id (f :: ds) resp body.

(** Every content-length the headers repeat is the number [n]. *)
Definition lengths_agree (hs : list Header) (n : Z) : Prop :=
  Forall (fun h => h_name h = HeaderContentLength ->
    1 <= len (h_value h) <= 19 /\ forallb is_digit (h_value h) = true /\
    decimal (h_value h) < 2 ^ 63 /\ decimal (h_value h) = n) hs.

Lemma checkLength_None hs got : checkLength hs got = None <-> lengths_agree hs got.
Proof.
  unfold lengths_agree. induction hs as [|h hs IH]; cbn [checkLength]; [by split|].
  rewrite Forall_cons. case_decide as Hn; [rewrite IH; tauto|].
  assert (Hname : h_name h = HeaderContentLength) by (by destruct (decide (h_name h = HeaderContentLength))).
  cbv zeta. set (v := h_value h).
  destruct (Z.eqb_spec (len v) 0) as [E0|E0]; cbn [orb].
  { split; [done|]. intros [Hh _]. specialize (Hh Hname). lia. }
  destruct (Z.ltb_spec 19 (len v)) as [E1|E1].
  { split; [done|]. intros [Hh _]. specialize (Hh Hname). lia. }
  destruct (forallb is_digit v) eqn:E2; cbn [negb].
  2: { split; [done|]. intros [Hh _]. by destruct (Hh Hname) as (_ & ? & _). }
  unfold ParseInt. rewrite E2. rewrite (proj2 (Z.eqb_neq _ _) E0). cbn [negb orb].
  destruct (Z.ltb_spec (decimal v) (2 ^ 63)) as [E3|E3].
  2: { split; [done|]. intros [Hh _]. destruct (Hh Hname) as (_ & _ & ? & _). lia. }
  pose proof (len_nonneg v).
  destruct (Z.eqb_spec (decimal v) got) as [E4|E4]; cbn [negb].
  - rewrite IH. split; [|tauto]. intros Hhs. split; [|done]. intros _. repeat split; try done; lia.
  - split; [done|]. intros [Hh _]. by destruct (Hh Hname) as (_ & _ & _ & ?).
Qed.

(** ** Reading several frames *)

Inductive reads_list (fin : ioerr) : bytes -> list Frame -> bytes -> Prop :=
  | rl_nil b : reads_list fin b [] b
  | rl_cons b f b1 fs b2 :
      reads fin b (Ok f) b1 -> reads_list fin b1 fs b2 -> reads_list fin b (f :: fs) b2.

Definition cl_input (c : Client conn) : bytes := buffered (cl_br c).
Definition cl_end (c : Client conn) : ioerr := (c_fin (cl_conn c)).2.

(** The fields of the client other than its connection. *)
Definition same_client (c c' : Client conn) : Prop :=
  cl_Timeout c' = cl_Timeout c /\ cl_next c' = cl_next c /\
  cl_exhausted c' = cl_exhausted c /\ cl_broken c' = cl_broken c.

Definition cl_prompt (T : Z) (c : Client conn) : Prop :=
  prompt (cl_Timeout c) (cl_Timeout c) T (cl_conn c).

(** [c'] is [c] after receiving: what it has written is unchanged. *)
Record received_to (c c' : Client conn) : Prop := {
  rt_same : same_client c c';
  rt_out : wr_out (cl_conn c') = wr_out (cl_conn c);
  rt_end : cl_end c' = cl_end c;
  rt_prompt T : cl_prompt T c -> cl_prompt T c';
}.

#[export] Instance received_to_preorder : PreOrder received_to.
Proof.
  split; [by split|]. intros c1 c2 c3 [(?&?&?&?) ? ? ?] [(?&?&?&?) ? ? ?].
  split; [repeat split; congruence | congruence | congruence | auto].
Qed.

Lemma readFrame_Ok c f c' :
  readFrame c = (Ok f, c') ->
  received_to c c' /\ received f /\ len (cl_input c') + HeaderSize <= len (cl_input c) /\
  forall fin, reads fin (cl_input c) (Ok f) (cl_input c').
Proof.
  unfold readFrame. destruct (Read _) as [r br] eqn:E.
  apply Read_spec in E as (Ho & Hf & Hp & Hr).
  destruct r as [g|[]]; [|repeat case_match; done..].
  intros [= <- <-]. destruct Hr as (Hrec & Hl & Hrd). split; [|done].
  split; [done|exact Ho|unfold cl_end, cl_conn; cbn; by rewrite Hf|]. intros T. apply Hp.
Qed.

Lemma readFrame_prompt T c f rest :
  0 <= cl_Timeout c -> cl_prompt T c -> reads (cl_end c) (cl_input c) (Ok f) rest ->
  exists c', readFrame c = (Ok f, c') /\ cl_input c' = rest.
Proof.
  intros Ht HT Hrd. pose proof (readFrame_Ok c f) as Hok. unfold readFrame in *.
  destruct (Read _) as [r br] eqn:E. pose proof (Read_spec _ _ _ _ E) as (_ & _ & _ & Hr).
  destruct r as [g|e].
  - destruct Hr as (_ & _ & Hr). destruct (reads_deterministic _ _ _ _ _ _ Hrd (Hr _)) as [[= <-] ->].
    by eexists.
  - destruct (Hr _ _ Ht HT) as [rest' Hr']. by destruct (reads_deterministic _ _ _ _ _ _ Hrd Hr') as [? _].
Qed.

Lemma expect_None f want id c c' :
  want = TypeResponse \/ want = TypeData ->
  expect f want id c = (None, c') <-> fr_type f = want /\ fr_stream f = id /\ c' = c.
Proof.
  intros Hw. unfold expect.
  destruct (byte_eqb (fr_type f) TypeError) eqn:E1.
  { apply byte_eqb_eq in E1. rewrite E1. split; [done|]. intros (<- & _). by destruct Hw. }
  destruct (byte_eqb (fr_type f) TypeRequest) eqn:E2.
  { apply byte_eqb_eq in E2. rewrite E2. split; [done|]. intros (<- & _). by destruct Hw. }
  destruct (byte_eqb (fr_type f) want) eqn:E3; cbn [negb orb].
  - apply byte_eqb_eq in E3. destruct (Z.eqb_spec (fr_stream f) id); cbn [negb].
    + split; [by intros [= ->] | by intros (_ & _ & ->)].
    + split; [done | by intros (_ & ? & _)].
  - split; [done|]. intros (E & _). by rewrite (proj2 (byte_eqb_eq _ _) E) in E3.
Qed.

(** ** The body *)

Section Body.
Context {W : Type} `{WriterOk W}.

(** A write that reports no error took all it was given. *)
Lemma write_body `{!WriterFull W} b (w : W) n w' :
  wr_write b w = (n, None, w') -> wr_out w' = wr_out w ++ b.
Proof.
  intros E. pose proof (wr_write_full _ _ _ _ E) as ->.
  apply wr_write_out in E as [_ ->]. by rewrite take_ge.
Qed.

Lemma body_loop_sound `{!WriterFull W} fuel id res (body : W) c res' body' c' :
  body_loop fuel id res body c = (Ok res', body', c') ->
  0 <= res_BodyBytes res -> res_BodyBytes res + len (cl_input c) < 2 ^ 63 ->
  exists ds b, data_run id ds b /\ (forall fin, reads_list fin (cl_input c) ds (cl_input c')) /\
    res' = MkResult (res_Status res) (res_Headers res) (res_BodyBytes res + len b) /\
    wr_out body' = wr_out body ++ b /\ received_to c c'.
Proof.
  revert res body c. induction fuel as [|fuel IH]; intros res body c; cbn [body_loop]; [done|].
  destruct (readFrame c) as [[d|e] c1] eqn:Er; [|done].
  destruct (readFrame_Ok _ _ _ Er) as (Hto & _ & _ & Hrd).
  destruct (expect d TypeData id c1) as [[e|] c2] eqn:Ex; [done|].
  apply expect_None in Ex as (Hty & Hid & ->); [|by right].
  destruct (wr_write (fr_payload d) body) as [[n [e|]] body1] eqn:Ew; [done|].
  apply write_body in Ew. intros Hloop Hnn Hbig.
  pose proof (reads_ok_size _ _ _ _ (Hrd EOF)) as Hsz.
  pose proof (len_nonneg (fr_payload d)). pose proof (len_nonneg (cl_input c1)). unfold HeaderSize in Hsz.
  rewrite add64_small in Hloop by lia.
  destruct (Has (fr_flags d) FlagEndStream) eqn:Eh.
  - injection Hloop as <- <- <-. exists [d], (fr_payload d).
    split; [by constructor|]. split; [|done]. intros fin. econstructor; [apply Hrd|constructor].
  - apply IH in Hloop as (ds & b & Hrun & Hl & -> & Hout & Hto2); [|cbn; lia..].
    exists (d :: ds), (fr_payload d ++ b). split; [by constructor|].
    split; [intros fin; econstructor; [apply Hrd|apply Hl]|].
    cbn. split; [f_equal; rewrite len_app; lia|]. split; [|by etrans].
    by rewrite Hout, Ew, app_assoc.
Qed.

Lemma body_loop_complete fuel id res body (w : Buffer) c ds rest T :
  data_run id ds body -> 0 <= cl_Timeout c -> cl_prompt T c ->
  reads_list (cl_end c) (cl_input c) ds rest -> (length (cl_input c) < fuel)%nat ->
  0 <= res_BodyBytes res -> res_BodyBytes res + len (cl_input c) < 2 ^ 63 ->
  exists c', body_loop fuel id res w c =
      (Ok (MkResult (res_Status res) (res_Headers res) (res_BodyBytes res + len body)),
       MkBuffer (buf_bytes w ++ body), c') /\
    cl_input c' = rest /\ received_to c c'.
Proof.
  intros Hrun. revert fuel res w c.
  induction Hrun as [d Hty Hid Hf|d ds body Hty Hid Hf Hrun IH]; intros fuel res w c Ht HT Hl Hfuel Hnn Hbig;
    (destruct fuel as [|fuel]; [lia|]); cbn [body_loop];
    inversion Hl as [|? ? b1 ? ? Hrd Hl']; subst;
    destruct (readFrame_prompt T c d b1 Ht HT Hrd) as (c1 & Er & Hin); rewrite Er;
    destruct (readFrame_Ok _ _ _ Er) as (Hto & _ & Hlen & _);
    rewrite (proj2 (expect_None d TypeData (fr_stream d) c1 c1 (or_intror eq_refl))) by done;
    cbn [wr_write Buffer_writer]; rewrite Hf;
    pose proof (reads_ok_size _ _ _ _ Hrd) as Hsz; unfold HeaderSize in *;
    pose proof (len_nonneg (fr_payload d)); pose proof (len_nonneg b1);
    rewrite add64_small by lia.
  - inversion Hl'; subst. by eexists.
  - destruct Hto as [Hsame Ho He Hp]. destruct Hsame as (Hs1 & Hs2 & Hs3 & Hs4).
    destruct (IH fuel (MkResult (res_Status res) (res_Headers res) (res_BodyBytes res + len (fr_payload d)))
      (MkBuffer (buf_bytes w ++ fr_payload d)) c1) as (c' & Hloop & Hin' & Hto').
    + by rewrite Hs1.
    + by apply Hp.
    + by rewrite He, Hin.
    + unfold len in Hlen. lia.
    + cbn. lia.
    + cbn [res_BodyBytes]. rewrite Hin. lia.
    + exists c'. rewrite Hloop. cbn. rewrite len_app, <- app_assoc, Z.add_assoc. split; [done|].
      split; [done|]. etrans; [|done]. by split.
Qed.
End Body.

(** ** Requests *)

(** [next] is a [uint32] that has not wrapped. *)
Definition client_ok (c : Client conn) : Prop := 1 <= cl_next c <= 0xFFFFFFFF.

Definition request_frame (id : Z) (payload : bytes) : Frame :=
  {| fr_type := TypeRequest; fr_flags := FlagEndStream; fr_stream := id; fr_payload := payload |}.

(** [c'] is [c] after writing: what it will read is unchanged. *)
Record wrote_to (c c' : Client conn) : Prop := {
  wt_same : same_client c c';
  wt_input : cl_input c' = cl_input c;
  wt_end : cl_end c' = cl_end c;
  wt_prompt T : cl_prompt T c -> cl_prompt T c';
}.

Lemma client_write_spec f c err c' :
  0 <= cl_Timeout c -> sendable f -> client_write f c = (err, c') ->
  wrote_to c c' /\ (forall T, cl_prompt T c -> err = None) /\
  exists k, wr_out (cl_conn c') = wr_out (cl_conn c) ++ take k (wire 0 f) /\
    (err = None -> (length (wire 0 f) <= k)%nat).
Proof.
  intros Ht Hs. unfold client_write. destruct (Write _ f) as [e co] eqn:E. intros [= <- <-].
  apply Write_spec in E as ((Hin & Hfin & _) & Hp & Hk); [|done..].
  split; [|split; [|exact Hk]].
  - split; [done| | |].
    + unfold cl_input, buffered, pending. cbn. by rewrite Hin.
    + unfold cl_end, cl_conn. cbn. by rewrite Hfin.
    + intros T HT. by apply (Hp _ _ HT).
  - intros T HT. by apply (Hp _ _ HT).
Qed.

Lemma request_sendable r b id :
  Request_Encode r = Ok b -> id <> 0 -> sendable (request_frame id b).
Proof. intros (_ & _ & _ & _ & _ & _ & Hl)%Request_Encode_Ok Hid. by split. Qed.

Lemma take_id_spec c id c1 :
  client_ok c -> take_id c = (id, c1) ->
  id = cl_next c /\ cl_br c1 = cl_br c /\ cl_Timeout c1 = cl_Timeout c /\ cl_broken c1 = cl_broken c /\
  client_ok c1 /\
  ((cl_exhausted c1 = true /\ cl_next c1 = cl_next c) \/
   (cl_exhausted c1 = cl_exhausted c /\ cl_next c1 = cl_next c + 1)).
Proof.
  unfold take_id, client_ok. intros Hok. destruct (Z.eqb_spec (cl_next c) 0xFFFFFFFF); intros [= <- <-]; cbn.
  - repeat split; try done; auto; lia.
  - rewrite Z.mod_small by lia. repeat split; try done; [lia..|auto].
Qed.

Section Exchange.
Context {W : Type} `{WriterOk W}.

Lemma readResponse_sound `{!WriterFull W} id (body : W) c res body' c' :
  readResponse id body c = (Ok res, body', c') -> len (cl_input c) < 2 ^ 63 ->
  exists frames resp b, response_frames id frames resp b /\
    (forall fin, reads_list fin (cl_input c) frames (cl_input c')) /\
    res = MkResult (rsp_status resp) (rsp_headers resp) (len b) /\
    lengths_agree (rsp_headers resp) (len b) /\
    wr_out body' = wr_out body ++ b /\ received_to c c'.
Proof.
  unfold readResponse. destruct (readFrame c) as [[f|e] c1] eqn:Er; [|done].
  destruct (readFrame_Ok _ _ _ Er) as (Hto & _ & Hlen & Hrd). unfold HeaderSize in Hlen.
  destruct (expect f TypeResponse id c1) as [[e|] c2] eqn:Ex; [done|].
  apply expect_None in Ex as (Hty & Hid & ->); [|by left].
  destruct (DecodeResponse (fr_payload f)) as [resp|e] eqn:Ed; [|done].
  intros Hr Hbig. destruct (Has (fr_flags f) FlagEndStream) eqn:Eh.
  - cbn [res_BodyBytes] in Hr. destruct (checkLength (rsp_headers resp) 0) eqn:Ec; [done|].
    injection Hr as <- <- <-. apply checkLength_None in Ec.
    exists [f], resp, []. split; [by constructor|].
    split; [intros fin; econstructor; [apply Hrd|constructor]|].
    split; [done|]. split; [done|]. by rewrite app_nil_r.
  - destruct (body_loop _ id _ body c1) as [[[res1|e] body1] c2] eqn:El; [|done].
    apply body_loop_sound in El as (ds & b & Hrun & Hl & -> & Hout & Hto2); [|cbn; lia..].
    cbn [res_BodyBytes res_Status res_Headers] in Hr. rewrite Z.add_0_l in Hr.
    destruct (checkLength (rsp_headers resp) (len b)) eqn:Ec; [done|].
    injection Hr as <- <- <-. apply checkLength_None in Ec.
    exists (f :: ds), resp, b. split; [by eapply rf_body|].
    split; [intros fin; econstructor; [apply Hrd|apply Hl]|].
    split; [done|]. split; [done|]. split; [done|]. by etrans.
Qed.

Lemma readResponse_complete id (w : Buffer) c frames resp b rest T :
  response_frames id frames resp b -> lengths_agree (rsp_headers resp) (len b) ->
  0 <= cl_Timeout c -> cl_prompt T c -> reads_list (cl_end c) (cl_input c) frames rest ->
  len (cl_input c) < 2 ^ 63 ->
  exists c', readResponse id w c =
      (Ok (MkResult (rsp_status resp) (rsp_headers resp) (len b)), MkBuffer (buf_bytes w ++ b), c') /\
    cl_input c' = rest /\ received_to c c'.
Proof.
  intros Hresp Hlen Ht HT Hl Hbig. apply checkLength_None in Hlen. unfold readResponse.
  destruct Hresp as [f resp Hty Hid Hd Hf|f resp ds body Hty Hid Hd Hf Hrun];
    inversion Hl as [|? ? b1 ? ? Hrd Hl']; subst;
    destruct (readFrame_prompt T c f b1 Ht HT Hrd) as (c1 & Er & Hin); rewrite Er;
    destruct (readFrame_Ok _ _ _ Er) as (Hto & _ & Hlt & _); unfold HeaderSize in Hlt;
    rewrite (proj2 (expect_None f TypeResponse (fr_stream f) c1 c1 (or_introl eq_refl))) by done;
    rewrite Hd, Hf.
  - cbn [res_BodyBytes]. change (len []) with 0 in Hlen. rewrite Hlen. inversion Hl'; subst.
    rewrite app_nil_r. eexists. by destruct w.
  - pose proof Hto as [(Hs1 & Hs2 & Hs3 & Hs4) Ho He Hp].
    destruct (body_loop_complete (body_fuel c1) (fr_stream f)
      (MkResult (rsp_status resp) (rsp_headers resp) 0) body w c1 ds rest T Hrun)
      as (c' & El & Hin' & Hto').
    + by rewrite Hs1.
    + by apply Hp.
    + rewrite He, Hin. done.
    + unfold body_fuel, cl_input, buffered, cl_conn. cbn [nc_pending conn_netconn]. rewrite length_app. lia.
    + cbn. lia.
    + cbn. lia.
    + exists c'. rewrite El. cbn [res_BodyBytes res_Status res_Headers]. rewrite Z.add_0_l, Hlen.
      split; [done|]. split; [done|]. by etrans.
Qed.
End Exchange.

Lemma Get_complete path headers payload (w : Buffer) c frames resp b rest T :
  client_ok c -> 0 <= cl_Timeout c -> cl_broken c = false -> cl_exhausted c = false ->
  cl_prompt T c -> len (cl_input c) < 2 ^ 63 ->
  Request_Encode {| req_method := MethodGet; req_path := path; req_headers := headers |} = Ok payload ->
  reads_list (cl_end c) (cl_input c) frames rest ->
  response_frames (cl_next c) frames resp b -> lengths_agree (rsp_headers resp) (len b) ->
  exists c', Get path w headers c =
      (Ok (MkResult (rsp_status resp) (rsp_headers resp) (len b)), MkBuffer (buf_bytes w ++ b), c') /\
    wr_out (cl_conn c') = wr_out (cl_conn c) ++ wire 0 (request_frame (cl_next c) payload) /\
    cl_input c' = rest /\ cl_broken c' = false /\ cl_Timeout c' = cl_Timeout c /\
    client_ok c' /\ cl_prompt T c' /\
    (cl_next c < 0xFFFFFFFF -> cl_next c' = cl_next c + 1 /\ cl_exhausted c' = false).
Proof.
  intros Hok Ht Hb Hex HT Hbig He Hl Hresp Hlen. unfold Get. rewrite Hb, Hex.
  destruct (take_id c) as [id c1] eqn:Eid.
  assert (Hsmall : cl_next c < 0xFFFFFFFF -> cl_exhausted c1 = false).
  { unfold take_id in Eid. destruct (Z.eqb_spec (cl_next c) 0xFFFFFFFF); [lia|].
    by injection Eid as _ <-. }
  apply take_id_spec in Eid as (-> & Ebr & Eti & Ebk & Hok1 & Hnext); [|done].
  rewrite He.
  change (MkFrame TypeRequest FlagEndStream (cl_next c) payload) with (request_frame (cl_next c) payload).
  destruct (client_write (request_frame (cl_next c) payload) c1) as [err c2] eqn:Ew.
  apply client_write_spec in Ew as ([(Hs1 & Hs2 & Hs3 & Hs4) Hin He2 Hp2] & Hnone & k & Ek & Fk);
    [|by rewrite Eti|eapply request_sendable; [done|]; destruct Hok; lia].
  assert (HT1 : cl_prompt T c1) by (unfold cl_prompt, cl_conn in *; by rewrite Eti, Ebr).
  rewrite (Hnone T HT1) in *.
  assert (Ein : cl_input c1 = cl_input c /\ cl_end c1 = cl_end c)
    by (unfold cl_input, cl_end, cl_conn; by rewrite Ebr).
  destruct Ein as [Ein1 Ein2].
  destruct (readResponse_complete (cl_next c) w c2 frames resp b rest T Hresp Hlen)
    as (c' & -> & Hin' & [(Hr1 & Hr2 & Hr3 & Hr4) Ho _ Hp]).
  - by rewrite Hs1, Eti.
  - by apply Hp2.
  - by rewrite He2, Hin, Ein1, Ein2.
  - by rewrite Hin, Ein1.
  - exists c'. split; [done|]. split.
    { rewrite Ho, Ek, take_ge by (by apply Fk). unfold cl_conn. by rewrite Ebr. }
    split; [done|]. split; [congruence|]. split; [congruence|].
    split; [unfold client_ok in *; by rewrite Hr2, Hs2|]. split; [by apply Hp, Hp2|].
    intros Hlt. rewrite Hr2, Hr3, Hs2, Hs3. specialize (Hsmall Hlt). split; [|done].
    destruct Hnext as [[Hx _]|[_ ?]]; [congruence|done].
Qed.

(** ** Failing *)

(** [c'] is [c] after giving up: at most an ERROR frame was written. *)
Definition gave_up (c c' : Client conn) : Prop :=
  same_client c c' /\
  exists code msg k, wr_out (cl_conn c') = wr_out (cl_conn c) ++ take k (wire 0 (error_frame code msg)).

Lemma gave_up_refl c : gave_up c c.
Proof. split; [done|]. exists 0, [], 0%nat. by rewrite take_0, app_nil_r. Qed.

Lemma received_gave_up c c1 c2 : received_to c c1 -> gave_up c1 c2 -> gave_up c c2.
Proof.
  intros [(?&?&?&?) Ho _ _] [(?&?&?&?) (code & msg & k & E)].
  split; [repeat split; congruence|]. exists code, msg, k. congruence.
Qed.

Lemma sendError_spec code msg c :
  0 <= cl_Timeout c -> len msg <= 100 -> gave_up c (sendError code msg c).
Proof.
  intros Ht Hm. unfold sendError.
  assert (He : ConnError_Encode (MkConnError code msg) = Ok (put16 code ++ put16 (len msg) ++ msg)).
  { apply ConnError_Encode_Ok. cbn [ce_message ce_code]. unfold maxFramePayload. split; [lia|done]. }
  rewrite He. change (MkFrame TypeError x00 0 _) with (error_frame code msg).
  destruct (client_write (error_frame code msg) c) as [err c1] eqn:Ew.
  assert (Hs : sendable (error_frame code msg)).
  { split; [|done]. cbn [fr_payload error_frame]. rewrite !len_app, !len_put16. unfold MaxPayload. lia. }
  apply client_write_spec in Ew as ([Hsame _ _ _] & _ & k & Ek & _); [|done..].
  assert (Hg : gave_up c c1) by (split; [done|by exists code, msg, k]).
  destruct err; [done|].
  set (b := {| bf_buf := bf_buf (cl_br c1); bf_src := nc_SetReadDeadline client_drainTime (nc_CloseWrite (cl_conn c1)) |}).
  destruct (Copy_Discard_Limit_steps client_drainBytes b) as [d Hd].
  destruct (bufio_steps _ _ _ Hd) as (d' & Hc & _). apply conn_steps_ran in Hc as [_ _ Hc _ _].
  split; [exact Hsame|]. exists code, msg, k. rewrite <- Ek.
  unfold cl_conn at 1. cbn [cl_br with_br]. rewrite Hc. cbn.
  unfold CloseWrite. by destruct (c_halfcloses (cl_conn c1)).
Qed.

Lemma readFrame_Err c e c' : 0 <= cl_Timeout c -> readFrame c = (Err e, c') -> gave_up c c'.
Proof.
  intros Ht. unfold readFrame. destruct (Read _) as [r br] eqn:E.
  apply Read_spec in E as (Ho & Hf & Hp & _).
  assert (Hto : received_to c (with_br br c)).
  { split; [done|exact Ho|unfold cl_end, cl_conn; cbn; by rewrite Hf|]. intros T. apply Hp. }
  assert (Hg : gave_up c (with_br br c)) by (eapply received_gave_up; [done|apply gave_up_refl]).
  destruct r as [f|[| | |typ l|[]]]; try done; intros [= _ <-]; try done.
  - eapply received_gave_up; [done|]. by apply sendError_spec.
  - destruct (byte_eqb typ TypeError); [done|].
    eapply received_gave_up; [done|]. by apply sendError_spec.
Qed.

Lemma expect_gave_up f want id c err c' : 0 <= cl_Timeout c -> expect f want id c = (err, c') -> gave_up c c'.
Proof.
  intros Ht. unfold expect.
  destruct (byte_eqb (fr_type f) TypeError); [intros [= _ <-]; apply gave_up_refl|].
  destruct (byte_eqb (fr_type f) TypeRequest); [intros [= _ <-]; by apply sendError_spec|].
  case_match; intros [= _ <-]; apply gave_up_refl.
Qed.

(** [expect] writes only when it fails. *)
Lemma expect_None_same f want id c c' : expect f want id c = (None, c') -> c' = c.
Proof. unfold expect. repeat case_match; congruence. Qed.

Section Failing.
Context {W : Type} `{Writer W}.

Lemma body_loop_gave_up fuel id res (body : W) c r body' c' :
  0 <= cl_Timeout c -> body_loop fuel id res body c = (r, body', c') -> gave_up c c'.
Proof.
  revert res body c. induction fuel as [|fuel IH]; intros res body c Ht; cbn [body_loop].
  { intros [= _ _ <-]. apply gave_up_refl. }
  destruct (readFrame c) as [[d|e] c1] eqn:Er.
  2: { intros [= _ _ <-]. by eapply readFrame_Err. }
  destruct (readFrame_Ok _ _ _ Er) as (Hto & _). intros Hr. eapply received_gave_up; [done|].
  assert (Ht1 : 0 <= cl_Timeout c1) by (destruct Hto as [(-> & _) _ _ _]; done).
  destruct (expect d TypeData id c1) as [[e|] c2] eqn:Ex.
  { injection Hr as _ _ <-. by eapply expect_gave_up. }
  apply expect_None_same in Ex as ->.
  destruct (wr_write (fr_payload d) body) as [[n [e|]] body1].
  { injection Hr as _ _ <-. apply gave_up_refl. }
  destruct (Has (fr_flags d) FlagEndStream); [injection Hr as _ _ <-; apply gave_up_refl|].
  by eapply IH.
Qed.

Lemma readResponse_gave_up id (body : W) c r body' c' :
  0 <= cl_Timeout c -> readResponse id body c = (r, body', c') -> gave_up c c'.
Proof.
  intros Ht. unfold readResponse.
  destruct (readFrame c) as [[f|e] c1] eqn:Er.
  2: { intros [= _ _ <-]. by eapply readFrame_Err. }
  destruct (readFrame_Ok _ _ _ Er) as (Hto & _). intros Hr. eapply received_gave_up; [done|].
  assert (Ht1 : 0 <= cl_Timeout c1) by (destruct Hto as [(-> & _) _ _ _]; done).
  destruct (expect f TypeResponse id c1) as [[e|] c2] eqn:Ex.
  { injection Hr as _ _ <-. by eapply expect_gave_up. }
  apply expect_None_same in Ex as ->.
  destruct (DecodeResponse (fr_payload f)) as [resp|e]; [|injection Hr as _ _ <-; apply gave_up_refl].
  destruct (Has (fr_flags f) FlagEndStream).
  - cbn [res_BodyBytes] in Hr. destruct (checkLength _ _); injection Hr as _ _ <-; apply gave_up_refl.
  - destruct (body_loop (body_fuel c1) id _ body c1) as [[[res1|e] body1] c2] eqn:El;
      apply body_loop_gave_up in El; try done.
    + destruct (checkLength _ _); by injection Hr as _ _ <-.
    + by injection Hr as _ _ <-.
Qed.
End Failing.

(** ** Which errors come from where *)

(** Errors of the exchange itself, after the request went out. *)
Definition from_exchange (e : client_error) : bool :=
  match e with
  | ErrBroken | StreamIDsUsedUp | CannotBuild _ | SendingRequest _ => false
  | _ => true
  end.

Lemma readFrame_from c e c' : readFrame c = (Err e, c') -> from_exchange e = true.
Proof.
  unfold readFrame. destruct (Read _) as [[f|[| | |typ l|[]]] br]; by intros [= <- _].
Qed.

Lemma expect_from f want id c e c' : expect f want id c = (Some e, c') -> from_exchange e = true.
Proof.
  unfold expect, remoteError. repeat case_match; intros [= <- _]; done.
Qed.

Lemma checkLength_from hs n e : checkLength hs n = Some e -> from_exchange e = true.
Proof.
  induction hs as [|h hs IH]; cbn [checkLength]; [done|]. cbv zeta.
  repeat case_match; intros E; first [by apply IH | by injection E as <- | done].
Qed.

Lemma body_loop_from {W} `{Writer W} fuel id res (body : W) c e body' c' :
  body_loop fuel id res body c = (Err e, body', c') -> from_exchange e = true.
Proof.
  revert res body c. induction fuel as [|fuel IH]; intros res body c; cbn [body_loop]; [by intros [= <- _ _]|].
  destruct (readFrame c) as [[d|e1] c1] eqn:Er.
  2: { intros [= <- _ _]. by eapply readFrame_from. }
  destruct (expect d TypeData id c1) as [[e1|] c2] eqn:Ex.
  { intros [= <- _ _]. by eapply expect_from. }
  destruct (wr_write (fr_payload d) body) as [[n [e1|]] body1]; [by intros [= <- _ _]|].
  destruct (Has (fr_flags d) FlagEndStream); [done|]. apply IH.
Qed.

Lemma readResponse_from {W} `{Writer W} id (body : W) c e body' c' :
  readResponse id body c = (Err e, body', c') -> from_exchange e = true.
Proof.
  unfold readResponse. destruct (readFrame c) as [[f|e1] c1] eqn:Er.
  2: { intros [= <- _ _]. by eapply readFrame_from. }
  destruct (expect f TypeResponse id c1) as [[e1|] c2] eqn:Ex.
  { intros [= <- _ _]. by eapply expect_from. }
  destruct (DecodeResponse (fr_payload f)) as [resp|e1]; [|by intros [= <- _ _]].
  destruct (if Has (fr_flags f) FlagEndStream then _ else _) as [[[res1|e1] body1] c3] eqn:El.
  - destruct (checkLength (rsp_headers resp) (res_BodyBytes res1)) eqn:Ec; [|done].
    intros [= <- _ _]. by eapply checkLength_from.
  - intros [= <- _ _]. destruct (Has (fr_flags f) FlagEndStream); [done|]. by eapply body_loop_from.
Qed.
