(* ===== verification/ClientProps.v ===== *)
(** * Properties of the client

    What a correct response is answered with, what a result and a failure
    mean, and that stream identifiers are fresh. *)

From S2P Require Import Prelude GoIO Frame Headers Messages Conn Net Paths.
From S2P Require Import Client ClientProofs.

Definition get_request (path : bytes) (headers : list Header) : Request :=
  {| req_method := MethodGet; req_path := path; req_headers := headers |}.

(** ** A client to run *)

Definition ok_response (stream : Z) : Frame :=
  {| fr_type := TypeResponse; fr_flags := x00; fr_stream := stream;
     fr_payload := response_bytes (MkResponse 200 [NewHeader HeaderContentLength (str "5")]) |}.

Definition body_part (stream : Z) (fl : Flags) (b : bytes) : Frame :=
  {| fr_type := TypeData; fr_flags := fl; fr_stream := stream; fr_payload := b |}.

(** A response in three frames, with a frame of an unknown type in between,
    cut into two pieces; then more bytes. *)
Definition answer_bytes : bytes :=
  wire 0 (ok_response 1) ++ wire 7 (MkFrame x2a xff 99 (str "noise")) ++
  wire 0 (body_part 1 x00 (str "he")) ++ wire 0 (body_part 1 x01 (str "llo")) ++ str "rest".

Definition client_conn (b : bytes) : conn :=
  {| c_now := 0; c_in := [(Second, take 9 b); (2 * Second, drop 9 b)]; c_fin := (3 * Second, EOF);
     c_rdl := None; c_out := buffer; c_wdelay := [Second]; c_wdl := None;
     c_halfcloses := true; c_wshut := false; c_closed := false |}.

Definition sample_client : Client conn := New (client_conn answer_bytes).

Lemma sample_cl_prompt : cl_prompt (3 * Second) sample_client.
Proof.
  split; try done.
  - repeat (apply Forall_cons; split; [by vm_compute|]). by apply Forall_nil.
  - repeat (apply Forall_cons; split; [by vm_compute|]). by apply Forall_nil.
Qed.

Section Props.
Context {W : Type} `{WriterOk W}.

Lemma Get_sound `{!WriterFull W} path headers (body : W) c res body' c' :
  client_ok c -> 0 <= cl_Timeout c -> len (cl_input c) < 2 ^ 63 ->
  Get path body headers c = (Ok res, body', c') ->
  exists payload frames resp b,
    Request_Encode (get_request path headers) = Ok payload /\
    wr_out (cl_conn c') = wr_out (cl_conn c) ++ wire 0 (request_frame (cl_next c) payload) /\
    (forall fin, reads_list fin (cl_input c) frames (cl_input c')) /\
    response_frames (cl_next c) frames resp b /\
    lengths_agree (rsp_headers resp) (len b) /\
    res = MkResult (rsp_status resp) (rsp_headers resp) (len b) /\
    wr_out body' = wr_out body ++ b /\ cl_broken c' = false.
Proof.
  intros Hok Ht Hbig. unfold Get. destruct (cl_broken c) eqn:Eb; [done|].
  destruct (cl_exhausted c); [done|].
  destruct (take_id c) as [id c1] eqn:Eid.
  apply take_id_spec in Eid as (-> & Ebr & Eti & Ebk & _ & _); [|done].
  change (MkRequest MethodGet path headers) with (get_request path headers).
  destruct (Request_Encode (get_request path headers)) as [payload|e] eqn:Ee; [|done].
  change (MkFrame TypeRequest FlagEndStream (cl_next c) payload) with (request_frame (cl_next c) payload).
  destruct (client_write (request_frame (cl_next c) payload) c1) as [[e|] c2] eqn:Ew; [done|].
  apply client_write_spec in Ew as ([Hs Hin _ _] & _ & k & Ek & Fk);
    [|by rewrite Eti|eapply request_sendable; [done|]; destruct Hok; lia].
  destruct (readResponse (cl_next c) body c2) as [[[res1|e] body1] c3] eqn:Er; [|done].
  intros [= <- <- <-].
  assert (Hin1 : cl_input c1 = cl_input c) by (unfold cl_input; by rewrite Ebr).
  apply readResponse_sound in Er as (frames & resp & b & Hf & Hl & -> & Hlen & Hout & Hto);
    [|by rewrite Hin, Hin1].
  destruct Hto as [(_ & _ & _ & Hbk) Ho _ _]. destruct Hs as (_ & _ & _ & Hbk2).
  exists payload, frames, resp, b. split; [done|]. split.
  { rewrite Ho, Ek, take_ge by (by apply Fk). unfold cl_conn. by rewrite Ebr. }
  split; [by rewrite Hin, Hin1 in Hl|]. repeat (split; [done|]). congruence.
Qed.

(** (C7) What [Get] returns is what the server sent: on any network and with
    any body writer, a result means that the request was written in full on
    the client's next stream, and that the bytes consumed hold (unknown frames
    aside) exactly one response on that stream -- RESPONSE, then DATA up to
    the first END_STREAM -- whose status and headers are the result's, whose
    payloads joined are what the body writer was given, and whose every
    content-length header is the number of those bytes. *)
Theorem Get_returns_what_was_sent `{!WriterFull W} path headers (body : W) c res body' c' :
  client_ok c -> 0 <= cl_Timeout c -> len (cl_input c) < 2 ^ 63 ->
  Get path body headers c = (Ok res, body', c') ->
  exists payload frames resp b,
    Request_Encode (get_request path headers) = Ok payload /\
    wr_out (cl_conn c') = wr_out (cl_conn c) ++ wire 0 (request_frame (cl_next c) payload) /\
    (forall fin, reads_list fin (cl_input c) frames (cl_input c')) /\
    response_frames (cl_next c) frames resp b /\
    lengths_agree (rsp_headers resp) (len b) /\
    res = MkResult (rsp_status resp) (rsp_headers resp) (len b) /\
    wr_out body' = wr_out body ++ b /\ cl_broken c' = false.
Proof. apply Get_sound. Qed.

(** (C28) A failed [Get] is final, with one exception: unless the request could
    not be built -- then nothing was sent, nothing was read, and the client
    goes on -- the client is broken and its connection closed, and every later
    [Get] fails with [ErrBroken] and does nothing at all. *)
Theorem Get_failure_is_final path headers (body : W) c e body' c' :
  Get path body headers c = (Err e, body', c') ->
  match e with
  | CannotBuild _ =>
      body' = body /\ cl_br c' = cl_br c /\ cl_broken c' = false
  | _ =>
      cl_broken c' = true /\ (e <> ErrBroken -> c_closed (cl_conn c') = true) /\
      forall path2 headers2 (body2 : W), Get path2 body2 headers2 c' = (Err ErrBroken, body2, c')
  end.
Proof.
  assert (Hgone : forall c0, cl_broken c0 = true ->
    forall path2 headers2 (body2 : W), Get path2 body2 headers2 c0 = (Err ErrBroken, body2, c0)).
  { intros c0 E path2 headers2 body2. unfold Get. by rewrite E. }
  assert (Hfail : forall c0 x, match x with CannotBuild _ => False | _ => True end ->
    match x with
    | CannotBuild _ => body' = body /\ cl_br (client_fail c0) = cl_br c /\ cl_broken (client_fail c0) = false
    | _ => cl_broken (client_fail c0) = true /\ (x <> ErrBroken -> c_closed (cl_conn (client_fail c0)) = true) /\
        forall path2 headers2 (body2 : W),
          Get path2 body2 headers2 (client_fail c0) = (Err ErrBroken, body2, client_fail c0)
    end).
  { intros c0 x Hx. destruct x; try done; (split; [done|]; split; [done|]; by apply Hgone). }
  intros HG. unfold Get in HG. revert HG. destruct (cl_broken c) eqn:Eb.
  { intros [= <- <- <-]. split; [done|]. split; [done|]. by apply Hgone. }
  destruct (cl_exhausted c); [intros [= <- <- <-]; exact (Hfail c StreamIDsUsedUp I)|].
  assert (Hid : exists id c1, take_id c = (id, c1) /\ cl_br c1 = cl_br c /\ cl_broken c1 = cl_broken c).
  { unfold take_id. case_match; by eexists _, _. }
  destruct Hid as (id & c1 & -> & Ebr & Ebk).
  destruct (Request_Encode _) as [payload|e1].
  2: { intros [= <- <- <-]. by rewrite Ebr, Ebk, Eb. }
  destruct (client_write _ c1) as [[e1|] c2]; [intros [= <- <- <-]; exact (Hfail c2 (SendingRequest e1) I)|].
  destruct (readResponse id body c2) as [[[res1|e1] body1] c3] eqn:Er; [done|].
  intros [= <- <- <-]. apply readResponse_from in Er.
  pose proof (Hfail c3 e1) as Hx. destruct e1; (done || exact (Hx I)).
Qed.

(** (C38) Stream ids are never reused: a [Get] sends at most its request, on the
    client's next stream, and one ERROR frame; after it the next stream is
    larger or the ids are exhausted, and a client that is broken or has no ids
    left sends nothing.  The ids stay in 1..2^32-1. *)
Theorem stream_ids_are_fresh path headers (body : W) c r body' c' :
  client_ok c -> 0 <= cl_Timeout c -> Get path body headers c = (r, body', c') ->
  client_ok c' /\
  (cl_broken c = true \/ cl_exhausted c = true ->
     wr_out (cl_conn c') = wr_out (cl_conn c)) /\
  (cl_broken c = false -> cl_exhausted c = false ->
     (cl_next c' = cl_next c + 1 \/ cl_exhausted c' = true) /\
     exists payload k1 code msg k2, wr_out (cl_conn c') = wr_out (cl_conn c) ++
       take k1 (wire 0 (request_frame (cl_next c) payload)) ++ take k2 (wire 0 (error_frame code msg))).
Proof.
  intros Hok Ht. unfold Get. destruct (cl_broken c) eqn:Eb.
  { intros [= _ _ <-]. done. }
  destruct (cl_exhausted c) eqn:Eex.
  { intros [= _ _ <-]. done. }
  destruct (take_id c) as [id c1] eqn:Eid.
  apply take_id_spec in Eid as (-> & Ebr & Eti & Ebk & Hok1 & Hnext); [|done].
  assert (Hfresh : cl_next c1 = cl_next c + 1 \/ cl_exhausted c1 = true) by tauto.
  assert (Eo : wr_out (cl_conn c1) = wr_out (cl_conn c)) by (unfold cl_conn; by rewrite Ebr).
  change (MkRequest MethodGet path headers) with (get_request path headers).
  destruct (Request_Encode (get_request path headers)) as [payload|e] eqn:Ee.
  2: { intros [= _ _ <-]. split; [done|]. split; [by intros []|]. intros _ _. split; [done|].
       exists [], 0%nat, 0, [], 0%nat. by rewrite !take_0, !app_nil_r. }
  change (MkFrame TypeRequest FlagEndStream (cl_next c) payload) with (request_frame (cl_next c) payload).
  destruct (client_write (request_frame (cl_next c) payload) c1) as [werr c2] eqn:Ew.
  apply client_write_spec in Ew as ([(Hs1 & Hs2 & Hs3 & Hs4) _ _ _] & _ & k & Ek & _);
    [|by rewrite Eti|eapply request_sendable; [done|]; destruct Hok; lia].
  assert (Hend : forall c3, gave_up c2 c3 -> client_ok c3 /\
    (cl_next c3 = cl_next c + 1 \/ cl_exhausted c3 = true) /\
    exists payload k1 code msg k2, wr_out (cl_conn c3) = wr_out (cl_conn c) ++
       take k1 (wire 0 (request_frame (cl_next c) payload)) ++ take k2 (wire 0 (error_frame code msg))).
  { intros c3 [(_ & H2 & H3 & _) (code & msg & k2 & E3)]. split; [|split].
    - unfold client_ok in *. by rewrite H2, Hs2.
    - rewrite H2, H3, Hs2, Hs3. done.
    - exists payload, k, code, msg, k2. by rewrite E3, Ek, Eo, app_assoc. }
  destruct werr as [e|].
  { intros [= _ _ <-]. destruct (Hend c2 (gave_up_refl c2)) as (H1 & H2 & H3).
    split; [done|]. split; [by intros []|]. done. }
  destruct (readResponse (cl_next c) body c2) as [[r1 body1] c3] eqn:Er.
  apply readResponse_gave_up in Er; [|by rewrite Hs1, Eti].
  destruct (Hend c3 Er) as (H1 & H2 & H3).
  destruct r1; intros [= _ _ <-]; (split; [done|]; split; [by intros []|]; done).
Qed.
End Props.

(** (C6) The client accepts every correct exchange: if, on a network that keeps
    the deadlines, the bytes the server sends hold the frames of a response on
    the client's next stream -- however they are cut, and whatever unknown
    frames surround them -- with content-length headers that agree with the
    body, then [Get] returns that response, the body writer holds exactly the
    body, and the client is ready for the next request with the following
    bytes untouched. *)
Theorem Get_accepts_correct_responses path headers payload (w : Buffer) c frames resp b rest T :
  client_ok c -> 0 <= cl_Timeout c -> cl_broken c = false -> cl_exhausted c = false ->
  cl_prompt T c -> len (cl_input c) < 2 ^ 63 ->
  Request_Encode (get_request path headers) = Ok payload ->
  reads_list (cl_end c) (cl_input c) frames rest ->
  response_frames (cl_next c) frames resp b -> lengths_agree (rsp_headers resp) (len b) ->
  exists c', Get path w headers c =
      (Ok (MkResult (rsp_status resp) (rsp_headers resp) (len b)), MkBuffer (buf_bytes w ++ b), c') /\
    wr_out (cl_conn c') = wr_out (cl_conn c) ++ wire 0 (request_frame (cl_next c) payload) /\
    cl_input c' = rest /\ cl_broken c' = false /\ cl_Timeout c' = cl_Timeout c /\
    client_ok c' /\ cl_prompt T c' /\
    (cl_next c < 0xFFFFFFFF -> cl_next c' = cl_next c + 1 /\ cl_exhausted c' = false).
Proof. apply Get_complete. Qed.

Lemma sample_frames_read :
  reads_list EOF answer_bytes [ok_response 1; body_part 1 x00 (str "he"); body_part 1 x01 (str "llo")] (str "rest").
Proof.
  unfold answer_bytes. eapply rl_cons; [by apply reads_frame|].
  eapply rl_cons.
  { unfold wire at 1. rewrite <- app_assoc. apply reads_skip; try done. by apply reads_frame. }
  eapply rl_cons; [by apply reads_frame|]. apply rl_nil.
Qed.

Lemma sample_response_frames :
  response_frames 1 [ok_response 1; body_part 1 x00 (str "he"); body_part 1 x01 (str "llo")]
    (MkResponse 200 [NewHeader HeaderContentLength (str "5")]) (str "hello").
Proof.
  eapply rf_body; [done..| |].
  - done.
  - change (str "hello") with (str "he" ++ str "llo").
    by apply (dr_more 1 (body_part 1 x00 (str "he"))), (dr_last 1 (body_part 1 x01 (str "llo"))).
Qed.

Lemma sample_lengths : lengths_agree [NewHeader HeaderContentLength (str "5")] 5.
Proof. apply Forall_singleton. by vm_compute. Qed.

Lemma Get_accepts_correct_responses_witness :
  exists c', Get (str "/a") (MkBuffer (str ">")) [] sample_client =
      (Ok (MkResult 200 [NewHeader HeaderContentLength (str "5")] 5), MkBuffer (str ">hello"), c') /\
    wr_out (cl_conn c') = [] ++ wire 0 (request_frame 1 (request_bytes (get_request (str "/a") []))) /\
    cl_input c' = str "rest" /\ cl_broken c' = false /\ cl_Timeout c' = 30 * Second /\ client_ok c' /\ cl_prompt (3 * Second) c' /\
    (1 < 0xFFFFFFFF -> cl_next c' = 1 + 1 /\ cl_exhausted c' = false).
Proof.
  apply (Get_accepts_correct_responses (str "/a") [] _ (MkBuffer (str ">")) sample_client _ _ (str "hello") _
           (3 * Second) ltac:(done) ltac:(done) eq_refl eq_refl sample_cl_prompt ltac:(done) eq_refl
           sample_frames_read sample_response_frames sample_lengths).
Defined.

Lemma Get_returns_what_was_sent_witness :
  exists res body' c', Get (str "/a") (MkBuffer []) [] sample_client = (Ok res, body', c') /\
  exists payload frames resp b,
    Request_Encode (get_request (str "/a") []) = Ok payload /\
    wr_out (cl_conn c') = wr_out (cl_conn sample_client) ++ wire 0 (request_frame 1 payload) /\
    (forall fin, reads_list fin (cl_input sample_client) frames (cl_input c')) /\
    response_frames 1 frames resp b /\
    lengths_agree (rsp_headers resp) (len b) /\
    res = MkResult (rsp_status resp) (rsp_headers resp) (len b) /\
    wr_out body' = wr_out (MkBuffer []) ++ b /\ cl_broken c' = false.
Proof.
  eexists _, _, _. split; [vm_compute; reflexivity|].
  apply (Get_returns_what_was_sent (str "/a") [] (MkBuffer []) sample_client); [done..|].
  vm_compute. reflexivity.
Defined.

(** The server answers on another stream. *)
Definition bad_client : Client conn := New (client_conn (wire 0 (ok_response 2))).

Lemma Get_failure_is_final_witness :
  exists c', Get (str "/a") (MkBuffer []) [] bad_client =
      (Err (Unexpected TypeResponse 1 TypeResponse 2), MkBuffer [], c') /\
    cl_broken c' = true /\
    (Unexpected TypeResponse 1 TypeResponse 2 <> ErrBroken -> c_closed (cl_conn c') = true) /\
    forall path2 headers2 (body2 : Buffer), Get path2 body2 headers2 c' = (Err ErrBroken, body2, c').
Proof.
  eexists. split; [vm_compute; reflexivity|].
  apply (Get_failure_is_final (W := Buffer) (str "/a") [] (MkBuffer []) bad_client
           (Unexpected TypeResponse 1 TypeResponse 2) (MkBuffer [])).
  vm_compute. reflexivity.
Defined.

Lemma stream_ids_are_fresh_witness :
  exists r body' c', Get (str "/a") (MkBuffer []) [] bad_client = (r, body', c') /\ client_ok c' /\
  (cl_broken bad_client = true \/ cl_exhausted bad_client = true ->
     wr_out (cl_conn c') = wr_out (cl_conn bad_client)) /\
  (cl_broken bad_client = false -> cl_exhausted bad_client = false ->
     (cl_next c' = cl_next bad_client + 1 \/ cl_exhausted c' = true) /\
     exists payload k1 code msg k2, wr_out (cl_conn c') = wr_out (cl_conn bad_client) ++
       take k1 (wire 0 (request_frame (cl_next bad_client) payload)) ++ take k2 (wire 0 (error_frame code msg))).
Proof.
  eexists _, _, _. split; [vm_compute; reflexivity|].
  apply (stream_ids_are_fresh (W := Buffer) (str "/a") [] (MkBuffer []) bad_client
           (Err (Unexpected TypeResponse 1 TypeResponse 2)) (MkBuffer [])); [done..|].
  vm_compute. reflexivity.
Defined.
