(* ===== verification/EndToEnd.v ===== *)
(** * A client and a server

    The two ends composed: what [client.Get] returns when the bytes it reads
    are those [Server.handle] wrote for the requests it sent, several requests
    on one connection, cut anyhow in both directions. *)

From S2P Require Import Prelude GoIO Frame Headers Messages Conn Net Paths OsFs Resolver.
From S2P Require Import Server ServerSpec ServerProofs ServerProps Client ClientProofs ClientProps.

(** ** The answer to a path *)

(** The response and the body a path is owed. *)
Definition owed {FS} `{Filesystem FS} (fs : FS) (res : resolver) (path : bytes) : Response * bytes :=
  match fst (open fs res path 0) with
  | Ok (file, info) =>
    (MkResponse 200 (file_headers (contentType (fi_name info)) (fi_size info)),
     ztake (fi_size info) (rd_content (f_data file)))
  | Err errBadPath => (MkResponse 400 status_headers, [])
  | Err errNotFound => (MkResponse 404 status_headers, [])
  | Err (OsErr _) => (MkResponse 500 status_headers, [])
  end.

(** The file of a path, if it has one, is as long as it says. *)
Definition whole_file {FS} `{Filesystem FS} (fs : FS) (res : resolver) (path : bytes) : Prop :=
  forall file info, fst (open fs res path 0) = Ok (file, info) ->
    fi_size info <= len (rd_content (f_data file)).

Definition good_frame (f : Frame) : Prop :=
  wf_frame f /\ received f /\ len (fr_payload f) <= MaxPayload.

Lemma reads_list_wires fin fs rest :
  Forall good_frame fs -> reads_list fin (wires fs ++ rest) fs rest.
Proof.
  intros Hfs. induction Hfs as [|f fs (Hw & (Hk & Hn) & Hl) Hfs IH]; [constructor|].
  rewrite wires_cons, <- app_assoc. eapply rl_cons; [by apply reads_frame|done].
Qed.

Lemma reads_list_split fin b fs1 fs2 b2 :
  reads_list fin b (fs1 ++ fs2) b2 -> exists b1, reads_list fin b fs1 b1 /\ reads_list fin b1 fs2 b2.
Proof.
  revert b. induction fs1 as [|f fs1 IH]; intros b Hl; [exists b; by split; [constructor|]|].
  inversion Hl as [|? ? b0 ? ? Hr Hl']; subst. destruct (IH b0 Hl') as (b1 & H1 & H2).
  exists b1. split; [by eapply rl_cons|done].
Qed.

Lemma reads_list_shorter fin b fs b' : reads_list fin b fs b' -> len b' <= len b.
Proof.
  induction 1 as [|b f b1 fs b2 Hr Hl IH]; [lia|].
  apply reads_ok_shorter in Hr. unfold HeaderSize in Hr. lia.
Qed.

(** How the stream ends does not matter to the frames before. *)
Lemma reads_list_any fin fin' b fs b' : reads_list fin b fs b' -> reads_list fin' b fs b'.
Proof.
  induction 1 as [|b f b1 fs b2 Hr Hl IH]; [constructor|]. eapply rl_cons; [|done].
  destruct (reads_suffix _ _ _ _ Hr) as [u ->]. by eapply reads_local.
Qed.

Lemma reads_all_list fin b fs e : reads_all fin b fs e -> exists b', reads_list fin b fs b'.
Proof.
  induction 1 as [b e rest Hr|b f rest fs e Hr Ha [b' IH]]; [exists b; constructor|].
  exists b'. by eapply rl_cons.
Qed.

Lemma response_bytes_decode status hs :
  100 <= status <= 599 -> len hs <= 255 -> Forall header_ok hs ->
  DecodeResponse (response_bytes (MkResponse status hs)) = Ok (MkResponse status hs).
Proof.
  intros. apply DecodeResponse_wire. unfold response_bytes. cbn [rsp_status rsp_headers].
  apply rs_wire; [done | by apply encoded_headers_wire].
Qed.

Lemma data_run_frames id ps :
  ps <> [] -> data_run id (data_frames id true ps) (List.concat ps).
Proof.
  induction ps as [|p [|q ps] IH]; intros Hne; [done| |].
  - cbn. rewrite app_nil_r. by apply (dr_last id (data_frame id true p)).
  - change (data_frames id true (p :: q :: ps)) with (data_frame id false p :: data_frames id true (q :: ps)).
    by apply (dr_more id (data_frame id false p)), IH.
Qed.

Lemma status_frame_response id status :
  100 <= status <= 599 ->
  response_frames id [status_frame id status] (MkResponse status status_headers) [].
Proof.
  intros Hs. apply rf_alone; try done.
  by apply response_bytes_decode; [|done|apply status_headers_ok].
Qed.

Lemma file_answer_response id size ctype data :
  int64 size -> size <= len data -> len ctype <= 24 ->
  exists frames, file_answer id size ctype data = (frames, true) /\
    response_frames id frames (MkResponse 200 (file_headers ctype size)) (ztake size data).
Proof.
  intros Hsz Hl Hc. unfold file_answer, body_frames. rewrite (proj2 (Z.leb_le _ _)) by done.
  eexists. split; [done|].
  assert (Hd : DecodeResponse (response_bytes (MkResponse 200 (file_headers ctype size))) =
    Ok (MkResponse 200 (file_headers ctype size))).
  { by apply response_bytes_decode; [|done|apply file_headers_ok]. }
  assert (Hlt : len (ztake size data) = size) by (apply len_ztake; destruct Hsz; lia).
  destruct (Z.eqb_spec size 0) as [->|Hne].
  - by apply rf_alone.
  - apply rf_body; try done.
    assert (E : List.concat (pieces (pieces_for size) (ztake size data)) = ztake size data).
    { apply concat_pieces. rewrite Hlt. apply pieces_for_enough. by destruct Hsz. }
    rewrite <- E at 2. apply data_run_frames. intros Hnil. rewrite Hnil in E. cbn in E.
    rewrite <- E in Hlt. change (len []) with 0 in Hlt. lia.
Qed.

Lemma status_lengths : lengths_agree status_headers 0.
Proof. repeat (apply Forall_cons; split; [by vm_compute|]). by apply Forall_nil. Qed.

Lemma file_lengths ctype size : int64 size -> lengths_agree (file_headers ctype size) size.
Proof.
  intros Hs. destruct (FormatInt_spec size Hs) as (E & Hd & Hl). unfold file_headers, lengths_agree.
  apply Forall_cons. split; [done|]. apply Forall_cons. split.
  - intros _. cbn [h_value NewHeader]. rewrite E. destruct Hs. repeat split; try done; lia.
  - apply Forall_cons. split; [done|]. by apply Forall_nil.
Qed.

Section Answers.
Context {FS : Type} `{Filesystem FS} (fs : FS) (res : resolver) (Hsized : files_sized fs).

(** A request that [Get] built is answered with what its path is owed. *)
Lemma request_answer_owed id path headers payload :
  Request_Encode (get_request path headers) = Ok payload -> whole_file fs res path ->
  exists frames, request_answer fs res (request_frame id payload) = (frames, true) /\
    response_frames id frames (owed fs res path).1 (owed fs res path).2 /\
    lengths_agree (rsp_headers (owed fs res path).1) (len (owed fs res path).2).
Proof.
  intros He Hw. unfold request_answer. cbn [fr_flags fr_payload fr_stream request_frame].
  change (wrong_flags FlagEndStream) with false.
  assert (DecodeRequest payload = Ok (get_request path headers)) as ->.
  { apply Request_Encode_Ok in He as (Hm & Hp & Hu & Hl & Hok & -> & _).
    by apply DecodeRequest_wire, request_bytes_wire. }
  cbn [req_path get_request]. unfold owed.
  destruct (fst (open fs res path 0)) as [[file info]|[| |e]] eqn:Eo.
  - pose proof (open_sized fs _ _ _ _ _ Hsized Eo) as Hsz. specialize (Hw _ _ Eo).
    destruct (file_answer_response id (fi_size info) (contentType (fi_name info)) (rd_content (f_data file)))
      as (frames & -> & Hr); [done|done|apply contentType_short|].
    exists frames. split; [done|]. split; [done|]. cbn [fst snd rsp_headers].
    rewrite len_ztake by (destruct Hsz; lia). by apply file_lengths.
  - eexists. split; [done|]. split; [by apply status_frame_response | apply status_lengths].
  - eexists. split; [done|]. split; [by apply status_frame_response | apply status_lengths].
  - eexists. split; [done|]. split; [by apply status_frame_response | apply status_lengths].
Qed.
End Answers.

(** ** What the server sends can be read *)

Lemma response_frame_good id status hs e :
  1 <= id <= 0xFFFFFFFF -> len (response_bytes (MkResponse status hs)) <= maxFramePayload ->
  good_frame (response_frame id status hs e).
Proof.
  intros Hid Hl. split; [unfold wf_frame; cbn; lia|]. split; [|exact Hl].
  split; [done|]. cbn. lia.
Qed.

Lemma data_frames_good id e ps :
  1 <= id <= 0xFFFFFFFF -> Forall (fun p => len p <= MaxPayload) ps -> Forall good_frame (data_frames id e ps).
Proof.
  intros Hid Hps.
  assert (Hg : forall e p, len p <= MaxPayload -> good_frame (data_frame id e p)).
  { intros e' p Hp. split; [unfold wf_frame; cbn; lia|]. split; [|exact Hp]. split; [done|]. cbn. lia. }
  destruct ps as [|p ps _] using rev_ind; [constructor|]. rewrite data_frames_snoc.
  apply Forall_app in Hps as [H1 H2]. apply Forall_app. split.
  - apply Forall_fmap. eapply Forall_impl; [exact H1|]. intros q Hq. by apply Hg.
  - apply Forall_cons in H2 as [H2 _]. by apply Forall_singleton, Hg.
Qed.

Lemma pieces_limit n data : Forall (fun p => len p <= MaxPayload) (pieces n data).
Proof.
  revert data. induction n as [|n IH]; intros data; cbn [pieces]; constructor; [|apply IH].
  rewrite len_ztake_min by done. lia.
Qed.

Lemma request_answer_good {FS} `{Filesystem FS} (fs : FS) res f :
  files_sized fs -> 1 <= fr_stream f <= 0xFFFFFFFF -> Forall good_frame (request_answer fs res f).1.
Proof.
  intros Hsized Hid. unfold request_answer.
  assert (Hst : forall status, 100 <= status <= 599 -> Forall good_frame [status_frame (fr_stream f) status]).
  { intros status Hs. apply Forall_singleton, response_frame_good; [done|].
    done. }
  destruct (wrong_flags (fr_flags f)); [by apply Hst|].
  destruct (DecodeRequest (fr_payload f)) as [req|e]; [|by apply Hst].
  destruct (fst (open fs res (req_path req) 0)) as [[file info]|[| |e]] eqn:Eo; try by apply Hst.
  pose proof (open_sized fs _ _ _ _ _ Hsized Eo) as Hsz.
  unfold file_answer, body_frames.
  destruct (fi_size info <=? _); cbn [fst]; (apply Forall_cons; split;
    [apply response_frame_good; [done | apply file_response_fits; [apply contentType_short | done]]
    |apply data_frames_good; [done|apply pieces_limit]]).
Qed.

(** ** Several requests *)

(** The requests of a client whose next stream is [id]. *)
Fixpoint requests_from (id : Z) (payloads : list bytes) : list Frame :=
  match payloads with
  | [] => []
  | payload :: payloads => request_frame id payload :: requests_from (id + 1) payloads
  end.

(** One [Get] after the other, each into a buffer of its own. *)
Fixpoint gets (paths : list bytes) (c : Client conn) : list (result client_error Result * bytes) * Client conn :=
  match paths with
  | [] => ([], c)
  | path :: paths =>
    let '(r, w, c) := Get path (MkBuffer []) [] c in
    let '(rs, c) := gets paths c in
    ((r, buf_bytes w) :: rs, c)
  end.

Definition owed_result {FS} `{Filesystem FS} (fs : FS) (res : resolver) (path : bytes) :
    result client_error Result * bytes :=
  let '(resp, body) := owed fs res path in
  (Ok (MkResult (rsp_status resp) (rsp_headers resp) (len body)), body).

Lemma requests_good id payloads paths :
  1 <= id -> id + len payloads <= 0xFFFFFFFF ->
  Forall2 (fun path payload => Request_Encode (get_request path []) = Ok payload) paths payloads ->
  Forall good_frame (requests_from id payloads).
Proof.
  revert id paths. induction payloads as [|payload payloads IH]; intros id paths H1 H2 Hall; [constructor|].
  inversion Hall as [|path ? paths' ? He Hall']; subst. rewrite len_cons in H2.
  pose proof (len_nonneg payloads). cbn [requests_from]. constructor.
  - apply Request_Encode_Ok in He as (_ & _ & _ & _ & _ & _ & Hl).
    split; [unfold wf_frame; cbn; lia|]. split; [|exact Hl]. split; [done|]. cbn. lia.
  - apply (IH (id + 1) paths'); [lia..|done].
Qed.

Section Sessions.
Context {FS : Type} `{Filesystem FS} (fs : FS) (res : resolver) (Hsized : files_sized fs).

(** All the frames of a session can be read again. *)
Lemma session_good id payloads paths :
  1 <= id -> id + len payloads <= 0xFFFFFFFF ->
  Forall2 (fun path payload => Request_Encode (get_request path []) = Ok payload) paths payloads ->
  Forall (whole_file fs res) paths ->
  Forall good_frame (session fs res (requests_from id payloads) (IOError EOF)).
Proof.
  intros H1 H2 Hall. revert id H1 H2.
  induction Hall as [|path payload paths payloads He Hall IH]; intros id H1 H2 Hw; [constructor|].
  apply Forall_cons in Hw as [Hwf Hw]. rewrite len_cons in H2. pose proof (len_nonneg payloads).
  destruct (request_answer_owed fs res Hsized id path [] payload He Hwf) as (frames & Hans & _).
  pose proof (request_answer_good fs res (request_frame id payload) Hsized) as Hgood.
  rewrite Hans in Hgood. cbn [fst fr_stream request_frame] in Hgood.
  cbn [requests_from session]. unfold reply.
  change (byte_eqb (fr_type (request_frame id payload)) TypeRequest) with true. cbn iota.
  rewrite Hans. apply Forall_app. split; [apply Hgood; lia|]. apply IH; [lia..|done].
Qed.

(** The client reads its answers out of anything that holds their frames. *)
Lemma gets_session paths payloads c T rest :
  Forall2 (fun path payload => Request_Encode (get_request path []) = Ok payload) paths payloads ->
  Forall (whole_file fs res) paths ->
  1 <= cl_next c -> cl_next c + len payloads <= 0xFFFFFFFF ->
  cl_broken c = false -> cl_exhausted c = false -> 0 <= cl_Timeout c -> cl_prompt T c ->
  len (cl_input c) < 2 ^ 63 ->
  reads_list EOF (cl_input c) (session fs res (requests_from (cl_next c) payloads) (IOError EOF)) rest ->
  exists c', gets paths c = (owed_result fs res <$> paths, c') /\
    wr_out (cl_conn c') = wr_out (cl_conn c) ++ wires (requests_from (cl_next c) payloads).
Proof.
  intros Hall. revert c. induction Hall as [|path payload paths payloads He Hall IH];
    intros c Hw Hn1 Hn2 Hb Hex Ht HT Hbig Hin.
  { exists c. cbn. by rewrite app_nil_r. }
  apply Forall_cons in Hw as [Hwf Hw]. rewrite len_cons in Hn2. pose proof (len_nonneg payloads).
  destruct (request_answer_owed fs res Hsized (cl_next c) path [] payload He Hwf)
    as (frames & Hans & Hresp & Hlen).
  cbn [requests_from session] in Hin. unfold reply in Hin.
  change (byte_eqb (fr_type (request_frame (cl_next c) payload)) TypeRequest) with true in Hin.
  cbn iota in Hin. rewrite Hans in Hin. apply reads_list_split in Hin as (b1 & Hl1 & Hl2).
  destruct (Get_complete path [] payload (MkBuffer []) c frames (owed fs res path).1 (owed fs res path).2
    b1 T) as (c1 & Hget & Hout & Hin1 & Hb1 & Hti & Hok1 & HT1 & Hnext); try done.
  { split; lia. }
  { by eapply reads_list_any. }
  destruct Hnext as [Hnx Hex1]; [lia|].
  destruct (IH c1) as (c' & Hgets & Hout'); try done; try (rewrite Hnx; lia).
  - by rewrite Hti.
  - rewrite Hin1. apply reads_list_shorter in Hl1. lia.
  - by rewrite Hnx, Hin1.
  - exists c'. cbn [gets]. rewrite Hget, Hgets. split.
    + cbn [fmap list_fmap]. unfold owed_result at 2. by destruct (owed fs res path).
    + rewrite Hout', Hout, Hnx. cbn [requests_from]. by rewrite wires_cons, app_assoc.
Qed.

(** The server's half: what [handle] writes for the requests of a client. *)
Lemma handle_answers IsPrint s paths payloads sc sT handles log :
  res = s_res s -> 0 <= s_writeTimeout s -> 0 <= s_idleTimeout s ->
  Forall2 (fun path payload => Request_Encode (get_request path []) = Ok payload) paths payloads ->
  len payloads < 0xFFFFFFFF ->
  healthy s sT (MkState (NewReader sc) handles log) ->
  (c_fin sc).2 = EOF -> pending sc = wires (requests_from 1 payloads) ->
  exists st', handle IsPrint fs s sc handles log = Some st' /\
    wr_out (h_conn st') = wr_out sc ++ wires (session fs res (requests_from 1 payloads) (IOError EOF)).
Proof.
  intros -> Hwt Hit Hall Hlen HT Hfin Hin.
  assert (Hreads : reads_all (c_fin sc).2 (pending sc) (requests_from 1 payloads) (IOError EOF)).
  { rewrite Hfin, Hin, <- (app_nil_r (wires _)). apply reads_all_wires.
    - eapply requests_good; [done| |done]. lia.
    - eapply reads_all_end, (reads_end EOF). }
  destruct (handle_spec IsPrint fs s Hsized Hwt sc handles log _ _ Hit Hreads)
    as (st' & fr' & e' & Hh & _ & _ & _ & Hfull & k & Ek & Fk).
  destruct Hfull as [-> ->]; [by exists sT|].
  exists st'. split; [done|]. rewrite take_ge in Ek by (apply Fk; by exists sT). done.
Qed.
End Sessions.

(** (C1) End to end: a client that gets any list of paths over one connection
    receives, in order, exactly what the server's document tree owes each of
    them -- the bytes of the file with status 200, or an empty 400, 404 or
    500 -- when the server reads the requests the client writes and the
    client reads the bytes the server writes, however the network cuts either
    direction and as long as it keeps the deadlines. *)
Theorem client_gets_what_server_owes {FS} `{Filesystem FS} IsPrint (fs : FS) s
    paths payloads sc sT handles log cc cT :
  files_sized fs -> 0 <= s_writeTimeout s -> 0 <= s_idleTimeout s ->
  Forall2 (fun path payload => Request_Encode (get_request path []) = Ok payload) paths payloads ->
  Forall (whole_file fs (s_res s)) paths -> len payloads < 0xFFFFFFFF ->
  healthy s sT (MkState (NewReader sc) handles log) ->
  (c_fin sc).2 = EOF -> pending sc = wires (requests_from 1 payloads) -> wr_out sc = [] ->
  exists st', handle IsPrint fs s sc handles log = Some st' /\
  (cl_prompt cT (New cc) -> pending cc = wr_out (h_conn st') -> len (pending cc) < 2 ^ 63 ->
   wr_out cc = [] ->
   exists c', gets paths (New cc) = (owed_result fs (s_res s) <$> paths, c') /\
     wr_out (cl_conn c') = pending sc).
Proof.
  intros Hsized Hwt Hit Hall Hwf Hlen HT Hfin Hin Hout.
  destruct (handle_answers fs (s_res s) Hsized IsPrint s paths payloads sc sT handles log)
    as (st' & Hh & Ho); try done.
  exists st'. split; [done|]. intros HcT Hcin Hbig Hcout. rewrite Hout, app_nil_l in Ho.
  destruct (gets_session fs (s_res s) Hsized paths payloads (New cc) cT []) as (c' & Hg & Hw);
    try done.
  - cbn [cl_next New]. lia.
  - change (cl_input (New cc)) with (pending cc).
    rewrite Hcin, Ho, <- (app_nil_r (wires _)). apply reads_list_wires.
    apply (session_good fs (s_res s) Hsized 1 payloads paths); [done|lia|done..].
  - exists c'. split; [done|]. rewrite Hw, Hin. change (cl_conn (New cc)) with cc. by rewrite Hcout.
Qed.

(** Two gets from the sample tree: its index page and a link out of it. *)
Definition e2e_paths : list bytes := [str "/"; str "/out"].
Definition e2e_payloads : list bytes := (fun p => request_bytes (get_request p [])) <$> e2e_paths.

Definition e2e_server_conn : conn := with_in
  [(Second, take 17 (wires (requests_from 1 e2e_payloads)));
   (3 * Second, drop 17 (wires (requests_from 1 e2e_payloads)))] sample_conn.

Lemma client_conn_prompt b : cl_prompt (3 * Second) (New (client_conn b)).
Proof.
  split; try done; repeat (apply Forall_cons; split; [by vm_compute|]); by apply Forall_nil.
Qed.

Lemma pending_client_conn b : pending (client_conn b) = b.
Proof. unfold pending, client_conn. cbn [c_in fmap list_fmap snd List.concat]. by rewrite app_nil_r, take_drop. Qed.

Lemma client_gets_what_server_owes_witness :
  exists st' c', handle no_rune sample_fs sample_server e2e_server_conn 0 [] = Some st' /\
  gets e2e_paths (New (client_conn (wr_out (h_conn st')))) =
    ([owed_result sample_fs sample_root (str "/"); owed_result sample_fs sample_root (str "/out")], c').
Proof.
  assert (Hh : healthy sample_server (25 * Second) (MkState (NewReader e2e_server_conn) 0 [])).
  { split; try done; repeat (apply Forall_cons; split; [by vm_compute|]); by apply Forall_nil. }
  assert (Hw : Forall (whole_file sample_fs (s_res sample_server)) e2e_paths).
  { apply Forall_cons. split; [intros f i E; vm_compute in E; injection E as <- <-; by vm_compute|].
    apply Forall_cons. split; [|by apply Forall_nil]. intros f i E. by vm_compute in E. }
  assert (He : Forall2 (fun path payload => Request_Encode (get_request path []) = Ok payload)
    e2e_paths e2e_payloads) by repeat constructor.
  assert (Hout : match handle no_rune sample_fs sample_server e2e_server_conn 0 [] with
                 | Some st' => len (wr_out (h_conn st')) < 2 ^ 63
                 | None => False end) by (vm_compute; reflexivity).
  destruct (handle no_rune sample_fs sample_server e2e_server_conn 0 []) as [st'|] eqn:Eh; [|destruct Hout].
  destruct (client_gets_what_server_owes no_rune sample_fs sample_server e2e_paths e2e_payloads
    e2e_server_conn (25 * Second) 0 [] (client_conn (wr_out (h_conn st'))) (3 * Second)
    sample_sized ltac:(done) ltac:(done) He Hw ltac:(done) Hh eq_refl ltac:(vm_compute; reflexivity) eq_refl)
    as (st2 & E2 & Hgets).
  rewrite Eh in E2. injection E2 as <-.
  destruct (Hgets (client_conn_prompt _) (pending_client_conn _)) as (c' & Hg & _);
    [rewrite pending_client_conn; exact Hout | reflexivity|].
  exists st', c'. split; [reflexivity|exact Hg].
Defined.
