(* ===== verification/Chaos.v ===== *)
(** * internal/chaos

    [chaos.go]: the pump that relays a server's answers in random pieces and
    with noise frames in between.  [math/rand] is the interface [Rand]; the
    pump writes to any [io.Writer] and reads from any [io.Reader]. *)

From S2P Require Import Prelude GoIO Frame Net.

(** ** math/rand *)

(** [Intn n] draws from [0..n-1]; [RandRead n] is [rng.Read] on [n] bytes. *)
Class Rand (G : Type) : Type := {
  Intn : Z -> G -> Z * G;
  RandRead : Z -> G -> bytes * G;
}.

Class RandOk (G : Type) `{Rand G} : Prop := {
  Intn_range n g : 0 < n -> 0 <= fst (Intn n g) < n;
  RandRead_len n g : 0 <= n -> len (fst (RandRead n g)) = n;
}.

(** ** The pump *)

(** [o_Logf] is whether [Logf] is set; lines go to a list. *)
Record Options : Type := MkOptions {
  o_Chunk : Z;
  o_Delay : Z;
  o_Noise : bool;
  o_Seed : Z;                (** [int64] *)
  o_Logf : bool;
}.

Record stats : Type := MkStats { frames : Z; injected : Z; writes : Z }.

(** [p_slept] is the time spent in [time.Sleep]. *)
Record pump (W G : Type) : Type := MkPump {
  p_out : W;
  p_rng : G;
  p_st : stats;
  p_slept : Z;
}.
Arguments MkPump {W G}.
Arguments p_out {W G}.
Arguments p_rng {W G}.
Arguments p_st {W G}.
Arguments p_slept {W G}.

(** [unknownTypes] *)
Definition unknownTypes : bytes := [x05; x06; x0a; x7e; x80; xfe; xff].

Section Pump.
Context {W G R : Type} `{Writer W} `{Rand G} `{Reader R} (o : Options).

Notation P := (pump W G).

Definition with_out (w : W) (p : P) : P := MkPump w (p_rng p) (p_st p) (p_slept p).
Definition with_rng (g : G) (p : P) : P := MkPump (p_out p) g (p_st p) (p_slept p).
Definition count_write (p : P) : P :=
  MkPump (p_out p) (p_rng p) (MkStats (frames (p_st p)) (injected (p_st p)) (writes (p_st p) + 1))
    (if 0 <? o_Delay o then p_slept p + o_Delay o else p_slept p).
Definition count_frame (p : P) : P :=
  MkPump (p_out p) (p_rng p) (MkStats (frames (p_st p) + 1) (injected (p_st p)) (writes (p_st p)))
    (p_slept p).
Definition count_injected (p : P) : P :=
  MkPump (p_out p) (p_rng p) (MkStats (frames (p_st p)) (injected (p_st p) + 1) (writes (p_st p)))
    (p_slept p).

Definition draw (n : Z) (p : P) : Z * P :=
  let '(v, g) := Intn n (p_rng p) in (v, with_rng g p).

(** [writeChunked], which [send] calls with the pump's fields; every turn
    takes at least a byte, so the length of [b] is enough fuel. *)
Fixpoint writeChunked (fuel : nat) (b : bytes) (p : P) : option ioerr * P :=
  match b, fuel with
  | [], _ => (None, p)
  | _, O => (Some ErrFuel, p)
  | _, S fuel =>
    let '(n, p) :=
      if 0 <? o_Chunk o then let '(v, p) := draw (o_Chunk o) p in (Z.min (len b) (1 + v), p)
      else (len b, p) in
    let '(_, err, w) := wr_write (ztake n b) (p_out p) in
    let p := with_out w p in
    match err with
    | Some e => (Some e, p)
    | None => writeChunked fuel (zdrop n b) (count_write p)
    end
  end.

Definition send (b : bytes) (p : P) : option ioerr * P := writeChunked (length b) b p.

Definition inject (p : P) : option ioerr * P :=
  let '(n, p) := draw 65 p in
  let '(payload, g) := RandRead n (p_rng p) in
  let p := with_rng g p in
  let '(t, p) := draw (len unknownTypes) p in
  let '(fl, p) := draw 256 p in
  let '(reserved, p) := draw 65536 p in
  let '(stream, p) := draw 3 p in
  let hdr := put32 (len payload) ++ [unknownTypes !!! Z.to_nat t; zb fl] ++ put16 reserved ++ put32 stream in
  send (hdr ++ payload) (count_injected p).

(** [copyRaw]: pieces of at most 4096 bytes until the server ends. *)
Fixpoint copyRaw_loop (fuel : nat) (server : R) (p : P) : P :=
  match fuel with
  | O => p
  | S fuel =>
    let '(d, err, server) := rd_read 4096 server in
    let '(serr, p) := if 0 <? len d then send d p else (None, p) in
    match serr with
    | Some _ => p
    | None =>
      match err with
      | Some _ => p
      | None => copyRaw_loop fuel server p
      end
    end
  end.

Definition copyRaw (server : R) (p : P) : P := copyRaw_loop (S (rd_measure server)) server p.

(** [run]; a turn takes at least a header off the server's stream. *)
Fixpoint run_loop (fuel : nat) (server : R) (p : P) : P :=
  match fuel with
  | O => p
  | S fuel =>
    let '(hdr, err, server) := ReadFull HeaderSize server in
    match err with
    | Some _ => p
    | None =>
      let length := Uint32 (take 4 hdr) in
      if MaxPayload <? length then
        let '(err, p) := send hdr p in
        match err with
        | Some _ => p
        | None => copyRaw server p
        end
      else
        let '(got, err, server) := ReadFull length server in
        (* [body] is a slice of [length] zero bytes that the read filled from
           the front. *)
        let body := got ++ replicate (Z.to_nat length - List.length got) x00 in
        match err with
        | Some _ => snd (send (hdr ++ body) p)
        | None =>
          let '(err, p) := if o_Noise o then inject p else (None, p) in
          match err with
          | Some _ => p
          | None =>
            let '(err, p) := send (hdr ++ body) (count_frame p) in
            match err with
            | Some _ => p
            | None =>
              let '(err, p) :=
                if o_Noise o && negb (Z.land (bz (hdr !!! 5%nat)) (bz FlagEndStream) =? 0)
                then inject p else (None, p) in
              match err with
              | Some _ => p
              | None => run_loop fuel server p
              end
            end
          end
        end
    end
  end.

Definition run (server : R) (p : P) : P := run_loop (S (length (rd_content server))) server p.
End Pump.

(** ** Streams that hold the same frames *)

Definition same_frames (fin : ioerr) (b1 b2 : bytes) : Prop :=
  forall fs e, reads_all fin b1 fs e <-> reads_all fin b2 fs e.

#[export] Instance same_frames_equivalence fin : Equivalence (same_frames fin).
Proof.
  split; [by intros b fs e | by intros b1 b2 E fs e; symmetry |].
  intros b1 b2 b3 E1 E2 fs e. by rewrite (E1 fs e).
Qed.

(** A frame in front of streams with the same frames. *)
Lemma same_frames_cons fin f b1 b2 :
  raw_ok f -> same_frames fin b1 b2 -> same_frames fin (raw_bytes f ++ b1) (raw_bytes f ++ b2).
Proof.
  assert (Himp : forall b1 b2, raw_ok f -> same_frames fin b1 b2 -> forall fs e,
    reads_all fin (raw_bytes f ++ b1) fs e -> reads_all fin (raw_bytes f ++ b2) fs e).
  { clear b1 b2. intros b1 b2 (Hl & Hs & Hres) Hsame fs e Hall.
    unfold raw_bytes in *. rewrite <- !app_assoc in *.
    destruct f as [t fl res st p]. cbn [rw_type rw_flags rw_reserved rw_stream rw_payload] in *.
    destruct (known t) eqn:Hk.
    - destruct (needsStream t && (st =? 0)) eqn:Hn.
      + apply andb_true_iff in Hn as [Hn Hst]. apply Z.eqb_eq in Hst as ->.
        destruct (reads_all_deterministic _ _ _ _ _ _ Hall
          (reads_all_end _ _ _ _ (reads_stream_zero fin t fl res p b1 Hn Hl))) as [-> ->].
        by eapply reads_all_end, reads_stream_zero.
      + set (g := MkFrame t fl st p).
        assert (Hr : forall b, reads fin (wire res g ++ b) (Ok g) b).
        { intros b. apply reads_frame; try done.
          cbn. intros Hn' ->. by rewrite Hn' in Hn. }
        assert (E : forall b, header (len p) t fl res st ++ p ++ b = wire res g ++ b).
        { intros b. unfold wire. by rewrite <- app_assoc. }
        rewrite E in *. destruct (reads_all_total fin b1) as (fs1 & e1 & H1).
        destruct (reads_all_deterministic _ _ _ _ _ _ Hall (reads_all_next _ _ _ _ _ _ (Hr b1) H1))
          as [-> ->].
        eapply reads_all_next; [apply Hr|]. by apply Hsame.
    - destruct (reads_all_total fin b1) as (fs1 & e1 & H1).
      destruct (reads_all_deterministic _ _ _ _ _ _ Hall
        (reads_all_skip _ _ _ _ _ _ _ _ _ Hk Hl Hs H1)) as [-> ->].
      apply reads_all_skip; try done. by apply Hsame. }
  intros Hok Hsame fs e. split; apply Himp; done.
Qed.

(** A frame of an unknown type in front. *)
Lemma same_frames_noise fin f b :
  raw_ok f -> known (rw_type f) = false -> same_frames fin (raw_bytes f ++ b) b.
Proof.
  intros (Hl & Hs & _) Hk fs e. unfold raw_bytes. rewrite <- app_assoc. split.
  - intros Hall. destruct (reads_all_total fin b) as (fs1 & e1 & H1).
    by destruct (reads_all_deterministic _ _ _ _ _ _ Hall
      (reads_all_skip _ _ _ _ _ _ _ _ _ Hk Hl Hs H1)) as [-> ->].
  - by apply reads_all_skip.
Qed.

(** ** What the pump does on a client connection that works *)

Section PumpFacts.
Context {W G R : Type} `{WriterReliable W} `{RandOk G} `{ReaderOk R} (o : Options).
Implicit Types p : pump W G.

Lemma draw_range n p : 0 < n -> exists v p', draw n p = (v, p') /\ 0 <= v < n /\ p_out p' = p_out p.
Proof.
  intros Hn. unfold draw. pose proof (Intn_range n (p_rng p) Hn) as Hr.
  destruct (Intn n (p_rng p)) as [v g]. by exists v, (with_rng g p).
Qed.

(** The size of the next piece. *)
Lemma piece_size (b : bytes) p :
  b <> [] ->
  exists n p', (if 0 <? o_Chunk o then let '(v, p) := draw (o_Chunk o) p in (Z.min (len b) (1 + v), p)
                else (len b, p)) = (n, p') /\
    p_out p' = p_out p /\ 1 <= n <= len b /\ (0 < o_Chunk o -> n <= o_Chunk o) /\
    (o_Chunk o <= 0 -> n = len b).
Proof.
  intros Hb. assert (1 <= len b) by (destruct b as [|x b']; [done|]; rewrite len_cons; pose proof (len_nonneg b'); lia).
  destruct (Z.ltb_spec 0 (o_Chunk o)) as [Hc|Hc].
  - destruct (draw_range (o_Chunk o) p Hc) as (v & p' & -> & Hv & Ho). eexists _, p'.
    split; [done|]. split; [done|]. lia.
  - exists (len b), p. split; [done|]. split; [done|]. lia.
Qed.

Lemma writeChunked_ok fuel b p :
  (length b <= fuel)%nat ->
  exists p', writeChunked o fuel b p = (None, p') /\ wr_out (p_out p') = wr_out (p_out p) ++ b.
Proof.
  revert b p. induction fuel as [|fuel IH]; intros b p Hf.
  { destruct b; [|cbn in Hf; lia]. exists p. by rewrite app_nil_r. }
  destruct (decide (b = [])) as [->|Hb]; [exists p; by rewrite app_nil_r|].
  destruct (piece_size b p Hb) as (n & p1 & E & Ho & Hn & _).
  destruct (wr_write_reliable (ztake n b) (p_out p1)) as (w & Ew & Hw).
  destruct (IH (zdrop n b) (count_write o (with_out w p1))) as (p' & Ep & Hp').
  { unfold zdrop. rewrite length_drop. lia. }
  exists p'. split.
  - destruct b as [|x b]; [done|]. cbn [writeChunked]. rewrite E, Ew. exact Ep.
  - rewrite Hp'. cbn [p_out count_write with_out]. by rewrite Hw, Ho, <- app_assoc, ztake_zdrop.
Qed.

Lemma send_ok b p :
  exists p', send o b p = (None, p') /\ wr_out (p_out p') = wr_out (p_out p) ++ b.
Proof. by apply writeChunked_ok. Qed.

(** An injected frame is one no version knows. *)
Lemma inject_ok p :
  exists p' f, inject o p = (None, p') /\ raw_ok f /\ known (rw_type f) = false /\
    wr_out (p_out p') = wr_out (p_out p) ++ raw_bytes f.
Proof.
  unfold inject.
  destruct (draw_range 65 p) as (n & p1 & -> & Hn & O1); [lia|].
  pose proof (RandRead_len n (p_rng p1) ltac:(lia)) as Hlen.
  destruct (RandRead n (p_rng p1)) as [payload g]. cbn [fst] in Hlen.
  destruct (draw_range (len unknownTypes) (with_rng g p1)) as (t & p2 & -> & Ht & O2); [done|].
  destruct (draw_range 256 p2) as (fl & p3 & -> & Hfl & O3); [lia|].
  destruct (draw_range 65536 p3) as (res & p4 & -> & Hres & O4); [lia|].
  destruct (draw_range 3 p4) as (st & p5 & -> & Hst & O5); [lia|].
  set (f := MkRaw (unknownTypes !!! Z.to_nat t) (zb fl) res st payload).
  destruct (send_ok (raw_bytes f) (count_injected p5)) as (p' & E & Ho).
  exists p', f. split; [|split; [|split]].
  - rewrite <- E. reflexivity.
  - split; cbn; [unfold MaxPayload|]; lia.
  - assert (Hall : Forall (fun t => known t = false) unknownTypes) by (by repeat constructor).
    rewrite Forall_lookup in Hall. apply (Hall (Z.to_nat t)). apply list_lookup_lookup_total_lt.
    unfold len in Ht. lia.
  - rewrite Ho. cbn [p_out count_injected]. rewrite O5, O4, O3, O2. cbn [with_rng p_out]. by rewrite O1.
Qed.

Lemma copyRaw_loop_ok fuel (server : R) p :
  (rd_measure server < fuel)%nat ->
  wr_out (p_out (copyRaw_loop o fuel server p)) = wr_out (p_out p) ++ rd_content server.
Proof.
  revert server p. induction fuel as [|fuel IH]; intros server p Hf; [lia|]. cbn [copyRaw_loop].
  destruct (rd_read 4096 server) as [[d err] server1] eqn:E.
  assert (Hsend : exists p1, (if 0 <? len d then send o d p else (None, p)) = (None, p1) /\
    wr_out (p_out p1) = wr_out (p_out p) ++ d).
  { destruct (Z.ltb_spec 0 (len d)) as [Hd|Hd]; [apply send_ok|]. exists p. split; [done|].
    assert (d = []) as -> by (apply len_0_nil; pose proof (len_nonneg d); lia). by rewrite app_nil_r. }
  destruct Hsend as (p1 & -> & Ho). destruct err as [e|].
  - apply rd_read_err in E as (-> & Hc & _); [|lia]. by rewrite Ho, Hc.
  - apply rd_read_data in E as (_ & Hc & _ & Hm); [|lia].
    rewrite IH by lia. by rewrite Ho, Hc, app_assoc.
Qed.
End PumpFacts.

(** An end of a stream in which no frame is cut: nothing, or a header that
    declares too much and whatever follows it. *)
Definition unframed (tail : bytes) : Prop := tail = [] \/ unreadable tail.

(** What becomes of the end of a server's stream.  The beginning of a header is
    dropped; a payload that was cut is filled up with zeros; what follows a
    header that declares too much is passed on as it comes. *)
Definition forwarded (tail : bytes) : bytes :=
  if len tail <? HeaderSize then []
  else
    let length := Uint32 (take 4 tail) in
    if MaxPayload <? length then tail
    else tail ++ replicate (Z.to_nat (HeaderSize + length - len tail)) x00.

Lemma unframed_ends tail : unframed tail -> ends_frames tail.
Proof. intros [->|Hu]; [left; apply incomplete_nil|by right]. Qed.

Lemma forwarded_unframed tail : unframed tail -> forwarded tail = tail.
Proof.
  intros [->|(l & t & fl & res & s & rest & Hl & ->)]; [done|]. unfold forwarded.
  rewrite len_app, len_header. pose proof (len_nonneg rest).
  rewrite (proj2 (Z.ltb_ge _ HeaderSize)) by (unfold HeaderSize; lia).
  rewrite header_length_field by (unfold MaxPayload in Hl; lia). by rewrite (proj2 (Z.ltb_lt MaxPayload l)) by lia.
Qed.

Lemma forwarded_cut l t fl res s got :
  0 <= l <= MaxPayload ->
  forwarded (header l t fl res s ++ got) =
    header l t fl res s ++ got ++ replicate (Z.to_nat l - length got) x00.
Proof.
  intros Hl. unfold forwarded. rewrite len_app, len_header. pose proof (len_nonneg got).
  rewrite (proj2 (Z.ltb_ge _ HeaderSize)) by (unfold HeaderSize; lia).
  rewrite header_length_field by (unfold MaxPayload in Hl; lia). rewrite (proj2 (Z.ltb_ge MaxPayload l)) by lia.
  rewrite <- app_assoc. do 3 f_equal. unfold HeaderSize, len. lia.
Qed.

Section Run.
Context {W G R : Type} `{WriterReliable W} `{RandOk G} `{ReaderOk R} (o : Options).
Implicit Types p : pump W G.

(** A turn of [run] on a whole frame. *)
Lemma run_loop_frame fuel (server : R) p f rest :
  raw_ok f -> rd_content server = raw_bytes f ++ rest ->
  exists server' p' before after,
    run_loop o (S fuel) server p = run_loop o fuel server' p' /\
    rd_content server' = rest /\ Forall (fun g => raw_ok g /\ known (rw_type g) = false) (before ++ after) /\
    wr_out (p_out p') = wr_out (p_out p) ++ List.concat (raw_bytes <$> before) ++ raw_bytes f ++
      List.concat (raw_bytes <$> after) /\
    (o_Noise o = false -> before = [] /\ after = []).
Proof.
  intros (Hl & Hs & Hres) Hc. destruct f as [t fl res st pl].
  cbn [rw_type rw_flags rw_reserved rw_stream rw_payload] in *.
  unfold raw_bytes in Hc. cbn [rw_type rw_flags rw_reserved rw_stream rw_payload] in Hc.
  set (hdr := header (len pl) t fl res st) in *. rewrite <- app_assoc in Hc.
  cbn [run_loop].
  destruct (ReadFull_enough HeaderSize server hdr (pl ++ rest)) as (s1 & -> & Hc1 & _); [done|done|].
  assert (Hlen : Uint32 (take 4 hdr) = len pl).
  { rewrite <- (app_nil_r hdr). apply header_length_field. pose proof (len_nonneg pl). unfold MaxPayload in Hl. lia. }
  rewrite Hlen, (proj2 (Z.ltb_ge _ _)) by done.
  destruct (ReadFull_enough (len pl) s1 pl rest) as (s2 & -> & Hc2 & _); [done|done|].
  assert (Hbody : pl ++ replicate (Z.to_nat (len pl) - length pl) x00 = pl).
  { unfold len. rewrite Nat2Z.id, Nat.sub_diag. cbn. apply app_nil_r. }
  rewrite Hbody.
  assert (Hinj : forall (b : bool) p0, exists p1 gs, (if b then inject o p0 else (None, p0)) = (None, p1) /\
    Forall (fun g => raw_ok g /\ known (rw_type g) = false) gs /\
    wr_out (p_out p1) = wr_out (p_out p0) ++ List.concat (raw_bytes <$> gs) /\ (b = false -> gs = [])).
  { intros b p0. destruct b; [|exists p0, []; cbn; by rewrite app_nil_r].
    destruct (inject_ok o p0) as (p1 & g & E & Hok & Hk & Ho). exists p1, [g].
    split; [done|]. split; [by apply Forall_singleton|]. split; [|done]. cbn. by rewrite app_nil_r. }
  destruct (Hinj (o_Noise o) p) as (p1 & before & -> & Hb & Ho1 & Hnb).
  destruct (send_ok o (hdr ++ pl) (count_frame p1)) as (p2 & -> & Ho2).
  destruct (Hinj (o_Noise o && negb (Z.land (bz (hdr !!! 5%nat)) (bz FlagEndStream) =? 0)) p2)
    as (p3 & after & -> & Ha & Ho3 & Hna).
  exists s2, p3, before, after. split; [done|]. split; [done|].
  split; [by apply Forall_app|]. split.
  - rewrite Ho3, Ho2. cbn [p_out count_frame]. rewrite Ho1. unfold raw_bytes at 3.
    cbn [rw_type rw_flags rw_reserved rw_stream rw_payload]. by rewrite <- !app_assoc.
  - intros E. rewrite E in *. auto.
Qed.

(** Noise in front of a stream. *)
Lemma same_frames_noises fin gs b :
  Forall (fun g => raw_ok g /\ known (rw_type g) = false) gs ->
  same_frames fin (List.concat (raw_bytes <$> gs) ++ b) b.
Proof.
  intros Hgs. induction Hgs as [|g gs [Hok Hk] Hgs IH]; [done|].
  cbn [fmap list_fmap List.concat]. rewrite <- app_assoc.
  etrans; [by apply same_frames_noise | exact IH].
Qed.

(** A turn of [run] on the end of the stream. *)
Lemma run_loop_end fuel (server : R) p tail :
  ends_frames tail -> rd_content server = tail ->
  wr_out (p_out (run_loop o (S fuel) server p)) = wr_out (p_out p) ++ forwarded tail.
Proof.
  intros Htail Hc. cbn [run_loop].
  destruct Htail as [[Hs|(l & t & fl & res & st & got & Hl & Hgot & ->)]|(l & t & fl & res & st & rest & Hl & ->)].
  - destruct (ReadFull_short HeaderSize server) as (s1 & -> & _); [by rewrite Hc|].
    unfold forwarded. by rewrite (proj2 (Z.ltb_lt _ _) Hs), app_nil_r.
  - destruct (ReadFull_enough HeaderSize server (header l t fl res st) got)
      as (s1 & -> & Hc1 & _); [done|done|].
    assert (Uint32 (take 4 (header l t fl res st)) = l) as ->.
    { rewrite <- (app_nil_r (header l t fl res st)). apply header_length_field. unfold MaxPayload in Hl. lia. }
    rewrite (proj2 (Z.ltb_ge _ _)) by lia.
    destruct (ReadFull_short l s1) as (s2 & -> & _); [by rewrite Hc1|]. rewrite Hc1, forwarded_cut by done.
    destruct (send_ok o (header l t fl res st ++ got ++ replicate (Z.to_nat l - length got) x00) p) as (p1 & -> & Ho).
    exact Ho.
  - destruct (ReadFull_enough HeaderSize server (header l t fl res st) rest)
      as (s1 & -> & Hc1 & _); [done|done|].
    assert (Uint32 (take 4 (header l t fl res st)) = l) as ->.
    { rewrite <- (app_nil_r (header l t fl res st)). apply header_length_field. unfold MaxPayload in Hl. lia. }
    rewrite (proj2 (Z.ltb_lt _ _)) by lia. rewrite forwarded_unframed by (right; repeat eexists; lia).
    destruct (send_ok o (header l t fl res st) p) as (p1 & -> & Ho).
    unfold copyRaw. rewrite copyRaw_loop_ok by lia. by rewrite Ho, Hc1, app_assoc.
Qed.

Lemma run_loop_all fuel (server : R) p fs tail fin :
  splits (rd_content server) fs tail -> (length fs < fuel)%nat ->
  let stream := List.concat (raw_bytes <$> fs) ++ forwarded tail in
  exists out, wr_out (p_out (run_loop o fuel server p)) = wr_out (p_out p) ++ out /\
    same_frames fin out stream /\ (o_Noise o = false -> out = stream).
Proof.
  intros [Hfs Htail Hc]. revert fuel server p Hc.
  induction Hfs as [|f fs Hf Hfs IH]; intros fuel server p Hc Hfuel; (destruct fuel as [|fuel]; [lia|]).
  - exists (forwarded tail). split; [by apply run_loop_end|done].
  - cbn [fmap list_fmap List.concat] in Hc. rewrite <- app_assoc in Hc.
    destruct (run_loop_frame fuel server p f _ Hf Hc) as (s1 & p1 & before & after & -> & Hc1 & Hn & Ho & Hno).
    apply Forall_app in Hn as [Hb Ha]. cbn [length] in Hfuel.
    destruct (IH fuel s1 p1 Hc1 ltac:(lia)) as (out & Hout & Hsame & Hsm).
    exists (List.concat (raw_bytes <$> before) ++ raw_bytes f ++ List.concat (raw_bytes <$> after) ++ out).
    split; [by rewrite Hout, Ho, <- !app_assoc|]. cbn [fmap list_fmap List.concat]. rewrite <- app_assoc. split.
    + etrans; [by apply same_frames_noises|]. apply same_frames_cons; [done|].
      etrans; [by apply same_frames_noises|done].
    + intros E. destruct (Hno E) as [-> ->]. cbn. by rewrite (Hsm E).
Qed.

Lemma run_loop_ok fuel (server : R) p fs tail fin :
  Forall raw_ok fs -> unframed tail ->
  rd_content server = List.concat (raw_bytes <$> fs) ++ tail -> (length fs < fuel)%nat ->
  exists out, wr_out (p_out (run_loop o fuel server p)) = wr_out (p_out p) ++ out /\
    same_frames fin out (rd_content server) /\ (o_Noise o = false -> out = rd_content server).
Proof.
  intros Hfs Htail Hc Hfuel.
  assert (Hsp : splits (rd_content server) fs tail) by (split; [done|by apply unframed_ends|done]).
  pose proof (run_loop_all fuel server p fs tail fin Hsp Hfuel) as Hall.
  by rewrite forwarded_unframed, <- Hc in Hall.
Qed.

(** What the client is sent, whatever the server sends. *)
Lemma run_all (server : R) p fs tail fin :
  splits (rd_content server) fs tail ->
  let stream := List.concat (raw_bytes <$> fs) ++ forwarded tail in
  exists out, wr_out (p_out (run o server p)) = wr_out (p_out p) ++ out /\
    same_frames fin out stream /\ (o_Noise o = false -> out = stream).
Proof.
  intros Hsp. apply run_loop_all; [done|]. rewrite (sp_bytes _ _ _ Hsp), length_app.
  pose proof (length_raw_bytes fs). lia.
Qed.
End Run.


(** ** Properties *)

(** The proxy is transparent to a correct client: a server stream of whole
    frames, of any types and with any reserved bytes, possibly ending in a
    header that declares too much, reaches the client -- in pieces of any
    size, with any noise -- as a stream that holds the same frames and ends
    the same way; without noise it is the same stream. *)
Theorem chaos_is_transparent {W G R} `{WriterReliable W} `{RandOk G} `{ReaderOk R} (o : Options)
    (server : R) (p : pump W G) raws tail fin :
  Forall raw_ok raws -> unframed tail ->
  rd_content server = List.concat (raw_bytes <$> raws) ++ tail ->
  exists out, wr_out (p_out (run o server p)) = wr_out (p_out p) ++ out /\
    same_frames fin out (rd_content server) /\ (o_Noise o = false -> out = rd_content server).
Proof.
  intros Hfs Ht Hc. apply (run_loop_ok o _ server p raws tail fin Hfs Ht Hc).
  rewrite Hc, length_app. pose proof (length_raw_bytes raws). lia.
Qed.

(** No piece is larger than asked: [send] hands the client connection
    every byte in order, in non-empty pieces of at most [Chunk] bytes -- in
    one piece when [Chunk] is not positive -- counts them, and pauses
    [Delay] after each. *)
Theorem pieces_are_bounded {G} `{RandOk G} (o : Options) b (p : pump Calls G) :
  exists ps p', send o b p = (None, p') /\
    calls (p_out p') = calls (p_out p) ++ ps /\ List.concat ps = b /\
    Forall (fun c => 1 <= len c /\ (0 < o_Chunk o -> len c <= o_Chunk o)) ps /\
    (o_Chunk o <= 0 -> b <> [] -> ps = [b]) /\
    writes (p_st p') = writes (p_st p) + len ps /\
    p_slept p' = p_slept p + Z.max 0 (o_Delay o) * len ps.
Proof.
  unfold send. assert (Hf : (length b <= length b)%nat) by lia. revert Hf.
  generalize (length b) at 2 3 as fuel. intros fuel. revert b p.
  induction fuel as [|fuel IH]; intros b p Hf;
    (destruct (decide (b = [])) as [->|Hb]; [|]).
  1,3: exists [], p; rewrite app_nil_r; split; [done|]; unfold len; cbn [length Z.of_nat];
    repeat split; first [constructor | congruence | lia].
  { destruct b; [done | cbn in Hf; lia]. }
  assert (Hpiece : exists n p1, (if 0 <? o_Chunk o then let '(v, p) := draw (o_Chunk o) p in (Z.min (len b) (1 + v), p)
      else (len b, p)) = (n, p1) /\ p_out p1 = p_out p /\ p_st p1 = p_st p /\ p_slept p1 = p_slept p /\
      1 <= n <= len b /\ (0 < o_Chunk o -> n <= o_Chunk o) /\ (o_Chunk o <= 0 -> n = len b)).
  { destruct (piece_size o b p Hb) as (n & p1 & E & Ho & Hn & Hc & Hw). exists n, p1.
    split; [done|]. split; [done|]. split; [|split; [|done]].
    all: destruct (0 <? o_Chunk o); [unfold draw in E; destruct (Intn _ _)|]; by injection E as <- <-. }
  destruct Hpiece as (n & p1 & E & Ho & Hst & Hsl & Hn & Hc & Hw).
  set (p2 := with_out (MkCalls (calls (p_out p1) ++ [ztake n b])) p1).
  destruct (IH (zdrop n b) (count_write o p2)) as (ps & p' & Ep & Hcalls & Hcat & Hall & Hone & Hwr & Hslept).
  { unfold zdrop. rewrite length_drop. lia. }
  exists (ztake n b :: ps), p'. split; [|split; [|split; [|split; [|split; [|split]]]]].
  - destruct b as [|x b]; [done|]. cbn [writeChunked]. rewrite E. exact Ep.
  - rewrite Hcalls. cbn [p_out count_write p2 with_out calls]. by rewrite Ho, <- app_assoc.
  - cbn. by rewrite Hcat, ztake_zdrop.
  - constructor; [|done]. rewrite len_ztake by lia. split; [lia|done].
  - intros Hnc _. specialize (Hw Hnc). subst n.
    assert (Ht : ztake (len b) b = b) by (unfold ztake, len; by rewrite Nat2Z.id, take_ge).
    assert (Hd : zdrop (len b) b = []) by (unfold zdrop, len; by rewrite Nat2Z.id, drop_ge).
    rewrite Hd in Hcat. rewrite Ht. f_equal. destruct ps as [|q ps]; [done|].
    apply Forall_cons in Hall as [[Hq _] _]. destruct q; [rewrite len_nil in Hq; lia|done].
  - rewrite Hwr, len_cons. cbn. rewrite Hst. lia.
  - rewrite Hslept, len_cons. cbn [p_slept count_write p2 with_out]. rewrite Hsl.
    destruct (Z.ltb_spec 0 (o_Delay o)); nia.
Qed.

(** (C39) What the pump does not preserve is a cut: when the server hangs up
    inside a payload, the bytes that did not come are replaced by zeros and
    the client is sent a whole frame where the server's stream holds none. *)
Theorem cut_frames_are_completed {W G R} `{WriterReliable W} `{RandOk G} `{ReaderOk R} (o : Options)
    (server : R) (p : pump W G) f got :
  known (fr_type f) = true -> wf_frame f -> (needsStream (fr_type f) = true -> fr_stream f <> 0) ->
  len (fr_payload f) <= MaxPayload -> len got < len (fr_payload f) ->
  fr_payload f = got ++ replicate (length (fr_payload f) - length got) x00 ->
  rd_content server = header (len (fr_payload f)) (fr_type f) (fr_flags f) 0 (fr_stream f) ++ got ->
  wr_out (p_out (run o server p)) = wr_out (p_out p) ++ wire 0 f /\
  reads_all EOF (rd_content server) [] ErrTruncated /\
  reads_all EOF (wire 0 f) [f] (IOError EOF).
Proof.
  intros Hk Hw Hn Hl Hgot Hpad Hc. split; [|split].
  - pose proof (len_nonneg (fr_payload f)) as Hp. unfold run.
    rewrite (run_loop_end o _ server p _) with (2 := Hc) by (left; right; repeat eexists; lia).
    rewrite forwarded_cut by lia. unfold len at 2. by rewrite Nat2Z.id, <- Hpad.
  - rewrite Hc. eapply reads_all_end. apply (reads_cut_payload EOF); [lia|done|done].
  - rewrite <- (app_nil_r (wire 0 f)). eapply reads_all_next; [by apply reads_frame|].
    eapply reads_all_end, (reads_end EOF).
Qed.

(** ** Running the pump *)

(** A counter is random enough. *)
Record Counter : Type := MkCounter { count : Z }.

#[export] Instance Counter_rand : Rand Counter := {
  Intn n g := (count g mod n, MkCounter (count g + 1));
  RandRead n g := (replicate (Z.to_nat n) (zb (count g)), MkCounter (count g + 1));
}.

#[export] Instance Counter_rand_ok : RandOk Counter.
Proof.
  split.
  - intros n g Hn. cbn. by apply Z.mod_pos_bound.
  - intros n g Hn. cbn. unfold len. rewrite length_replicate. lia.
Qed.

Definition new_pump {W} (w : W) : pump W Counter := MkPump w (MkCounter 3) (MkStats 0 0 0) 0.

Definition noisy : Options := MkOptions 7 1000 true 1 true.

Definition chaos_raws : list raw_frame :=
  [MkRaw TypeData x00 513 1 (str "one"); MkRaw x99 x01 0 0 []; MkRaw TypeData x01 0 1 (str "two")].

Definition chaos_server : source := one_by_one (List.concat (raw_bytes <$> chaos_raws)).

Lemma chaos_is_transparent_witness :
  exists out, wr_out (p_out (run noisy chaos_server (new_pump (MkBuffer [])))) = wr_out (MkBuffer []) ++ out /\
    same_frames EOF out (rd_content chaos_server) /\
    (o_Noise noisy = false -> out = rd_content chaos_server).
Proof.
  apply (chaos_is_transparent noisy chaos_server (new_pump (MkBuffer [])) chaos_raws [] EOF).
  - repeat (apply Forall_cons; split; [by vm_compute|]). by apply Forall_nil.
  - by left.
  - vm_compute. reflexivity.
Defined.

Lemma pieces_are_bounded_witness :
  exists ps p', send noisy (str "thirteen bytes") (new_pump (MkCalls [])) = (None, p') /\
    calls (p_out p') = calls (MkCalls []) ++ ps /\ List.concat ps = str "thirteen bytes" /\
    Forall (fun c => 1 <= len c /\ (0 < 7 -> len c <= 7)) ps /\
    (7 <= 0 -> str "thirteen bytes" <> [] -> ps = [str "thirteen bytes"]) /\
    writes (p_st p') = 0 + len ps /\ p_slept p' = 0 + Z.max 0 1000 * len ps.
Proof. apply (pieces_are_bounded noisy (str "thirteen bytes") (new_pump (MkCalls []))). Defined.

Lemma cut_frames_are_completed_witness :
  let f := MkFrame TypeData x01 1 (str "abc" ++ [x00; x00]) in
  let server := whole (header 5 TypeData x01 0 1 ++ str "abc") in
  wr_out (p_out (run noisy server (new_pump (MkBuffer [])))) = wr_out (MkBuffer []) ++ wire 0 f /\
  reads_all EOF (rd_content server) [] ErrTruncated /\
  reads_all EOF (wire 0 f) [f] (IOError EOF).
Proof.
  intros f server. apply (cut_frames_are_completed noisy server (new_pump (MkBuffer [])) f (str "abc")); done.
Defined.
