(* ===== verification/Proxied.v ===== *)
(** * A client behind the proxy

    The purpose of bchaos: a client pointed at the proxy instead of the server
    must still work.  Composed of what [Server.handle] writes, what the pump
    of file Chaos.v makes of it, and what [client.Get] returns. *)

From S2P Require Import Prelude GoIO Frame Headers Messages Conn Net Paths OsFs Resolver.
From S2P Require Import Server ServerSpec ServerProofs ServerProps Client ClientProofs ClientProps.
From S2P Require Import EndToEnd Chaos.

(** A frame the programs send, as the proxy sees it. *)
Definition as_raw (f : Frame) : raw_frame :=
  MkRaw (fr_type f) (fr_flags f) 0 (fr_stream f) (fr_payload f).

Lemma wires_raw fs : wires fs = List.concat (raw_bytes <$> (as_raw <$> fs)).
Proof. unfold wires. by rewrite <- list_fmap_compose. Qed.

Lemma good_raw fs : Forall good_frame fs -> Forall raw_ok (as_raw <$> fs).
Proof.
  intros Hfs. apply Forall_fmap. eapply Forall_impl; [exact Hfs|].
  intros f (Hw & _ & Hl). unfold wf_frame in Hw. repeat split; cbn; try lia; done.
Qed.

Lemma reads_all_good fs : Forall good_frame fs -> reads_all EOF (wires fs) fs (IOError EOF).
Proof.
  intros Hfs. induction Hfs as [|f fs (Hw & (Hk & Hn) & Hl) Hfs IH].
  - eapply reads_all_end, (reads_end EOF).
  - rewrite wires_cons. eapply reads_all_next; [by apply reads_frame|done].
Qed.

(** Good frames come out of the pump as a stream that holds them. *)
Lemma pumped_frames {W G R} `{WriterReliable W} `{RandOk G} `{ReaderOk R} (o : Options)
    (server : R) (p : pump W G) fs :
  Forall good_frame fs -> rd_content server = wires fs -> wr_out (p_out p) = [] ->
  exists rest, reads_list EOF (wr_out (p_out (run o server p))) fs rest.
Proof.
  intros Hfs Hc Ho. rewrite wires_raw in Hc.
  destruct (run_loop_ok o (S (length (rd_content server))) server p (as_raw <$> fs) [] EOF)
    as (out & Hout & Hsame & _).
  - by apply good_raw.
  - by left.
  - by rewrite app_nil_r.
  - rewrite Hc. pose proof (length_raw_bytes (as_raw <$> fs)). lia.
  - unfold run. rewrite Hout, Ho, app_nil_l. apply (reads_all_list EOF out fs (IOError EOF)).
    apply Hsame. rewrite Hc, <- wires_raw. by apply reads_all_good.
Qed.

(** (C10) A client does not notice the proxy: when the answers of the server
    go through the pump -- in pieces of any size, with any random noise
    around every frame -- and reach the client cut anyhow, every get in a
    list of them still returns exactly what the server's document tree owes
    its path, body, status and headers. *)
Theorem client_is_immune_to_chaos {FS W G R} `{Filesystem FS} `{WriterReliable W} `{RandOk G} `{ReaderOk R}
    IsPrint (fs : FS) s paths payloads sc sT handles log st' (o : Options) (server : R) (p : pump W G) cc cT :
  files_sized fs -> 0 <= s_writeTimeout s -> 0 <= s_idleTimeout s ->
  Forall2 (fun path payload => Request_Encode (get_request path []) = Ok payload) paths payloads ->
  Forall (whole_file fs (s_res s)) paths -> len payloads < 0xFFFFFFFF ->
  healthy s sT (MkState (NewReader sc) handles log) ->
  (c_fin sc).2 = EOF -> pending sc = wires (requests_from 1 payloads) -> wr_out sc = [] ->
  handle IsPrint fs s sc handles log = Some st' ->
  rd_content server = wr_out (h_conn st') -> wr_out (p_out p) = [] ->
  cl_prompt cT (New cc) -> pending cc = wr_out (p_out (run o server p)) -> len (pending cc) < 2 ^ 63 ->
  exists c', gets paths (New cc) = (owed_result fs (s_res s) <$> paths, c').
Proof.
  intros Hsized Hwt Hit Hall Hwf Hlen HT Hfin Hin Hout Hh Hserver Hp HcT Hcin Hbig.
  destruct (handle_answers fs (s_res s) Hsized IsPrint s paths payloads sc sT handles log)
    as (st2 & Hh2 & Ho); try done.
  rewrite Hh in Hh2. injection Hh2 as <-. rewrite Hout, app_nil_l in Ho.
  destruct (pumped_frames o server p (session fs (s_res s) (requests_from 1 payloads) (IOError EOF)))
    as (rest & Hl); [|by rewrite Hserver|done|].
  { apply (session_good fs (s_res s) Hsized 1 payloads paths); [done|lia|done..]. }
  destruct (gets_session fs (s_res s) Hsized paths payloads (New cc) cT rest) as (c' & Hg & _); try done.
  - cbn [cl_next New]. lia.
  - change (cl_input (New cc)) with (pending cc). by rewrite Hcin.
  - by exists c'.
Qed.

(** The two gets of file EndToEnd.v, through a pump that writes seven bytes at
    most and puts noise around every frame. *)
Definition pumped (b : bytes) : bytes := buf_bytes (p_out (run noisy (one_by_one b) (new_pump (MkBuffer [])))).

Lemma client_is_immune_to_chaos_witness :
  exists st' c', handle no_rune sample_fs sample_server e2e_server_conn 0 [] = Some st' /\
  gets e2e_paths (New (client_conn (pumped (wr_out (h_conn st'))))) =
    ([owed_result sample_fs sample_root (str "/"); owed_result sample_fs sample_root (str "/out")], c').
Proof.
  assert (Hh : healthy sample_server (25 * Second) (MkState (NewReader e2e_server_conn) 0 [])).
  { split; try done; repeat (apply Forall_cons; split; [by vm_compute|]); by apply Forall_nil. }
  assert (Hw : Forall (whole_file sample_fs (s_res sample_server)) e2e_paths).
  { apply Forall_cons. split; [intros f i E; vm_compute in E; injection E as <- <-; by vm_compute|].
    apply Forall_cons. split; [|by apply Forall_nil]. intros f i E. by vm_compute in E. }
  assert (He : Forall2 (fun path payload => Request_Encode (get_request path []) = Ok payload)
    e2e_paths e2e_payloads) by repeat constructor.
  assert (Hout : match handle no_rune sample_fs sample_server e2e_server_conn 0 [] with
                 | Some st' => len (pumped (wr_out (h_conn st'))) < 2 ^ 63 /\
                     rd_content (one_by_one (wr_out (h_conn st'))) = wr_out (h_conn st')
                 | None => False end) by (vm_compute; split; reflexivity).
  destruct (handle no_rune sample_fs sample_server e2e_server_conn 0 []) as [st'|] eqn:Eh; [|destruct Hout].
  destruct Hout as [Hbig Hone]. exists st'.
  destruct (client_is_immune_to_chaos no_rune sample_fs sample_server e2e_paths e2e_payloads
    e2e_server_conn (25 * Second) 0 [] st' noisy (one_by_one (wr_out (h_conn st'))) (new_pump (MkBuffer []))
    (client_conn (pumped (wr_out (h_conn st')))) (3 * Second)
    sample_sized ltac:(done) ltac:(done) He Hw ltac:(done) Hh eq_refl ltac:(vm_compute; reflexivity) eq_refl
    Eh Hone eq_refl (client_conn_prompt _) (pending_client_conn _)) as (c' & Hg).
  { rewrite pending_client_conn. exact Hbig. }
  exists c'. split; [reflexivity|exact Hg].
Defined.
