(* ===== verification/Relay.v ===== *)
(** * internal/chaos: the relay

    The rest of [chaos.go]: [Serve], [relay] and what they share with the
    pump of file Chaos.v.  The two goroutines of [relay] own different halves
    of the two connections -- one reads from the client and writes to the
    server, the other the reverse -- so no interleaving of them can make a
    difference, and a relay is the pair of what they do.  After its loop each
    half-closes the connection it wrote to; when both are done both
    connections are closed. *)

From S2P Require Import Prelude GoIO Frame Net Chaos.

Inductive logline : Type :=
  | LogUnreachable
  | LogConnected
  | LogRelayed (st : stats).

Definition logf (o : Options) (l : logline) (log : list logline) : list logline :=
  if o_Logf o then log ++ [l] else log.

Definition dialTimeout : Z := 10000000000.

(** [halfClose]: a connection may have a method [CloseWrite], here
    [cw]. *)
Definition halfClose {W} (cw : option (W -> W)) (c : W) : W :=
  match cw with Some CloseWrite => CloseWrite c | None => c end.

(** What a relay leaves: the writing halves as they are when both goroutines
    are done and the connections about to be closed, and the log. *)
Record relayed (S W : Type) : Type := MkRelayed {
  rl_server : option S;      (** all that was written to the server, if it was reached *)
  rl_client : W;
  rl_log : list logline;
}.
Arguments MkRelayed {S W}.
Arguments rl_server {S W}.
Arguments rl_client {S W}.
Arguments rl_log {S W}.

Section Relay.
Context {CR CW SR SW G : Type}.
Context `{Reader CR, Writer CW, Reader SR, Writer SW, Rand G}.
Context (NewSource : Z -> G).     (** [rand.New(rand.NewSource(seed))] *)
Context (server_CloseWrite : option (SW -> SW)) (client_CloseWrite : option (CW -> CW)).

(** The first goroutine: requests go through untouched. *)
Definition upstream (server : SW) (client : CR) : SW :=
  let '(_, _, server, _) := Copy server client in server.

(** The second: answers go through the pump. *)
Definition downstream (o : Options) (client : CW) (server : SR) (seed : Z) : pump CW G :=
  run o server (MkPump client (NewSource seed) (MkStats 0 0 0) 0).

(** [relay]; a connection is its two halves, [dialled] the server's. *)
Definition relay (o : Options) (client_in : CR) (client_out : CW) (dialled : option (SR * SW)) (seed : Z) :
    relayed SW CW :=
  match dialled with
  | None => MkRelayed None client_out (logf o LogUnreachable [])
  | Some (server_in, server_out) =>
    let log := logf o LogConnected [] in
    let server_out := halfClose server_CloseWrite (upstream server_out client_in) in
    let p := downstream o client_out server_in seed in
    MkRelayed (Some server_out) (halfClose client_CloseWrite (p_out p)) (logf o (LogRelayed (p_st p)) log)
  end.
End Relay.

(** ** Serve *)

(** An error of [Accept]: a [*net.OpError], whose field [Err] may be nil and is
    here its text, or an error of another type. *)
Inductive accept_error : Type :=
  | OpError (Err : option bytes)
  | OtherError (text : bytes).

Definition isClosed (err : accept_error) : bool :=
  match err with
  | OpError (Some text) => bool_decide (text = str "use of closed network connection")
  | _ => false
  end.

(** What [Accept] returns. *)
Inductive accept (C : Type) : Type :=
  | Accepted (c : C)
  | AcceptError (err : accept_error).
Arguments Accepted {C}.
Arguments AcceptError {C}.

(** The loop of [Serve] over what [Accept] returns: the relays it starts, each
    with its seed, and, if it came to an end, what it returned. *)
Fixpoint Serve_loop {C} (o : Options) (n : Z) (calls : list (accept C)) : list (C * Z) * option (result accept_error unit) :=
  match calls with
  | [] => ([], None)
  | AcceptError err :: _ => ([], Some (if isClosed err then Ok tt else Err err))
  | Accepted c :: calls =>
    let n := add64 n 1 in
    let '(started, ret) := Serve_loop o n calls in
    ((c, add64 (o_Seed o) n) :: started, ret)
  end.

Definition Serve {C} (o : Options) (calls : list (accept C)) : list (C * Z) * option (result accept_error unit) :=
  Serve_loop o 0 calls.

(** ** What is relayed *)

Section RelayFacts.
Context {CR CW SR SW G : Type}.
Context `{ReaderOk CR, WriterReliable CW, ReaderOk SR, WriterReliable SW, RandOk G}.
Context (NewSource : Z -> G).
Context (server_CloseWrite : option (SW -> SW)) (client_CloseWrite : option (CW -> CW)).

(** (C23) The relay in both directions, whatever the server sends, when both
    connections take what they are given.  The server is sent exactly the
    bytes of the client, untouched.  The server's stream is some whole frames
    of any types and an end, and the client is sent a stream that holds the
    same frames -- those bytes themselves without noise -- with what becomes
    of that end ([forwarded]): nothing of a header that was cut, a payload
    that was cut filled up with zeros, and everything from a header that
    declares too much on.  So if no frame was cut it is the server's stream.
    After that, and only then, each is told that nothing more will come.
    When the server cannot be reached, nothing is sent to anyone. *)
Theorem relay_is_faithful (o : Options) (client_in : CR) (client_out : CW)
    (dialled : option (SR * SW)) seed fin :
  let r := relay NewSource server_CloseWrite client_CloseWrite o client_in client_out dialled seed in
  match dialled with
  | None => rl_server r = None /\ rl_client r = client_out
  | Some (server_in, server_out) =>
    (exists server_out', rl_server r = Some (halfClose server_CloseWrite server_out') /\
       wr_out server_out' = wr_out server_out ++ rd_content client_in) /\
    (exists client_out' out, rl_client r = halfClose client_CloseWrite client_out' /\
       wr_out client_out' = wr_out client_out ++ out /\
       (exists raws tail, splits (rd_content server_in) raws tail) /\
       forall raws tail, splits (rd_content server_in) raws tail ->
         let stream := List.concat (raw_bytes <$> raws) ++ forwarded tail in
         same_frames fin out stream /\ (o_Noise o = false -> out = stream) /\
         (unframed tail -> stream = rd_content server_in))
  end.
Proof.
  intros r. destruct dialled as [[server_in server_out]|]; [|done]. split.
  - unfold r, relay, upstream. cbn [rl_server].
    destruct (Copy_reliable server_out client_in) as (w' & r' & -> & Hw). by exists w'.
  - unfold r, relay, downstream. cbn [rl_client].
    set (p := MkPump client_out (NewSource seed) (MkStats 0 0 0) 0).
    destruct (stream_splits (rd_content server_in)) as (raws0 & tail0 & Hsp0).
    destruct (run_all o server_in p raws0 tail0 fin Hsp0) as (out & Ho & _).
    exists (p_out (run o server_in p)), out. split; [done|]. split; [done|]. split; [by exists raws0, tail0|].
    intros raws tail Hsp. destruct (run_all o server_in p raws tail fin Hsp) as (out1 & Ho1 & Hsame & Hno).
    rewrite Ho in Ho1. apply app_inv_head in Ho1 as <-. split; [done|]. split; [done|].
    intros Hu. by rewrite forwarded_unframed, <- (sp_bytes _ _ _ Hsp).
Qed.
End RelayFacts.

Lemma add64_eq a b : exists k, add64 a b = a + b + k * 2 ^ 64.
Proof.
  unfold add64. pose proof (Z.div_mod (a + b + 2 ^ 63) (2 ^ 64)).
  exists (- ((a + b + 2 ^ 63) / 2 ^ 64)). lia.
Qed.

(** The counter after as many connections. *)
Fixpoint add64_times {C} (n : Z) (cs : list C) : Z :=
  match cs with [] => n | _ :: cs => add64_times (add64 n 1) cs end.

(** The seeds of the relays that are started, one after the other. *)
Lemma Serve_loop_seeds {C} o n (calls : list (accept C)) i c seed :
  (Serve_loop o n calls).1 !! i = Some (c, seed) ->
  exists k, seed = o_Seed o + n + Z.of_nat i + 1 + k * 2 ^ 64.
Proof.
  revert n i. induction calls as [|[c0|err] calls IH]; intros n i; cbn [Serve_loop]; try done.
  destruct (Serve_loop o (add64 n 1) calls) as [started ret] eqn:E. cbn [fst].
  destruct (add64_eq n 1) as [k1 E1]. destruct i as [|i]; cbn [lookup list_lookup].
  - intros [= -> <-]. destruct (add64_eq (o_Seed o) (add64 n 1)) as [k2 ->]. exists (k1 + k2). lia.
  - intros Hi. destruct (IH (add64 n 1) i) as [k ->]; [by rewrite E|]. exists (k1 + k). lia.
Qed.

(** Runs can be repeated and relays tell apart: the seeds of fewer than
    [2^64] connections differ. *)
Lemma Serve_seeds_distinct {C} o (calls : list (accept C)) :
  len (Serve o calls).1 < 2 ^ 64 -> NoDup (Serve o calls).1.*2.
Proof.
  intros Hl. apply NoDup_alt. intros i j s Hi Hj.
  rewrite list_lookup_fmap in Hi, Hj.
  destruct ((Serve o calls).1 !! i) as [[c1 s1]|] eqn:Ei; [|done].
  destruct ((Serve o calls).1 !! j) as [[c2 s2]|] eqn:Ej; [|done].
  cbn in Hi, Hj. injection Hi as ->. injection Hj as ->.
  pose proof (lookup_lt_Some _ _ _ Ei). pose proof (lookup_lt_Some _ _ _ Ej).
  apply Serve_loop_seeds in Ei as [k1 E1]. apply Serve_loop_seeds in Ej as [k2 E2].
  unfold len in Hl. assert (k1 = k2) by lia. lia.
Qed.

(** One relay per connection, in order, until the first error of [Accept],
    which [Serve] returns unless the listener was closed. *)
Lemma Serve_loop_started {C} o n (cs : list C) calls :
  (Serve_loop o n ((Accepted <$> cs) ++ calls)).1.*1 = cs ++ (Serve_loop o (add64_times n cs) calls).1.*1 /\
  (Serve_loop o n ((Accepted <$> cs) ++ calls)).2 = (Serve_loop o (add64_times n cs) calls).2.
Proof.
  revert n. induction cs as [|c cs IH]; intros n; cbn [fmap list_fmap app Serve_loop add64_times]; [done|].
  destruct (IH (add64 n 1)) as [I1 I2]. destruct (Serve_loop o (add64 n 1) _) as [started ret].
  cbn [fst snd fmap list_fmap] in *. by rewrite I1, I2.
Qed.

Lemma Serve_returns {C} o (cs : list C) err calls :
  (Serve o ((Accepted <$> cs) ++ AcceptError err :: calls)).1.*1 = cs /\
  (Serve o ((Accepted <$> cs) ++ AcceptError err :: calls)).2 = Some (if isClosed err then Ok tt else Err err).
Proof.
  unfold Serve. destruct (Serve_loop_started o 0 cs (AcceptError err :: calls)) as [-> ->].
  cbn. by rewrite app_nil_r.
Qed.

(** A buffer whose end has been marked. *)
Definition end_mark (b : Buffer) : Buffer := MkBuffer (wr_out b ++ [x04]).

(** A server that hangs up inside the fourth frame. *)
Definition chaos_cut : bytes := header 5 TypeData x01 0 1 ++ str "abc".
Definition cut_server : source := one_by_one (List.concat (raw_bytes <$> chaos_raws) ++ chaos_cut).

Lemma cut_server_splits : splits (rd_content cut_server) chaos_raws chaos_cut.
Proof.
  assert (Hc : rd_content cut_server = List.concat (raw_bytes <$> chaos_raws) ++ chaos_cut) by (vm_compute; reflexivity).
  split; [| |exact Hc].
  - unfold chaos_raws. repeat (apply Forall_cons; split; [by vm_compute|]). by apply Forall_nil.
  - left. right. exists 5, TypeData, x01, 0, 1, (str "abc").
    split; [unfold MaxPayload; lia|]. split; [vm_compute|]; reflexivity.
Qed.

Lemma relay_is_faithful_witness :
  let r := relay MkCounter (Some end_mark) None noisy (one_by_one (str "request")) (MkBuffer [])
    (Some (cut_server, MkBuffer [])) 1 in
  (exists server_out', rl_server r = Some (end_mark server_out') /\
     wr_out server_out' = wr_out (MkBuffer []) ++ rd_content (one_by_one (str "request"))) /\
  (exists client_out' out, rl_client r = client_out' /\ wr_out client_out' = wr_out (MkBuffer []) ++ out /\
     same_frames EOF out (List.concat (raw_bytes <$> chaos_raws) ++ header 5 TypeData x01 0 1 ++ str "abc" ++ [x00; x00])).
Proof.
  destruct (relay_is_faithful MkCounter (Some end_mark) None noisy (one_by_one (str "request")) (MkBuffer [])
    (Some (cut_server, MkBuffer [])) 1 EOF) as [Hup (client' & out & Hr & Hout & _ & Hall)].
  split; [exact Hup|]. exists client', out. split; [exact Hr|]. split; [exact Hout|].
  assert (E : forwarded chaos_cut = header 5 TypeData x01 0 1 ++ str "abc" ++ [x00; x00]) by (vm_compute; reflexivity).
  destruct (Hall chaos_raws chaos_cut cut_server_splits) as [Hs _]. rewrite E in Hs. exact Hs.
Defined.
