(* ===== verification/Tap.v ===== *)
(** * internal/wire

    [tap.go]: a connection whose traffic is printed frame by frame.  The
    framers reassemble each direction; everything is printed to an
    [io.Writer] whose errors are ignored, as [fmt.Fprintf]'s are. *)

From S2P Require Import Prelude GoIO Frame Conn Net Paths.

Definition rawPreview : Z := 256.

(** ** fmt *)

Definition newline : byte := x0a.
Definition space : byte := x20.
Definition upperhex : bytes := str "0123456789ABCDEF".

(** [%0nX] *)
Fixpoint hexX (n : nat) (v : Z) : bytes :=
  match n with
  | O => []
  | S n => hexX n (v / 16) ++ [upperhex !!! Z.to_nat (v mod 16)]
  end.

(** [% X] on a byte slice. *)
Fixpoint spacedX (b : bytes) : bytes :=
  match b with
  | [] => []
  | [c] => hexX 2 (bz c)
  | c :: b => hexX 2 (bz c) ++ [space] ++ spacedX b
  end.

Section Tap.
Context {W : Type} `{Writer W}.

(** [fmt.Fprintf(t.out, ...)] with the formatted text. *)
Definition Fprint (text : bytes) (w : W) : W := snd (wr_write text w).

(** ** The framer and the tap *)

Record framer : Type := MkFramer { f_arrow : bytes; f_buf : bytes; f_broken : bool }.

(** What the framers share: [out] and [seq]. *)
Record tapout : Type := MkTapout { t_out : W; t_seq : Z }.

Definition print (text : bytes) (t : tapout) : tapout := MkTapout (Fprint text (t_out t)) (t_seq t).

(** ** Names *)

Definition typeName (t : Type_) : bytes :=
  if byte_eqb t TypeRequest then str "REQUEST"
  else if byte_eqb t TypeResponse then str "RESPONSE"
  else if byte_eqb t TypeData then str "DATA"
  else if byte_eqb t TypeError then str "ERROR"
  else str "unknown(0x" ++ hexX 2 (bz t) ++ str ")".

Definition flagNames (flags : byte) : bytes :=
  if bz flags =? 0 then str "none"
  else
    let names :=
      if negb (Z.land (bz flags) (bz FlagEndStream) =? 0) then [str "END_STREAM"] else [] in
    let rest := Z.ldiff (bz flags) (bz FlagEndStream) in
    let names := if negb (rest =? 0) then names ++ [str "0x" ++ hexX 2 rest] else names in
    match names with
    | [] => []
    | [a] => a
    | a :: b :: _ => a ++ str "|" ++ b
    end.

(** ** writeRows *)

(** The sixteen columns of a row. *)
Fixpoint hex_columns (i n : nat) (row : bytes) : bytes :=
  match n with
  | O => []
  | S n =>
    (if decide (i = 8%nat) then [space] else []) ++
    match row with
    | c :: _ => hexX 2 (bz c) ++ [space]
    | [] => str "   "
    end ++ hex_columns (S i) n (drop 1 row)
  end.

Definition printable_byte (c : byte) : byte :=
  if (0x20 <=? bz c) && (bz c <? 0x7F) then c else x2e.

Definition row_text (indent : bytes) (off : Z) (row : bytes) : bytes :=
  indent ++ hexX 8 off ++ str "  " ++ hex_columns 0 16 row ++ str " |" ++
  (printable_byte <$> row) ++ str "|" ++ [newline].

(** The loop of [writeRows] from offset [off]; one turn per row. *)
Fixpoint writeRows_loop (fuel : nat) (indent : bytes) (off : Z) (b : bytes) (t : tapout) : tapout :=
  match fuel, b with
  | S fuel, _ :: _ =>
    writeRows_loop fuel indent (off + 16) (zdrop 16 b) (print (row_text indent off (ztake 16 b)) t)
  | _, _ => t
  end.

Definition writeRows (indent : bytes) (b : bytes) (t : tapout) : tapout :=
  writeRows_loop (length b) indent 0 b t.

(** ** Printing *)

Definition indent6 : bytes := str "      ".

Definition frame_line (arrow : bytes) (seq : Z) (b : bytes) : bytes :=
  arrow ++ str " frame " ++ FormatInt seq ++ str "  " ++ typeName (b !!! 4%nat) ++
  str "  stream=" ++ FormatInt (Uint32 (take 4 (drop 8 b))) ++ str "  flags=" ++
  flagNames (b !!! 5%nat) ++ str "  length=" ++ FormatInt (len (zdrop HeaderSize b)) ++ [newline].

Definition printFrame (arrow : bytes) (b : bytes) (t : tapout) : tapout :=
  let t := MkTapout (t_out t) (t_seq t + 1) in
  let hdr := ztake HeaderSize b in
  let payload := zdrop HeaderSize b in
  let t := print (frame_line arrow (t_seq t) b) t in
  let t := print (str "    header   " ++ spacedX hdr ++ [newline]) t in
  if 0 <? len payload then
    writeRows indent6 payload (print (str "    payload" ++ [newline]) t)
  else t.

Definition printRaw (arrow why : bytes) (b : bytes) (t : tapout) : tapout :=
  let t := print (arrow ++ [space] ++ why ++ str " (" ++ FormatInt (len b) ++ str " bytes)" ++ [newline]) t in
  let shown := if rawPreview <? len b then ztake rawPreview b else b in
  let t := writeRows indent6 shown t in
  if len shown <? len b then
    print (indent6 ++ str "... " ++ FormatInt (len b - len shown) ++ str " more bytes not shown" ++ [newline]) t
  else t.

(** ** feed and flush *)

(** The loop of [feed] over the buffer; a turn that goes on takes a header
    off it. *)
Fixpoint feed_loop (fuel : nat) (f : framer) (t : tapout) : framer * tapout :=
  match fuel with
  | O => (f, t)
  | S fuel =>
    if len (f_buf f) <? HeaderSize then (f, t)
    else
      let length := Uint32 (take 4 (f_buf f)) in
      if MaxPayload <? length then
        (MkFramer (f_arrow f) [] true,
         printRaw (f_arrow f)
           (str "not a valid frame (length field says " ++ FormatInt length ++ str " bytes)") (f_buf f) t)
      else
        let total := HeaderSize + length in
        if len (f_buf f) <? total then (f, t)
        else
          feed_loop fuel (MkFramer (f_arrow f) (zdrop total (f_buf f)) (f_broken f))
            (printFrame (f_arrow f) (ztake total (f_buf f)) t)
  end.

Definition feed (f : framer) (b : bytes) (t : tapout) : framer * tapout :=
  if f_broken f then (f, printRaw (f_arrow f) (str "bytes after an unreadable frame") b t)
  else
    let buf := f_buf f ++ b in
    feed_loop (S (length buf)) (MkFramer (f_arrow f) buf (f_broken f)) t.

Definition flush (f : framer) (t : tapout) : framer * tapout :=
  if 0 <? len (f_buf f) then
    (MkFramer (f_arrow f) [] (f_broken f),
     printRaw (f_arrow f) (str "incomplete frame at end of connection") (f_buf f) t)
  else (f, t).

Record Tap : Type := MkTap { tap_out : tapout; tap_sent : framer; tap_recv : framer }.

Definition NewTap (out : W) : Tap :=
  MkTap (MkTapout out 0) (MkFramer (str "-->") [] false) (MkFramer (str "<--") [] false).

Definition Flush (t : Tap) : Tap :=
  let '(s, o) := flush (tap_sent t) (tap_out t) in
  let '(r, o) := flush (tap_recv t) o in
  MkTap o s r.

Definition feed_sent (b : bytes) (t : Tap) : Tap :=
  let '(f, o) := feed (tap_sent t) b (tap_out t) in MkTap o f (tap_recv t).
Definition feed_recv (b : bytes) (t : Tap) : Tap :=
  let '(f, o) := feed (tap_recv t) b (tap_out t) in MkTap o (tap_sent t) f.
End Tap.
Arguments tapout : clear implicits.
Arguments Tap : clear implicits.

(** ** The tapped connection *)

Record tappedConn (C W : Type) : Type := MkTapped { tc_conn : C; tc_tap : Tap W }.
Arguments MkTapped {C W}.
Arguments tc_conn {C W}.
Arguments tc_tap {C W}.

Definition tapped_read {C W} `{Reader C, Writer W} (n : nat) (c : tappedConn C W) :
    bytes * option ioerr * tappedConn C W :=
  let '(d, err, co) := rd_read n (tc_conn c) in
  (d, err, MkTapped co (if 0 <? len d then feed_recv d (tc_tap c) else tc_tap c)).

Definition tapped_write {C W} `{Writer C, Writer W} (b : bytes) (c : tappedConn C W) :
    nat * option ioerr * tappedConn C W :=
  let '(n, err, co) := wr_write b (tc_conn c) in
  (n, err, MkTapped co (if (0 <? n)%nat then feed_sent (take n b) (tc_tap c) else tc_tap c)).

(** [CloseWrite]: a half-close of what is inside, if it has one. *)
Definition tapped_CloseWrite {C W} `{NetConn C} (c : tappedConn C W) : tappedConn C W :=
  MkTapped (nc_CloseWrite (tc_conn c)) (tc_tap c).

(** The methods of the embedded [net.Conn]. *)
#[export] Instance tapped_netconn {C W} `{NetConn C} : NetConn (tappedConn C W) := {
  nc_SetReadDeadline d c := MkTapped (nc_SetReadDeadline d (tc_conn c)) (tc_tap c);
  nc_SetWriteDeadline d c := MkTapped (nc_SetWriteDeadline d (tc_conn c)) (tc_tap c);
  nc_CloseWrite := tapped_CloseWrite;
  nc_Close c := MkTapped (nc_Close (tc_conn c)) (tc_tap c);
  nc_pending c := nc_pending (tc_conn c);
}.

(** [t.Wrap(c)] *)
Definition Wrap {C W} (t : Tap W) (c : C) : tappedConn C W := MkTapped c t.

#[export] Instance tapped_reader {C W} `{Reader C, Writer W} : Reader (tappedConn C W) := {
  rd_read := tapped_read;
  rd_content c := rd_content (tc_conn c);
  rd_end c := rd_end (tc_conn c);
  rd_measure c := rd_measure (tc_conn c);
}.

#[export] Instance tapped_writer {C W} `{Writer C, Writer W} : Writer (tappedConn C W) := {
  wr_write := tapped_write;
  wr_out c := wr_out (tc_conn c);
}.

#[export] Instance tapped_reader_ok {C W} `{ReaderOk C, Writer W} : ReaderOk (tappedConn C W).
Proof.
  split.
  - intros n [co t] d r' Hn. unfold rd_read, tapped_reader, tapped_read. cbn [tc_conn tc_tap].
    destruct (rd_read n co) as [[d1 e1] co1] eqn:E. intros [= <- -> <-]. by apply rd_read_data in E.
  - intros n [co t] d e r' Hn. unfold rd_read, tapped_reader, tapped_read. cbn [tc_conn tc_tap].
    destruct (rd_read n co) as [[d1 e1] co1] eqn:E. intros [= <- -> <-]. by apply rd_read_err in E.
Qed.

#[export] Instance tapped_writer_ok {C W} `{WriterOk C, Writer W} : WriterOk (tappedConn C W).
Proof.
  split. intros b [co t] n err w'. unfold wr_write, tapped_writer, tapped_write. cbn [tc_conn tc_tap].
  destruct (wr_write b co) as [[n1 e1] co1] eqn:E. intros [= <- <- <-]. by apply wr_write_out in E.
Qed.

(** ** Reassembly *)

Section Reassembly.
Context {W : Type} `{Writer W}.
Implicit Types (t : tapout W) (f : framer).

Definition with_buf (b : bytes) f : framer := MkFramer (f_arrow f) b (f_broken f).

Lemma length_field_range (b : bytes) : HeaderSize <= len b -> 0 <= Uint32 (take 4 b) < 4294967296.
Proof.
  intros Hl. unfold HeaderSize, len in Hl.
  do 4 (destruct b as [|? b]; [cbn in Hl; lia|]). cbn [take]. apply Uint32_range.
Qed.

(** Every turn takes at least a header, so enough fuel is enough. *)
Lemma feed_loop_fuel fuel1 fuel2 f t :
  (length (f_buf f) < fuel1)%nat -> (length (f_buf f) < fuel2)%nat ->
  feed_loop fuel1 f t = feed_loop fuel2 f t.
Proof.
  revert fuel2 f t. induction fuel1 as [|fuel1 IH]; intros [|fuel2] f t H1 H2; try lia.
  cbn [feed_loop]. destruct (Z.ltb_spec (len (f_buf f)) HeaderSize) as [|Hh]; [done|].
  destruct (MaxPayload <? Uint32 (take 4 (f_buf f))); [done|].
  pose proof (length_field_range (f_buf f) Hh) as Hr.
  destruct (Z.ltb_spec (len (f_buf f)) (HeaderSize + Uint32 (take 4 (f_buf f)))) as [|Ht]; [done|].
  apply IH; cbn [f_buf]; unfold zdrop; rewrite length_drop; unfold len, HeaderSize in *; lia.
Qed.

Lemma take_app_4 (b1 b2 : bytes) : HeaderSize <= len b1 -> take 4 (b1 ++ b2) = take 4 b1.
Proof. intros Hl. apply take_app_le. unfold len, HeaderSize in Hl. lia. Qed.

(** Bytes fed in two parts, if the first does not break the framer; if it
    does, so do all of them. *)
Lemma feed_loop_app fuel f t f1 t1 b :
  (length (f_buf f) < fuel)%nat -> f_broken f = false -> feed_loop fuel f t = (f1, t1) ->
  if f_broken f1 then
    f_broken (fst (feed_loop (fuel + length b) (with_buf (f_buf f ++ b) f) t)) = true
  else feed f1 b t1 = feed_loop (fuel + length b) (with_buf (f_buf f ++ b) f) t.
Proof.
  revert f t. induction fuel as [|fuel IH]; intros f t Hf Hb; [lia|]. cbn [feed_loop Nat.add f_buf with_buf].
  assert (Hstuck : feed f b t = feed_loop (S fuel + length b) (with_buf (f_buf f ++ b) f) t).
  { unfold feed. rewrite Hb. change (MkFramer (f_arrow f) (f_buf f ++ b) false) with
      (MkFramer (f_arrow f) (f_buf f ++ b) false). unfold with_buf. rewrite Hb.
    apply feed_loop_fuel; cbn [f_buf]; rewrite length_app; lia. }
  destruct (Z.ltb_spec (len (f_buf f)) HeaderSize) as [Hh|Hh].
  { intros [= <- <-]. rewrite Hb. exact Hstuck. }
  rewrite (proj2 (Z.ltb_ge (len (f_buf f ++ b)) HeaderSize)) by (rewrite len_app; pose proof (len_nonneg b); lia).
  rewrite take_app_4 by done.
  destruct (MaxPayload <? Uint32 (take 4 (f_buf f))) eqn:Em.
  { intros [= <- <-]. done. }
  destruct (Z.ltb_spec (len (f_buf f)) (HeaderSize + Uint32 (take 4 (f_buf f)))) as [Ht|Ht].
  { intros [= <- <-]. rewrite Hb, Hstuck. cbn [feed_loop Nat.add f_buf with_buf].
    rewrite (proj2 (Z.ltb_ge (len (f_buf f ++ b)) HeaderSize)) by (rewrite len_app; pose proof (len_nonneg b); lia).
    by rewrite take_app_4, Em by done. }
  pose proof (length_field_range (f_buf f) Hh) as Hr.
  set (total := HeaderSize + Uint32 (take 4 (f_buf f))) in *.
  rewrite (proj2 (Z.ltb_ge (len (f_buf f ++ b)) total)) by (rewrite len_app; pose proof (len_nonneg b); lia).
  assert (Htk : ztake total (f_buf f ++ b) = ztake total (f_buf f)).
  { unfold ztake. apply take_app_le. unfold len in Ht. lia. }
  assert (Hdr : zdrop total (f_buf f ++ b) = zdrop total (f_buf f) ++ b).
  { unfold zdrop. apply drop_app_le. unfold len in Ht. lia. }
  rewrite Htk, Hdr. intros Hl.
  apply (IH (MkFramer (f_arrow f) (zdrop total (f_buf f)) (f_broken f))); try done.
  cbn [f_buf]. unfold zdrop. rewrite length_drop. subst total. unfold len, HeaderSize in *. lia.
Qed.

(** Feeding piece by piece. *)
Fixpoint feeds (ps : list bytes) f t : framer * tapout W :=
  match ps with
  | [] => (f, t)
  | b :: ps => let '(f, t) := feed f b t in feeds ps f t
  end.

Lemma feeds_snoc ps b f t : feeds (ps ++ [b]) f t = let '(f, t) := feeds ps f t in feed f b t.
Proof.
  revert f t. induction ps as [|q ps IH]; intros f t; cbn [feeds app].
  - by destruct (feed f b t).
  - destruct (feed f q t) as [f1 t1]. apply IH.
Qed.

(** How the bytes are cut does not matter, as long as they are frames. *)
Lemma feeds_concat ps f t :
  f_buf f = [] -> f_broken f = false -> f_broken (fst (feed f (List.concat ps) t)) = false ->
  feeds ps f t = feed f (List.concat ps) t.
Proof.
  intros Hbuf Hb. induction ps as [|b ps IH] using rev_ind; intros Hok.
  { destruct f as [arrow buf broken]. cbn in Hbuf, Hb. by subst. }
  rewrite feeds_snoc. rewrite concat_app in *. cbn [List.concat] in *. rewrite app_nil_r in *.
  set (all := List.concat ps) in *.
  assert (E : forall c, feed f c t = feed_loop (S (length c)) (with_buf c f) t).
  { intros c. unfold feed, with_buf. by rewrite Hb, Hbuf. }
  destruct (feed f all t) as [f1 t1] eqn:E1. pose proof E1 as E2. rewrite E in E2.
  pose proof (feed_loop_app (S (length all)) (with_buf all f) t f1 t1 b (Nat.lt_succ_diag_r _) Hb E2) as Happ.
  cbn [f_buf with_buf] in Happ.
  assert (E3 : feed_loop (S (length all) + length b) (with_buf (all ++ b) (with_buf all f)) t =
    feed f (all ++ b) t).
  { rewrite E. apply feed_loop_fuel; cbn [f_buf with_buf]; rewrite length_app; lia. }
  rewrite E3 in Happ. destruct (f_broken f1) eqn:Eb; [congruence|].
  rewrite IH; [exact Happ | exact Eb].
Qed.

Definition print_frames (arrow : bytes) (raws : list raw_frame) t : tapout W :=
  foldl (fun t r => printFrame arrow (raw_bytes r) t) t raws.

Lemma feed_loop_frames fuel f t raws cut :
  f_buf f = List.concat (raw_bytes <$> raws) ++ cut -> Forall raw_ok raws -> incomplete cut ->
  (length raws < fuel)%nat ->
  feed_loop fuel f t = (with_buf cut f, print_frames (f_arrow f) raws t).
Proof.
  intros Hbuf Hraws Hcut. revert fuel f t Hbuf.
  induction Hraws as [|r raws (Hl & Hs & Hres) Hraws IH]; intros fuel f t Hbuf Hf; (destruct fuel as [|fuel]; [lia|]);
    cbn [feed_loop].
  - cbn in Hbuf. assert (Hsame : with_buf cut f = f) by (rewrite <- Hbuf; by destruct f).
    rewrite Hsame. cbn [print_frames foldl]. rewrite Hbuf.
    destruct Hcut as [Hc|(l & ty & fl & res & s & d & Hl & Hd & ->)]; [by rewrite (proj2 (Z.ltb_lt _ _))|].
    rewrite header_length_field by (unfold MaxPayload in Hl; lia).
    rewrite (proj2 (Z.ltb_ge MaxPayload l)) by lia.
    rewrite (proj2 (Z.ltb_lt (len (header l ty fl res s ++ d)) (HeaderSize + l)))
      by (rewrite len_app, len_header; unfold HeaderSize; lia).
    by destruct (_ <? HeaderSize).
  - cbn [fmap list_fmap List.concat] in Hbuf. rewrite <- app_assoc in Hbuf.
    set (rest := List.concat (raw_bytes <$> raws) ++ cut) in *.
    pose proof (len_nonneg (rw_payload r)). pose proof (len_nonneg rest).
    assert (Hlen : len (raw_bytes r) = HeaderSize + len (rw_payload r))
      by (unfold raw_bytes; rewrite len_app, len_header; done).
    rewrite Hbuf, len_app, Hlen.
    rewrite (proj2 (Z.ltb_ge _ HeaderSize)) by lia.
    assert (Uint32 (take 4 (raw_bytes r ++ rest)) = len (rw_payload r)) as ->.
    { unfold raw_bytes. rewrite <- app_assoc. apply header_length_field. unfold MaxPayload in Hl. lia. }
    rewrite (proj2 (Z.ltb_ge MaxPayload _)) by lia.
    rewrite (proj2 (Z.ltb_ge _ (HeaderSize + len (rw_payload r)))) by lia.
    rewrite <- Hlen, ztake_app, zdrop_app by done. cbn [length] in Hf.
    rewrite IH; [done|done|lia].
Qed.
End Reassembly.

(** ** Properties *)

Lemma seq_writeRows_loop {W} `{Writer W} fuel indent off b (t : tapout W) :
  t_seq (writeRows_loop fuel indent off b t) = t_seq t.
Proof. revert off b t. induction fuel as [|fuel IH]; intros off [|x b] t; cbn [writeRows_loop]; try done. by rewrite IH. Qed.

Lemma seq_printFrame {W} `{Writer W} arrow b (t : tapout W) : t_seq (printFrame arrow b t) = t_seq t + 1.
Proof. unfold printFrame, writeRows. destruct (0 <? _); [|done]. by rewrite seq_writeRows_loop. Qed.

Lemma seq_print_frames {W} `{Writer W} arrow raws (t : tapout W) :
  t_seq (print_frames arrow raws t) = t_seq t + len raws.
Proof.
  unfold print_frames. revert t. induction raws as [|r raws IH]; intros t; cbn [foldl].
  - rewrite len_nil. lia.
  - rewrite IH, seq_printFrame, len_cons. lia.
Qed.

(** The tap shows the frames that crossed, not the pieces they came in:
    however a direction's bytes are cut, a fresh framer prints each whole
    frame once, in order and byte for byte, numbers them on, keeps just the
    bytes that are not a whole frame yet, and [flush] prints those as an
    incomplete frame. *)
Theorem tap_prints_every_frame {W} `{Writer W} (f : framer) (t : tapout W) ps raws cut :
  f_buf f = [] -> f_broken f = false ->
  Forall raw_ok raws -> incomplete cut -> List.concat ps = List.concat (raw_bytes <$> raws) ++ cut ->
  let t' := print_frames (f_arrow f) raws t in
  feeds ps f t = (MkFramer (f_arrow f) cut false, t') /\
  t_seq t' = t_seq t + len raws /\
  flush (MkFramer (f_arrow f) cut false) t' =
    (MkFramer (f_arrow f) [] false,
     if decide (cut = []) then t'
     else printRaw (f_arrow f) (str "incomplete frame at end of connection") cut t').
Proof.
  intros Hbuf Hb Hraws Hcut Hcat t'. split; [|split].
  - assert (E : feed f (List.concat ps) t = (MkFramer (f_arrow f) cut false, t')).
    { unfold feed. rewrite Hb, Hbuf, Hcat. cbn [app].
      rewrite (feed_loop_frames _ _ _ raws cut); try done.
      rewrite length_app. pose proof (length_raw_bytes raws). lia. }
    rewrite feeds_concat; [exact E|done|done|]. by rewrite E.
  - apply seq_print_frames.
  - unfold flush. cbn [f_buf f_arrow f_broken]. case_decide as Hc; [by subst|].
    rewrite (proj2 (Z.ltb_lt _ _)); [done|]. destruct cut; [done|]. rewrite len_cons.
    pose proof (len_nonneg cut). lia.
Qed.

Definition tap_raws : list raw_frame :=
  [MkRaw TypeRequest x01 0 1 (str "hi"); MkRaw x99 x02 7 9 []].

Lemma tap_prints_every_frame_witness :
  let f := MkFramer (str "<--") [] false in
  let t := MkTapout (MkBuffer []) 4 in
  let t' := print_frames (f_arrow f) tap_raws t in
  feeds ((fun x => [x]) <$> (List.concat (raw_bytes <$> tap_raws) ++ str "cut")) f t =
    (MkFramer (f_arrow f) (str "cut") false, t') /\
  t_seq t' = t_seq t + len tap_raws /\
  flush (MkFramer (f_arrow f) (str "cut") false) t' =
    (MkFramer (f_arrow f) [] false,
     if decide (str "cut" = []) then t'
     else printRaw (f_arrow f) (str "incomplete frame at end of connection") (str "cut") t').
Proof.
  intros f t. apply (tap_prints_every_frame f t); try done.
  - repeat (apply Forall_cons; split; [by vm_compute|]). by apply Forall_nil.
  - by left.
Defined.

Lemma tapped_writeAll {C W} `{Writer C, Writer W} fuel (c : tappedConn C W) b :
  fst (writeAll_loop fuel c b) = fst (writeAll_loop fuel (tc_conn c) b) /\
  tc_conn (snd (writeAll_loop fuel c b)) = snd (writeAll_loop fuel (tc_conn c) b).
Proof.
  revert c b. induction fuel as [|fuel IH]; intros c [|x b]; cbn [writeAll_loop]; try done.
  cbn [wr_write tapped_writer]. unfold tapped_write.
  destruct (wr_write (x :: b) (tc_conn c)) as [[n [e|]] co]; [done|].
  destruct (n <=? 0)%nat; [done|]. apply IH.
Qed.

(** Watching changes nothing: through a tapped connection [frame.Read]
    returns the frame or error it would return on the bare connection and
    leaves the same bytes behind, and [frame.Write] returns the same and does
    to the connection exactly what it would have done. *)
Theorem tap_is_transparent {C W} `{ReaderOk C} `{Writer C} `{Writer W} (c : tappedConn C W) f :
  fst (Read c) = fst (Read (tc_conn c)) /\
  same_stream (tc_conn (snd (Read c))) (snd (Read (tc_conn c))) /\
  fst (Write c f) = fst (Write (tc_conn c) f) /\
  tc_conn (snd (Write c f)) = snd (Write (tc_conn c) f).
Proof.
  destruct (Read_sound c) as (o1 & c1 & E1 & He1 & Hr1).
  destruct (Read_sound (tc_conn c)) as (o2 & c2 & E2 & He2 & Hr2). rewrite E1, E2. cbn [fst snd].
  destruct (reads_deterministic _ _ _ _ _ _ Hr1 Hr2) as [-> Hc].
  split; [done|]. split; [split; [exact Hc | exact (eq_trans He1 (eq_sym He2))]|].
  unfold Write. destruct (Encode f) as [b|e]; [|done].
  unfold writeAll. pose proof (tapped_writeAll (length b) c b) as [H1' H2'].
  destruct (writeAll_loop (length b) c b) as [e1 w1], (writeAll_loop (length b) (tc_conn c) b) as [e2 w2].
  cbn in *. by subst.
Qed.

Definition tapped_sample : tappedConn conn Buffer :=
  MkTapped (MkConn 0 [(0, take 5 (wire 0 demo_frame)); (1, drop 5 (wire 0 demo_frame))] (2, EOF) None buffer [] None
              true false false) (NewTap (MkBuffer [])).

Lemma tap_is_transparent_witness :
  fst (Read tapped_sample) = fst (Read (tc_conn tapped_sample)) /\
  same_stream (tc_conn (snd (Read tapped_sample))) (snd (Read (tc_conn tapped_sample))) /\
  fst (Write tapped_sample demo_frame) = fst (Write (tc_conn tapped_sample) demo_frame) /\
  tc_conn (snd (Write tapped_sample demo_frame)) = snd (Write (tc_conn tapped_sample) demo_frame).
Proof. exact (tap_is_transparent tapped_sample demo_frame). Defined.
