(* ===== verification/Dump.v ===== *)
(** * Reading a dump back

    [tap.go] promises that what it prints is what was sent.  Here is a reader
    of its output, which knows nothing but the text -- like [dumpedBytes] of
    [cmd/bcurl/capture_test.go] -- and the proof that it finds the bytes of
    both directions again. *)

From S2P Require Import Prelude GoIO Frame Conn Net Paths Tap.

(** ** The reader *)

(** The lines of a text, each up to its newline. *)
Fixpoint lines (b : bytes) : list bytes :=
  match b with
  | [] => []
  | c :: b =>
    if byte_eqb c newline then [] :: lines b
    else match lines b with
         | [] => []
         | l :: ls => (c :: l) :: ls
         end
  end.

(** The value of an upper-case hexadecimal digit. *)
Definition unhex (c : byte) : Z := if bz c <? 0x41 then bz c - 0x30 else bz c - 0x37.

(** Pairs of digits, spaces apart. *)
Fixpoint hexes (b : bytes) : bytes :=
  match b with
  | [] => []
  | c :: b =>
    if byte_eqb c space then hexes b
    else match b with
         | [] => []
         | d :: b => zb (16 * unhex c + unhex d) :: hexes b
         end
  end.

(** The bytes a line shows: a header line, or the 49 columns of a row. *)
Definition line_bytes (l : bytes) : bytes :=
  if HasPrefix l (str "    header   ") then hexes (zdrop 13 l)
  else if HasPrefix l indent6 then hexes (ztake 49 (zdrop 16 l))
  else [].

(** Reading on: whether what is printed is a frame that went the way of
    [arrow], and the bytes found so far.  Raw bytes, under a line with an
    arrow but no frame, are passed over. *)
Definition scan (arrow : bytes) (st : bool * bytes) (l : bytes) : bool * bytes :=
  if HasPrefix l (str "-->") || HasPrefix l (str "<--") then (HasPrefix l (arrow ++ str " frame "), st.2)
  else (st.1, if st.1 then st.2 ++ line_bytes l else st.2).

Definition scan_text (arrow : bytes) (st : bool * bytes) (text : bytes) : bool * bytes :=
  foldl (scan arrow) st (lines text).

Definition dumped (arrow text : bytes) : bytes := (scan_text arrow (false, []) text).2.

(** ** Lines *)

Definition one_line (b : bytes) : Prop := newline ∉ b.

Lemma lines_cons l b : one_line l -> lines (l ++ newline :: b) = l :: lines b.
Proof.
  induction l as [|c l IH]; intros Hl; [done|]. cbn [app lines].
  apply not_elem_of_cons in Hl as [Hc Hl]. rewrite (IH Hl).
  destruct (byte_eqb c newline) eqn:E; [apply byte_eqb_eq in E; congruence|done].
Qed.

Lemma one_line_app a b : one_line a -> one_line b -> one_line (a ++ b).
Proof. unfold one_line. rewrite elem_of_app. tauto. Qed.

(** A concatenation is taken apart as it is written. *)
Ltac parts := repeat match goal with |- one_line (_ ++ _) => apply one_line_app end.

Lemma one_line_forallb b : forallb (fun c => negb (byte_eqb c newline)) b = true -> one_line b.
Proof.
  unfold one_line. intros Hf Hin. rewrite forallb_forall in Hf.
  specialize (Hf newline). rewrite list_elem_of_In in Hin. by specialize (Hf Hin).
Qed.

(** A text of whole lines: reading it does not depend on what follows. *)
Definition whole_lines (b : bytes) : Prop := forall b', lines (b ++ b') = lines b ++ lines b'.

Lemma whole_lines_nil : whole_lines [].
Proof. done. Qed.

Lemma whole_lines_line l : one_line l -> whole_lines (l ++ [newline]).
Proof.
  intros Hl b'. rewrite <- app_assoc. cbn [app]. rewrite (lines_cons l b' Hl), (lines_cons l [] Hl). done.
Qed.

Lemma whole_lines_app a b : whole_lines a -> whole_lines b -> whole_lines (a ++ b).
Proof. intros Ha Hb b'. by rewrite <- app_assoc, !Ha, Hb, app_assoc. Qed.

Lemma scan_text_app arrow st a b :
  whole_lines a -> scan_text arrow st (a ++ b) = scan_text arrow (scan_text arrow st a) b.
Proof. intros Ha. unfold scan_text. by rewrite Ha, foldl_app. Qed.

Lemma scan_text_line arrow st l b :
  one_line l -> scan_text arrow st ((l ++ [newline]) ++ b) = scan_text arrow (scan arrow st l) b.
Proof. intros Hl. unfold scan_text. rewrite <- app_assoc. cbn [app]. by rewrite lines_cons. Qed.

(** ** The parts of a dump *)

Lemma FormatInt_one_line n : one_line (FormatInt n).
Proof.
  intros Hn. pose proof (FormatInt_numerals n) as Hf. rewrite Forall_forall in Hf.
  by destruct (Hf _ Hn) as [?|?].
Qed.

(** A digit of an uppercase hexadecimal number. *)
Lemma upperhex_digit v :
  unhex (upperhex !!! Z.to_nat (v mod 16)) = v mod 16 /\
  byte_eqb (upperhex !!! Z.to_nat (v mod 16)) space = false /\
  upperhex !!! Z.to_nat (v mod 16) <> newline.
Proof.
  pose proof (Z.mod_pos_bound v 16 eq_refl) as Hm. revert Hm. generalize (v mod 16). intros d Hd.
  assert (Hall : forallb (fun n => (unhex (upperhex !!! n) =? Z.of_nat n) &&
    negb (byte_eqb (upperhex !!! n) space) && negb (byte_eqb (upperhex !!! n) newline)) (seq 0 16) = true)
    by (vm_compute; reflexivity).
  rewrite forallb_forall in Hall. specialize (Hall (Z.to_nat d)).
  rewrite !andb_true_iff, !negb_true_iff, Z.eqb_eq in Hall.
  destruct Hall as [[H1 H2] H3]; [rewrite in_seq; lia|]. split; [lia|]. split; [done|].
  intros E. rewrite E in H3. done.
Qed.

Lemma hexX_one_line n v : one_line (hexX n v).
Proof.
  revert v. induction n as [|n IH]; intros v; [apply not_elem_of_nil|]. cbn [hexX].
  apply one_line_app; [apply IH|]. unfold one_line. rewrite list_elem_of_singleton.
  intros E. by destruct (upperhex_digit v) as (_ & _ & H3).
Qed.

Lemma length_hexX n v : length (hexX n v) = n.
Proof. revert v. induction n as [|n IH]; intros v; [done|]. cbn [hexX]. rewrite length_app, IH. cbn. lia. Qed.

Lemma hexes_byte c b : hexes (hexX 2 (bz c) ++ b) = c :: hexes b.
Proof.
  cbn [hexX app]. destruct (upperhex_digit (bz c / 16)) as (U1 & S1 & _), (upperhex_digit (bz c)) as (U2 & _ & _).
  cbn [hexes]. rewrite S1, U1, U2. f_equal. rewrite <- (zb_bz c) at 3. f_equal.
  pose proof (bz_range c). rewrite (Z.mod_small (bz c / 16)) by zlia. zlia.
Qed.

Lemma hexes_spaced b : hexes (spacedX b) = b.
Proof.
  induction b as [|c [|d b] IH]; [done| |].
  - cbn [spacedX]. rewrite <- (app_nil_r (hexX 2 (bz c))). by rewrite hexes_byte.
  - change (spacedX (c :: d :: b)) with (hexX 2 (bz c) ++ [space] ++ spacedX (d :: b)).
    rewrite hexes_byte. f_equal. exact IH.
Qed.

Lemma spacedX_one_line b : one_line (spacedX b).
Proof.
  induction b as [|c [|d b] IH]; [apply not_elem_of_nil|apply hexX_one_line|].
  change (spacedX (c :: d :: b)) with (hexX 2 (bz c) ++ [space] ++ spacedX (d :: b)).
  apply one_line_app; [apply hexX_one_line|]. apply one_line_app; [by apply one_line_forallb|exact IH].
Qed.

(** The middle column is a space wider. *)
Definition gap (i : nat) : bytes := if decide (i = 8%nat) then [space] else [].

Lemma hexes_gap i b : hexes (gap i ++ b) = hexes b.
Proof. unfold gap. by case_decide. Qed.

Lemma hexes_columns i n row : hexes (hex_columns i n row) = take n row.
Proof.
  revert i row. induction n as [|n IH]; intros i row; [done|]. cbn [hex_columns].
  fold (gap i). rewrite hexes_gap. destruct row as [|c row].
  - change (hexes (hex_columns (S i) n []) = []). by rewrite IH, take_nil.
  - rewrite <- app_assoc, hexes_byte. cbn [take]. f_equal. apply IH.
Qed.

Lemma columns_one_line i n row : one_line (hex_columns i n row).
Proof.
  revert i row. induction n as [|n IH]; intros i row; [apply not_elem_of_nil|]. cbn [hex_columns].
  apply one_line_app; [by case_decide; apply one_line_forallb|]. apply one_line_app; [|apply IH].
  destruct row as [|c row]; [by apply one_line_forallb|].
  apply one_line_app; [apply hexX_one_line|by apply one_line_forallb].
Qed.

Lemma length_columns i n row :
  length (hex_columns i n row) = (3 * n + if decide (i <= 8 < i + n)%nat then 1 else 0)%nat.
Proof.
  revert i row. induction n as [|n IH]; intros i row; cbn [hex_columns].
  { rewrite decide_False by lia. done. }
  rewrite !length_app, IH.
  assert (length match row with | [] => str "   " | c :: _ => hexX 2 (bz c) ++ [space] end = 3%nat) as ->.
  { destruct row; [done|]. by rewrite length_app, length_hexX. }
  repeat case_decide; cbn [length]; lia.
Qed.

Lemma printable_one_line b : one_line (printable_byte <$> b).
Proof.
  induction b as [|c b IH]; [apply not_elem_of_nil|]. cbn [fmap list_fmap]. apply not_elem_of_cons.
  split; [|exact IH]. unfold printable_byte. destruct (0x20 <=? bz c) eqn:E; [|done]. cbn.
  destruct (bz c <? 0x7F); [|done]. intros <-. done.
Qed.

(** ** Rows *)

Definition row_line (off : Z) (row : bytes) : bytes :=
  indent6 ++ hexX 8 off ++ str "  " ++ hex_columns 0 16 row ++ str " |" ++ (printable_byte <$> row) ++ str "|".

Lemma row_text_line off row : row_text indent6 off row = row_line off row ++ [newline].
Proof. unfold row_text, row_line. by rewrite <- !app_assoc. Qed.

Lemma row_line_one off row : one_line (row_line off row).
Proof.
  unfold row_line. parts; try (by apply one_line_forallb);
    [apply hexX_one_line|apply columns_one_line|apply printable_one_line].
Qed.

Lemma line_bytes_row off row : line_bytes (row_line off row) = take 16 row.
Proof.
  unfold line_bytes. change (HasPrefix (row_line off row) (str "    header   ")) with false.
  change (HasPrefix (row_line off row) indent6) with true. cbn iota.
  unfold row_line. rewrite !app_assoc, <- !(app_assoc ((indent6 ++ hexX 8 off) ++ str "  ")).
  rewrite zdrop_app by (unfold len; by rewrite !length_app, length_hexX).
  rewrite <- !app_assoc, ztake_app by (unfold len; by rewrite length_columns). apply hexes_columns.
Qed.

(** What a text adds to a reading that is on, and to one that is off. *)
Definition adds (arrow text b : bytes) : Prop :=
  whole_lines text /\ forall on acc,
    scan_text arrow (on, acc) text = (on, if on : bool then acc ++ b else acc).

Lemma adds_nil arrow : adds arrow [] [].
Proof. split; [apply whole_lines_nil|]. intros [] acc; [|done]. cbn. by rewrite app_nil_r. Qed.

Lemma adds_app arrow t1 b1 t2 b2 : adds arrow t1 b1 -> adds arrow t2 b2 -> adds arrow (t1 ++ t2) (b1 ++ b2).
Proof.
  intros [W1 A1] [W2 A2]. split; [by apply whole_lines_app|]. intros on acc.
  rewrite scan_text_app, A1, A2 by done. destruct on; [|done]. by rewrite app_assoc.
Qed.

Lemma adds_line arrow l :
  one_line l -> HasPrefix l (str "-->") = false -> HasPrefix l (str "<--") = false ->
  adds arrow (l ++ [newline]) (line_bytes l).
Proof.
  intros Hl H1 H2. split; [by apply whole_lines_line|]. intros on acc.
  rewrite <- (app_nil_r (l ++ [newline])), scan_text_line by done.
  unfold scan_text, scan. cbn [lines foldl]. by rewrite H1, H2.
Qed.

(** The rows of [writeRows] as one text. *)
Fixpoint rows (fuel : nat) (off : Z) (b : bytes) : bytes :=
  match fuel, b with
  | S fuel, _ :: _ => row_text indent6 off (ztake 16 b) ++ rows fuel (off + 16) (zdrop 16 b)
  | _, _ => []
  end.

Lemma rows_add arrow fuel off b : (length b <= fuel)%nat -> adds arrow (rows fuel off b) b.
Proof.
  revert off b. induction fuel as [|fuel IH]; intros off b Hf; [destruct b; [apply adds_nil|cbn in Hf; lia]|].
  destruct b as [|c b]; [apply adds_nil|]. cbn [rows]. rewrite row_text_line.
  rewrite <- (ztake_zdrop 16 (c :: b)) at 3. apply adds_app.
  - assert (E : line_bytes (row_line off (ztake 16 (c :: b))) = ztake 16 (c :: b)).
    { rewrite line_bytes_row. unfold ztake. rewrite take_take. done. }
    rewrite <- E at 2. apply adds_line; [apply row_line_one|done|done].
  - apply IH. unfold zdrop. rewrite length_drop. cbn in *. lia.
Qed.

(** ** Frames *)

Definition is_arrow (a : bytes) : Prop := a = str "-->" \/ a = str "<--".

Lemma typeName_one_line t : one_line (typeName t).
Proof.
  unfold typeName. repeat (case_match; [by apply one_line_forallb|]).
  parts; try (by apply one_line_forallb). apply hexX_one_line.
Qed.

Lemma flagNames_one_line fl : one_line (flagNames fl).
Proof.
  unfold flagNames. case_match; [by apply one_line_forallb|].
  assert (Hx : one_line (str "0x" ++ hexX 2 (Z.ldiff (bz fl) (bz FlagEndStream)))).
  { apply one_line_app; [by apply one_line_forallb|apply hexX_one_line]. }
  destruct (negb (Z.land _ _ =? 0)), (negb (_ =? 0)); cbn [app]; try done; try (by apply one_line_forallb).
  apply one_line_app; [by apply one_line_forallb|]. by apply one_line_app; [apply one_line_forallb|].
Qed.

Definition frame_head (arrow : bytes) (seq : Z) (b : bytes) : bytes :=
  arrow ++ str " frame " ++ FormatInt seq ++ str "  " ++ typeName (b !!! 4%nat) ++
  str "  stream=" ++ FormatInt (Uint32 (take 4 (drop 8 b))) ++ str "  flags=" ++
  flagNames (b !!! 5%nat) ++ str "  length=" ++ FormatInt (len (zdrop HeaderSize b)).

Lemma frame_line_head arrow seq b : frame_line arrow seq b = frame_head arrow seq b ++ [newline].
Proof. unfold frame_line, frame_head. by rewrite <- !app_assoc. Qed.

Lemma frame_head_one arrow seq b : is_arrow arrow -> one_line (frame_head arrow seq b).
Proof.
  intros Ha. unfold frame_head.
  apply one_line_app; [destruct Ha as [-> | ->]; by apply one_line_forallb|].
  parts; try (by apply one_line_forallb); try apply FormatInt_one_line;
    [apply typeName_one_line|apply flagNames_one_line].
Qed.

Definition frame_text (arrow : bytes) (seq : Z) (b : bytes) : bytes :=
  frame_line arrow seq b ++ str "    header   " ++ spacedX (ztake HeaderSize b) ++ [newline] ++
  (if 0 <? len (zdrop HeaderSize b) then
     str "    payload" ++ [newline] ++ rows (length (zdrop HeaderSize b)) 0 (zdrop HeaderSize b)
   else []).

(** The header line and the rows under the first line of a frame. *)
Lemma frame_body_adds arrow b :
  adds arrow (str "    header   " ++ spacedX (ztake HeaderSize b) ++ [newline] ++
    (if 0 <? len (zdrop HeaderSize b) then
       str "    payload" ++ [newline] ++ rows (length (zdrop HeaderSize b)) 0 (zdrop HeaderSize b)
     else [])) b.
Proof.
  set (payload := if 0 <? _ then _ else _).
  assert (E : str "    header   " ++ spacedX (ztake HeaderSize b) ++ [newline] ++ payload =
    ((str "    header   " ++ spacedX (ztake HeaderSize b)) ++ [newline]) ++ payload)
    by (by rewrite <- !app_assoc).
  rewrite E. clear E. rewrite <- (ztake_zdrop HeaderSize b) at 2. apply adds_app.
  - assert (E : line_bytes (str "    header   " ++ spacedX (ztake HeaderSize b)) = ztake HeaderSize b).
    { unfold line_bytes. change (HasPrefix _ (str "    header   ")) with true. cbn iota.
      rewrite zdrop_app by done. apply hexes_spaced. }
    rewrite <- E at 2. apply adds_line; [|done|done].
    apply one_line_app; [by apply one_line_forallb|apply spacedX_one_line].
  - unfold payload. destruct (Z.ltb_spec 0 (len (zdrop HeaderSize b))) as [Hp|Hp].
    + rewrite app_assoc. change (zdrop HeaderSize b) with ([] ++ zdrop HeaderSize b) at 3.
      apply adds_app; [by apply adds_line; [apply one_line_forallb|..]|by apply rows_add].
    + destruct (zdrop HeaderSize b); [apply adds_nil|]. rewrite len_cons in Hp.
      match goal with H : 1 + len ?l <= 0 |- _ => pose proof (len_nonneg l); lia end.
Qed.

Lemma frame_text_scan arrow a seq b on acc :
  is_arrow arrow -> is_arrow a ->
  whole_lines (frame_text a seq b) /\
  scan_text arrow (on, acc) (frame_text a seq b) =
    (bool_decide (a = arrow), if bool_decide (a = arrow) then acc ++ b else acc).
Proof.
  intros Harrow Ha. unfold frame_text. rewrite frame_line_head.
  destruct (frame_body_adds arrow b) as [Wb Ab]. split.
  { apply whole_lines_app; [by apply whole_lines_line, frame_head_one|done]. }
  rewrite scan_text_line by (by apply frame_head_one).
  assert (E : scan arrow (on, acc) (frame_head a seq b) = (bool_decide (a = arrow), acc)).
  { unfold scan, frame_head. destruct Ha as [-> | ->], Harrow as [-> | ->]; done. }
  by rewrite E, Ab.
Qed.

(** *** Raw bytes *)

Definition raw_head (a why : bytes) (b : bytes) : bytes :=
  a ++ [space] ++ why ++ str " (" ++ FormatInt (len b) ++ str " bytes)".

Definition raw_text (a why : bytes) (b : bytes) : bytes :=
  let shown := if rawPreview <? len b then ztake rawPreview b else b in
  (raw_head a why b ++ [newline]) ++ rows (length shown) 0 shown ++
  (if len shown <? len b then
     (indent6 ++ str "... " ++ FormatInt (len b - len shown) ++ str " more bytes not shown") ++ [newline]
   else []).

(** The reader passes over them. *)
Lemma raw_text_scan arrow a why b on acc :
  is_arrow arrow -> is_arrow a -> one_line why ->
  (forall r, HasPrefix (why ++ r) (str "frame ") = false) ->
  whole_lines (raw_text a why b) /\ scan_text arrow (on, acc) (raw_text a why b) = (false, acc).
Proof.
  intros Harrow Ha Hwhy Hnot. unfold raw_text. set (shown := if rawPreview <? _ then _ else _).
  set (more := if len shown <? len b then _ else _).
  assert (Hhead : one_line (raw_head a why b)).
  { unfold raw_head. apply one_line_app; [destruct Ha as [-> | ->]; by apply one_line_forallb|].
    parts; try (by apply one_line_forallb); [exact Hwhy|apply FormatInt_one_line]. }
  assert (Hrest : exists c, adds arrow (rows (length shown) 0 shown ++ more) c).
  { assert (Hmore : exists c, adds arrow more c).
    { unfold more. destruct (len shown <? len b); [|exists []; apply adds_nil].
      eexists. apply adds_line; [|done|done]. parts; try (by apply one_line_forallb). apply FormatInt_one_line. }
    destruct Hmore as [c Hm]. exists (shown ++ c). by apply adds_app; [apply rows_add|]. }
  destruct Hrest as (c & W & A). split; [by apply whole_lines_app; [apply whole_lines_line|]|].
  rewrite scan_text_line by done.
  assert (E : scan arrow (on, acc) (raw_head a why b) = (false, acc)).
  { unfold scan, raw_head. destruct Ha as [-> | ->], Harrow as [-> | ->]; try reflexivity;
      (assert (Hf : forall s, HasPrefix (str " " ++ why ++ s) (str " frame ") = false) by (intros s; apply Hnot));
      specialize (Hf (str " (" ++ FormatInt (len b) ++ str " bytes)")); cbn; by f_equal. }
  by rewrite E, A.
Qed.

(** ** Printing and feeding *)

Section Dumping.
Context {W : Type} `{WriterReliable W}.
Implicit Types (t : tapout W) (f : framer).

Definition text t : bytes := wr_out (t_out t).

Lemma print_text s t : text (print s t) = text t ++ s.
Proof.
  unfold text, print, Fprint. cbn [t_out]. destruct (wr_write_reliable s (t_out t)) as (w' & E & <-). by rewrite E.
Qed.

Lemma writeRows_text b t : text (writeRows indent6 b t) = text t ++ rows (length b) 0 b.
Proof.
  unfold writeRows. generalize (length b) 0. intros fuel off. revert off b t.
  induction fuel as [|fuel IH]; intros off [|c b] t; cbn [writeRows_loop rows]; try by rewrite app_nil_r.
  by rewrite IH, print_text, app_assoc.
Qed.

Lemma printFrame_text a b t : text (printFrame a b t) = text t ++ frame_text a (t_seq t + 1) b.
Proof.
  unfold printFrame, frame_text. destruct (0 <? len (zdrop HeaderSize b)).
  - rewrite writeRows_text, !print_text, <- !app_assoc. done.
  - rewrite !print_text, <- !app_assoc, !app_nil_r. done.
Qed.

(** A text that shows a framer's bytes [d], and only them. *)
Definition shows (a s d : bytes) : Prop :=
  whole_lines s /\ forall arrow, is_arrow arrow -> forall on acc,
    (scan_text arrow (on, acc) s).2 = if bool_decide (a = arrow) then acc ++ d else acc.

Lemma shows_nil a : shows a [] [].
Proof. split; [apply whole_lines_nil|]. intros arrow _ on acc. cbn. case_bool_decide; by rewrite ?app_nil_r. Qed.

Lemma shows_app a s1 d1 s2 d2 : shows a s1 d1 -> shows a s2 d2 -> shows a (s1 ++ s2) (d1 ++ d2).
Proof.
  intros [W1 S1] [W2 S2]. split; [by apply whole_lines_app|]. intros arrow Ha on acc.
  rewrite scan_text_app by done. specialize (S1 arrow Ha on acc).
  destruct (scan_text arrow (on, acc) s1) as [on1 acc1]. cbn in S1. rewrite S2, S1 by done.
  case_bool_decide; by rewrite ?app_assoc.
Qed.

Lemma shows_frame a seq b : is_arrow a -> shows a (frame_text a seq b) b.
Proof.
  intros Ha. split; [by apply (frame_text_scan a a seq b false [])|]. intros arrow Har on acc.
  by destruct (frame_text_scan arrow a seq b on acc Har Ha) as [_ ->].
Qed.

Lemma printRaw_text a why b t : text (printRaw a why b t) = text t ++ raw_text a why b.
Proof.
  unfold printRaw, raw_text. set (shown := if rawPreview <? _ then _ else _).
  destruct (len shown <? len b); rewrite ?print_text, writeRows_text, print_text; unfold raw_head;
    by rewrite <- !app_assoc, ?app_nil_r.
Qed.

(** Raw bytes are not shown to the reader. *)
Lemma shows_raw a why b :
  is_arrow a -> one_line why -> (forall r, HasPrefix (why ++ r) (str "frame ") = false) ->
  shows a (raw_text a why b) [].
Proof.
  intros Ha Hw Hnot. split; [by apply (raw_text_scan a a why b false [])|]. intros arrow Har on acc.
  destruct (raw_text_scan arrow a why b on acc Har Ha Hw Hnot) as [_ ->]. cbn. case_bool_decide; by rewrite ?app_nil_r.
Qed.

Lemma invalid_one_line n : one_line (str "not a valid frame (length field says " ++ FormatInt n ++ str " bytes)").
Proof. parts; try (by apply one_line_forallb). apply FormatInt_one_line. Qed.

(** What a framer has not shown: the beginning of a frame, which it holds, or
    everything from an unreadable header on. *)
Definition holds f (held : bytes) : Prop :=
  if f_broken f then unreadable held else held = f_buf f /\ incomplete held.

(** It shows the whole frames it takes off its buffer, and no more. *)
Lemma feed_loop_shows fuel f t f' t' :
  is_arrow (f_arrow f) -> f_broken f = false -> (length (f_buf f) < fuel)%nat -> feed_loop fuel f t = (f', t') ->
  f_arrow f' = f_arrow f /\
  exists s raws held, text t' = text t ++ s /\ f_buf f = List.concat (raw_bytes <$> raws) ++ held /\
    Forall raw_ok raws /\ shows (f_arrow f) s (List.concat (raw_bytes <$> raws)) /\ holds f' held.
Proof.
  intros Ha. revert f t Ha. induction fuel as [|fuel IH]; intros f t Ha Hb Hf; [lia|]. cbn [feed_loop].
  assert (Hstay : incomplete (f_buf f) ->
    exists s raws held, text t = text t ++ s /\ f_buf f = List.concat (raw_bytes <$> raws) ++ held /\
      Forall raw_ok raws /\ shows (f_arrow f) s (List.concat (raw_bytes <$> raws)) /\ holds f held).
  { intros Hi. exists [], [], (f_buf f). unfold holds. rewrite Hb, app_nil_r. repeat split; try done; apply shows_nil. }
  destruct (Z.ltb_spec (len (f_buf f)) HeaderSize) as [Hh|Hh].
  { intros [= <- <-]. split; [done|]. apply Hstay. by left. }
  destruct (stream_front (f_buf f) Hh) as (Hbad & Hcut & Hwhole).
  destruct (Z.ltb_spec MaxPayload (Uint32 (take 4 (f_buf f)))) as [Hm|Hm].
  { intros [= <- <-]. split; [done|]. eexists _, [], (f_buf f). split; [apply printRaw_text|].
    split; [done|]. split; [done|]. split; [|by apply Hbad]. by apply shows_raw; [|apply invalid_one_line|]. }
  set (total := HeaderSize + Uint32 (take 4 (f_buf f))) in *.
  destruct (Z.ltb_spec (len (f_buf f)) total) as [Ht|Ht].
  { intros [= <- <-]. split; [done|]. apply Hstay. by apply Hcut. }
  destruct (Hwhole Hm Ht) as (r & Hok & Er). pose proof (length_field_range (f_buf f) Hh) as Hr.
  intros Hl. eapply IH in Hl as [Har (s & raws & held & E1 & E2 & E3 & E4 & E5)]; [|done|done|].
  2:{ cbn [f_buf]. unfold zdrop. rewrite length_drop. subst total. unfold len, HeaderSize in *. lia. }
  split; [done|]. cbn [f_buf f_arrow] in *.
  exists (frame_text (f_arrow f) (t_seq t + 1) (ztake total (f_buf f)) ++ s), (r :: raws), held.
  cbn [fmap list_fmap List.concat].
  split; [by rewrite E1, printFrame_text, app_assoc|].
  split; [by rewrite <- app_assoc, <- E2, <- Er, ztake_zdrop|].
  split; [by constructor|]. split; [|done]. rewrite <- Er. by apply shows_app; [apply shows_frame|].
Qed.

Lemma feed_shows f b t f' t' held0 :
  is_arrow (f_arrow f) -> holds f held0 -> feed f b t = (f', t') ->
  f_arrow f' = f_arrow f /\
  exists s raws held, text t' = text t ++ s /\ held0 ++ b = List.concat (raw_bytes <$> raws) ++ held /\
    Forall raw_ok raws /\ shows (f_arrow f) s (List.concat (raw_bytes <$> raws)) /\ holds f' held.
Proof.
  intros Ha. unfold feed, holds at 1. destruct (f_broken f) eqn:Eb.
  - intros Hu [= <- <-]. split; [done|]. eexists _, [], (held0 ++ b). split; [apply printRaw_text|].
    split; [done|]. split; [done|]. split; [by apply shows_raw; [|apply one_line_forallb|]|].
    unfold holds. rewrite Eb. by apply unreadable_app.
  - intros [-> _] Hl. eapply feed_loop_shows in Hl as [H1 H2]; [|done|done|cbn [f_buf]; lia]. by split.
Qed.
End Dumping.

(** ** What crossed a connection *)

(** The bytes one [Write] or one [Read] of a tapped connection moved. *)
Inductive traffic : Type := Out (b : bytes) | In (b : bytes).

Definition watch {W} `{Writer W} (t : Tap W) (e : traffic) : Tap W :=
  match e with Out b => feed_sent b t | In b => feed_recv b t end.

Definition went_out (es : list traffic) : bytes :=
  List.concat ((fun e => match e with Out b => b | In _ => [] end) <$> es).
Definition came_in (es : list traffic) : bytes :=
  List.concat ((fun e => match e with Out _ => [] | In b => b end) <$> es).

Lemma traffic_snoc es e :
  went_out (es ++ [e]) = went_out es ++ (match e with Out b => b | In _ => [] end) /\
  came_in (es ++ [e]) = came_in es ++ (match e with Out _ => [] | In b => b end).
Proof. unfold went_out, came_in. rewrite !fmap_app, !concat_app. cbn. by rewrite !app_nil_r. Qed.

Definition watched {W} `{Writer W} (w : W) (es : list traffic) : Tap W := foldl watch (NewTap w) es.

(** The reading of a direction: the whole frames of its bytes, up to what its
    framer has not shown. *)
Definition accounted {W} `{Writer W} (t : Tap W) (f : framer) (b : bytes) : Prop :=
  exists raws held, Forall raw_ok raws /\ dumped (f_arrow f) (text (tap_out t)) = List.concat (raw_bytes <$> raws) /\
    b = List.concat (raw_bytes <$> raws) ++ held /\ holds f held.

Record watching {W} `{Writer W} (t : Tap W) (es : list traffic) : Prop := {
  wt_lines : whole_lines (text (tap_out t));
  wt_out : accounted t (tap_sent t) (went_out es);
  wt_in : accounted t (tap_recv t) (came_in es);
}.

Lemma accounted_splits {W} `{Writer W} (t : Tap W) f b :
  accounted t f b ->
  exists raws held, splits b raws held /\ dumped (f_arrow f) (text (tap_out t)) = List.concat (raw_bytes <$> raws).
Proof.
  intros (raws & held & Hr & Hd & E & Hh). exists raws, held. split; [|done]. split; [done| |done].
  unfold holds in Hh. destruct (f_broken f); [by right|left; apply Hh].
Qed.

Lemma accounted_unbroken {W} `{Writer W} (t : Tap W) f b :
  accounted t f b -> f_broken f = false ->
  dumped (f_arrow f) (text (tap_out t)) ++ f_buf f = b /\ len (f_buf f) < HeaderSize + MaxPayload.
Proof.
  intros (raws & held & Hr & Hd & E & Hh) Hb. unfold holds in Hh. rewrite Hb in Hh. destruct Hh as [-> Hi].
  split; [by rewrite Hd|by apply incomplete_short].
Qed.

(** The text grows; a reader of one arrow finds what is shown under it. *)
Lemma dumped_grows {W} `{WriterReliable W} (o o' : tapout W) a s d arrow :
  is_arrow arrow -> whole_lines (text o) -> text o' = text o ++ s -> shows a s d ->
  dumped arrow (text o') = dumped arrow (text o) ++ (if bool_decide (a = arrow) then d else []) /\
  whole_lines (text o').
Proof.
  intros Ho Hw -> [Hs Hscan]. split; [|by apply whole_lines_app].
  unfold dumped. rewrite scan_text_app by done.
  destruct (scan_text arrow (false, []) (text o)) as [on acc]. rewrite Hscan by done.
  case_bool_decide; by rewrite ?app_nil_r.
Qed.

(** A direction that is fed, and what the other one finds then. *)
Lemma accounted_fed {W} `{WriterReliable W} (t t' : Tap W) f f' b0 b other c :
  is_arrow (f_arrow f) -> is_arrow (f_arrow other) -> f_arrow f <> f_arrow other ->
  whole_lines (text (tap_out t)) -> accounted t f b0 -> accounted t other c ->
  feed f b (tap_out t) = (f', tap_out t') ->
  whole_lines (text (tap_out t')) /\ accounted t' f' (b0 ++ b) /\ accounted t' other c.
Proof.
  intros Ha Ho Hne Hw (raws & held & Hraws & Hd & -> & Hh) (raws2 & held2 & Hraws2 & Hd2 & -> & Hh2) E.
  destruct (feed_shows _ _ _ _ _ held Ha Hh E) as [Ea (s & more & held' & Ht & Hb & Hmore & Hs & Hh')].
  destruct (dumped_grows _ _ _ s _ (f_arrow f) Ha Hw Ht Hs) as [D1 W1].
  destruct (dumped_grows _ _ _ s _ (f_arrow other) Ho Hw Ht Hs) as [D2 _].
  rewrite bool_decide_true in D1 by done. rewrite bool_decide_false, app_nil_r in D2 by done.
  split; [done|]. split.
  - exists (raws ++ more), held'. rewrite Ea, D1, Hd, fmap_app, concat_app, <- !app_assoc, Hb.
    split; [by apply Forall_app|done].
  - exists raws2, held2. rewrite D2. done.
Qed.

Lemma feed_arrow {W} `{Writer W} f b (t : tapout W) : f_arrow (fst (feed f b t)) = f_arrow f.
Proof.
  unfold feed. destruct (f_broken f); [done|].
  assert (Hl : forall fuel g (t : tapout W), f_arrow (fst (feed_loop fuel g t)) = f_arrow g).
  { induction fuel as [|fuel IH]; intros g t1; cbn [feed_loop]; [done|].
    destruct (len (f_buf g) <? HeaderSize); [done|]. destruct (MaxPayload <? _); [done|].
    destruct (len (f_buf g) <? _); [done|]. by rewrite IH. }
  by rewrite Hl.
Qed.

Lemma watch_arrows {W} `{Writer W} (w : W) es :
  f_arrow (tap_sent (watched w es)) = str "-->" /\ f_arrow (tap_recv (watched w es)) = str "<--".
Proof.
  unfold watched. induction es as [|e es IH] using rev_ind; [done|]. rewrite foldl_snoc.
  set (t := foldl watch (NewTap w) es) in *. destruct IH as [H1' H2'].
  destruct e as [b|b]; cbn [watch]; unfold feed_sent, feed_recv.
  - pose proof (feed_arrow (tap_sent t) b (tap_out t)) as E.
    destruct (feed (tap_sent t) b (tap_out t)). cbn in *. by rewrite E.
  - pose proof (feed_arrow (tap_recv t) b (tap_out t)) as E.
    destruct (feed (tap_recv t) b (tap_out t)). cbn in *. by rewrite E.
Qed.

Lemma watched_ok {W} `{WriterReliable W} (w : W) es : wr_out w = [] -> watching (watched w es) es.
Proof.
  intros Hw. unfold watched. induction es as [|e es IH] using rev_ind.
  { assert (Hn : forall f, f_buf f = [] -> f_broken f = false -> accounted (NewTap w) f []).
    { intros f Hf Hb. exists [], []. unfold holds. rewrite Hb, Hf. unfold text. cbn. rewrite Hw.
      split; [done|]. split; [done|]. split; [done|]. split; [done|apply incomplete_nil]. }
    split; [|by apply Hn..]. unfold text. cbn. by rewrite Hw. }
  rewrite foldl_snoc. destruct (watch_arrows w es) as [A1 A2]. unfold watched in A1, A2.
  set (t := foldl watch (NewTap w) es) in *. destruct IH as [Wl Wo Wi].
  assert (I1 : is_arrow (f_arrow (tap_sent t))) by (rewrite A1; by left).
  assert (I2 : is_arrow (f_arrow (tap_recv t))) by (rewrite A2; by right).
  assert (Hne : f_arrow (tap_sent t) <> f_arrow (tap_recv t)) by (by rewrite A1, A2).
  destruct (traffic_snoc es e) as [Eo Ei].
  destruct e as [b|b]; cbn [watch]; unfold feed_sent, feed_recv; rewrite ?app_nil_r in *.
  - destruct (feed (tap_sent t) b (tap_out t)) as [f' o'] eqn:E.
    destruct (accounted_fed t (MkTap o' f' (tap_recv t)) _ f' _ b _ _ I1 I2 Hne Wl Wo Wi E) as (W1 & W2 & W3).
    split; [done|by rewrite Eo|by rewrite Ei].
  - destruct (feed (tap_recv t) b (tap_out t)) as [f' o'] eqn:E.
    destruct (accounted_fed t (MkTap o' (tap_sent t) f') _ f' _ b _ _ I2 I1 ltac:(done) Wl Wi Wo E) as (W1 & W2 & W3).
    split; [done|by rewrite Eo|by rewrite Ei].
Qed.

(** ** Streams that break no framer *)

(** Frames within the limit, and at most the beginning of another. *)
Definition framed (b : bytes) : Prop :=
  exists raws cut, Forall raw_ok raws /\ incomplete cut /\ b = List.concat (raw_bytes <$> raws) ++ cut.

Lemma incomplete_header l ty fl res s (d : bytes) :
  0 <= l <= MaxPayload -> len d < l -> incomplete (header l ty fl res s ++ d).
Proof. intros Hl Hd. right. by exists l, ty, fl, res, s, d. Qed.

(** The beginning of something that starts with a header. *)
Lemma header_prefix l ty fl res s (d a b : bytes) :
  0 <= l <= MaxPayload -> a ++ b = header l ty fl res s ++ d -> len a < HeaderSize + l -> incomplete a.
Proof.
  intros Hl E Ha. destruct (Z.ltb_spec (len a) HeaderSize) as [Hs|Hs]; [by left|].
  assert (Hlh : len (header l ty fl res s) = HeaderSize) by (by rewrite len_header).
  assert (Ed : a = header l ty fl res s ++ drop 12 a).
  { rewrite <- (take_drop 12 a) at 1. f_equal.
    rewrite <- (take_app_le a b 12) by (unfold len, HeaderSize in Hs; lia). rewrite E. by apply take_app_length'. }
  rewrite Ed. apply incomplete_header; [done|]. rewrite Ed, len_app, Hlh in Ha. lia.
Qed.

Lemma framed_prefix a b : framed (a ++ b) -> framed a.
Proof.
  intros (raws & cut & Hraws & Hcut & E). revert a E.
  induction Hraws as [|r raws (Hl & Hs & Hres) Hraws IH]; intros a E; cbn [fmap list_fmap List.concat] in E.
  - rewrite app_nil_l in E. exists [], a. split; [constructor|]. split; [|done].
    destruct Hcut as [Hc|(l & ty & fl & res & s & d & Hl & Hd & ->)].
    + left. apply (f_equal len) in E. rewrite len_app in E. pose proof (len_nonneg b). lia.
    + eapply header_prefix; [done|done|]. apply (f_equal len) in E. rewrite !len_app, len_header in E.
      pose proof (len_nonneg b). unfold HeaderSize. lia.
  - rewrite <- app_assoc in E. destruct (Z.leb_spec (len (raw_bytes r)) (len a)) as [Hle|Hgt].
    + assert (Ea : a = raw_bytes r ++ drop (length (raw_bytes r)) a).
      { rewrite <- (take_drop (length (raw_bytes r)) a) at 1. f_equal.
        rewrite <- (take_app_le a b) by (unfold len in Hle; lia). rewrite E. by apply take_app_length'. }
      rewrite Ea in E. rewrite <- app_assoc in E. apply app_inv_head in E.
      destruct (IH _ E) as (raws' & cut' & H1 & H2 & H3). exists (r :: raws'), cut'.
      split; [by constructor|]. split; [done|]. rewrite Ea, H3. cbn. by rewrite <- app_assoc.
    + exists [], a. split; [constructor|]. split; [|done]. unfold raw_bytes in E, Hgt.
      rewrite <- app_assoc in E. eapply header_prefix; [|exact E|].
      * split; [apply len_nonneg|done].
      * rewrite len_app, len_header in Hgt. unfold HeaderSize. lia.
Qed.

Section Unbroken.
Context {W : Type} `{Writer W}.
Implicit Types (t : tapout W) (f : framer).

(** What a framer does next does not depend on what was printed. *)
Lemma feed_loop_alike fuel f t t' : fst (feed_loop fuel f t) = fst (feed_loop fuel f t').
Proof.
  revert f t t'. induction fuel as [|fuel IH]; intros f t t'; cbn [feed_loop]; [done|].
  destruct (len (f_buf f) <? HeaderSize); [done|]. destruct (MaxPayload <? _); [done|].
  destruct (len (f_buf f) <? _); [done|]. apply IH.
Qed.

Lemma feed_alike f b t t' : fst (feed f b t) = fst (feed f b t').
Proof. unfold feed. destruct (f_broken f); [done|]. apply feed_loop_alike. Qed.

Lemma feed_framed f b t :
  f_buf f = [] -> f_broken f = false -> framed b -> f_broken (fst (feed f b t)) = false.
Proof.
  intros Hbuf Hb (raws & cut & Hr & Hc & ->). unfold feed. rewrite Hb, Hbuf. cbn [app].
  rewrite (feed_loop_frames _ _ _ raws cut); try done.
  rewrite length_app. pose proof (length_raw_bytes raws). lia.
Qed.

(** The pieces of one direction. *)
Definition outs (es : list traffic) : list bytes := omap (fun e => match e with Out b => Some b | In _ => None end) es.
Definition ins (es : list traffic) : list bytes := omap (fun e => match e with Out _ => None | In b => Some b end) es.

Lemma concat_outs es : List.concat (outs es) = went_out es.
Proof. induction es as [|[b|b] es IH]; [done|..]; unfold went_out, outs in *; cbn; by rewrite IH. Qed.

Lemma concat_ins es : List.concat (ins es) = came_in es.
Proof. induction es as [|[b|b] es IH]; [done|..]; unfold came_in, ins in *; cbn; by rewrite IH. Qed.

Lemma watched_framers (w : W) es t :
  tap_sent (watched w es) = fst (feeds (outs es) (tap_sent (NewTap w)) t) /\
  tap_recv (watched w es) = fst (feeds (ins es) (tap_recv (NewTap w)) t).
Proof.
  unfold watched, outs, ins. induction es as [|e es [IH1 IH2]] using rev_ind; [done|].
  rewrite foldl_snoc, !omap_app. set (tp := foldl watch (NewTap w) es) in *.
  destruct e as [b|b]; cbn [watch omap list_omap]; rewrite ?app_nil_r, ?feeds_snoc;
    unfold feed_sent, feed_recv.
  - destruct (feed (tap_sent tp) b (tap_out tp)) as [f' o'] eqn:E. cbn [tap_sent tap_recv]. split; [|done].
    destruct (feeds _ (tap_sent (NewTap w)) t) as [f t1]. cbn [fst] in IH1. rewrite <- IH1.
    rewrite (feed_alike _ b t1 (tap_out tp)), E. done.
  - destruct (feed (tap_recv tp) b (tap_out tp)) as [f' o'] eqn:E. cbn [tap_sent tap_recv]. split; [done|].
    destruct (feeds _ (tap_recv (NewTap w)) t) as [f t1]. cbn [fst] in IH2. rewrite <- IH2.
    rewrite (feed_alike _ b t1 (tap_out tp)), E. done.
Qed.

Lemma watched_unbroken (w : W) es :
  framed (went_out es) -> framed (came_in es) ->
  f_broken (tap_sent (watched w es)) = false /\ f_broken (tap_recv (watched w es)) = false.
Proof.
  intros Ho Hi. destruct (watched_framers w es (MkTapout w 0)) as [-> ->].
  assert (Hone : forall ps f, f_buf f = [] -> f_broken f = false -> framed (List.concat ps) ->
    f_broken (fst (feeds ps f (MkTapout w 0))) = false).
  { intros ps f Hbuf Hb Hf. pose proof (feed_framed f _ (MkTapout w 0) Hbuf Hb Hf).
    by rewrite feeds_concat. }
  split; apply Hone; try done; [by rewrite concat_outs|by rewrite concat_ins].
Qed.
(** What the framer of the bytes that went out holds. *)
Lemma watched_held (w : W) es raws cut :
  Forall raw_ok raws -> incomplete cut -> went_out es = List.concat (raw_bytes <$> raws) ++ cut ->
  f_buf (tap_sent (watched w es)) = cut.
Proof.
  intros Hr Hc Hes. destruct (watched_framers w es (MkTapout w 0)) as [-> _].
  assert (Hf : framed (List.concat (outs es))) by (rewrite concat_outs; by exists raws, cut).
  rewrite feeds_concat; [|done|done|by apply feed_framed].
  rewrite concat_outs, Hes. unfold feed. cbn [NewTap tap_sent f_broken f_buf app].
  rewrite (feed_loop_frames _ _ _ raws cut); try done.
  rewrite length_app. pose proof (length_raw_bytes raws). lia.
Qed.
End Unbroken.

(** (C17) What you see is what was sent: whatever was written and read through
    a tapped connection, in whatever pieces, however the two directions
    alternate and whether it is frames or not, a reader of the printed text
    alone finds of each direction exactly the whole frames its bytes begin
    with, byte for byte, which are determined ([splits_unique]).  What it does
    not find is the rest: the beginning of a frame that is not whole yet, or
    everything from a header on whose length is beyond the limit -- of those
    bytes the tap prints at most the first 256 of each piece, and not as a
    frame.  The text is what a writer that takes everything was given. *)
Theorem dump_shows_what_crossed {W} `{WriterReliable W} (w : W) es :
  wr_out w = [] ->
  let printed := wr_out (t_out (tap_out (watched w es))) in
  exists raws_out held_out raws_in held_in,
    splits (went_out es) raws_out held_out /\ dumped (str "-->") printed = List.concat (raw_bytes <$> raws_out) /\
    splits (came_in es) raws_in held_in /\ dumped (str "<--") printed = List.concat (raw_bytes <$> raws_in).
Proof.
  intros Hw printed. destruct (watched_ok w es Hw) as [_ Wo Wi]. destruct (watch_arrows w es) as [A1 A2].
  apply accounted_splits in Wo as (ro & ho & Ho & Eo), Wi as (ri & hi & Hi & Ei). rewrite A1 in Eo. rewrite A2 in Ei.
  by exists ro, ho, ri, hi.
Qed.

Definition dump_sample : list traffic :=
  [Out (wire 0 demo_frame); In (take 5 (wire 0 demo_frame)); Out (str "begun");
   In (drop 5 (wire 0 demo_frame)); In (str "HTTP/1.1 200 OK"); In (str "more")].

(** Read back from the text alone: the frames, and none of what comes after
    them, the beginning of one and bytes that are none. *)
Example dump_sample_read :
  let out := wr_out (t_out (tap_out (watched (MkBuffer []) dump_sample))) in
  dumped (str "-->") out = wire 0 demo_frame /\ dumped (str "<--") out = wire 0 demo_frame.
Proof. split; vm_compute; reflexivity. Qed.

Lemma dump_shows_what_crossed_witness :
  exists raws_out held_out raws_in held_in,
    splits (went_out dump_sample) raws_out held_out /\
    dumped (str "-->") (wr_out (t_out (tap_out (watched (MkBuffer []) dump_sample)))) =
      List.concat (raw_bytes <$> raws_out) /\
    splits (came_in dump_sample) raws_in held_in /\
    dumped (str "<--") (wr_out (t_out (tap_out (watched (MkBuffer []) dump_sample)))) =
      List.concat (raw_bytes <$> raws_in).
Proof. apply (dump_shows_what_crossed (MkBuffer []) dump_sample). reflexivity. Defined.
