(* ===== verification/Wrapped.v ===== *)
(** * Connections that stand for others

    A connection around another one -- the tapped connection of internal/wire
    -- may do more, but it hands every call on and every answer back.  As a
    class: a relation between two kinds of connections, or a connection and
    what is inside it, that every call of the interfaces keeps while it
    answers the same on both sides.  Then every routine of the program keeps
    it, up to [client.Get]: a client of the one returns what a client of the
    other returns.  With more facts in the relation, they come out as
    invariants. *)

From S2P Require Import Prelude GoIO Frame Headers Messages Conn Client.

(** Outcomes that agree, with related states. *)
Definition agree {X A B} (R : A -> B -> Prop) (p : X * A) (q : X * B) : Prop :=
  p.1 = q.1 /\ R p.2 q.2.

Class ReaderSim {A B} `{Reader A, Reader B} (R : A -> B -> Prop) : Prop := {
  sim_read n a b : R a b -> agree R (rd_read n a) (rd_read n b);
  sim_content a b : R a b -> rd_content a = rd_content b;
  sim_measure a b : R a b -> rd_measure a = rd_measure b;
}.

Class WriterSim {A B} `{Writer A, Writer B} (R : A -> B -> Prop) : Prop :=
  sim_write p a b : R a b -> agree R (wr_write p a) (wr_write p b).

Class NetConnSim {A B} `{NetConn A, NetConn B} (R : A -> B -> Prop) : Prop := {
  sim_rdl d a b : R a b -> R (nc_SetReadDeadline d a) (nc_SetReadDeadline d b);
  sim_wdl d a b : R a b -> R (nc_SetWriteDeadline d a) (nc_SetWriteDeadline d b);
  sim_closewrite a b : R a b -> R (nc_CloseWrite a) (nc_CloseWrite b);
  sim_close a b : R a b -> R (nc_Close a) (nc_Close b);
  sim_pending a b : R a b -> nc_pending a = nc_pending b;
}.

(** One call on both sides. *)
Ltac both H :=
  let E := fresh "E" in let HR := fresh "HR" in
  destruct H as [E HR];
  match type of E with fst ?p = fst ?q => destruct p as [? ?], q as [? ?] end;
  cbn [fst snd] in E, HR; subst.

(** ** Reading *)

Section Reading.
Context {A B : Type} `{Reader A, Reader B} (R : A -> B -> Prop) `{!ReaderSim R}.

Lemma sim_read_loop fuel n a b : R a b -> agree R (read_loop fuel n a) (read_loop fuel n b).
Proof.
  revert n a b. induction fuel as [|fuel IH]; intros [|n] a b HR; cbn [read_loop]; try by split.
  both (sim_read (S n) a b HR). destruct p0 as [d [e|]]; [by split|].
  both (IH (S n - length d)%nat a0 b0 HR0). by destruct p0.
Qed.

Lemma sim_read_upto n a b : R a b -> agree R (read_upto n a) (read_upto n b).
Proof. intros HR. unfold read_upto. rewrite (sim_measure a b HR). by apply sim_read_loop. Qed.

Lemma sim_ReadFull n a b : R a b -> agree R (ReadFull n a) (ReadFull n b).
Proof.
  intros HR. unfold ReadFull. both (sim_read_upto (Z.to_nat n) a b HR). by destruct p0 as [d [[]|]].
Qed.

Lemma sim_CopyN n a b : R a b -> agree R (CopyN_Discard n a) (CopyN_Discard n b).
Proof.
  intros HR. unfold CopyN_Discard. both (sim_read_upto (Z.to_nat n) a b HR). by destruct p0 as [d err].
Qed.

Lemma sim_Copy_Limit n a b : R a b -> R (Copy_Discard_Limit n a) (Copy_Discard_Limit n b).
Proof.
  intros HR. unfold Copy_Discard_Limit. both (sim_read_upto (Z.to_nat n) a b HR). by destruct p0 as [d err].
Qed.

Lemma sim_Read_loop fuel a b : R a b -> agree R (Read_loop fuel a) (Read_loop fuel b).
Proof.
  revert a b. induction fuel as [|fuel IH]; intros a b HR; cbn [Read_loop]; [by split|].
  both (sim_ReadFull HeaderSize a b HR). destruct p0 as [hdr [e|]]; [by split|].
  destruct (MaxPayload <? Uint32 (take 4 hdr)); [by split|].
  destruct (negb (known (hdr !!! 4%nat))).
  - both (sim_CopyN (Uint32 (take 4 hdr)) a0 b0 HR0). destruct o0 as [e|]; [by split|]. by apply IH.
  - both (sim_ReadFull (Uint32 (take 4 hdr)) a0 b0 HR0). destruct p0 as [p [e|]]; [by split|].
    cbv zeta. by destruct (needsStream _ && _).
Qed.

Lemma sim_Read a b : R a b -> agree R (Read a) (Read b).
Proof. intros HR. unfold Read. rewrite (sim_content a b HR). by apply sim_Read_loop. Qed.

(** Buffered readers of related sources, the same bytes in the buffer. *)
Definition rel_bufio (x : bufio A) (y : bufio B) : Prop := bf_buf x = bf_buf y /\ R (bf_src x) (bf_src y).

#[export] Instance bufio_sim : ReaderSim rel_bufio.
Proof.
  split.
  - intros n [buf a] [buf' b] [E HR]. cbn [bf_buf bf_src] in E, HR. subst buf'.
    unfold rd_read, bufio_reader, bufio_read. cbn [bf_buf bf_src].
    destruct buf as [|x buf]; [|by split]. destruct (defaultBufSize <=? n)%nat.
    + both (sim_read n a b HR). by destruct p0.
    + both (sim_read defaultBufSize a b HR). by destruct p0 as [d [e|]].
  - intros [buf a] [buf' b] [E HR]. unfold rd_content, bufio_reader. cbn [bf_buf bf_src] in *.
    by rewrite E, (sim_content a b HR).
  - intros [buf a] [buf' b] [E HR]. unfold rd_measure, bufio_reader. cbn [bf_buf bf_src] in *.
    by rewrite E, (sim_content a b HR), (sim_measure a b HR).
Qed.
End Reading.

(** ** Writing *)

Section Writing.
Context {A B : Type} `{Writer A, Writer B} (R : A -> B -> Prop) `{!WriterSim R}.

Lemma sim_writeAll_loop fuel a b p : R a b -> agree R (writeAll_loop fuel a p) (writeAll_loop fuel b p).
Proof.
  revert a b p. induction fuel as [|fuel IH]; intros a b [|x p] HR; cbn [writeAll_loop]; try by split.
  both (sim_write (x :: p) a b HR). destruct p1 as [n [e|]]; [by split|].
  destruct (n <=? 0)%nat; [by split|]. by apply IH.
Qed.

Lemma sim_Write a b f : R a b -> agree R (Write a f) (Write b f).
Proof.
  intros HR. unfold Write, writeAll. destruct (Encode f) as [p|e]; [|by split].
  both (sim_writeAll_loop (length p) a b p HR). by split.
Qed.
End Writing.

(** ** The client *)

Section Clients.
Context {A B : Type} `{Reader A, Writer A, NetConn A, Reader B, Writer B, NetConn B} (R : A -> B -> Prop).
Context `{!ReaderSim R, !WriterSim R, !NetConnSim R}.

(** Clients of related connections, alike otherwise. *)
Record rel_client (c : Client A) (d : Client B) : Prop := {
  rel_br : rel_bufio R (cl_br c) (cl_br d);
  rel_Timeout : cl_Timeout c = cl_Timeout d;
  rel_next : cl_next c = cl_next d;
  rel_exhausted : cl_exhausted c = cl_exhausted d;
  rel_broken : cl_broken c = cl_broken d;
}.

Lemma rel_conn c d : rel_client c d -> R (cl_conn c) (cl_conn d).
Proof. by intros [[_ HR] _ _ _ _]. Qed.

Lemma sim_New a b : R a b -> rel_client (New a) (New b).
Proof. intros HR. by split. Qed.

Lemma rel_with_br x y c d : rel_bufio R x y -> rel_client c d -> rel_client (with_br x c) (with_br y d).
Proof. by intros Hb []. Qed.

Lemma rel_with_conn a b c d : R a b -> rel_client c d -> rel_client (with_conn a c) (with_conn b d).
Proof. intros HR Hc. apply rel_with_br; [|done]. split; [apply Hc|done]. Qed.

Lemma sim_Close c d : rel_client c d -> rel_client (Client_Close c) (Client_Close d).
Proof. intros Hc. apply rel_with_conn; [|done]. by apply sim_close, rel_conn. Qed.

Lemma sim_fail c d : rel_client c d -> rel_client (client_fail c) (client_fail d).
Proof.
  intros Hc. destruct Hc as [[Hb HR] ? ? ? ?]. split; try done. split; [done|]. by apply sim_close.
Qed.

Lemma sim_client_write f c d : rel_client c d -> agree rel_client (client_write f c) (client_write f d).
Proof.
  intros Hc. unfold client_write. rewrite <- (rel_Timeout c d Hc).
  both (sim_Write R _ _ f (sim_wdl (cl_Timeout c) _ _ (rel_conn c d Hc))).
  split; [done|]. by apply rel_with_conn.
Qed.

Lemma sim_sendError code msg c d : rel_client c d -> rel_client (sendError code msg c) (sendError code msg d).
Proof.
  intros Hc. unfold sendError. destruct (ConnError_Encode _) as [payload|]; [|done].
  both (sim_client_write (MkFrame TypeError x00 0 payload) c d Hc). destruct o0 as [e|]; [done|].
  apply rel_with_br; [|done]. apply sim_Copy_Limit; [apply _|]. split; [apply HR|].
  by apply sim_rdl, sim_closewrite, rel_conn.
Qed.

Lemma sim_readFrame c d : rel_client c d -> agree rel_client (readFrame c) (readFrame d).
Proof.
  intros Hc. unfold readFrame. rewrite <- (rel_Timeout c d Hc).
  set (x := {| bf_buf := bf_buf (cl_br c); bf_src := _ |}).
  set (y := {| bf_buf := bf_buf (cl_br d); bf_src := _ |}).
  assert (Hxy : rel_bufio R x y) by (split; [apply Hc | by apply sim_rdl, rel_conn]).
  both (sim_Read (rel_bufio R) x y Hxy).
  assert (Hc1 : rel_client (with_br b c) (with_br b0 d)) by (by apply rel_with_br).
  destruct r0 as [f|[| | |typ l|[]]]; try by split.
  - split; [done|]. by apply sim_sendError.
  - split; [done|]. destruct (byte_eqb typ TypeError); [done|]. by apply sim_sendError.
Qed.

Lemma sim_expect f want id c d : rel_client c d -> agree rel_client (expect f want id c) (expect f want id d).
Proof.
  intros Hc. unfold expect. destruct (byte_eqb (fr_type f) TypeError); [by split|].
  destruct (byte_eqb (fr_type f) TypeRequest); [split; [done|by apply sim_sendError]|].
  by destruct (negb (byte_eqb (fr_type f) want) || negb (fr_stream f =? id)).
Qed.

Lemma sim_body_loop {W} `{Writer W} fuel id res (body : W) c d :
  rel_client c d -> agree rel_client (body_loop fuel id res body c) (body_loop fuel id res body d).
Proof.
  revert res body c d. induction fuel as [|fuel IH]; intros res body c d Hc; cbn [body_loop]; [by split|].
  both (sim_readFrame c d Hc). destruct r0 as [f|e]; [|by split].
  both (sim_expect f TypeData id c0 c1 HR). destruct o0 as [e|]; [by split|].
  destruct (wr_write (fr_payload f) body) as [[n [e|]] w]; [by split|].
  cbv zeta. destruct (Has (fr_flags f) FlagEndStream); [by split|]. by apply IH.
Qed.

Lemma sim_readResponse {W} `{Writer W} id (body : W) c d :
  rel_client c d -> agree rel_client (readResponse id body c) (readResponse id body d).
Proof.
  intros Hc. unfold readResponse. both (sim_readFrame c d Hc). destruct r0 as [f|e]; [|by split].
  both (sim_expect f TypeResponse id c0 c1 HR). destruct o0 as [e|]; [by split|].
  destruct (DecodeResponse (fr_payload f)) as [resp|e]; [|by split]. cbv zeta.
  assert (E : body_fuel c2 = body_fuel c3).
  { unfold body_fuel. by rewrite (proj1 (rel_br _ _ HR0)), (sim_pending _ _ (rel_conn _ _ HR0)). }
  rewrite E. destruct (Has (fr_flags f) FlagEndStream).
  - by destruct (checkLength _ _).
  - both (sim_body_loop (body_fuel c3) id (MkResult (rsp_status resp) (rsp_headers resp) 0) body c2 c3 HR0).
    destruct p0 as [[res|e] w]; [|by split]. by destruct (checkLength _ _).
Qed.

Lemma sim_take_id c d : rel_client c d -> agree rel_client (take_id c) (take_id d).
Proof.
  intros []. unfold take_id. rewrite rel_next0. by destruct (cl_next d =? 0xFFFFFFFF).
Qed.

(** [Get] does the same on both sides. *)
Lemma sim_Get {W} `{Writer W} path (body : W) headers c d :
  rel_client c d -> agree rel_client (Get path body headers c) (Get path body headers d).
Proof.
  intros Hc. unfold Get. rewrite (rel_broken c d Hc), (rel_exhausted c d Hc).
  destruct (cl_broken d); [by split|]. destruct (cl_exhausted d); [split; [done|by apply sim_fail]|].
  both (sim_take_id c d Hc). destruct (Request_Encode _) as [payload|e]; [|by split].
  both (sim_client_write (MkFrame TypeRequest FlagEndStream z0 payload) c0 c1 HR).
  destruct o0 as [e|]; [split; [done|by apply sim_fail]|].
  both (sim_readResponse z0 body c2 c3 HR0). destruct p0 as [[res|e] w]; [by split|].
  split; [done|]. by apply sim_fail.
Qed.
End Clients.
