(* ===== verification/TappedClient.v ===== *)
(** * A client of a tapped connection

    What bcurl -v runs: the client of internal/client over the connection of
    internal/wire.  It returns what the client of the bare connection returns
    and leaves that connection as it would be, and what the tap was fed are
    exactly the bytes that crossed. *)

From S2P Require Import Prelude GoIO Frame Headers Messages Conn Net Client Wrapped Tap Dump.

Section Tapped.
Context {W : Type} `{Writer W} (w : W) (out0 in0 : bytes).

(** The connection inside, with a tap that has seen all its traffic: [out0]
    was written before, [in0] is all the peer had to send. *)
Definition tapping (tc : tappedConn conn W) (co : conn) : Prop :=
  co = tc_conn tc /\ exists es, tc_tap tc = watched w es /\
    wr_out co = out0 ++ went_out es /\ in0 = came_in es ++ pending co.

#[export] Instance tapping_reader : ReaderSim tapping.
Proof.
  split; [|by intros ? ? [-> _]..].
  intros n tc co [-> (es & Ht & Ho & Hi)]. unfold rd_read at 1, tapped_reader, tapped_read.
  destruct (rd_read n (tc_conn tc)) as [[d err] co'] eqn:E.
  apply conn_read_ran in E as [Hp _ Hs _ _]. split; [done|]. cbn [snd tc_conn]. split; [done|].
  assert (Hw : wr_out co' = wr_out (tc_conn tc)) by (by rewrite Hs).
  destruct (Z.ltb_spec 0 (len d)) as [Hd|Hd].
  - exists (es ++ [In d]). destruct (traffic_snoc es (In d)) as [-> ->].
    split; [by unfold watched; rewrite foldl_snoc, Ht|]. split; [by rewrite app_nil_r, Hw|].
    by rewrite <- app_assoc, <- Hp.
  - assert (d = []) as -> by (apply len_0_nil; pose proof (len_nonneg d); lia).
    exists es. split; [done|]. split; [by rewrite Hw|]. by rewrite Hi, Hp.
Qed.

#[export] Instance tapping_writer : WriterSim tapping.
Proof.
  intros b tc co [-> (es & Ht & Ho & Hi)]. unfold wr_write at 1, tapped_writer, tapped_write.
  destruct (wr_write b (tc_conn tc)) as [[n err] co'] eqn:E.
  pose proof (conn_write_same _ _ _ _ _ E) as (Hin & _ & _ & _).
  apply wr_write_out in E as [Hn Hw]. split; [done|]. cbn [snd tc_conn]. split; [done|].
  assert (Hp : pending co' = pending (tc_conn tc)) by (unfold pending; by rewrite Hin).
  destruct (Nat.ltb_spec 0 n) as [Hlt|Hle].
  - exists (es ++ [Out (take n b)]). destruct (traffic_snoc es (Out (take n b))) as [-> ->].
    split; [by unfold watched; rewrite foldl_snoc, Ht|].
    split; [by rewrite Hw, Ho, app_assoc|]. by rewrite app_nil_r, Hp.
  - assert (n = 0%nat) as -> by lia. rewrite take_0, app_nil_r in Hw. exists es.
    split; [done|]. split; [by rewrite Hw|]. by rewrite Hp.
Qed.

#[export] Instance tapping_netconn : NetConnSim tapping.
Proof.
  split; [..|by intros ? ? [-> _]];
    intros; destruct_and?;
    match goal with Ht : tapping _ _ |- _ => destruct Ht as [-> (es & Ht & Ho & Hi)] end;
    (split; [done|]); exists es; (split; [done|]); try done.
  cbn. unfold CloseWrite. by destruct (c_halfcloses _).
Qed.
End Tapped.

(** A client of a fresh tap. *)
Lemma tapping_New {W} `{Writer W} (w : W) co :
  rel_client (tapping w (wr_out co) (pending co)) (New (Wrap (NewTap w) co)) (New co).
Proof. apply sim_New. split; [done|]. exists []. cbn. by rewrite app_nil_r. Qed.

Lemma tapped_Get {W V} `{Writer W, Writer V} (w : W) co path (body : V) headers :
  agree (rel_client (tapping w (wr_out co) (pending co)))
    (Get path body headers (New (Wrap (NewTap w) co))) (Get path body headers (New co)).
Proof. apply sim_Get; try apply _. apply tapping_New. Qed.
