(* ===== verification/Bcurl.v ===== *)
(** * cmd/bcurl

    [main.go]: from the command line to the exit status.  The network is the
    parameter [dial]; the texts of the errors of packages flag and client are
    parameters too (file ErrorText.v has those of the client).  With [-v] the client runs over the tapped connection of
    internal/wire, whose dump goes to the same standard error as the
    messages. *)

From S2P Require Import Prelude GoIO Frame Headers Messages Conn Paths Addr Flags.
From S2P Require Import Client Tap.

Definition dialTimeout : Z := 10 * Second.

(** [verbose] and [headers] *)
Record Flags : Type := MkFlags { fl_verbose : bool; fl_headers : list Header }.

Definition no_flags : Flags := MkFlags false [].

(** The flag set of [run]. *)
Definition formal (name : bytes) : option (flag Flags) :=
  if decide (name = str "v") then Some (BoolFlag (fun b o => MkFlags b (fl_headers o)))
  else if decide (name = str "H") then
    Some (ValueFlag (fun v o =>
      match headerFlags_Set v (fl_headers o) with
      | Ok hs => Some (MkFlags (fl_verbose o) hs)
      | Err _ => None
      end))
  else None.

Definition usage : bytes :=
  str "usage: bcurl [-v] [-H " ++ [x22] ++ str "name: value" ++ [x22] ++
  str "]... <host>:<port>[/path]" ++ [newline].

(** What a run leaves: the exit status, the two outputs and the connection. *)
Record outcome (W E : Type) : Type := MkOutcome {
  oc_status : Z;
  oc_stdout : W;
  oc_stderr : E;
  oc_conn : option conn;
}.
Arguments MkOutcome {W E}.
Arguments oc_status {W E}.
Arguments oc_stdout {W E}.
Arguments oc_stderr {W E}.
Arguments oc_conn {W E}.

Section Run.
Context {W E : Type} `{Writer W, Writer E}.
Context (dial : bytes -> Z -> result bytes conn).
Context (flag_text : flag_error -> bytes) (client_text : client_error -> bytes).

Definition message (text : bytes) : bytes := str "bcurl: " ++ text ++ [newline].

(** The exchange on a connection of any kind, up to the return: the exit
    status, what is still to be printed, the body written and the client. *)
Definition exchange {C} `{Reader C, Writer C, NetConn C} (co : C) (path : bytes) (headers : list Header)
    (stdout : W) : Z * option bytes * W * Client C :=
  let '(res, stdout, c) := Client.Get path stdout headers (New co) in
  match res with
  | Err e => (3, Some (message (client_text e)), stdout, c)
  | Ok res =>
    if 400 <=? res_Status res
    then (1, Some (message (str "server answered " ++ FormatInt (res_Status res))), stdout, c)
    else (0, None, stdout, c)
  end.

(** [fmt.Fprintf(stderr, ...)], if at all; with a tap that has the same writer. *)
Definition say (text : option bytes) (stderr : E) : E :=
  match text with Some text => Fprint text stderr | None => stderr end.

Definition tell (text : option bytes) (t : Tap E) : Tap E :=
  MkTap (MkTapout (say text (t_out (tap_out t))) (t_seq (tap_out t))) (tap_sent t) (tap_recv t).

Definition fetch (o : Flags) (co : conn) (path : bytes) (stdout : W) (stderr : E) : outcome W E :=
  if fl_verbose o then
    let '(status, text, stdout, c) := exchange (Wrap (NewTap stderr) co) path (fl_headers o) stdout in
    let tc := cl_conn (Client_Close (with_conn (Wrap (tell text (tc_tap (cl_conn c))) (tc_conn (cl_conn c))) c)) in
    MkOutcome status stdout (t_out (tap_out (Flush (tc_tap tc)))) (Some (tc_conn tc))
  else
    let '(status, text, stdout, c) := exchange co path (fl_headers o) stdout in
    MkOutcome status stdout (say text stderr) (Some (cl_conn (Client_Close c))).

Definition run (args : list bytes) (stdout : W) (stderr : E) : outcome W E :=
  match Parse formal args no_flags with
  | Err e => MkOutcome 2 stdout (Fprint (flag_text e) stderr) None
  | Ok (o, [target]) =>
    match parseTarget target with
    | None => MkOutcome 2 stdout (Fprint (message (str "target must look like host:port/path")) stderr) None
    | Some (addr, path) =>
      match dial addr dialTimeout with
      | Err text => MkOutcome 3 stdout (Fprint (message text) stderr) None
      | Ok co => fetch o co path stdout stderr
      end
    end
  | Ok _ => MkOutcome 2 stdout (Fprint usage stderr) None
  end.
End Run.
