(* ===== verification/ErrorText.v ===== *)
(** * The texts of errors

    What [Error()] returns for the errors of the packages frame, protocol and
    client, and what bcurl prints of them.  The texts of errors of a
    connection or a file are the operating system's: the parameter
    [io_text]. *)

From S2P Require Import Prelude GoIO Frame Headers Messages Conn Net Paths Quote Client.
From S2P Require Import Addr Flags Tap Bcurl.

Section Texts.
Context (IsPrint : Z -> bool) (io_text : ioerr -> bytes).

(** ** The verbs of [fmt.Sprintf] *)

(** [%q] and, for a [uint8], [%#x]. *)
Definition fmt_q (s : bytes) : bytes := Quote IsPrint s.
Definition fmt_sharp_x (n : Z) : bytes := str "0x" ++ hex_digits (if n <? 16 then 1 else 2) n.

(** ** internal/frame *)

Definition frame_text (e : frame_error) : bytes :=
  match e with
  | ErrTruncated => str "frame: connection ended in the middle of a frame"
  | ErrPayloadTooLarge => str "frame: payload is larger than the maximum frame size"
  | ErrStreamZero => str "frame: stream id 0 is not valid for this frame type"
  | OversizeError _ length =>
    str "frame: declared payload of " ++ FormatInt length ++ str " bytes exceeds the " ++
    FormatInt MaxPayload ++ str " byte limit"
  | IOError e => io_text e
  end.

(** ** internal/protocol *)

Definition outside (what : bytes) (n limit : Z) : bytes :=
  what ++ FormatInt n ++ str " is outside 1.." ++ FormatInt limit.

Definition malformed_text (m : malformed) : bytes :=
  str "malformed message: " ++
  match m with
  | NeedMoreBytes n remain =>
    str "need " ++ FormatInt n ++ str " more bytes but only " ++ FormatInt remain ++ str " remain"
  | UnexpectedBytes n => FormatInt n ++ str " unexpected bytes after the last field"
  | HeadersAnnounced count remain =>
    FormatInt count ++ str " headers announced but only " ++ FormatInt remain ++ str " bytes remain"
  | NameLenOutside n =>
    str "custom header name of " ++ FormatInt n ++ str " bytes is outside 1.." ++ FormatInt MaxCustomNameLen
  | NameNotAllowed n => str "custom header name of " ++ FormatInt n ++ str " bytes is not allowed"
  | MustUseTableID name => str "header " ++ fmt_q name ++ str " must use its table identifier"
  | MethodNotSupported method => str "method " ++ fmt_sharp_x (bz method) ++ str " is not supported"
  | PathLenOutside n => outside (str "path length ") n MaxPathLen
  | PathNotUTF8 => str "path is not valid UTF-8"
  | StatusOutside status => str "status " ++ FormatInt status ++ str " is outside 100..599"
  end.

Definition encode_text (e : encode_error) : bytes :=
  match e with
  | TooManyHeaders n => FormatInt n ++ str " headers exceed the limit of " ++ FormatInt MaxHeaders
  | ValueTooLong name n =>
    str "value of header " ++ fmt_q name ++ str " is " ++ FormatInt n ++ str " bytes, over the limit"
  | InvalidHeaderName name => str "invalid header name " ++ fmt_q name
  | UnsupportedMethod m => str "unsupported method " ++ fmt_sharp_x (bz m)
  | BadPathLength n => outside (str "path length ") n MaxPathLen
  | BadPathUTF8 => str "path is not valid UTF-8"
  | BadStatus s => str "status " ++ FormatInt s ++ str " is outside 100..599"
  | ErrTooLarge => str "message does not fit in one frame"
  end.

(** ** internal/client *)

Definition typeLabel (t : Type_) : bytes :=
  if byte_eqb t TypeResponse then str "a response" else str "data".

(** [RemoteError.Error] *)
Definition remote_text (code : Z) (message : bytes) : bytes :=
  str "server reported error " ++ FormatInt code ++ str ": " ++ message.

Definition client_text (e : client_error) : bytes :=
  match e with
  | ErrBroken => str "client: the connection has already failed"
  | StreamIDsUsedUp => str "all stream ids on this connection are used up"
  | CannotBuild e => str "cannot build request: " ++ encode_text e
  | SendingRequest e => str "sending request: " ++ frame_text e
  | RemoteError code message => remote_text code message
  | ServerSentRequest => str "server sent a request frame"
  | Unexpected want id got stream =>
    str "expected " ++ typeLabel want ++ str " on stream " ++ FormatInt id ++
    str " but got type " ++ FormatInt (bz got) ++ str " on stream " ++ FormatInt stream
  | UnreadableResponse e => str "unreadable response: " ++ malformed_text e
  | WritingBody e => str "writing body: " ++ io_text e
  | ServerStreamZero => str "server used stream id 0"
  | ServerOversize length => str "server sent a frame declaring " ++ FormatInt length ++ str " payload bytes"
  | ClosedEarly => str "connection closed before the response was complete"
  | ReadingResponse e => str "reading response: " ++ frame_text e
  | BadContentLength v => str "content-length " ++ fmt_q v ++ str " is not a valid number"
  | LengthMismatch want got =>
    str "server promised " ++ FormatInt want ++ str " body bytes but sent " ++ FormatInt got
  end.

End Texts.

(** ** No text moves the cursor *)

Lemma FormatInt_visible n : Forall visible (FormatInt n).
Proof.
  eapply Forall_impl; [apply FormatInt_numerals|]. intros c [->|Hd]; [by vm_compute|].
  unfold is_digit in Hd. change (bz x30) with 48 in Hd. change (bz x39) with 57 in Hd.
  unfold visible. unbool. lia.
Qed.

Lemma fmt_q_visible IsPrint s : Forall visible (fmt_q IsPrint s).
Proof.
  apply Forall_cons. split; [by vm_compute|]. apply Forall_app. split; [apply quote_loop_visible|].
  by apply Forall_singleton.
Qed.

Lemma visible_literal l : forallb (fun c => (0x20 <=? bz c) && negb (bz c =? 0x7F)) l = true -> Forall visible l.
Proof.
  intros Hl. apply Forall_forall. intros c Hc. rewrite forallb_forall in Hl.
  specialize (Hl c (proj1 (list_elem_of_In _ _) Hc)). unfold visible. unbool. lia.
Qed.

(** Texts joined of literals, numbers and quotations. *)
Ltac visible_parts :=
  repeat match goal with
  | |- Forall visible (_ ++ _) => apply Forall_app_2
  | |- Forall visible (FormatInt _) => apply FormatInt_visible
  | |- Forall visible (fmt_q _ _) => apply fmt_q_visible
  | |- Forall visible (hex_digits _ _) => apply hex_digits_visible
  | |- Forall visible (str _) => apply visible_literal; vm_compute; reflexivity
  end.

Section Visible.
Context (IsPrint : Z -> bool) (io_text : ioerr -> bytes).
Context (io_visible : forall e, Forall visible (io_text e)).

Lemma frame_text_visible e : Forall visible (frame_text io_text e).
Proof. destruct e; cbn [frame_text]; visible_parts; apply io_visible. Qed.

Lemma malformed_text_visible m : Forall visible (malformed_text IsPrint m).
Proof. unfold malformed_text. apply Forall_app_2; [by visible_parts|]. destruct m; unfold outside, fmt_sharp_x; visible_parts. Qed.

Lemma encode_text_visible e : Forall visible (encode_text IsPrint e).
Proof. destruct e; cbn [encode_text]; unfold outside, fmt_sharp_x; visible_parts. Qed.

Lemma client_text_visible e :
  (forall code message, e = RemoteError code message -> Forall visible message) <-> Forall visible (client_text IsPrint io_text e).
Proof.
  split.
  - intros Hm. destruct e; cbn [client_text]; unfold remote_text, typeLabel; visible_parts;
      auto using frame_text_visible, malformed_text_visible, encode_text_visible.
    + by eapply Hm.
    + destruct (byte_eqb want TypeResponse); visible_parts.
  - intros Hv code message ->. cbn [client_text] in Hv. unfold remote_text in Hv.
    rewrite !Forall_app in Hv. apply Hv.
Qed.

(** ** What bcurl prints *)

End Visible.

(** ** The exception *)

(** A server that answers with one ERROR frame whose message is an escape
    sequence. *)
Definition rude_message : bytes := x1b :: str "[2J".

Definition rude_conn : conn :=
  {| c_now := 0; c_in := [(Second, wire 0 (error_frame 3 rude_message))]; c_fin := (2 * Second, EOF);
     c_rdl := None; c_out := buffer; c_wdelay := []; c_wdl := None; c_halfcloses := true;
     c_wshut := false; c_closed := false |}.

Definition plain_text {A} (e : A) : bytes := str "error".

(** The terminal is sent the escape sequence. *)
Lemma ERROR_messages_are_raw :
  oc_stderr (fetch (client_text (fun _ => false) plain_text) (MkFlags false []) rude_conn (str "/")
    (MkBuffer []) (MkBuffer [])) =
  MkBuffer (str "bcurl: server reported error 3: " ++ [x1b] ++ str "[2J" ++ [newline]).
Proof. vm_compute. reflexivity. Qed.

(** A content-length no client should print as it is. *)
Definition odd_conn : conn :=
  with_in [(Second, wire 0 {| fr_type := TypeResponse; fr_flags := FlagEndStream; fr_stream := 1;
     fr_payload := put16 200 ++ [x01; x02; x00; x04] ++ rude_message |})] rude_conn.

