(* ===== verification/ServerLog.v ===== *)
(** * What the server logs

    The text of every log line of [server.go] and [request.go], and that
    whatever a client sends, a connection leaves one line saying it came, one
    saying it went, and between them lines without a control character.  The
    parameters are the address of the peer and the texts of errors of the
    system; the text of an error about a file may repeat its path. *)

From S2P Require Import Prelude GoIO Frame Utf8 Headers Messages Conn Paths OsFs Resolver Quote.
From S2P Require Import Net ErrorText Server ServerProps.

Section Log.
Context (IsPrint : Z -> bool) (io_text : ioerr -> bytes).
Context (os_text : bytes -> oserr -> bytes) (peer : bytes).

(** ** The lines *)

Definition serve_text (e : serve_error) : bytes :=
  match e with
  | EncodeError e => encode_text IsPrint e
  | WriteError e => frame_text io_text e
  | bodyError e => str "sending body: file ended early: " ++ io_text e
  end.

Definition why_text (why : bad_request) : bytes :=
  match why with
  | FlagsAreWrong => str "request flags are wrong"
  | Undecodable e => malformed_text IsPrint e
  | PathNotAllowed => str "path not allowed"
  end.

Definition resolve_text (about : bytes) (e : resolve_error) : bytes :=
  match e with
  | errBadPath => str "path not allowed"
  | errNotFound => str "not found"
  | OsErr e => os_text about e
  end.

Definition line_text (l : logline) : bytes :=
  match l with
  | LogConnected => peer ++ str " connected"
  | LogDisconnected => peer ++ str " disconnected"
  | LogBadRequest why => peer ++ str ": bad request: " ++ why_text why
  | LogGet404 path => str "GET " ++ path ++ str " -> 404"
  | LogGet500 path about e => str "GET " ++ path ++ str " -> 500: " ++ resolve_text about e
  | LogGet200 path n => str "GET " ++ path ++ str " -> 200 (" ++ FormatInt n ++ str " bytes)"
  | LogStatusFailed e => peer ++ str ": " ++ serve_text e
  | LogErrorFrame => peer ++ str " sent an error frame, closing"
  | LogMidFrame => peer ++ str ": connection ended mid-frame"
  | LogOversizedError => peer ++ str ": oversized error frame, closing"
  | LogIdle => peer ++ str ": idle for too long, closing"
  | LogReadFailed e => peer ++ str ": read failed: " ++ frame_text io_text e
  | LogBody e => peer ++ str ": " ++ serve_text e
  | LogWriteFailed e => peer ++ str ": write failed: " ++ serve_text e
  | LogFail msg => peer ++ str ": " ++ msg
  end.

(** ** What the server puts into a line *)

(** The lines between the first and the last one of a connection. *)
Definition harmless (l : logline) : Prop :=
  match l with
  | LogConnected | LogDisconnected => False
  | LogGet404 path | LogGet200 path _ => exists p, path = printable IsPrint p
  | LogGet500 path about _ => path = printable IsPrint about /\ Forall visible about
  | LogFail msg => Forall visible msg
  | _ => True
  end.

(** What an operation appends to the log. *)
Definition logs (s : Server) (st st' : hstate) : Prop :=
  exists new, h_log st' = h_log st ++ new /\ Forall harmless new /\ (s_logger s = false -> new = []).

#[export] Instance logs_refl s : Reflexive (logs s).
Proof. intros st. exists []. by rewrite app_nil_r. Qed.

#[export] Instance logs_trans s : Transitive (logs s).
Proof.
  intros st1 st2 st3 (n1 & E1 & F1 & O1) (n2 & E2 & F2 & O2).
  exists (n1 ++ n2). rewrite E2, E1, app_assoc. split; [done|]. split; [by apply Forall_app|].
  intros Ho. by rewrite O1, O2.
Qed.

Lemma logs_same s st st' : h_log st' = h_log st -> logs s st st'.
Proof. intros E. exists []. by rewrite app_nil_r. Qed.

Lemma logs_logf s l st : harmless l -> logs s st (logf s l st).
Proof.
  intros Hl. unfold logf. destruct (s_logger s) eqn:E; [|done].
  exists [l]. split; [done|]. split; [by apply Forall_singleton|]. congruence.
Qed.

Lemma logs_after_logf s l st st' : harmless l -> logs s (logf s l st) st' -> logs s st st'.
Proof. intros Hl Hs. etrans; [by apply logs_logf|exact Hs]. Qed.

(** ** Operation by operation *)

Lemma write_logs s f st err st' : write s f st = (err, st') -> logs s st st'.
Proof. unfold write. destruct (Write _ _) as [e c]. intros [= <- <-]. by apply logs_same. Qed.

Lemma sendResponse_logs s stream status headers e st err st' :
  sendResponse s stream status headers e st = (err, st') -> logs s st st'.
Proof.
  unfold sendResponse. destruct (Response_Encode _) as [p|]; [|by intros [= <- <-]].
  destruct (write s _ st) as [e' st1] eqn:Ew. intros [= <- <-]. by eapply write_logs.
Qed.

Lemma reject_logs s stream why st err st' : reject s stream why st = (err, st') -> logs s st st'.
Proof. intros Hr. apply sendResponse_logs in Hr. by eapply logs_after_logf; [|exact Hr]. Qed.

Lemma sendFile_loop_logs s fuel stream file size remaining st n err st' :
  sendFile_loop s fuel stream file size remaining st = (n, err, st') -> logs s st st'.
Proof.
  revert file remaining st. induction fuel as [|fuel IH]; intros file remaining st; cbn [sendFile_loop];
    (destruct (remaining <=? 0); [by intros [= <- <- <-]|]); [by intros [= <- <- <-]|].
  destruct (ReadFull _ file) as [[chunk e] file1]. destruct e; [by intros [= <- <- <-]|].
  destruct (write s _ st) as [e st1] eqn:Ew. apply write_logs in Ew.
  destruct e; [by intros [= <- <- <-]|]. intros Hl. etrans; [exact Ew|by eapply IH].
Qed.

Lemma sendFile_logs s stream file size ctype st n err st' :
  sendFile s stream file size ctype st = (n, err, st') -> logs s st st'.
Proof.
  unfold sendFile. destruct (sendResponse s _ _ _ _ st) as [e st1] eqn:Er. apply sendResponse_logs in Er.
  destruct e; [by intros [= <- <- <-]|]. intros Hl. etrans; [exact Er|by eapply sendFile_loop_logs].
Qed.

Lemma fail_logs s code msg st : Forall visible msg -> logs s st (fail s code msg st).
Proof.
  intros Hm. unfold fail. apply (logs_after_logf s (LogFail msg)); [done|].
  destruct (ConnError_Encode _) as [p|]; [|done].
  destruct (write s _ _) as [e st1] eqn:Ew. apply write_logs in Ew.
  destruct e; [done|]. etrans; [exact Ew|by apply logs_same].
Qed.

Lemma onReadError_logs s err st : logs s st (onReadError s err st).
Proof.
  destruct err as [| | |typ l|[]]; cbn [onReadError]; try case_match; try done;
    try (by apply logs_logf); apply fail_logs; visible_parts.
Qed.

Lemma onServeError_logs s err st : logs s st (onServeError s err st).
Proof.
  destruct err as [| |e]; cbn [onServeError]; try (by apply logs_logf).
  apply (logs_after_logf s (LogBody (bodyError e))); [done|]. apply fail_logs. visible_parts.
Qed.

Section Handle.
Context {FS : Type} `{Filesystem FS} (fs : FS) (s : Server).

(** An error about a file is about an allowed path, so one without control
    characters. *)
Lemma open_error_visible r p handles e handles' :
  open fs r p handles = (Err e, handles') -> e <> errBadPath -> Forall visible p.
Proof.
  unfold open, open_target. destruct (checkPath_result p) as [E|E]; rewrite E.
  - intros _ _. apply checkPath_Ok in E as (_ & _ & Hb). eapply Forall_impl; [exact Hb|].
    by intros c (? & ? & _).
  - by intros [= <- _].
Qed.

Lemma serveRequest_logs f st err st' : serveRequest IsPrint fs s f st = (err, st') -> logs s st st'.
Proof.
  unfold serveRequest. destruct (wrong_flags (fr_flags f)); [apply reject_logs|].
  destruct (DecodeRequest (fr_payload f)) as [req|]; [|apply reject_logs].
  destruct (open fs (s_res s) (req_path req) (h_handles st)) as [[[file info]|e] handles] eqn:Eo.
  - destruct (sendFile s _ _ _ _ (set_handles handles st)) as [[n serr] st1] eqn:Ef. apply sendFile_logs in Ef.
    intros [= <- <-]. etrans; [exact Ef|]. destruct serr; [by apply logs_same|].
    eapply (logs_after_logf s (LogGet200 _ n)); [by eexists|]. by apply logs_same.
  - assert (Hh : logs s st (set_handles handles st)) by (by apply logs_same).
    destruct e as [| |oe].
    + intros Hr. etrans; [exact Hh|by eapply reject_logs].
    + intros Hr. apply sendResponse_logs in Hr. etrans; [exact Hh|].
      by eapply logs_after_logf; [|exact Hr]; eexists.
    + intros Hr. apply sendResponse_logs in Hr. etrans; [exact Hh|].
      eapply logs_after_logf; [|exact Hr]. split; [done|]. by eapply open_error_visible.
Qed.

Lemma serve_frame_logs f st go_on st' : serve_frame IsPrint fs s f st = (go_on, st') -> logs s st st'.
Proof.
  unfold serve_frame. repeat case_match; intros [= <- <-]; try done; try (by apply logs_logf).
  - etrans; [by eapply serveRequest_logs|apply onServeError_logs].
  - by eapply serveRequest_logs.
  - etrans; [by eapply sendResponse_logs|by apply logs_logf].
  - by eapply sendResponse_logs.
Qed.

Lemma handle_loop_logs fuel st st' : handle_loop IsPrint fs s fuel st = Some st' -> logs s st st'.
Proof.
  revert st. induction fuel as [|fuel IH]; intros st; cbn [handle_loop]; [done|].
  unfold next_frame. destruct (Read _) as [r br].
  assert (Hn : logs s st (set_br br st)) by (by apply logs_same).
  destruct r as [f|e].
  - destruct (serve_frame IsPrint fs s f (set_br br st)) as [go_on st1] eqn:Ef. apply serve_frame_logs in Ef.
    destruct go_on; [|intros [= <-]]; [|by etrans]. intros Hl. etrans; [exact Hn|]. etrans; [exact Ef|by apply IH].
  - intros [= <-]. etrans; [exact Hn|apply onReadError_logs].
Qed.
End Handle.

(** ** The log of a connection *)

Context (io_visible : forall e, Forall visible (io_text e)).
Context (os_visible : forall about e, Forall visible about -> Forall visible (os_text about e)).
Context (peer_visible : Forall visible peer).

Lemma printable_visible p : Forall visible (printable IsPrint p).
Proof. apply fmt_q_visible. Qed.

Lemma harmless_visible l :
  harmless l \/ l = LogConnected \/ l = LogDisconnected -> Forall visible (line_text l).
Proof.
  assert (Hserve : forall e, Forall visible (serve_text e)).
  { intros []; cbn [serve_text]; visible_parts; auto using encode_text_visible, frame_text_visible. }
  intros [Hl|[-> | ->]]; [|cbn [line_text]; by visible_parts..].
  destruct l as [| |why|path|path about e|path n|e| | | | |e|e|e|msg]; cbn [harmless line_text] in *; try done;
    visible_parts; auto using frame_text_visible.
  - destruct why; cbn [why_text]; visible_parts. apply malformed_text_visible.
  - destruct Hl as [p ->]. apply printable_visible.
  - destruct Hl as [-> _]. apply printable_visible.
  - destruct e; cbn [resolve_text]; visible_parts. apply os_visible, Hl.
  - destruct Hl as [p ->]. apply printable_visible.
Qed.

(** The log of a connection, whatever the client and the network do:
    with a logger, one line saying the client connected, one saying it
    disconnected, in between only other lines, and no control character in
    any of them -- not in the paths, header names and methods it quotes, and
    not in the errors of the file system, because those are about paths that
    were allowed.  Without a logger nothing is logged. *)
Theorem log_is_harmless {FS} `{Filesystem FS} (fs : FS) s c handles log st' :
  handle IsPrint fs s c handles log = Some st' ->
  if s_logger s then
    exists lines, h_log st' = log ++ [LogConnected] ++ lines ++ [LogDisconnected] /\
      LogConnected ∉ lines /\ LogDisconnected ∉ lines /\
      Forall (fun l => Forall visible (line_text l)) ([LogConnected] ++ lines ++ [LogDisconnected])
  else h_log st' = log.
Proof.
  unfold handle. destruct (handle_loop _ _ _ _ _) as [st1|] eqn:El; [|done]. cbn [mbind option_bind].
  intros [= <-]. apply handle_loop_logs in El as (lines & E & Hf & Hoff). unfold logf in *.
  destruct (s_logger s); cbn [h_log set_conn set_br] in *; [|by rewrite E, Hoff, app_nil_r].
  exists lines. rewrite E, <- !app_assoc. split; [done|].
  rewrite Forall_forall in Hf. split; [by intros ?%Hf|]. split; [by intros ?%Hf|].
  apply Forall_forall. intros l Hl. apply harmless_visible.
  rewrite !elem_of_app, !list_elem_of_singleton in Hl. destruct Hl as [->|[?| ->]]; auto.
Qed.
End Log.

(** A tree with a file that cannot be opened, and a client that asks for a
    missing path with quotes, for one with an escape sequence, for that file,
    and then ends in the middle of a frame. *)
Definition locked_fs : memfs :=
  MkMemfs (<[ [str "srv"; str "www"; str "locked"] := Unreadable ]> (nodes sample_fs)).

Definition hostile_frames : list Frame :=
  [get_frame 1 (str "/no 'such' file"); get_frame 2 (str "/" ++ [x1b] ++ str "[2J"); get_frame 3 (str "/locked")].

Definition hostile_conn : conn :=
  with_in [(Second, wires hostile_frames ++ [x00; x00; x00])] sample_conn.

Definition repeats_path (about : bytes) (e : oserr) : bytes := str "open " ++ about ++ str ": no access".
Definition plain_io (e : ioerr) : bytes := str "i/o error".

Definition hostile_run : option hstate := handle no_rune locked_fs sample_server hostile_conn 0 [].

Definition hostile_line (l : logline) : bytes := line_text no_rune plain_io repeats_path (str "[::1]:80") l.

Example hostile_log :
  (fun st => hostile_line <$> h_log st) <$> hostile_run = Some
    [str "[::1]:80 connected";
     str "GET " ++ [dquote] ++ str "/no 'such' file" ++ [dquote] ++ str " -> 404";
     str "[::1]:80: bad request: path not allowed";
     str "GET " ++ [dquote] ++ str "/locked" ++ [dquote] ++ str " -> 500: open /locked: no access";
     str "[::1]:80: connection ended mid-frame";
     str "[::1]:80 disconnected"].
Proof. vm_compute. reflexivity. Qed.

Lemma log_is_harmless_witness :
  exists st' lines, hostile_run = Some st' /\ h_log st' = [] ++ [LogConnected] ++ lines ++ [LogDisconnected] /\
    LogConnected ∉ lines /\ LogDisconnected ∉ lines /\
    Forall (fun l => Forall visible (hostile_line l)) ([LogConnected] ++ lines ++ [LogDisconnected]).
Proof.
  assert (Hrun : match hostile_run with Some _ => True | None => False end) by (vm_compute; exact I).
  unfold hostile_run, hostile_line in *.
  destruct (handle no_rune locked_fs sample_server hostile_conn 0 []) as [st'|] eqn:Eh; [|destruct Hrun].
  assert (H := log_is_harmless no_rune plain_io repeats_path (str "[::1]:80")
    ltac:(intros e; apply visible_literal; reflexivity)
    ltac:(intros about e Ha; unfold repeats_path; visible_parts; exact Ha)
    ltac:(apply visible_literal; reflexivity) locked_fs sample_server hostile_conn 0 [] st' Eh).
  destruct H as (lines & H). exists st', lines. split; [reflexivity|exact H].
Defined.
