(* ===== verification/BcurlProps.v ===== *)
(** * Properties of bcurl

    That [-v] changes nothing but standard error, what header options can be
    sent, what the exit status means, and what the dump shows. *)

From S2P Require Import Prelude GoIO Frame Utf8 Headers Messages Conn Net Paths Addr Flags.
From S2P Require Import Client ClientProofs ClientProps Wrapped Tap Dump TappedClient Bcurl.

(** ** Verbose or not *)

(** Flags that differ at most in [-v]. *)
Definition same_headers (o o' : Flags) : Prop := fl_headers o = fl_headers o'.

(** Parsing does not look at the values. *)
Lemma Parse_same_headers args o o' :
  same_headers o o' ->
  match Parse formal args o, Parse formal args o' with
  | Ok (a, rest), Ok (a', rest') => same_headers a a' /\ rest = rest'
  | Err e, Err e' => e = e'
  | _, _ => False
  end.
Proof.
  apply Parse_related; unfold formal, same_headers; intros name set v x y Ef HR;
    repeat case_decide; simplify_eq; try done.
  rewrite HR. by destruct (headerFlags_Set v (fl_headers y)).
Qed.

Section Verbose.
Context {W E : Type} `{Writer W, Writer E}.
Context (dial : bytes -> Z -> result bytes conn).
Context (flag_text : flag_error -> bytes) (client_text : client_error -> bytes).

Definition alike (x y : outcome W E) : Prop :=
  oc_status x = oc_status y /\ oc_stdout x = oc_stdout y /\ oc_conn x = oc_conn y.

(** The exchange on the tapped connection and on the bare one. *)
Lemma exchange_tapped co path headers (stdout : W) (stderr : E) :
  agree (rel_client (tapping stderr (wr_out co) (pending co)))
    (exchange client_text (Wrap (NewTap stderr) co) path headers stdout)
    (exchange client_text co path headers stdout).
Proof.
  unfold exchange. both (tapped_Get stderr co path stdout headers).
  destruct p0 as [[res|e] w]; [|by split]. by destruct (400 <=? res_Status res).
Qed.

(** Everything a verbose fetch leaves, from the one that is not. *)
Lemma fetch_verbose hs co path (stdout : W) (stderr : E) :
  let v := fetch client_text (MkFlags true hs) co path stdout stderr in
  alike v (fetch client_text (MkFlags false hs) co path stdout stderr) /\
  exists es text co', oc_conn v = Some co' /\
    oc_stderr v = t_out (tap_out (Flush (tell text (watched stderr es)))) /\
    wr_out co' = wr_out co ++ went_out es /\ pending co = came_in es ++ pending co'.
Proof.
  intros v. unfold v, fetch. cbn [fl_verbose fl_headers]. both (exchange_tapped co path hs stdout stderr).
  destruct p0 as [[status text] w].
  destruct (rel_conn _ _ _ HR) as (Ec & es & Et & Ho & Hi).
  split.
  - split; [done|]. split; [done|]. cbn [oc_conn]. f_equal. unfold Client_Close, cl_conn at 1. cbn.
    by rewrite <- Ec.
  - eexists es, text, _. split; [done|]. cbn [oc_stderr]. split; [by rewrite <- Et|]. cbn.
    rewrite <- Ec. done.
Qed.

Lemma run_same_headers o o' co path (stdout : W) (stderr : E) :
  same_headers o o' ->
  alike (fetch client_text o co path stdout stderr) (fetch client_text o' co path stdout stderr).
Proof.
  destruct o as [b hs], o' as [b' hs']. intros [= <-].
  destruct (fetch_verbose hs co path stdout stderr) as [(A1 & A2 & A3) _].
  by destruct b, b'; repeat split.
Qed.
End Verbose.

(** (C20) Watching changes nothing: with [-v] in front of any arguments, bcurl
    exits with the same status, writes the same to standard output, and does
    exactly the same to the network, as without.  The dump on standard error
    is all that is different. *)
Theorem verbose_changes_nothing {W E} `{Writer W, Writer E} dial flag_text client_text args
    (stdout : W) (stderr : E) :
  let quiet := run dial flag_text client_text args stdout stderr in
  let verbose := run dial flag_text client_text (str "-v" :: args) stdout stderr in
  oc_status verbose = oc_status quiet /\ oc_stdout verbose = oc_stdout quiet /\
  oc_conn verbose = oc_conn quiet.
Proof.
  unfold run. change (Parse formal (str "-v" :: args) no_flags) with (Parse formal args (MkFlags true [])).
  pose proof (Parse_same_headers args (MkFlags true []) no_flags eq_refl) as Hp.
  destruct (Parse formal args (MkFlags true [])) as [[o rest]|e],
    (Parse formal args no_flags) as [[o' rest']|e']; try done.
  destruct Hp as [Ho <-]. destruct rest as [|target [|]]; try done.
  destruct (parseTarget target) as [[addr path]|]; [|done].
  destruct (dial addr dialTimeout) as [co|text]; [|done].
  by apply run_same_headers.
Qed.

(** ** Header options *)

Lemma headerFlags_Set_ok v hs hs' :
  headerFlags_Set v hs = Ok hs' -> exists h, hs' = hs ++ [h] /\ header_ok h.
Proof.
  unfold headerFlags_Set. destruct (if 0 <=? _ then _ else _) as [name value].
  destruct (negb _ || _); [done|]. set (h := NewHeader _ _).
  destruct (Request_Encode _) as [p|] eqn:Ee; [|done]. intros [= <-]. exists h. split; [done|].
  apply Request_Encode_Ok in Ee as (_ & _ & _ & _ & Hok & _). exact (proj1 (Forall_singleton _ _) Hok).
Qed.

(** Header options that the command line takes can be sent: after any
    arguments bcurl accepts, the request for a path can be built exactly when
    the path is valid UTF-8 of 1 to 4096 bytes, there are at most 255 headers
    and all of it fits into a frame -- never because of the name or the value
    of a header -- and then it decodes to the same path and headers. *)
Theorem options_can_be_sent args o rest path :
  Parse formal args no_flags = Ok (o, rest) ->
  let r := get_request path (fl_headers o) in
  (is_ok (Request_Encode r) = true <->
     1 <= len path <= MaxPathLen /\ utf8_valid path = true /\ len (fl_headers o) <= 255 /\
     len (request_bytes r) <= maxFramePayload) /\
  (forall payload, Request_Encode r = Ok payload -> DecodeRequest payload = Ok r).
Proof.
  intros Hp r. assert (Hok : Forall header_ok (fl_headers o)).
  { apply (Parse_invariant formal (fun o => Forall header_ok (fl_headers o))) in Hp; [done|..|by constructor];
      unfold formal; intros name set v x; [|intros x']; intros Ef Hx; repeat case_decide; simplify_eq; try done.
    destruct (headerFlags_Set v (fl_headers x)) as [hs|] eqn:Es; [|done]. intros [= <-]. cbn.
    apply headerFlags_Set_ok in Es as (h & -> & Hh). apply Forall_app_2; [exact Hx|by apply Forall_singleton]. }
  split.
  - destruct (Request_Encode r) as [payload|e] eqn:Ee; cbn [is_ok].
    + apply Request_Encode_Ok in Ee as (_ & ? & ? & ? & _ & -> & ?). done.
    + split; [done|]. intros (? & ? & ? & ?).
      assert (Request_Encode r = Ok (request_bytes r)); [by apply Request_Encode_Ok|congruence].
  - intros payload Ee. apply Request_Encode_Ok in Ee as (Hm & Hpl & Hu & Hl & Hh & -> & _).
    by apply DecodeRequest_wire, request_bytes_wire.
Qed.

(** ** Exit statuses *)

(** A connection as [dial] returns it. *)
Definition fresh (co : conn) : Prop := wr_out co = [] /\ len (pending co) < 2 ^ 63.

(** One exchange on stream 1, as the network saw it: the request written and
    nothing else, and the response and its body at the front of what came. *)
Definition exchanged (path : bytes) (headers : list Header) (co co' : conn) (resp : Response) (b : bytes) : Prop :=
  exists payload frames rest,
    Request_Encode (get_request path headers) = Ok payload /\
    wr_out co' = wire 0 (request_frame 1 payload) /\
    (forall fin, reads_list fin (pending co) frames rest) /\
    response_frames 1 frames resp b /\ lengths_agree (rsp_headers resp) (len b) /\
    c_closed co' = true.

Section Statuses.
Context {W E : Type} `{WriterOk W, Writer E} `{!WriterFull W}.
Context (dial : bytes -> Z -> result bytes conn).
Context (flag_text : flag_error -> bytes) (client_text : client_error -> bytes).

Lemma fetch_sound o co path (stdout : W) (stderr : E) :
  let oc := fetch client_text o co path stdout stderr in
  fresh co -> oc_status oc <= 1 ->
  exists co' resp b,
    oc_conn oc = Some co' /\ exchanged path (fl_headers o) co co' resp b /\
    wr_out (oc_stdout oc) = wr_out stdout ++ b /\
    oc_status oc = (if 400 <=? rsp_status resp then 1 else 0).
Proof.
  intros oc [Hout Hbig] Hst.
  destruct (run_same_headers client_text o (MkFlags false (fl_headers o)) co path stdout stderr eq_refl)
    as (A1 & A2 & A3).
  fold oc in A1, A2, A3. rewrite A1, A2, A3. rewrite A1 in Hst. clear A1 A2 A3.
  unfold fetch, exchange in *. cbn [fl_verbose fl_headers] in *.
  destruct (Client.Get path stdout (fl_headers o) (New co)) as [[[res|e] w] c] eqn:EG; [|cbn in Hst; lia].
  apply Get_sound in EG as (payload & frames & resp & b & He & Ho & Hl & Hr & Hlen & -> & Hw & _);
    [|split; done|done|exact Hbig].
  cbn [res_Status]. exists (Close (cl_conn c)), resp, b.
  assert (Hex : exchanged path (fl_headers o) co (Close (cl_conn c)) resp b).
  { exists payload, frames, (cl_input c). split; [done|]. split.
    - change (wr_out (Close (cl_conn c))) with (wr_out (cl_conn c)). rewrite Ho.
      change (cl_conn (New co)) with co. by rewrite Hout.
    - done. }
  by destruct (400 <=? rsp_status resp).
Qed.
End Statuses.

(** (C19) The exit status can be trusted: whatever the arguments and the
    network, bcurl exits with 0 or 1 only when its arguments were a target it
    takes and flags it knows, a connection was made to that target, exactly
    one request for its path with the given headers went out on it, and the
    bytes that came back hold exactly one response, whose body -- of the
    length any content-length header states -- is what standard output was
    given; and then the status is 0 just when the response's is below 400.
    The connection is closed. *)
Theorem exit_status_means_delivered {W E} `{WriterOk W, Writer E} `{!WriterFull W}
    dial flag_text client_text args (stdout : W) (stderr : E) :
  let oc := run dial flag_text client_text args stdout stderr in
  (forall addr co, dial addr dialTimeout = Ok co -> fresh co) ->
  oc_status oc <= 1 ->
  exists o target addr path co co' resp b,
    Parse formal args no_flags = Ok (o, [target]) /\ parseTarget target = Some (addr, path) /\
    dial addr dialTimeout = Ok co /\ oc_conn oc = Some co' /\
    exchanged path (fl_headers o) co co' resp b /\
    wr_out (oc_stdout oc) = wr_out stdout ++ b /\
    oc_status oc = (if 400 <=? rsp_status resp then 1 else 0).
Proof.
  intros oc Hfresh Hst. unfold oc, run in *.
  destruct (Parse formal args no_flags) as [[o [|target [|]]]|e] eqn:Ea; try (cbn in Hst; lia).
  destruct (parseTarget target) as [[addr path]|] eqn:Et; [|cbn in Hst; lia].
  destruct (dial addr dialTimeout) as [co|text] eqn:Ed; [|cbn in Hst; lia].
  destruct (fetch_sound client_text o co path stdout stderr (Hfresh _ _ Ed) Hst)
    as (co' & resp & b & H1' & H2' & H3' & H4').
  by exists o, target, addr, path, co, co', resp, b.
Qed.

(** ** What the dump shows *)

Section Printed.
Context {E : Type} `{WriterReliable E}.

Lemma flush_text f (t : tapout E) : exists tail, text (snd (flush f t)) = text t ++ tail.
Proof.
  unfold flush. destruct (0 <? len (f_buf f)); [eexists; apply printRaw_text|]. exists []. by rewrite app_nil_r.
Qed.

(** A message and the last lines come after the dump. *)
Lemma told_text said (t : Tap E) :
  exists tail, text (tap_out (Flush (tell said t))) = text (tap_out t) ++ tail.
Proof.
  assert (Hs : exists tail, text (tap_out (tell said t)) = text (tap_out t) ++ tail).
  { unfold tell, say, text. cbn [tap_out t_out]. destruct said as [s|].
    - exists s. exact (print_text s (tap_out t)).
    - exists []. by rewrite app_nil_r. }
  destruct Hs as [tl0 Hs]. unfold Flush.
  destruct (flush (tap_sent (tell said t)) (tap_out (tell said t))) as [s o] eqn:E1.
  destruct (flush (tap_recv (tell said t)) o) as [r o'] eqn:E2. cbn [tap_out].
  destruct (flush_text (tap_sent (tell said t)) (tap_out (tell said t))) as [tl1 F1].
  destruct (flush_text (tap_recv (tell said t)) o) as [tl2 F2].
  rewrite E1 in F1. rewrite E2 in F2. cbn [snd] in F1, F2.
  exists (tl0 ++ tl1 ++ tl2). by rewrite F2, F1, Hs, <- !app_assoc.
Qed.
End Printed.

(** A frame on the wire is one for the tap. *)
Lemma wire_raws f :
  wf_frame f -> len (fr_payload f) <= MaxPayload ->
  exists raws, Forall raw_ok raws /\ wire 0 f = List.concat (raw_bytes <$> raws) ++ [].
Proof.
  intros Hw Hl. exists [MkRaw (fr_type f) (fr_flags f) 0 (fr_stream f) (fr_payload f)]. split.
  - apply Forall_singleton. split; [done|]. cbn. split; [exact Hw|lia].
  - cbn [fmap list_fmap List.concat]. by rewrite !app_nil_r.
Qed.

(** With [-v] standard error begins with a complete picture of the
    connection: after an exchange that ended with status 0 or 1, when the
    peer's bytes are frames within the limit, a reader of that text alone
    finds exactly the request that was written and exactly the bytes that
    were received, up to the end of a frame still incomplete. *)
Theorem verbose_shows_the_exchange {W E} `{WriterOk W, WriterReliable E} `{!WriterFull W}
    client_text hs co path (stdout : W) (stderr : E) :
  let oc := fetch client_text (MkFlags true hs) co path stdout stderr in
  fresh co -> framed (pending co) -> wr_out stderr = [] -> oc_status oc <= 1 ->
  exists dump tail held co',
    oc_conn oc = Some co' /\ wr_out (oc_stderr oc) = dump ++ tail /\
    dumped (str "-->") dump = wr_out co' /\
    pending co = dumped (str "<--") dump ++ held ++ pending co' /\
    len held < HeaderSize + MaxPayload.
Proof.
  intros oc Hfresh Hframed Herr Hst.
  destruct (fetch_sound client_text (MkFlags true hs) co path stdout stderr Hfresh Hst)
    as (co1 & resp & b & Hc1 & (payload & frames & rest & He & Ho & _) & _ & _).
  destruct (fetch_verbose client_text hs co path stdout stderr) as (_ & es & said & co' & Hc & Ht & Hout & Hin).
  fold oc in Hc, Ht, Hc1. rewrite Hc in Hc1. injection Hc1 as <-.
  destruct Hfresh as [Hnone _]. rewrite Hnone, app_nil_l in Hout.
  assert (Hsent : went_out es = wire 0 (request_frame 1 payload)) by congruence.
  apply Request_Encode_Ok in He as (_ & _ & _ & _ & _ & _ & Hl).
  destruct (wire_raws (request_frame 1 payload)) as (raws & Hraws & Hwire); [unfold wf_frame; cbn; lia|exact Hl|].
  rewrite <- Hsent in Hwire. assert (Hnil : incomplete []) by (by left).
  assert (Hrq : framed (went_out es)) by (by exists raws, []).
  assert (Hrs : framed (came_in es)) by (rewrite Hin in Hframed; by eapply framed_prefix).
  destruct (watched_unbroken stderr es Hrq Hrs) as [B1 B2].
  destruct (watched_ok stderr es Herr) as [_ Wo Wi].
  apply accounted_unbroken in Wo as [Wo _], Wi as [Wi Wis]; [|done..].
  destruct (watch_arrows stderr es) as [A1 A2]. rewrite A1 in Wo. rewrite A2 in Wi.
  destruct (told_text said (watched stderr es)) as [tail Htail].
  exists (text (tap_out (watched stderr es))), tail, (f_buf (tap_recv (watched stderr es))), co'.
  split; [done|]. split; [by rewrite Ht|]. split; [|split; [|done]].
  - rewrite Ho, <- Hsent, <- Wo. symmetry.
    rewrite (watched_held stderr es raws [] Hraws Hnil Hwire). apply app_nil_r.
  - by rewrite Hin, <- Wi, <- app_assoc.
Qed.

(** ** Running it *)

Definition sample_dial (addr : bytes) (timeout : Z) : result bytes conn :=
  if decide (addr = str "localhost:9000") then Ok (client_conn answer_bytes) else Err (str "connection refused").

Definition no_text {A} (e : A) : bytes := str "error".

Definition sample_args : list bytes := [str "-H"; str "X-Demo: 1"; str "localhost:9000/hello.txt"].

Example sample_runs :
  let result args := let oc := run sample_dial no_text no_text args (MkBuffer []) (MkBuffer []) in
    (oc_status oc, buf_bytes (oc_stdout oc)) in
  result sample_args = (0, str "hello") /\ result [str "localhost:9001/"] = (3, []) /\
  result [] = (2, []) /\ result [str "-x"; str "localhost:9000"] = (2, []) /\
  result [str "-H"; str "no colon"; str "localhost:9000"] = (2, []) /\ result [str "localhost"] = (2, []).
Proof. vm_compute. repeat split. Qed.

Lemma exit_status_means_delivered_witness :
  let oc := run sample_dial no_text no_text sample_args (MkBuffer []) (MkBuffer []) in
  exists o target addr path co co' resp b,
    Parse formal sample_args no_flags = Ok (o, [target]) /\ parseTarget target = Some (addr, path) /\
    sample_dial addr dialTimeout = Ok co /\ oc_conn oc = Some co' /\
    exchanged path (fl_headers o) co co' resp b /\
    wr_out (oc_stdout oc) = wr_out (MkBuffer []) ++ b /\
    oc_status oc = (if 400 <=? rsp_status resp then 1 else 0).
Proof.
  apply (exit_status_means_delivered sample_dial no_text no_text sample_args (MkBuffer []) (MkBuffer [])).
  - intros addr co. unfold sample_dial. destruct (decide _); [|discriminate]. intros [= <-].
    split; vm_compute; reflexivity.
  - vm_compute. discriminate.
Defined.

Definition whole_answer : bytes := wires [ok_response 1; body_part 1 x00 (str "he"); body_part 1 x01 (str "llo")].

Lemma verbose_shows_the_exchange_witness :
  let co := client_conn whole_answer in
  let oc := fetch no_text (MkFlags true []) co (str "/hello.txt") (MkBuffer []) (MkBuffer []) in
  exists dump tail held co',
    oc_conn oc = Some co' /\ wr_out (oc_stderr oc) = dump ++ tail /\
    dumped (str "-->") dump = wr_out co' /\
    pending co = dumped (str "<--") dump ++ held ++ pending co' /\
    len held < HeaderSize + MaxPayload.
Proof.
  apply (verbose_shows_the_exchange no_text [] (client_conn whole_answer) (str "/hello.txt") (MkBuffer []) (MkBuffer [])).
  - split; vm_compute; reflexivity.
  - assert (Hw : exists raws, Forall raw_ok raws /\ whole_answer = List.concat (raw_bytes <$> raws) ++ []).
    { exists ((fun f => MkRaw (fr_type f) (fr_flags f) 0 (fr_stream f) (fr_payload f)) <$>
        [ok_response 1; body_part 1 x00 (str "he"); body_part 1 x01 (str "llo")]).
      split; [|vm_compute; reflexivity].
      repeat (apply Forall_cons; split; [by vm_compute|]). by apply Forall_nil. }
    destruct Hw as (raws & Hr & E). exists raws, []. split; [exact Hr|]. split; [by left|].
    rewrite <- E. vm_compute. reflexivity.
  - reflexivity.
  - vm_compute. discriminate.
Defined.

Lemma options_can_be_sent_witness :
  let r := get_request (str "/a") [NewHeader (str "x-demo") (str "1")] in
  (is_ok (Request_Encode r) = true <->
     1 <= len (str "/a") <= MaxPathLen /\ utf8_valid (str "/a") = true /\
     len [NewHeader (str "x-demo") (str "1")] <= 255 /\ len (request_bytes r) <= maxFramePayload) /\
  (forall payload, Request_Encode r = Ok payload -> DecodeRequest payload = Ok r).
Proof.
  apply (options_can_be_sent sample_args (MkFlags false [NewHeader (str "x-demo") (str "1")])
    [str "localhost:9000/hello.txt"] (str "/a")).
  vm_compute. reflexivity.
Defined.
