(* ===== verification/BcurlEndToEnd.v ===== *)
(** * bcurl against the server

    The composition of EndToEnd.v at the level of the program: a run of bcurl
    whose connection carries the bytes [Server.handle] wrote. *)

From S2P Require Import Prelude GoIO Frame Headers Messages Conn Net Paths OsFs Resolver.
From S2P Require Import Server ServerSpec ServerProofs ServerProps Client ClientProofs ClientProps.
From S2P Require Import EndToEnd Addr Flags Bcurl BcurlProps.

(** One [Get] out of the answers of the server. *)
Lemma get_owed {FS} `{Filesystem FS} (fs : FS) res path payload co cT rest :
  files_sized fs -> Request_Encode (get_request path []) = Ok payload -> whole_file fs res path ->
  reads_list EOF (pending co) (session fs res [request_frame 1 payload] (IOError EOF)) rest ->
  cl_prompt cT (New co) -> len (pending co) < 2 ^ 63 ->
  exists c', Client.Get path (MkBuffer []) [] (New co) =
    ((owed_result fs res path).1, MkBuffer (owed_result fs res path).2, c').
Proof.
  intros Hsized He Hwf Hl HT Hbig.
  assert (Hall : Forall2 (fun path payload => Request_Encode (get_request path []) = Ok payload)
    [path] [payload]) by (by constructor; [|constructor]).
  assert (Hw : Forall (whole_file fs res) [path]) by (by apply Forall_singleton).
  destruct (gets_session fs res Hsized [path] [payload] (New co) cT rest) as (c' & Hg & _); try done.
  cbn [gets] in Hg. destruct (Client.Get path (MkBuffer []) [] (New co)) as [[r [w]] c] eqn:E.
  exists c. cbn [fmap list_fmap buf_bytes] in Hg. injection Hg as E1 _. by rewrite <- E1.
Qed.

(** A run of bcurl whose connection holds the frames of the answer. *)
Lemma run_owed {FS E} `{Filesystem FS} `{Writer E} (fs : FS) res payload rest dial flag_text client_text
    args v target addr path co cT (stderr : E) :
  files_sized fs -> Request_Encode (get_request path []) = Ok payload -> whole_file fs res path ->
  reads_list EOF (pending co) (session fs res [request_frame 1 payload] (IOError EOF)) rest ->
  Parse formal args no_flags = Ok (MkFlags v [], [target]) -> parseTarget target = Some (addr, path) ->
  dial addr dialTimeout = Ok co -> cl_prompt cT (New co) -> len (pending co) < 2 ^ 63 ->
  let oc := run dial flag_text client_text args (MkBuffer []) stderr in
  buf_bytes (oc_stdout oc) = (owed fs res path).2 /\
  oc_status oc = (if 400 <=? rsp_status (owed fs res path).1 then 1 else 0).
Proof.
  intros Hsized He Hwf Hl Hargs Ht Hd HcT Hbig oc.
  destruct (get_owed fs res path payload co cT rest Hsized He Hwf Hl HcT Hbig) as (c' & Hget).
  unfold oc, run. rewrite Hargs, Ht, Hd.
  destruct (run_same_headers client_text (MkFlags v []) (MkFlags false []) co path (MkBuffer []) stderr eq_refl)
    as (-> & -> & _).
  unfold fetch, exchange. cbn [fl_verbose fl_headers]. rewrite Hget. unfold owed_result.
  destruct (owed fs res path) as [resp b]. cbn [fst snd]. cbn [res_Status].
  by destruct (400 <=? rsp_status resp).
Qed.

(** bcurl fetches what bserve serves: for any flags without header
    options, a target bcurl takes, and a path that is a valid request, when
    the network keeps the deadlines and carries the request to the server's
    connection handler and its answer back -- cut anyhow -- bcurl writes to
    standard output exactly the body the document tree owes the path, and
    exits with 0 if the path is a file, with 1 if it is answered 400, 404 or
    500. *)
Theorem bcurl_fetches_what_is_served {FS E} `{Filesystem FS} `{Writer E} IsPrint (fs : FS) s
    payload sc sT handles log st' dial flag_text client_text args v target addr path co cT (stderr : E) :
  files_sized fs -> 0 <= s_writeTimeout s -> 0 <= s_idleTimeout s ->
  Request_Encode (get_request path []) = Ok payload -> whole_file fs (s_res s) path ->
  healthy s sT (MkState (NewReader sc) handles log) ->
  (c_fin sc).2 = EOF -> pending sc = wire 0 (request_frame 1 payload) -> wr_out sc = [] ->
  handle IsPrint fs s sc handles log = Some st' ->
  Parse formal args no_flags = Ok (MkFlags v [], [target]) -> parseTarget target = Some (addr, path) ->
  dial addr dialTimeout = Ok co -> cl_prompt cT (New co) ->
  pending co = wr_out (h_conn st') -> len (pending co) < 2 ^ 63 ->
  let oc := run dial flag_text client_text args (MkBuffer []) stderr in
  buf_bytes (oc_stdout oc) = (owed fs (s_res s) path).2 /\
  oc_status oc = (if 400 <=? rsp_status (owed fs (s_res s) path).1 then 1 else 0).
Proof.
  intros Hsized Hwt Hit He Hwf HT Hfin Hin Hout Hh Hargs Ht Hd HcT Hcin Hbig oc.
  assert (Hall : Forall2 (fun path payload => Request_Encode (get_request path []) = Ok payload)
    [path] [payload]) by (by constructor; [|constructor]).
  destruct (handle_answers fs (s_res s) Hsized IsPrint s [path] [payload] sc sT handles log)
    as (st2 & Hh2 & Ho); try done.
  { rewrite Hin. cbn [requests_from]. rewrite wires_cons. unfold wires. cbn. by rewrite app_nil_r. }
  rewrite Hh in Hh2. injection Hh2 as <-. rewrite Hout, app_nil_l in Ho. rewrite Ho in Hcin.
  apply (run_owed fs (s_res s) payload [] dial flag_text client_text args v target addr path co cT stderr);
    try done.
  rewrite Hcin, <- (app_nil_r (wires _)). apply reads_list_wires.
  apply (session_good fs (s_res s) Hsized 1 [payload] [path]); [done..|by apply Forall_singleton].
Qed.

(** A path of the sample tree, asked for on a network that cuts both ways. *)
Definition bcurl_payload : bytes := request_bytes (get_request (str "/out") []).

Definition bcurl_server_conn : conn := with_in
  [(Second, take 17 (wire 0 (request_frame 1 bcurl_payload)));
   (3 * Second, drop 17 (wire 0 (request_frame 1 bcurl_payload)))] sample_conn.

Lemma bcurl_fetches_what_is_served_witness :
  exists st', handle no_rune sample_fs sample_server bcurl_server_conn 0 [] = Some st' /\
  let oc := run (fun _ _ => Ok (client_conn (wr_out (h_conn st')))) no_text no_text
    [str "-v"; str "localhost:80/out"] (MkBuffer []) (MkBuffer []) in
  buf_bytes (oc_stdout oc) = (owed sample_fs sample_root (str "/out")).2 /\
  oc_status oc = (if 400 <=? rsp_status (owed sample_fs sample_root (str "/out")).1 then 1 else 0).
Proof.
  assert (Hh : healthy sample_server (25 * Second) (MkState (NewReader bcurl_server_conn) 0 [])).
  { split; try done; repeat (apply Forall_cons; split; [by vm_compute|]); by apply Forall_nil. }
  assert (Hw : whole_file sample_fs (s_res sample_server) (str "/out")) by (intros f i E; by vm_compute in E).
  assert (Hout : match handle no_rune sample_fs sample_server bcurl_server_conn 0 [] with
                 | Some st' => len (wr_out (h_conn st')) < 2 ^ 63
                 | None => False end) by (vm_compute; reflexivity).
  destruct (handle no_rune sample_fs sample_server bcurl_server_conn 0 []) as [st'|] eqn:Eh; [|destruct Hout].
  exists st'. split; [reflexivity|].
  apply (bcurl_fetches_what_is_served no_rune sample_fs sample_server bcurl_payload bcurl_server_conn
    (25 * Second) 0 [] st' (fun _ _ => Ok (client_conn (wr_out (h_conn st')))) no_text no_text
    [str "-v"; str "localhost:80/out"] true (str "localhost:80/out") (str "localhost:80") (str "/out")
    (client_conn (wr_out (h_conn st'))) (3 * Second) (MkBuffer [])
    sample_sized ltac:(done) ltac:(done) eq_refl Hw Hh eq_refl
    ltac:(vm_compute; reflexivity) eq_refl Eh ltac:(vm_compute; reflexivity) ltac:(vm_compute; reflexivity)
    eq_refl (client_conn_prompt _) (pending_client_conn _)).
  rewrite pending_client_conn. exact Hout.
Defined.
