(* ===== verification/Bserve.v ===== *)
(** * cmd/bserve

    [main.go]: the arguments, the server and the listener, up to the call of
    [Serve].  What the process does from there on is file BserveProcess.v. *)

From S2P Require Import Prelude GoIO Conn Paths OsFs Resolver Quote Flags Server.
From S2P Require Import Tap.

(** How a run of the program goes on. *)
Inductive started : Type :=
  | Exited (status : Z)
  | Serving (srv : Server).

Section Run.
Context {FS W E : Type} `{Filesystem FS, Writer W, Writer E}.
Context (fs : FS) (cwd : result oserr bytes) (IsPrint : Z -> bool).
Context (listen : bytes -> result bytes bytes).     (** the listener's address, or the text of the error *)
Context (root_text : root_error -> bytes).          (** the text of an error of [server.New] *)

Definition report (text : bytes) (stderr : E) : E := Fprint (text ++ [newline]) stderr.

Definition config (root : bytes) : Config := MkConfig root 0 0 true.

Definition run (args : list bytes) (stdout : W) (stderr : E) : started * W * E :=
  match args with
  | [root; arg] =>
    let invalid :=
      (Exited 2, stdout, report (str "bserve: " ++ Quote IsPrint arg ++
        str " is not a valid port (use 0-65535; 0 picks a free one)") stderr) in
    match Atoi arg with
    | None => invalid
    | Some port =>
      if (port <? 0) || (65535 <? port) then invalid
      else
        match New fs cwd (config root) with
        | Err e => (Exited 1, stdout, report (str "bserve: " ++ root_text e) stderr)
        | Ok srv =>
          match listen ([x3a] ++ FormatInt port) with
          | Err text => (Exited 1, stdout, report (str "bserve: " ++ text) stderr)
          | Ok addr =>
            (Serving srv,
             Fprint (str "listening on " ++ addr ++ str ", serving " ++ root ++ [newline]) stdout, stderr)
          end
        end
    end
  | _ => (Exited 2, stdout, report (str "usage: bserve <root> <port>") stderr)
  end.
End Run.

(** ** Decimal arguments *)

(** The texts [Atoi] reads, and their numbers. *)
Inductive spells : bytes -> Z -> Prop :=
  | spells_bare s : s <> [] -> forallb is_digit s = true -> decimal s < 2 ^ 63 -> spells s (decimal s)
  | spells_plus s : s <> [] -> forallb is_digit s = true -> decimal s < 2 ^ 63 -> spells (plus :: s) (decimal s)
  | spells_minus s : s <> [] -> forallb is_digit s = true -> decimal s <= 2 ^ 63 -> spells (minus :: s) (- decimal s).

Lemma digit_value_ten c d : digit_value c = Some d -> (10 <=? d) = negb (is_digit c).
Proof.
  unfold digit_value, is_digit, is_letter. change (bz x30) with 48. change (bz x39) with 57.
  destruct (Z.leb_spec 48 (bz c)), (Z.leb_spec (bz c) 57); cbn [andb negb];
    try (intros [= <-]; apply Z.leb_gt; lia);
    (destruct (Z.leb_spec 97 (lower c)); cbn [andb]; [|done]);
    (destruct (lower c <=? 0x7A); [|done]); intros [= <-]; apply Z.leb_le; lia.
Qed.

Lemma parse_digits_ten n s :
  parse_digits false 10 n s =
    if forallb is_digit s then Some (foldl (fun acc b => acc * 10 + (bz b - 48)) n s) else None.
Proof.
  revert n. induction s as [|c s IH]; intros n; cbn [parse_digits forallb]; [done|].
  rewrite andb_false_r. destruct (is_digit c) eqn:Ed; cbn [andb].
  - unfold digit_value at 1. rewrite Ed.
    assert (Hd : digit_value c = Some (bz c - 0x30)) by (unfold digit_value; by rewrite Ed).
    rewrite (digit_value_ten c _ Hd), Ed. cbn [negb]. by rewrite IH.
  - destruct (digit_value c) as [d|] eqn:Hd; [|done]. by rewrite (digit_value_ten c d Hd), Ed.
Qed.

Lemma ParseUint_ten s n :
  ParseUint false s = Some n <-> s <> [] /\ forallb is_digit s = true /\ n = decimal s.
Proof.
  unfold ParseUint. destruct s as [|c s]; [split; [done|by intros [? _]]|].
  rewrite (proj2 (Z.eqb_neq _ _)) by (rewrite len_cons; pose proof (len_nonneg s); lia).
  rewrite parse_digits_ten. destruct (forallb is_digit (c :: s)); cbn [andb].
  - split; [by intros [= <-]|by intros (_ & _ & ->)].
  - split; [done|by intros (_ & ? & _)].
Qed.

Lemma decimal_nonneg s : forallb is_digit s = true -> 0 <= decimal s.
Proof.
  induction s as [|c s IH] using rev_ind; [done|]. rewrite forallb_app, andb_true_iff. intros [Hs Hc].
  rewrite decimal_app. cbn in Hc. rewrite andb_true_r in Hc. unfold is_digit in Hc.
  apply andb_true_iff in Hc as [Hc _]. apply Z.leb_le in Hc. change (bz x30) with 48 in Hc.
  specialize (IH Hs). lia.
Qed.

Lemma Atoi_spells s n : Atoi s = Some n <-> spells s n.
Proof.
  unfold Atoi, ParseInt64. split.
  - destruct s as [|c s]; [done|].
    destruct (byte_eqb c plus) eqn:Ep; [|destruct (byte_eqb c minus) eqn:Em].
    + apply byte_eqb_eq in Ep as ->. destruct (ParseUint false s) as [un|] eqn:E; [|done].
      apply ParseUint_ten in E as (? & ? & ->). destruct (Z.leb_spec (2 ^ 63) (decimal s)); [done|].
      intros [= <-]. by apply spells_plus.
    + apply byte_eqb_eq in Em as ->. destruct (ParseUint false s) as [un|] eqn:E; [|done].
      apply ParseUint_ten in E as (? & ? & ->). destruct (Z.ltb_spec (2 ^ 63) (decimal s)); [done|].
      intros [= <-]. by apply spells_minus.
    + destruct (ParseUint false (c :: s)) as [un|] eqn:E; [|done].
      apply ParseUint_ten in E as (? & ? & ->). destruct (Z.leb_spec (2 ^ 63) (decimal (c :: s))); [done|].
      intros [= <-]. by apply spells_bare.
  - intros [s' Hne Hd Hlt|s' Hne Hd Hlt|s' Hne Hd Hle].
    + destruct s' as [|c s']; [done|]. cbn in Hd. apply andb_true_iff in Hd as Hd'. destruct Hd' as [Hc _].
      assert (byte_eqb c plus = false /\ byte_eqb c minus = false) as [-> ->].
      { split; (destruct (byte_eqb c _) eqn:E; [|done]); apply byte_eqb_eq in E; subst c; done. }
      rewrite (proj2 (ParseUint_ten (c :: s') (decimal (c :: s')))) by done.
      by rewrite (proj2 (Z.leb_gt _ _)).
    + change (byte_eqb plus plus) with true. cbn iota.
      rewrite (proj2 (ParseUint_ten s' (decimal s'))) by done. by rewrite (proj2 (Z.leb_gt _ _)).
    + change (byte_eqb minus plus) with false. change (byte_eqb minus minus) with true. cbn iota.
      rewrite (proj2 (ParseUint_ten s' (decimal s'))) by done. by rewrite (proj2 (Z.ltb_ge _ _)).
Qed.

(** The server [run] serves with has the default timeouts. *)
Lemma run_server {FS W E} `{Filesystem FS, Writer W, Writer E} (fs : FS) cwd IsPrint listen root_text
    args (stdout stdout' : W) (stderr stderr' : E) srv :
  run fs cwd IsPrint listen root_text args stdout stderr = (Serving srv, stdout', stderr') ->
  s_idleTimeout srv = 30 * Second /\ s_writeTimeout srv = 30 * Second.
Proof.
  unfold run. destruct args as [|root [|arg [|extra args]]]; try done.
  destruct (Atoi arg) as [port|]; [|done]. destruct (_ || _); [done|].
  destruct (New fs cwd (config root)) as [srv'|e] eqn:En; [|done].
  destruct (listen _); [|done]. intros [= <- _ _].
  unfold New in En. apply bind_Ok in En as (r & _ & En). by injection En as <-.
Qed.

(** (C31) What bserve takes: with anything but a root and a decimal number from
    0 to 65535 -- leading zeros and a sign allowed -- it exits with 2 and does
    nothing else; otherwise it serves the root [server.New] resolves, with
    timeouts of thirty seconds, exactly when there is such a root and the
    listener could be opened at that number, written in plain decimal; and if
    not, it exits with 1. *)
Theorem arguments_of_bserve {FS W E} `{Filesystem FS, Writer W, Writer E} (fs : FS) cwd IsPrint listen root_text
    args (stdout : W) (stderr : E) :
  let '(how, _, _) := run fs cwd IsPrint listen root_text args stdout stderr in
  let valid root port := exists arg, args = [root; arg] /\ spells arg port /\ 0 <= port <= 65535 in
  match how with
  | Serving srv => exists root port addr, valid root port /\
      New fs cwd (config root) = Ok srv /\ listen ([x3a] ++ FormatInt port) = Ok addr /\
      decimal (FormatInt port) = port /\
      s_idleTimeout srv = 30 * Second /\ s_writeTimeout srv = 30 * Second
  | Exited status =>
      (status = 2 /\ ~ exists root port, valid root port) \/
      (status = 1 /\ exists root port, valid root port /\
         ((exists e, New fs cwd (config root) = Err e) \/ (exists e, listen ([x3a] ++ FormatInt port) = Err e)))
  end.
Proof.
  assert (Hnone : forall l, length l <> 2%nat -> ~ exists root port arg, l = [root; arg] /\ spells arg port /\ 0 <= port <= 65535).
  { intros l Hl (root & port & arg & -> & _). done. }
  destruct args as [|root [|arg [|extra args]]]; cbn [run]; try (left; split; [done|]; by apply Hnone).
  destruct (Atoi arg) as [port|] eqn:Ea.
  2: { left. split; [done|]. intros (root' & port & arg' & [= _ <-] & Hs & _). apply Atoi_spells in Hs. congruence. }
  apply Atoi_spells in Ea as Hspells.
  destruct ((port <? 0) || (65535 <? port)) eqn:Er.
  { left. split; [done|]. intros (root' & port' & arg' & [= _ <-] & Hs & Hr). apply Atoi_spells in Hs.
    assert (port' = port) as -> by congruence. rewrite orb_true_iff, !Z.ltb_lt in Er. lia. }
  rewrite orb_false_iff, !Z.ltb_ge in Er.
  assert (Hv : exists arg', [root; arg] = [root; arg'] /\ spells arg' port /\ 0 <= port <= 65535) by (by exists arg).
  destruct (New fs cwd (config root)) as [srv|e] eqn:En.
  2: { right. split; [done|]. exists root, port. split; [done|]. left. by exists e. }
  destruct (listen ([x3a] ++ FormatInt port)) as [addr|text] eqn:El.
  2: { right. split; [done|]. exists root, port. split; [done|]. right. by exists text. }
  exists root, port, addr. split; [done|]. split; [done|]. split; [done|]. split; [apply FormatInt_spec; lia|].
  unfold New in En. apply bind_Ok in En as (r & _ & En). by injection En as <-.
Qed.

Example bserve_samples :
  let how args := (run sample_fs (Ok (str "/")) (fun _ => false) (fun _ => Ok (str "[::]:80")) (fun _ => [])
    args (MkBuffer []) (MkBuffer [])).1.1 in
  (exists srv, how [str "/srv"; str "+0080"] = Serving srv) /\
  how [str "/srv"; str "65536"] = Exited 2 /\ how [str "/srv"; str "-1"] = Exited 2 /\
  how [str "/srv"; str "0x50"] = Exited 2 /\ how [str "/srv"] = Exited 2 /\ how [str "/nowhere"; str "80"] = Exited 1.
Proof. vm_compute. split; [by eexists|]. repeat split. Qed.
