(* ===== verification/Lifecycle.v ===== *)
(** * internal/server: accepting and closing

    The concurrent half of [server.go]: [Serve], [track], [untrack] and
    [Close] as threads over the fields the mutex, the wait group and the
    atomic counter protect.  One critical section, one atomic operation or
    one call on the listener is one step; the steps of one [Serve], any
    number of handlers and any number of [Close] calls interleave freely.
    What a handler does in between is file Server.v; file System.v puts the
    two together. *)

From S2P Require Import Prelude.

(** ** Shared state *)

(** Connections by number.  [srv_dead] holds those [Close] was called on;
    [lis_closed] is the listener's own state. *)
Record srv : Type := MkSrv {
  closed : bool;
  lis : bool;                (** [s.lis] is set *)
  conns : gset Z;
  wg : Z;
  current : Z;
  lis_closed : bool;
  srv_dead : gset Z;
}.

Definition new_srv : srv := MkSrv false false ∅ 0 0 false ∅.

(** The critical section [Serve] starts with: whether to go on. *)
Definition serve_begin (s : srv) : bool * srv :=
  if closed s then (false, s)
  else (true, MkSrv (closed s) true (conns s) (wg s) (current s) (lis_closed s) (srv_dead s)).

(** [l.Close()] *)
Definition close_listener (s : srv) : srv :=
  MkSrv (closed s) (lis s) (conns s) (wg s) (current s) true (srv_dead s).

(** [conn.Close()] *)
Definition close_conn (c : Z) (s : srv) : srv :=
  MkSrv (closed s) (lis s) (conns s) (wg s) (current s) (lis_closed s) ({[c]} ∪ srv_dead s).

Definition isClosed (s : srv) : bool := closed s.

Definition track (c : Z) (s : srv) : bool * srv :=
  if closed s then (false, s)
  else (true, MkSrv (closed s) (lis s) ({[c]} ∪ conns s) (wg s + 1) (current s + 1)
                (lis_closed s) (srv_dead s)).

(** The three operations of [untrack], which other threads can come between. *)
Definition untrack_conn (c : Z) (s : srv) : srv :=
  MkSrv (closed s) (lis s) (conns s ∖ {[c]}) (wg s) (current s) (lis_closed s) (srv_dead s).
Definition untrack_current (s : srv) : srv :=
  MkSrv (closed s) (lis s) (conns s) (wg s) (current s - 1) (lis_closed s) (srv_dead s).
Definition untrack_wg (s : srv) : srv :=
  MkSrv (closed s) (lis s) (conns s) (wg s - 1) (current s) (lis_closed s) (srv_dead s).

(** The critical section of [Close]: the listener it read, and the state. *)
Definition close_sweep (s : srv) : bool * srv :=
  (lis s, MkSrv true (lis s) (conns s) (wg s) (current s) (lis_closed s) (conns s ∪ srv_dead s)).

(** ** Threads *)

Inductive serve_pc : Type :=
  | SStart
  | SRefused                (** about to close the listener and return *)
  | SAccept                 (** in [Accept] *)
  | SFailed                 (** [Accept] returned an error: about to ask [isClosed] *)
  | SRetry                  (** [isClosed] said no: about to log the failure *)
  | SPause                  (** in [time.Sleep] *)
  | SGot (c : Z)            (** [Accept] returned [c] *)
  | SDrop (c : Z)           (** [track] refused [c] *)
  | SGo (c : Z)             (** [track] took [c]: about to start its handler *)
  | SReturned.

Inductive handler_pc : Type :=
  | HRunning                (** in the loop of [handle] *)
  | HClosed                 (** after the deferred [conn.Close()] *)
  | HDeleted                (** after [delete(s.conns, c)] *)
  | HUncounted              (** after [s.current.Add(-1)] *)
  | HDone.                  (** after [s.wg.Done()] *)

Inductive close_pc : Type :=
  | CStart
  | CSwept (l : bool)       (** after the critical section *)
  | CWaiting                (** in [s.wg.Wait()] *)
  | CReturned.

(** [accepted] holds every number [Accept] has handed out. *)
Record sys : Type := MkSys {
  shared : srv;
  serve : serve_pc;
  handlers : gmap Z handler_pc;
  closers : gmap Z close_pc;
  accepted : gset Z;
}.

(** Any [Close] may be called at any time: a closer that is not in the map
    has not started. *)
Definition init : sys := MkSys new_srv SStart ∅ ∅ ∅.

Definition with_serve (pc : serve_pc) (s : srv) (y : sys) : sys :=
  MkSys s pc (handlers y) (closers y) (accepted y).
Definition with_handler (c : Z) (pc : handler_pc) (s : srv) (y : sys) : sys :=
  MkSys s (serve y) (<[c := pc]> (handlers y)) (closers y) (accepted y).
Definition with_closer (i : Z) (pc : close_pc) (s : srv) (y : sys) : sys :=
  MkSys s (serve y) (handlers y) (<[i := pc]> (closers y)) (accepted y).

Definition closer (i : Z) (y : sys) : close_pc := default CStart (closers y !! i).

Inductive step : sys -> sys -> Prop :=
  (** [Serve] *)
  | step_begin y ok s :
      serve y = SStart -> serve_begin (shared y) = (ok, s) ->
      step y (with_serve (if ok then SAccept else SRefused) s y)
  | step_refuse y :
      serve y = SRefused -> step y (with_serve SReturned (close_listener (shared y)) y)
  | step_accept y c :
      serve y = SAccept -> lis_closed (shared y) = false -> c ∉ accepted y ->
      step y (MkSys (shared y) (SGot c) (handlers y) (closers y) ({[c]} ∪ accepted y))
  | step_accept_closed y :
      serve y = SAccept -> lis_closed (shared y) = true -> step y (with_serve SReturned (shared y) y)
  | step_accept_failed y :
      serve y = SAccept -> step y (with_serve SFailed (shared y) y)
  (** whoever made the listener closes it *)
  | step_listener_closed y :
      lis_closed (shared y) = false -> step y (with_serve (serve y) (close_listener (shared y)) y)
  | step_failed y :
      serve y = SFailed ->
      step y (with_serve (if isClosed (shared y) then SReturned else SRetry) (shared y) y)
  | step_retry y :
      serve y = SRetry -> step y (with_serve SPause (shared y) y)
  | step_pause y :
      serve y = SPause -> step y (with_serve SAccept (shared y) y)
  | step_track y c ok s :
      serve y = SGot c -> track c (shared y) = (ok, s) ->
      step y (with_serve (if ok then SGo c else SDrop c) s y)
  | step_drop y c :
      serve y = SDrop c -> step y (with_serve SReturned (close_conn c (shared y)) y)
  | step_go y c :
      serve y = SGo c ->
      step y (MkSys (shared y) SAccept (<[c := HRunning]> (handlers y)) (closers y) (accepted y))
  (** [handle]'s deferred calls *)
  | step_handler_close y c :
      handlers y !! c = Some HRunning -> step y (with_handler c HClosed (close_conn c (shared y)) y)
  | step_untrack_conn y c :
      handlers y !! c = Some HClosed -> step y (with_handler c HDeleted (untrack_conn c (shared y)) y)
  | step_untrack_current y c :
      handlers y !! c = Some HDeleted -> step y (with_handler c HUncounted (untrack_current (shared y)) y)
  | step_untrack_wg y c :
      handlers y !! c = Some HUncounted -> step y (with_handler c HDone (untrack_wg (shared y)) y)
  (** [Close] *)
  | step_sweep y i l s :
      closer i y = CStart -> close_sweep (shared y) = (l, s) -> step y (with_closer i (CSwept l) s y)
  | step_close_listener y i l :
      closer i y = CSwept l ->
      step y (with_closer i CWaiting (if l then close_listener (shared y) else shared y) y)
  | step_wait y i :
      closer i y = CWaiting -> wg (shared y) = 0 -> step y (with_closer i CReturned (shared y) y).

Definition reachable (y : sys) : Prop := rtc step init y.

(** ** The invariant *)

(** The sum of a weight over the threads of a map. *)
Section Weigh.
Context {A : Type}.
Implicit Types (w v : A -> Z) (m : gmap Z A).

Definition weigh (w : A -> Z) (m : gmap Z A) : Z :=
  map_fold (fun _ pc acc => w pc + acc) 0 m.

Lemma weigh_empty w : weigh w ∅ = 0.
Proof. apply map_fold_empty. Qed.

Lemma weigh_new w m c pc : m !! c = None -> weigh w (<[c := pc]> m) = w pc + weigh w m.
Proof.
  intros Hc. unfold weigh. apply (map_fold_insert_L (fun _ pc acc => w pc + acc) 0 c pc m); [|done].
  intros. lia.
Qed.

Lemma weigh_update w m c old pc :
  m !! c = Some old -> weigh w (<[c := pc]> m) = weigh w m - w old + w pc.
Proof.
  intros Hc. rewrite <- (insert_delete_id m c old Hc) at 2. rewrite <- insert_delete_eq.
  rewrite !weigh_new by apply lookup_delete_eq. lia.
Qed.

Lemma weigh_pos w m : (forall pc, 0 <= w pc) -> 0 <= weigh w m.
Proof.
  intros Hw. unfold weigh. apply (map_fold_weak_ind (fun acc _ => 0 <= acc)); [done|].
  intros c pc m' acc _ Ha. specialize (Hw pc). lia.
Qed.

(** A sum of nothing but zeros. *)
Lemma weigh_zero w m c pc :
  (forall pc, 0 <= w pc) -> weigh w m = 0 -> m !! c = Some pc -> w pc = 0.
Proof.
  intros Hw H0 Hc. rewrite <- (insert_delete_id m c pc Hc) in H0.
  rewrite weigh_new in H0 by apply lookup_delete_eq.
  pose proof (Hw pc). pose proof (weigh_pos w (delete c m) Hw). lia.
Qed.

Lemma weigh_some w m : weigh w m <> 0 -> exists c pc, m !! c = Some pc /\ w pc <> 0.
Proof.
  induction m as [|c pc m Hc IH] using map_ind; [by rewrite weigh_empty|].
  rewrite weigh_new by done. intros Hn. destruct (decide (w pc = 0)) as [Ez|Ez].
  - destruct IH as (d & pc' & Hd & Hw); [lia|]. exists d, pc'. split; [|done].
    rewrite lookup_insert_ne; [done|]. intros ->. congruence.
  - exists c, pc. split; [apply lookup_insert_eq|done].
Qed.

Lemma weigh_le v w m : (forall pc, v pc <= w pc) -> weigh v m <= weigh w m.
Proof.
  intros Hle. induction m as [|c pc m Hc IH] using map_ind; [by rewrite !weigh_empty|].
  rewrite !weigh_new by done. specialize (Hle pc). lia.
Qed.

End Weigh.

(** What a handler still holds. *)
Definition holds_wg (pc : handler_pc) : Z := match pc with HDone => 0 | _ => 1 end.
Definition holds_count (pc : handler_pc) : Z := match pc with HDone | HUncounted => 0 | _ => 1 end.
Definition holds_conn (pc : handler_pc) : bool := match pc with HRunning | HClosed => true | _ => false end.

Definition going (pc : serve_pc) : Z := match pc with SGo _ => 1 | _ => 0 end.

Definition began (pc : serve_pc) : bool := match pc with SStart | SRefused => false | _ => true end.

Record inv (y : sys) : Prop := {
  inv_wg : wg (shared y) = going (serve y) + weigh holds_wg (handlers y);
  inv_current : current (shared y) = going (serve y) + weigh holds_count (handlers y);
  inv_conns c : c ∈ conns (shared y) <->
    serve y = SGo c \/ exists pc, handlers y !! c = Some pc /\ holds_conn pc = true;
  inv_fresh c : (serve y = SGot c \/ serve y = SGo c \/ serve y = SDrop c) ->
    c ∈ accepted y /\ handlers y !! c = None;
  inv_accepted c pc : handlers y !! c = Some pc -> c ∈ accepted y;
  inv_swept i : closer i y <> CStart -> closed (shared y) = true;
  inv_dead : closed (shared y) = true -> conns (shared y) ⊆ srv_dead (shared y);
  inv_dead_handlers c pc : handlers y !! c = Some pc -> pc <> HRunning -> c ∈ srv_dead (shared y);
  inv_lis : began (serve y) = true -> lis (shared y) = true \/ lis_closed (shared y) = true;
  inv_sweeping i l : closer i y = CSwept l -> began (serve y) = true -> l = true \/ lis_closed (shared y) = true;
  inv_waiting i : closer i y = CWaiting \/ closer i y = CReturned -> began (serve y) = true ->
    lis_closed (shared y) = true;
  inv_returned i : closer i y = CReturned -> wg (shared y) = 0;
}.

Lemma init_inv : inv init.
Proof.
  split; cbn; try done.
  - intros c. split; [set_solver|]. intros [?|(pc & Hp & _)]; [done|]. by rewrite lookup_empty in Hp.
  - by intros c [?|[?|?]].
Qed.

Lemma closer_other i j pc s y : i <> j -> closer j (with_closer i pc s y) = closer j y.
Proof. intros Hne. unfold closer. cbn. by rewrite lookup_insert_ne. Qed.

Lemma closer_this i pc s y : closer i (with_closer i pc s y) = pc.
Proof. unfold closer. cbn. by rewrite lookup_insert_eq. Qed.

(** The weights of a handler that moves on. *)
Lemma weigh_moves (y : sys) c old pc :
  handlers y !! c = Some old ->
  weigh holds_wg (<[c := pc]> (handlers y)) = weigh holds_wg (handlers y) - holds_wg old + holds_wg pc /\
  weigh holds_count (<[c := pc]> (handlers y)) =
    weigh holds_count (handlers y) - holds_count old + holds_count pc.
Proof. intros Hc. split; by apply weigh_update. Qed.

Lemma step_inv_serve y pc s :
  inv y -> conns s = conns (shared y) -> wg s = wg (shared y) -> current s = current (shared y) ->
  closed s = closed (shared y) -> srv_dead (shared y) ⊆ srv_dead s ->
  going (serve y) = 0 -> going pc = 0 ->
  (forall c, pc = SGot c \/ pc = SDrop c -> c ∈ accepted y /\ handlers y !! c = None) ->
  (began pc = true -> (lis s = true \/ lis_closed s = true) /\
     (began (serve y) = false -> closed s = false \/ lis_closed s = true)) ->
  (lis_closed (shared y) = true -> lis_closed s = true) ->
  inv (with_serve pc s y).
Proof.
  intros [Iwg Icur Icon Ifr Iacc Isw Idead Idh Ilis Isl Iwt Iret] Ec Ew Ecu Ecl Hdead Hg Hg' Hfr Hl Hlc.
  assert (Hpre : began pc = true -> forall i, closer i y <> CStart ->
    began (serve y) = true \/ lis_closed s = true).
  { intros Hb i Hi. destruct (began (serve y)) eqn:Eb; [by left|]. right.
    destruct (Hl Hb) as [_ [Hf|Ht]]; [done| |done]. apply Isw in Hi. congruence. }
  split; cbn.
  - rewrite Ew, Iwg, Hg, Hg'. done.
  - rewrite Ecu, Icur, Hg, Hg'. done.
  - intros c. rewrite Ec, Icon. split; intros [E|?]; try (by right); exfalso; rewrite E in *; done.
  - intros c [E|[E|E]]; [apply Hfr; by left| by rewrite E in Hg' | apply Hfr; by right].
  - exact Iacc.
  - intros i Hi. rewrite Ecl. by apply (Isw i).
  - intros Hc. rewrite Ec. rewrite Ecl in Hc. etrans; [by apply Idead|done].
  - intros c pc' Hc Hne. apply Hdead. by eapply Idh.
  - intros Hb. by apply Hl.
  - intros i l Hi Hb. change (closer i y = CSwept l) in Hi.
    destruct (Hpre Hb i) as [Hb0|?]; [by rewrite Hi| |by right].
    destruct (Isl i l Hi Hb0); auto.
  - intros i Hi Hb. change (closer i y = CWaiting \/ closer i y = CReturned) in Hi.
    destruct (Hpre Hb i) as [Hb0|?]; [by destruct Hi as [-> | ->]| |done]. eauto.
  - intros i Hi. rewrite Ew. by apply (Iret i).
Qed.

Lemma step_inv_handler y c old pc s :
  inv y -> handlers y !! c = Some old -> pc <> HRunning ->
  closed s = closed (shared y) -> lis s = lis (shared y) -> lis_closed s = lis_closed (shared y) ->
  srv_dead (shared y) ⊆ srv_dead s -> c ∈ srv_dead s ->
  conns s = (if holds_conn pc then conns (shared y) else conns (shared y) ∖ {[c]}) ->
  (holds_conn pc = true -> holds_conn old = true) ->
  wg s = wg (shared y) - holds_wg old + holds_wg pc ->
  current s = current (shared y) - holds_count old + holds_count pc ->
  holds_wg old = 1 ->
  inv (with_handler c pc s y).
Proof.
  intros [Iwg Icur Icon Ifr Iacc Isw Idead Idh Ilis Isl Iwt Iret] Hc Hpc Ecl El Elc Hdead Hin Ec Hh Ew Ecu Hold.
  destruct (weigh_moves y c old pc Hc) as [W1 W2].
  assert (Hnf : serve y <> SGo c).
  { intros E. destruct (Ifr c) as [_ Hn]; [auto|]. congruence. }
  split; cbn.
  - rewrite W1. lia.
  - rewrite W2. lia.
  - intros d. rewrite Ec. destruct (decide (d = c)) as [->|Hne].
    + rewrite lookup_insert_eq. destruct (holds_conn pc) eqn:Ep.
      * rewrite Icon. split; [by right; eexists|]. intros _. right. exists old. auto.
      * split; [set_solver|]. intros [?|(pc' & [= <-] & ?)]; [done|congruence].
    + rewrite lookup_insert_ne by done. rewrite <- Icon. destruct (holds_conn pc); set_solver.
  - intros d Hd. destruct (Ifr d Hd) as [H1 H2]. split; [done|].
    rewrite lookup_insert_ne; [done|]. intros <-. congruence.
  - intros d pc' [[<- <-]|[Hne Hd]]%lookup_insert_Some; eauto.
  - intros i Hi. rewrite Ecl. by apply (Isw i).
  - intros Hcl. rewrite Ecl in Hcl. rewrite Ec. specialize (Idead Hcl). destruct (holds_conn pc); set_solver.
  - intros d pc' [[<- <-]|[Hne Hd]]%lookup_insert_Some Hr; [done|]. apply Hdead. by eapply Idh.
  - rewrite El, Elc. exact Ilis.
  - intros i l. rewrite Elc. apply (Isl i l).
  - intros i. rewrite Elc. apply (Iwt i).
  - intros i Hi. specialize (Iret i Hi). rewrite Ew, Iret.
    assert (Hz : weigh holds_wg (handlers y) = 0).
    { pose proof (weigh_pos holds_wg (handlers y) ltac:(by intros [])).
      assert (0 <= going (serve y)) by (by destruct (serve y)). lia. }
    pose proof (weigh_zero holds_wg _ c old ltac:(by intros []) Hz Hc). lia.
Qed.

(** The side conditions of [step_inv_serve]. *)
Ltac serve_side E :=
  rewrite ?E in *; cbn in *;
  solve [done | apply union_subseteq_r
        | intros ? [?|?]; repeat case_match; simplify_eq; eauto
        | repeat case_match; done
        | intros; repeat case_match; split; intros; simplify_eq; auto].

Lemma step_inv_accept y c :
  inv y -> serve y = SAccept -> c ∉ accepted y ->
  inv (MkSys (shared y) (SGot c) (handlers y) (closers y) ({[c]} ∪ accepted y)).
Proof.
  intros [Iwg Icur Icon Ifr Iacc Isw Idead Idh Ilis Isl Iwt Iret] E Hc. rewrite E in *. cbn in *.
  split; cbn; try done.
  - intros d. rewrite Icon. split; intros [?|?]; by auto.
  - intros d [[= <-]|[?|?]]; [|done..]. split; [set_solver|].
    destruct (handlers y !! c) eqn:Eh; [|done]. by apply Iacc in Eh.
  - intros d pc Hd. apply Iacc in Hd. set_solver.
Qed.

Lemma step_inv_track y c :
  inv y -> serve y = SGot c -> closed (shared y) = false ->
  inv (with_serve (SGo c) (snd (track c (shared y))) y).
Proof.
  intros [Iwg Icur Icon Ifr Iacc Isw Idead Idh Ilis Isl Iwt Iret] E Hcl. unfold track. rewrite Hcl.
  rewrite E in *. cbn in *. destruct (Ifr c) as [Ha Hn]; [auto|].
  split; cbn; rewrite ?Hcl; try done; try lia.
  - intros d. rewrite elem_of_union, elem_of_singleton, Icon. split.
    + intros [->|[?|?]]; [by left|done|by right].
    + intros [[= ->]|?]; [by left|by right; right].
  - intros d [?|[[= <-]|?]]; done.
  - intros i Hi. specialize (Isw i Hi). congruence.
  - intros i Hi. change (closer i y = CReturned) in Hi.
    assert (closed (shared y) = true) by (apply (Isw i); by rewrite Hi). congruence.
Qed.

Lemma step_inv_go y c :
  inv y -> serve y = SGo c ->
  inv (MkSys (shared y) SAccept (<[c := HRunning]> (handlers y)) (closers y) (accepted y)).
Proof.
  intros [Iwg Icur Icon Ifr Iacc Isw Idead Idh Ilis Isl Iwt Iret] E. rewrite E in *. cbn in *.
  destruct (Ifr c) as [Ha Hn]; [auto|].
  split; cbn; try done.
  - rewrite weigh_new by done. cbn. lia.
  - rewrite weigh_new by done. cbn. lia.
  - intros d. rewrite Icon. destruct (decide (d = c)) as [->|Hne].
    + rewrite lookup_insert_eq. split; [right; by eexists|]. by left.
    + rewrite lookup_insert_ne by done. split; [intros [[= ?]|?]; [done|by right]|].
      intros [?|?]; [done|by right].
  - intros d [?|[?|?]]; done.
  - intros d pc [[<- <-]|[Hne Hd]]%lookup_insert_Some; eauto.
  - intros d pc [[<- <-]|[Hne Hd]]%lookup_insert_Some; [done|eauto].
Qed.

(** A handler that has still to be taken off the books is not one [Serve] is
    about to start, and its connection is the only one under its number. *)
Lemma untracked y c pc :
  inv y -> handlers y !! c = Some pc -> holds_conn pc = false -> c ∉ conns (shared y).
Proof.
  intros Hi Hc Hp. rewrite (inv_conns y Hi). intros [E|(pc' & E & ?)].
  - destruct (inv_fresh y Hi c) as [_ Hn]; [auto|]. congruence.
  - congruence.
Qed.

(** What no step of a [Close] changes. *)
Record only_closes (s s' : srv) : Prop := {
  oc_wg : wg s' = wg s;
  oc_current : current s' = current s;
  oc_conns : conns s' = conns s;
  oc_lis : lis s' = lis s;
  oc_lis_closed : lis_closed s = true -> lis_closed s' = true;
  oc_dead : srv_dead s ⊆ srv_dead s';
}.

Lemma step_inv_closer y i pc s :
  inv y -> only_closes (shared y) s -> closed s = true -> conns s ⊆ srv_dead s ->
  (forall l, pc = CSwept l -> lis s = true -> l = true) ->
  (pc = CWaiting \/ pc = CReturned -> began (serve y) = true -> lis_closed s = true) ->
  (pc = CReturned -> wg s = 0) ->
  inv (with_closer i pc s y).
Proof.
  intros [Iwg Icur Icon Ifr Iacc Isw Idead Idh Ilis Isl Iwt Iret] [O1 O2 O3 O4 O5 O6] Hc Hd Hsl Hwt Hret.
  assert (Hother : forall j pc', closer j (with_closer i pc s y) = pc' -> (i = j /\ pc' = pc) \/ closer j y = pc').
  { intros j pc' <-. destruct (decide (i = j)) as [<-|Hne].
    - left. by rewrite closer_this.
    - right. by rewrite closer_other. }
  split; cbn; rewrite ?O1, ?O2, ?O3, ?O4; try done.
  - intros _. by rewrite <- O3.
  - intros c pc' H1 H2. apply O6. by eapply Idh.
  - intros Hb. destruct (Ilis Hb); auto.
  - intros j l Hj Hb. destruct (Hother _ _ Hj) as [[<- <-]|Hj'].
    + destruct (Ilis Hb) as [E|E]; [|by auto]. left. apply Hsl; [done|]. by rewrite O4.
    + destruct (Isl j l Hj' Hb); auto.
  - intros j [Hj|Hj] Hb; destruct (Hother _ _ Hj) as [[<- <-]|Hj']; eauto.
  - intros j Hj. rewrite <- O1. destruct (Hother _ _ Hj) as [[<- <-]|Hj']; [auto|]. rewrite O1. eauto.
Qed.

Lemma step_inv y y' : step y y' -> inv y -> inv y'.
Proof.
  intros Hstep Hi. pose proof Hi as [Iwg Icur Icon Ifr Iacc Isw Idead Idh Ilis Isl Iwt Iret].
  destruct Hstep as [y ok s E Hb|y E|y c E Hl Hc|y E Hl|y E|y Hl|y E|y E|y E|y c ok s E Ht|y c E|y c E
    |y c Hc|y c Hc|y c Hc|y c Hc|y i l s Hcl Hs|y i l Hcl|y i Hcl Hw].
  - unfold serve_begin in Hb. destruct (closed (shared y)) eqn:Ecl; injection Hb as <- <-;
      apply step_inv_serve; serve_side E.
  - apply step_inv_serve; serve_side E.
  - by apply step_inv_accept.
  - apply step_inv_serve; serve_side E.
  - apply step_inv_serve; serve_side E.
  - split; cbn; eauto.
  - apply step_inv_serve; serve_side E.
  - apply step_inv_serve; serve_side E.
  - apply step_inv_serve; serve_side E.
  - destruct (closed (shared y)) eqn:Ecl.
    + unfold track in Ht. rewrite Ecl in Ht. injection Ht as <- <-. apply step_inv_serve; serve_side E.
    + pose proof (step_inv_track y c Hi E Ecl) as Hn. rewrite Ht in Hn. unfold track in Ht. rewrite Ecl in Ht.
      by injection Ht as <- _.
  - apply step_inv_serve; serve_side E.
  - by apply step_inv_go.
  - eapply step_inv_handler; try done; cbn; [set_solver..|lia|lia].
  - eapply step_inv_handler; try done; cbn; [|lia|lia]. by eapply Idh.
  - eapply step_inv_handler; try done; cbn; [by eapply Idh| |lia|lia].
    pose proof (untracked y c _ Hi Hc eq_refl). set_solver.
  - eapply step_inv_handler; try done; cbn; [by eapply Idh| |lia|lia].
    pose proof (untracked y c _ Hi Hc eq_refl). set_solver.
  - injection Hs as <- <-. apply step_inv_closer; cbn; try done; [split; cbn; try done; set_solver|set_solver| |].
    + by intros l [= <-].
    + by intros [?|?].
  - pose proof (Isw i ltac:(by rewrite Hcl)) as Hs.
    apply step_inv_closer; try done; destruct l; cbn; auto; try by split.
    intros _ Hb. by destruct (Isl i false Hcl Hb).
  - pose proof (Isw i ltac:(by rewrite Hcl)) as Hs. apply step_inv_closer; auto; [by split|done|].
    intros _. apply (Iwt i). by left.
Qed.

Lemma reachable_inv y : reachable y -> inv y.
Proof.
  intros Hr. unfold reachable in Hr. remember init as y0 eqn:E.
  assert (Hi : inv y0) by (subst; apply init_inv). clear E.
  induction Hr as [y|y0 y1 y2 Hs Hr IH]; [done|]. apply IH. by eapply step_inv.
Qed.

(** ** What [Close] promises *)

(** A server nothing runs in any more. *)
Record quiet (y : sys) : Prop := {
  quiet_handlers c pc : handlers y !! c = Some pc -> pc = HDone;
  quiet_serve : going (serve y) = 0;
  quiet_conns : conns (shared y) = ∅;
  quiet_wg : wg (shared y) = 0;
  quiet_current : current (shared y) = 0;
}.

Lemma wg_zero_quiet y : inv y -> wg (shared y) = 0 -> quiet y.
Proof.
  intros Hi Hw. pose proof (inv_wg y Hi) as Iwg. pose proof (inv_current y Hi) as Icur.
  pose proof (weigh_pos holds_wg (handlers y) ltac:(by intros [])) as P1.
  pose proof (weigh_pos holds_count (handlers y) ltac:(by intros [])) as P2.
  pose proof (weigh_le holds_count holds_wg (handlers y) ltac:(by intros [])) as P3.
  assert (Hg : 0 <= going (serve y)) by (by destruct (serve y)).
  assert (Hd : forall c pc, handlers y !! c = Some pc -> pc = HDone).
  { intros c pc Hc. pose proof (weigh_zero holds_wg (handlers y) c pc ltac:(by intros []) ltac:(lia) Hc) as Hz.
    by destruct pc. }
  split; [exact Hd|lia| |done|lia].
  apply set_eq. intros c. rewrite (inv_conns y Hi). split; [|set_solver].
  intros [E|(pc & Hc & Hh)].
  - rewrite E in *. cbn in *. lia.
  - by rewrite (Hd c pc Hc) in Hh.
Qed.

(** Once a [Close] has returned, a step starts nothing. *)
Lemma step_after_close i y y' :
  inv y -> closer i y = CReturned -> step y y' -> closer i y' = CReturned /\ handlers y' = handlers y.
Proof.
  intros Hi Hr Hs.
  pose proof (wg_zero_quiet y Hi (inv_returned y Hi i Hr)) as [Qh Qs _ _ _].
  assert (Hne : forall j pc s, closer j y <> CReturned -> closer i (with_closer j pc s y) = CReturned).
  { intros j pc s Hj. rewrite closer_other; [done|]. intros ->. done. }
  destruct Hs as [y ok s E Hb|y E|y c E Hl Hc|y E Hl|y E|y Hl|y E|y E|y E|y c ok s E Ht|y c E|y c E
    |y c Hc|y c Hc|y c Hc|y c Hc|y j l s Hcl Hs|y j l Hcl|y j Hcl Hw];
    try (split; [done|done]); try (specialize (Qh _ _ Hc); discriminate);
    try (split; [apply Hne; by rewrite Hcl|done]).
  by rewrite E in Qs.
Qed.

Lemma steps_after_close i y y' :
  inv y -> closer i y = CReturned -> rtc step y y' ->
  inv y' /\ closer i y' = CReturned /\ handlers y' = handlers y.
Proof.
  intros Hi Hr Hs. revert Hi Hr. induction Hs as [y|y y1 y2 H1 H2 IH]; [done|]. intros Hi Hr.
  destruct (step_after_close i y y1 Hi Hr H1) as [Hr1 Hh1].
  destruct (IH (step_inv y y1 H1 Hi) Hr1) as (? & ? & E). by rewrite E.
Qed.

(** (C11) When a [Close] has returned, no handler runs: every one of them has
    gone through its deferred calls to the end, the server holds no
    connection, its counters are at zero, and the listener, if [Serve] was
    ever let through, is closed.  This is so whatever the other threads did
    in the meantime, and it stays so whatever they go on to do: a connection
    accepted at the last moment gets no handler. *)
Theorem close_waits_for_handlers i y y' :
  reachable y -> closer i y = CReturned -> rtc step y y' ->
  quiet y' /\ handlers y' = handlers y /\
  (began (serve y') = true -> lis_closed (shared y') = true).
Proof.
  intros Hr Hc Hs. destruct (steps_after_close i y y' (reachable_inv y Hr) Hc Hs) as (Hi & Hc' & Hh).
  split; [|split; [done|]].
  - apply wg_zero_quiet; [done|]. by apply (inv_returned y' Hi i).
  - apply (inv_waiting y' Hi i). by right.
Qed.

(** The steps a handler has left. *)
Definition remaining (pc : handler_pc) : Z :=
  match pc with HRunning => 4 | HClosed => 3 | HDeleted => 2 | HUncounted => 1 | HDone => 0 end.

Lemma handler_moves y c pc :
  handlers y !! c = Some pc -> remaining pc <> 0 ->
  exists pc' s, step y (with_handler c pc' s y) /\ remaining pc' = remaining pc - 1.
Proof.
  intros Hc Hr. destruct pc; try done; eexists _, _; (split; [by constructor|done]).
Qed.

Lemma handlers_drain y :
  exists y', rtc step y y' /\ serve y' = serve y /\ closers y' = closers y /\
    weigh remaining (handlers y') = 0.
Proof.
  pose proof (weigh_pos remaining (handlers y) ltac:(by intros [])) as Hp.
  destruct (Z_of_nat_complete _ Hp) as [n Hn]. clear Hp. revert y Hn.
  induction n as [|n IH]; intros y Hn; [by exists y|].
  destruct (weigh_some remaining (handlers y)) as (c & pc & Hc & Hw); [lia|].
  destruct (handler_moves y c pc Hc Hw) as (pc' & s & Hs & Hr).
  destruct (IH (with_handler c pc' s y)) as (y' & H1 & H2 & H3 & H4).
  { cbn [with_handler handlers]. rewrite (weigh_update _ _ _ _ _ Hc). lia. }
  exists y'. split; [by eapply rtc_l|done].
Qed.

(** A handler [Serve] is about to start gets started. *)
Lemma serve_settles y :
  exists y', rtc step y y' /\ going (serve y') = 0 /\ closers y' = closers y.
Proof.
  destruct (serve y) as [| | | | | | | |c|] eqn:E; try (exists y; by rewrite E).
  eexists. split; [apply rtc_once; by apply step_go|done].
Qed.

Lemma waiting_returns y i :
  inv y -> closer i y = CWaiting -> exists y', rtc step y y' /\ closer i y' = CReturned.
Proof.
  intros Hi Hc. destruct (serve_settles y) as (y1 & R1 & G1 & C1).
  destruct (handlers_drain y1) as (y2 & R2 & S2 & C2 & W2).
  assert (R : rtc step y y2) by (by etrans). assert (I2 : inv y2).
  { clear -R Hi. induction R as [y|y ya yb H1 H2 IH]; [done|]. apply IH. by eapply step_inv. }
  exists (with_closer i CReturned (shared y2) y2). split; [|apply closer_this].
  eapply rtc_r; [exact R|]. apply step_wait.
  - unfold closer in *. by rewrite C2, C1.
  - rewrite (inv_wg y2 I2), S2, G1.
    pose proof (weigh_le holds_wg remaining (handlers y2) ltac:(by intros [])).
    pose proof (weigh_pos holds_wg (handlers y2) ltac:(by intros [])). lia.
Qed.

(** A [Close] that was begun can always go on to return.  Whatever
    state the threads have reached, the connection of every handler has been
    closed, so none is left waiting for a client, and there is a run in which
    the handlers finish, the wait group comes down to zero and the call
    returns: no thread holds the others up for ever. *)
Theorem close_can_return i y :
  reachable y -> closer i y <> CStart ->
  (forall c pc, handlers y !! c = Some pc -> c ∈ srv_dead (shared y)) /\
  (exists y', rtc step y y' /\ closer i y' = CReturned).
Proof.
  intros Hr Hc. pose proof (reachable_inv y Hr) as Hi. split.
  - intros c pc Hh. destruct (decide (holds_conn pc = true)) as [Hp|Hp].
    + apply (inv_dead y Hi); [by apply (inv_swept y Hi i)|]. apply (inv_conns y Hi). right. by exists pc.
    + apply (inv_dead_handlers y Hi c pc Hh). by intros ->.
  - destruct (closer i y) as [|l| |] eqn:E; [done| |by apply waiting_returns|by exists y].
    set (y1 := with_closer i CWaiting (if l then close_listener (shared y) else shared y) y).
    assert (Hs : step y y1) by (by apply step_close_listener).
    destruct (waiting_returns y1 i (step_inv y y1 Hs Hi)) as (y' & R & C).
    { unfold y1. apply closer_this. }
    exists y'. split; [by eapply rtc_l|done].
Qed.

(** ** A run: one connection, dropped by [Close] *)

Definition serving : sys := with_serve SAccept (snd (serve_begin new_srv)) init.
Definition got : sys :=
  MkSys (shared serving) (SGot 7) (handlers serving) (closers serving) ({[7]} ∪ accepted serving).
Definition tracked : sys := with_serve (SGo 7) (snd (track 7 (shared got))) got.
Definition busy : sys :=
  MkSys (shared tracked) SAccept (<[7 := HRunning]> (handlers tracked)) (closers tracked) (accepted tracked).
Definition swept : sys := with_closer 0 (CSwept true) (snd (close_sweep (shared busy))) busy.
Definition waiting : sys := with_closer 0 CWaiting (close_listener (shared swept)) swept.
Definition hung_up : sys := with_handler 7 HClosed (close_conn 7 (shared waiting)) waiting.
Definition deleted : sys := with_handler 7 HDeleted (untrack_conn 7 (shared hung_up)) hung_up.
Definition uncounted : sys := with_handler 7 HUncounted (untrack_current (shared deleted)) deleted.
Definition finished : sys := with_handler 7 HDone (untrack_wg (shared uncounted)) uncounted.
Definition returned : sys := with_closer 0 CReturned (shared finished) finished.

Lemma swept_reachable : reachable swept.
Proof.
  eapply rtc_l; [exact (step_begin init true _ eq_refl eq_refl)|].
  eapply rtc_l; [apply (step_accept serving 7); [reflexivity|reflexivity|set_solver]|].
  eapply rtc_l; [exact (step_track got 7 true _ eq_refl eq_refl)|].
  eapply rtc_l; [exact (step_go tracked 7 eq_refl)|].
  apply rtc_once. exact (step_sweep busy 0 true _ eq_refl eq_refl).
Qed.

Lemma returned_reachable : reachable returned.
Proof.
  unfold reachable. etrans; [exact swept_reachable|].
  eapply rtc_l; [exact (step_close_listener swept 0 true eq_refl)|].
  eapply rtc_l; [exact (step_handler_close waiting 7 eq_refl)|].
  eapply rtc_l; [exact (step_untrack_conn hung_up 7 eq_refl)|].
  eapply rtc_l; [exact (step_untrack_current deleted 7 eq_refl)|].
  eapply rtc_l; [exact (step_untrack_wg uncounted 7 eq_refl)|].
  apply rtc_once. exact (step_wait finished 0 eq_refl eq_refl).
Qed.

(** A connection the listener fails to hand out moves [Serve] to its end. *)
Definition ended : sys := with_serve SReturned (shared returned) returned.

Example close_waits_for_handlers_witness :
  quiet ended /\ handlers ended = handlers returned /\
  (began (serve ended) = true -> lis_closed (shared ended) = true).
Proof.
  apply (close_waits_for_handlers 0 returned ended).
  - exact returned_reachable.
  - reflexivity.
  - apply rtc_once. exact (step_accept_closed returned eq_refl eq_refl).
Defined.

Example close_can_return_witness :
  (forall c pc, handlers swept !! c = Some pc -> c ∈ srv_dead (shared swept)) /\
  (exists y', rtc step swept y' /\ closer 0 y' = CReturned).
Proof.
  apply (close_can_return 0 swept).
  - exact swept_reachable.
  - intros E. change (CSwept true = CStart) in E. discriminate E.
Defined.
