(* ===== verification/Closing.v ===== *)
(** * internal/server: how the threads of file Lifecycle.v come to an end

    What [Serve] returns on, and that after [Close] has marked the server
    closed nothing goes on for ever: a measure of what the threads have left
    to do goes down with every step but the call of a further [Close]. *)

From S2P Require Import Prelude Lifecycle.

(** ** What [Serve] returns on *)

Record ends (y : sys) : Prop := {
  ends_closed : closed (shared y) = true -> exists i, closer i y <> CStart;
  ends_refused : (serve y = SRefused \/ exists c, serve y = SDrop c) -> closed (shared y) = true;
  ends_returned : serve y = SReturned -> closed (shared y) = true \/ lis_closed (shared y) = true;
}.

Lemma init_ends : ends init.
Proof. split; cbn; [done| |done]. by intros [?|[? ?]]. Qed.

(** Steps of [Serve] and of handlers: [closed] stays as it is. *)
Lemma ends_serve y pc s :
  ends y -> closed s = closed (shared y) ->
  ((pc = SRefused \/ exists c, pc = SDrop c) -> closed s = true) ->
  (pc = SReturned -> closed s = true \/ lis_closed s = true) ->
  ends (with_serve pc s y).
Proof. intros [E1 E2 E3] Hc H1 H2. split; cbn; [|done|done]. rewrite Hc. exact E1. Qed.

Lemma ends_handler y c pc s :
  ends y -> closed s = closed (shared y) -> lis_closed s = lis_closed (shared y) ->
  ends (with_handler c pc s y).
Proof. intros [E1 E2 E3] Hc Hl. split; cbn; rewrite ?Hc, ?Hl; done. Qed.

Lemma ends_closer y i pc s :
  ends y -> pc <> CStart -> closed s = true -> ends (with_closer i pc s y).
Proof.
  intros [E1 E2 E3] Hpc Hc. split; cbn; [|done|by left].
  intros _. exists i. by rewrite closer_this.
Qed.

Lemma step_ends y y' : step y y' -> inv y -> ends y -> ends y'.
Proof.
  intros Hs Hi He. pose proof He as [E1 E2 E3].
  destruct Hs as [y ok s E Hb|y E|y c E Hl Hc|y E Hl|y E|y Hl|y E|y E|y E|y c ok s E Ht|y c E|y c E
    |y c Hc|y c Hc|y c Hc|y c Hc|y i l s Hcl Hs|y i l Hcl|y i Hcl Hw].
  - unfold serve_begin in Hb. destruct (closed (shared y)) eqn:Ec; injection Hb as <- <-;
      apply ends_serve; cbn; try done; by intros [?|[? ?]].
  - assert (closed (shared y) = true) by auto. apply ends_serve; cbn; auto.
  - split; cbn; [done| |done]. by intros [?|[? ?]].
  - apply ends_serve; auto.
    naive_solver.
  - apply ends_serve; try done. by intros [?|[? ?]].
  - apply ends_serve; try done. by right.
  - unfold isClosed. destruct (closed (shared y)) eqn:Ec; apply ends_serve; try done; rewrite ?Ec; auto;
      naive_solver.
  - apply ends_serve; try done. by intros [?|[? ?]].
  - apply ends_serve; try done. by intros [?|[? ?]].
  - unfold track in Ht. destruct (closed (shared y)) eqn:Ec; injection Ht as <- <-;
      apply ends_serve; cbn; naive_solver.
  - assert (closed (shared y) = true) by eauto. apply ends_serve; cbn; auto.
  - split; cbn; [done| |done]. by intros [?|[? ?]].
  - by apply ends_handler.
  - by apply ends_handler.
  - by apply ends_handler.
  - by apply ends_handler.
  - injection Hs as <- <-. by apply ends_closer.
  - pose proof (inv_swept y Hi i ltac:(by rewrite Hcl)). apply ends_closer; [done..|]. by destruct l.
  - pose proof (inv_swept y Hi i ltac:(by rewrite Hcl)). by apply ends_closer.
Qed.

Lemma reachable_ends y : reachable y -> inv y /\ ends y.
Proof.
  intros Hr. unfold reachable in Hr. remember init as y0 eqn:E.
  assert (Hi : inv y0 /\ ends y0) by (subst; split; [apply init_inv|apply init_ends]). clear E.
  induction Hr as [y|y0 y1 y2 Hs Hr IH]; [done|]. destruct Hi as [Hi He].
  apply IH. split; [by eapply step_inv|by eapply step_ends].
Qed.

(** Until [Close] marks the server closed, only handlers close connections:
    one that is closed has a handler that has left its loop. *)
Definition undisturbed (y : sys) : Prop :=
  closed (shared y) = false -> forall c, c ∈ srv_dead (shared y) ->
    exists pc, handlers y !! c = Some pc /\ pc <> HRunning.

(** A step after which the server is open leaves [closed] alone. *)
Lemma step_closed_mono y y' : step y y' -> closed (shared y) = true -> closed (shared y') = true.
Proof.
  destruct 1 as [y ok s' E Hb|y E|y c E Hl Hc|y E Hl|y E|y Hl|y E|y E|y E|y c ok s' E Hb|y c E|y c E
    |y c Hc|y c Hc|y c Hc|y c Hc|y i l s' Hcl Hs|y i l Hcl|y i Hcl Hw]; cbn; try done; intros Hcl0.
  - unfold serve_begin in Hb. rewrite Hcl0 in Hb. by injection Hb as <- <-.
  - unfold track in Hb. rewrite Hcl0 in Hb. by injection Hb as <- <-.
  - by injection Hs as <- <-.
  - by destruct l.
Qed.

Lemma undisturbed_handler y c pc s :
  undisturbed y -> pc <> HRunning -> closed s = closed (shared y) ->
  srv_dead s ⊆ {[c]} ∪ srv_dead (shared y) -> undisturbed (with_handler c pc s y).
Proof.
  intros Hu Hpc Hc Hd Hcl d Hin. cbn in *. rewrite Hc in Hcl.
  destruct (decide (d = c)) as [->|Hne].
  - exists pc. by rewrite lookup_insert_eq.
  - rewrite lookup_insert_ne by done. apply Hu; set_solver.
Qed.

Lemma step_undisturbed y y' : step y y' -> inv y -> ends y -> undisturbed y -> undisturbed y'.
Proof.
  intros Hst Hi He Hu. destruct (closed (shared y)) eqn:Ecl.
  { intros Hc. by rewrite (step_closed_mono _ _ Hst Ecl) in Hc. }
  destruct Hst as [y ok s' E Hb|y E|y c E Hl Hc|y E Hl|y E|y Hl|y E|y E|y E|y c ok s' E Hb|y c E|y c E
    |y c Hc|y c Hc|y c Hc|y c Hc|y i l s' Hcl Hs|y i l Hcl|y i Hcl Hw];
    try (intros _; by apply Hu); try (by apply undisturbed_handler; [..|cbn; set_solver]).
  - unfold serve_begin in Hb. rewrite Ecl in Hb. injection Hb as <- <-. intros _. by apply Hu.
  - unfold track in Hb. rewrite Ecl in Hb. injection Hb as <- <-. intros _. by apply Hu.
  - assert (closed (shared y) = true) by (apply (ends_refused y He); eauto). congruence.
  - intros _ d Hin. cbn in *. destruct (Hu Ecl d Hin) as (pc & Hd & Hpc). exists pc.
    rewrite lookup_insert_ne; [done|]. intros <-.
    destruct (inv_fresh y Hi c) as [_ Hn]; [auto|]. congruence.
  - injection Hs as <- <-. by intros Hc.
  - intros Hc. cbn in Hc. destruct l; intros d Hin; by apply Hu.
Qed.

Lemma reachable_undisturbed y : reachable y -> undisturbed y.
Proof.
  intros Hr. revert y Hr. apply (rtc_ind_r undisturbed init); [by intros _ c ?%elem_of_empty|].
  intros y1 y2 H1 H2 IH. destruct (reachable_ends y1 H1) as [Hi He]. by eapply step_undisturbed.
Qed.

(** [Serve] returns only when the server or its listener is closed.
    An [Accept] that fails for any other reason, however often it does, is
    tried again: the only steps [Serve] can take from there on an open server
    lead back to [Accept], by way of the log and a pause.  So [Serve] never
    reports that the listener failed. *)
Theorem serve_returns_only_when_closed y :
  reachable y ->
  (serve y = SReturned -> closed (shared y) = true \/ lis_closed (shared y) = true) /\
  (serve y = SFailed -> closed (shared y) = false ->
   forall y', step y y' -> serve y' = SFailed \/ serve y' = SRetry) /\
  (serve y = SRetry -> forall y', step y y' -> serve y' = SRetry \/ serve y' = SPause) /\
  (serve y = SPause -> forall y', step y y' -> serve y' = SPause \/ serve y' = SAccept).
Proof.
  intros Hr. destruct (reachable_ends y Hr) as [_ He]. split; [apply (ends_returned y He)|].
  split; [|by split; intros Hf y' Hs; destruct Hs; cbn; try congruence; auto].
  intros Hf Hc y' Hs. destruct Hs; cbn; try congruence; auto.
  right. unfold isClosed. by rewrite Hc.
Qed.

(** ** What is left to do on a closed server *)

(** The most steps each thread has left once [closed] is set; a handler that
    is about to be started counts with its own steps. *)
Definition serve_todo (pc : serve_pc) : Z :=
  match pc with
  | SStart => 2 | SRefused => 1 | SAccept => 3 | SFailed => 1 | SRetry => 5 | SPause => 4 | SGot _ => 2 | SDrop _ => 1 | SGo _ => 8
  | SReturned => 0
  end.
Definition close_todo (pc : close_pc) : Z :=
  match pc with CSwept _ => 2 | CWaiting => 1 | CStart | CReturned => 0 end.
Definition listener_todo (s : srv) : Z := if lis_closed s then 0 else 1.

Definition todo (y : sys) : Z :=
  serve_todo (serve y) + weigh remaining (handlers y) + weigh close_todo (closers y) + listener_todo (shared y).

(** A step that is the call of a further [Close]. *)
Definition calls_Close (y y' : sys) : Prop := exists i, closer i y = CStart /\ closer i y' <> CStart.

(** [run k n y y']: [n] steps, [k] of them calls of [Close]. *)
Inductive run : Z -> Z -> sys -> sys -> Prop :=
  | run_nil y : run 0 0 y y
  | run_call k n y y1 y2 : step y y1 -> calls_Close y y1 -> run k n y1 y2 -> run (k + 1) (n + 1) y y2
  | run_step k n y y1 y2 : step y y1 -> ~ calls_Close y y1 -> run k n y1 y2 -> run k (n + 1) y y2.

Lemma todo_pos y : 0 <= todo y.
Proof.
  unfold todo, listener_todo.
  pose proof (weigh_pos remaining (handlers y) ltac:(by intros [])).
  pose proof (weigh_pos close_todo (closers y) ltac:(by intros [])).
  assert (0 <= serve_todo (serve y)) by (by destruct (serve y)). destruct (lis_closed (shared y)); lia.
Qed.

Lemma close_todo_insert y i pc :
  weigh close_todo (<[i := pc]> (closers y)) = weigh close_todo (closers y) - close_todo (closer i y) + close_todo pc.
Proof.
  unfold closer. destruct (closers y !! i) as [old|] eqn:E; cbn.
  - by apply weigh_update.
  - rewrite weigh_new by done. lia.
Qed.

Lemma closer_same i y y' : closers y' = closers y -> closer i y' = closer i y.
Proof. intros E. unfold closer. by rewrite E. Qed.

Lemma calls_nothing y y' : closers y' = closers y -> ~ calls_Close y y'.
Proof. intros E (i & Hs & Hn). by rewrite (closer_same _ _ _ E) in Hn. Qed.

(** Every step on a closed server gets it nearer to the end, or is the call
    of a further [Close], which brings its own steps. *)
Lemma step_todo y y' :
  inv y -> closed (shared y) = true -> step y y' ->
  closed (shared y') = true /\ (todo y' + 1 <= todo y \/ (calls_Close y y' /\ todo y' <= todo y + 2)).
Proof.
  intros Hi Hc Hs. unfold todo.
  destruct Hs as [y ok s E Hb|y E|y c E Hl Ha|y E Hl|y E|y Hl|y E|y E|y E|y c ok s E Ht|y c E|y c E
    |y c Hh|y c Hh|y c Hh|y c Hh|y i l s Hcl Hs|y i l Hcl|y i Hcl Hw]; cbn.
  1: unfold serve_begin in Hb; rewrite Hc in Hb; injection Hb as <- <-; rewrite E; cbn; split; [done|lia].
  1-8: rewrite ?E; unfold listener_todo, isClosed; cbn; rewrite ?Hc, ?Hl; cbn; split; [done|];
    try destruct (lis_closed (shared y)); lia.
  1: unfold track in Ht; rewrite Hc in Ht; injection Ht as <- <-; rewrite E; cbn; split; [done|lia].
  1: rewrite E; cbn; split; [done|]; unfold listener_todo; cbn; lia.
  1: { rewrite E. split; [done|]. destruct (inv_fresh y Hi c) as [_ Hn]; [auto|].
       rewrite weigh_new by done. cbn. lia. }
  1-4: (split; [done|]; rewrite (weigh_update _ _ _ _ _ Hh); unfold listener_todo; cbn; lia).
  - injection Hs as <- <-. split; [done|]. right. split; [|rewrite close_todo_insert, Hcl; unfold listener_todo; cbn; lia].
    exists i. by rewrite closer_this.
  - rewrite close_todo_insert, Hcl. split; [by destruct l|]. destruct l; unfold listener_todo; cbn;
      destruct (lis_closed (shared y)); lia.
  - rewrite close_todo_insert, Hcl. split; [done|]. unfold listener_todo. cbn. lia.
Qed.

Lemma run_todo k n y y' :
  run k n y y' -> inv y -> closed (shared y) = true -> n + todo y' <= todo y + 3 * k.
Proof.
  induction 1 as [y|k n y y1 y2 Hs Hcall Hr IH|k n y y1 y2 Hs Hcall Hr IH]; intros Hi Hc; [lia|..];
    destruct (step_todo y y1 Hi Hc Hs) as [Hc1 Hd]; specialize (IH (step_inv _ _ Hs Hi) Hc1).
  - destruct Hd as [?|[_ ?]]; lia.
  - destruct Hd as [?|[? _]]; [lia|done].
Qed.

(** The steps the threads cannot take alone: a further [Close] is called,
    [Accept] hands out a connection or fails, the listener is closed by its
    owner. *)
Definition outside (y y' : sys) : Prop :=
  calls_Close y y' \/
  (serve y = SAccept /\ (serve y' = SFailed \/ exists c, serve y' = SGot c)) \/
  (serve y' = serve y /\ handlers y' = handlers y /\ closers y' = closers y /\
   lis_closed (shared y) = false /\ lis_closed (shared y') = true).

(** Everything that was begun has returned. *)
Record over (y : sys) : Prop := {
  over_serve : serve y = SReturned;
  over_closers i : closer i y = CStart \/ closer i y = CReturned;
  over_quiet : quiet y;
  over_listener : lis_closed (shared y) = true;
}.

Lemma inside_serve pc s y :
  pc <> serve y -> (serve y = SAccept -> pc = SReturned) -> ~ outside y (with_serve pc s y).
Proof.
  intros Hne Ha [Hc|[[E [Ef|[c Ef]]]|(E & _)]]; cbn in *.
  - by apply calls_nothing in Hc.
  - by rewrite Ef in Ha; apply Ha in E.
  - by rewrite Ef in Ha; apply Ha in E.
  - done.
Qed.

Lemma inside_handler c old pc s y :
  handlers y !! c = Some old -> pc <> old -> ~ outside y (with_handler c pc s y).
Proof.
  intros Hc Hne [Hcall|[[E [Ef|[d Ef]]]|(_ & E & _)]]; cbn in *.
  - by apply calls_nothing in Hcall.
  - congruence.
  - congruence.
  - rewrite <- E, lookup_insert_eq in Hc. by injection Hc as ->.
Qed.

Lemma inside_closer i pc s y :
  closer i y <> CStart -> pc <> closer i y -> ~ outside y (with_closer i pc s y).
Proof.
  intros Hs Hne [(j & Hj & Hj')|[[E [Ef|[d Ef]]]|(_ & _ & E & _)]]; cbn in *.
  - destruct (decide (i = j)) as [<-|Hij]; [done|]. by rewrite closer_other in Hj'.
  - congruence.
  - congruence.
  - apply Hne. rewrite <- (closer_this i pc s y). by apply closer_same.
Qed.

(** On a closed server some thread can move until everything is over. *)
Section Stuck.
Context (y : sys) (Hi : inv y) (He : ends y) (Hclosed : closed (shared y) = true).
Context (Hstuck : forall y', step y y' -> outside y y').

Lemma stuck_handlers c pc : handlers y !! c = Some pc -> pc = HDone.
Proof.
  intros Hc. destruct (decide (remaining pc = 0)) as [Hz|Hz]; [by destruct pc|].
  destruct (handler_moves y c pc Hc Hz) as (pc' & s & Hs & Hr).
  destruct (inside_handler c pc pc' s y Hc); [|by apply Hstuck]. intros ->. lia.
Qed.

Lemma stuck_wg : going (serve y) = 0 -> wg (shared y) = 0.
Proof.
  intros Hg. rewrite (inv_wg y Hi), Hg.
  destruct (decide (weigh holds_wg (handlers y) = 0)) as [->|Hn]; [done|].
  destruct (weigh_some _ _ Hn) as (c & pc & Hc & Hw). by rewrite (stuck_handlers c pc Hc) in Hw.
Qed.

Lemma stuck_serve_moves pc s :
  step y (with_serve pc s y) -> pc <> serve y -> (serve y = SAccept -> pc = SReturned) -> False.
Proof. intros Hs H1 H2. exact (inside_serve pc s y H1 H2 (Hstuck _ Hs)). Qed.

Lemma stuck_closer_moves i pc s :
  step y (with_closer i pc s y) -> closer i y <> CStart -> pc <> closer i y -> False.
Proof. intros Hs H1 H2. exact (inside_closer i pc s y H1 H2 (Hstuck _ Hs)). Qed.

Lemma stuck_not_swept i l : closer i y <> CSwept l.
Proof.
  intros E. apply (stuck_closer_moves i _ _ (step_close_listener y i l E)); by rewrite E.
Qed.

Lemma stuck_listener : began (serve y) = true -> lis_closed (shared y) = true.
Proof.
  intros Hb. destruct (ends_closed y He Hclosed) as [i Hs].
  apply (inv_waiting y Hi i); [|done].
  destruct (closer i y) as [|l| |] eqn:E; [done| |by left|by right]. by apply stuck_not_swept in E.
Qed.

Lemma stuck_serve : serve y = SReturned.
Proof.
  destruct (serve y) as [| | | | | |c|c|c|] eqn:E; [exfalso..|done].
  - destruct (serve_begin (shared y)) as [ok s] eqn:Eb.
    apply (stuck_serve_moves _ _ (step_begin y ok s E Eb)); rewrite E; by destruct ok.
  - apply (stuck_serve_moves _ _ (step_refuse y E)); by rewrite E.
  - apply (stuck_serve_moves _ _ (step_accept_closed y E (stuck_listener ltac:(by rewrite E)))); by rewrite E.
  - apply (stuck_serve_moves _ _ (step_failed y E)); rewrite E; by destruct (isClosed (shared y)).
  - apply (stuck_serve_moves _ _ (step_retry y E)); by rewrite E.
  - apply (stuck_serve_moves _ _ (step_pause y E)); by rewrite E.
  - destruct (track c (shared y)) as [ok s] eqn:Et.
    apply (stuck_serve_moves _ _ (step_track y c ok s E Et)); rewrite E; by destruct ok.
  - apply (stuck_serve_moves _ _ (step_drop y c E)); by rewrite E.
  - destruct (Hstuck _ (step_go y c E)) as [Hc|[[E' _]|(E' & _)]]; cbn in *.
    + by apply calls_nothing in Hc.
    + congruence.
    + congruence.
Qed.

Lemma stuck_closers i : closer i y = CStart \/ closer i y = CReturned.
Proof.
  destruct (closer i y) as [|l| |] eqn:E; [by left| | |by right]; exfalso.
  - by apply stuck_not_swept in E.
  - assert (Hw : wg (shared y) = 0) by (apply stuck_wg; by rewrite stuck_serve).
    apply (stuck_closer_moves i _ _ (step_wait y i E Hw)); by rewrite E.
Qed.

Lemma stuck_over : over y.
Proof.
  split; [apply stuck_serve|apply stuck_closers| |].
  - apply wg_zero_quiet; [done|]. apply stuck_wg. by rewrite stuck_serve.
  - apply stuck_listener. by rewrite stuck_serve.
Qed.
End Stuck.

Lemma run_reachable k n y y' : run k n y y' -> reachable y -> reachable y'.
Proof. induction 1; intros Hr; [done|..]; apply IHrun; by eapply rtc_r. Qed.

Lemma run_closed k n y y' : run k n y y' -> inv y -> closed (shared y) = true -> closed (shared y') = true.
Proof.
  induction 1 as [y|k n y y1 y2 Hs Hcall Hr IH|k n y y1 y2 Hs Hcall Hr IH]; intros Hi Hc; [done|..];
    destruct (step_todo y y1 Hi Hc Hs) as [Hc1 _]; apply IH; eauto using step_inv.
Qed.

(** Closing a server terminates.  From the moment the first [Close] has
    marked the server closed, however the threads are scheduled and whatever
    the network does, they take at most [todo] steps more, plus three for
    every further call of [Close]; and when no thread can move any more
    without a new call, connection, failure or closing from outside,
    everything is over: [Serve] has returned, every [Close] that was called
    has returned, every handler is done, the listener is closed. *)
Theorem closing_terminates y k n y' :
  reachable y -> closed (shared y) = true -> run k n y y' ->
  n <= todo y + 3 * k /\ ((forall y2, step y' y2 -> outside y' y2) -> over y').
Proof.
  intros Hr Hc Hrun. destruct (reachable_ends y' (run_reachable _ _ _ _ Hrun Hr)) as [Hi He].
  pose proof (reachable_inv y Hr) as Hi0. split.
  - pose proof (run_todo _ _ _ _ Hrun Hi0 Hc). pose proof (todo_pos y'). lia.
  - intros Hs. apply stuck_over; [done..| |done]. by eapply run_closed.
Qed.

(** ** Witnesses *)

(** [Serve] after an [Accept] that failed on an open server. *)
Definition hiccup : sys := with_serve SFailed (shared serving) serving.

Lemma hiccup_reachable : reachable hiccup.
Proof.
  eapply rtc_l; [exact (step_begin init true _ eq_refl eq_refl)|].
  apply rtc_once. exact (step_accept_failed serving eq_refl).
Qed.

Lemma ended_reachable : reachable ended.
Proof. eapply rtc_r; [exact returned_reachable|exact (step_accept_closed returned eq_refl eq_refl)]. Qed.

(** [Serve] does not wait for [Close]: it may have returned while a handler
    still runs.  Only the return of [Close] says that all is over, and
    cmd/bserve, which ends when [Serve] returns, does not wait for that. *)
Lemma serve_may_return_first :
  exists y, reachable y /\ serve y = SReturned /\ handlers y !! 7 = Some HRunning.
Proof.
  exists (with_serve SReturned (shared waiting) waiting). split; [|by vm_compute].
  eapply rtc_r; [|exact (step_accept_closed waiting eq_refl eq_refl)].
  eapply rtc_r; [exact swept_reachable|exact (step_close_listener swept 0 true eq_refl)].
Qed.

Example serve_returns_only_when_closed_witness :
  (closed (shared ended) = true \/ lis_closed (shared ended) = true) /\
  (forall y', step hiccup y' -> serve y' = SFailed \/ serve y' = SRetry).
Proof.
  split.
  - apply (serve_returns_only_when_closed ended ended_reachable). reflexivity.
  - destruct (serve_returns_only_when_closed hiccup hiccup_reachable) as (_ & Hf & _).
    exact (Hf eq_refl eq_refl).
Defined.

(** From the moment [Close] has swept the one connection of file
    Lifecycle.v: at most ten steps are left, and here is a run that takes seven. *)
Lemma swept_to_ended : run 0 7 swept ended.
Proof.
  assert (Hq : forall n y y1 y2, step y y1 -> closers y1 = closers y -> run 0 (n - 1) y1 y2 -> run 0 n y y2).
  { intros n y y1 y2 Hs Hc Hr. replace n with (n - 1 + 1) by lia.
    eapply run_step; [exact Hs|by apply calls_nothing|done]. }
  change 7 with (6 + 1). eapply run_step; [exact (step_close_listener swept 0 true eq_refl)| |].
  { intros (i & H1 & H2). destruct (decide (0 = i)) as [<-|Hne]; [discriminate H1|].
    by rewrite closer_other in H2. }
  eapply Hq; [exact (step_handler_close waiting 7 eq_refl)|reflexivity|].
  eapply Hq; [exact (step_untrack_conn hung_up 7 eq_refl)|reflexivity|].
  eapply Hq; [exact (step_untrack_current deleted 7 eq_refl)|reflexivity|].
  eapply Hq; [exact (step_untrack_wg uncounted 7 eq_refl)|reflexivity|].
  change (6 - 1 - 1 - 1 - 1) with (1 + 1). eapply run_step; [exact (step_wait finished 0 eq_refl eq_refl)| |].
  { intros (i & H1 & H2). destruct (decide (0 = i)) as [<-|Hne]; [discriminate H1|].
    by rewrite closer_other in H2. }
  eapply Hq; [exact (step_accept_closed returned eq_refl eq_refl)|reflexivity|]. apply run_nil.
Qed.

Example closing_terminates_witness :
  7 <= todo swept + 3 * 0 /\ todo swept = 10 /\ ((forall y2, step ended y2 -> outside ended y2) -> over ended).
Proof.
  destruct (closing_terminates swept 0 7 ended swept_reachable eq_refl swept_to_ended) as [H1 H2].
  split; [exact H1|]. split; [vm_compute; reflexivity|exact H2].
Defined.
