(* ===== verification/Turns.v ===== *)
(** * A connection handler turn by turn

    [Server.handle] cut into the steps between which other goroutines run:
    reading a frame, answering it, and leaving the loop.  The connection may
    be closed from outside at any time, also in the middle of a step; what
    has been written stays a prefix of the answers owed, and is all of them
    when the connection is left alone. *)

From S2P Require Import Prelude GoIO Frame Headers Messages Conn Net Paths OsFs Resolver.
From S2P Require Import Server ServerSpec ServerProofs.

(** Where a handler is in its loop. *)
Inductive activity : Type :=
  | Reading (br : bufio conn)               (** about to read a frame *)
  | Serving (f : Frame) (br : bufio conn)   (** about to answer [f] *)
  | Over (br : bufio conn).                 (** has left the loop *)

(** What is known of a connection another goroutine closes: what was written
    stays written, and no more can be read than before.  How many of the
    coming calls still succeed is open. *)
Definition interrupted (c c' : conn) : Prop :=
  wr_out c' = wr_out c /\ pending c' `prefix_of` pending c.

(** A connection as the next call finds it. *)
Definition found (dead : bool) (c c' : conn) : Prop := if dead then interrupted c c' else c' = c.

Section Turns.
Context {FS : Type} `{Filesystem FS} (IsPrint : Z -> bool) (fs : FS) (s : Server).

(** The state at the start of a step, which collects the lines it logs. *)
Definition resume (br : bufio conn) (c : conn) (handles : Z) : hstate :=
  MkState {| bf_buf := bf_buf br; bf_src := c |} handles [].

(** The loop is left: the deferred log line. *)
Definition leave (st : hstate) : activity * hstate := (Over (h_br st), logf s LogDisconnected st).

(** The first half of a turn of [handle]'s loop: the frame, unless the loop
    is left. *)
Definition read_step (st : hstate) : option Frame * hstate :=
  let '(r, st) := next_frame s st in
  match r with
  | Ok f => (Some f, st)
  | Err e => (None, onReadError s e st)
  end.

(** The halves make the loop. *)
Lemma handle_loop_turn fuel st :
  handle_loop IsPrint fs s (S fuel) st =
    match read_step st with
    | (None, st) => Some st
    | (Some f, st) =>
      let '(go_on, st) := serve_frame IsPrint fs s f st in
      if go_on then handle_loop IsPrint fs s fuel st else Some st
    end.
Proof. unfold read_step. cbn [handle_loop]. by destruct (next_frame s st) as [[f|e] st1]. Qed.

Definition read_turn (br : bufio conn) (c : conn) (handles : Z) : activity * hstate :=
  match read_step (resume br c handles) with
  | (Some f, st) => (Serving f (h_br st), st)
  | (None, st) => leave st
  end.

Definition serve_turn (f : Frame) (br : bufio conn) (c : conn) (handles : Z) : activity * hstate :=
  let '(go_on, st) := serve_frame IsPrint fs s f (resume br c handles) in
  if go_on then (Reading (h_br st), st) else leave st.

(** ** What a connection is owed so far *)

Context (Hsized : files_sized fs) (Ht : 0 <= s_writeTimeout s) (Hidle : 0 <= s_idleTimeout s).

Definition owes (f : Frame) : list Frame := (reply fs (s_res s) f).1.
Definition goes_on (f : Frame) : Prop := (reply fs (s_res s) f).2 = true.
Definition answers (done : list Frame) : list Frame := List.concat (owes <$> done).

Lemma session_answers done more e :
  Forall goes_on done ->
  session fs (s_res s) (done ++ more) e = answers done ++ session fs (s_res s) more e.
Proof.
  induction 1 as [|f done Hf Hd IH]; [done|]. unfold goes_on in Hf.
  cbn [app session answers fmap list_fmap List.concat]. unfold owes at 1.
  destruct (reply fs (s_res s) f) as [frames go]. cbn [fst snd] in *. subst go.
  by rewrite IH, app_assoc.
Qed.

Lemma answers_snoc done f : answers (done ++ [f]) = answers done ++ owes f.
Proof. unfold answers. by rewrite fmap_app, concat_app; cbn; rewrite app_nil_r. Qed.

(** The network of a connection as it was accepted: what its peer sends. *)
Context (c0 : conn) (frames : list Frame) (e : frame_error).
Context (Hall : reads_all (c_fin c0).2 (pending c0) frames e).

Definition healthy_from (T : Z) : Prop := healthy s T (MkState (NewReader c0) 0 []).

(** The frames [done] are answered, [rest] is still to be read; [alone] is
    whether the connection has been left alone. *)
Record under_way (alone : Prop) (done rest : list Frame) (br : bufio conn) : Prop := {
  uw_go : Forall goes_on done;
  uw_out : wr_out (bf_src br) = wr_out c0 ++ wires (answers done);
  uw_input : exists x, reads_all (c_fin c0).2 (buffered br ++ x) rest e /\ (alone -> x = []);
  uw_fin : alone -> c_fin (bf_src br) = c_fin c0;
  uw_healthy T : alone -> healthy_from T -> prompt (s_idleTimeout s) (s_writeTimeout s) T (bf_src br);
}.

(** What was written when the loop is left: a prefix of the answers to a
    prefix of the frames, and all the answers to all of them if the network
    was healthy and the connection left alone. *)
Definition ended_well (alone : Prop) (br : bufio conn) : Prop :=
  exists answered e' k, answered `prefix_of` frames /\
    wr_out (bf_src br) = wr_out c0 ++ take k (wires (session fs (s_res s) answered e')) /\
    (alone -> (exists T, healthy_from T) ->
     answered = frames /\ e' = e /\ (length (wires (session fs (s_res s) answered e')) <= k)%nat).

Definition conn_ok (alone : Prop) (a : activity) : Prop :=
  match a with
  | Reading br => exists done rest, frames = done ++ rest /\ under_way alone done rest br
  | Serving f br => received f /\ exists done rest, frames = done ++ f :: rest /\ under_way alone done rest br
  | Over br => ended_well alone br
  end.

Lemma under_way_weaken (P Q : Prop) done rest br : (Q -> P) -> under_way P done rest br -> under_way Q done rest br.
Proof.
  intros HQ [Hg Ho (x & Hx & Ha) Hf Hh]. split; try done; auto. exists x. auto.
Qed.

Lemma conn_ok_weaken (P Q : Prop) a : (Q -> P) -> conn_ok P a -> conn_ok Q a.
Proof.
  intros HQ. destruct a as [br|f br|br]; cbn.
  - intros (done & rest & E & U). exists done, rest. eauto using under_way_weaken.
  - intros (Hf & done & rest & E & U). split; [done|]. exists done, rest. eauto using under_way_weaken.
  - intros (answered & e' & k & Hp & Ho & Hfull). exists answered, e', k. auto.
Qed.

Lemma start_ok alone : conn_ok alone (Reading (NewReader c0)).
Proof.
  exists [], frames. split; [done|]. split; try done.
  - cbn. by rewrite app_nil_r.
  - exists []. rewrite app_nil_r. by split.
Qed.

Lemma found_ok dead alone done rest br c :
  found dead (bf_src br) c -> (dead = true -> ~ alone) ->
  under_way alone done rest br -> under_way alone done rest {| bf_buf := bf_buf br; bf_src := c |}.
Proof.
  intros Hc Hd [Hg Ho (x & Hx & Ha) Hf Hh]. destruct dead; cbn in Hc.
  - destruct Hc as [Hw [y Hy]]. specialize (Hd eq_refl). split; try (by intros; destruct Hd); try done.
    + cbn [bf_src]. by rewrite Hw.
    + exists (y ++ x). split; [|by intros]. unfold buffered in *. cbn [bf_buf bf_src].
      rewrite Hy in Hx. by rewrite <- !app_assoc in *.
  - subst c. split; try done. exists x. by split.
Qed.

(** ** Reading a frame *)

Lemma reads_all_first fin st f st' x rest :
  (forall fin, reads fin (input st) (Ok f) (input st')) ->
  reads_all fin (input st ++ x) rest e ->
  exists rest', rest = f :: rest' /\ reads_all fin (input st' ++ x) rest' e.
Proof.
  intros Hr Ha. destruct (reads_suffix _ _ _ _ (Hr fin)) as [u Hu].
  destruct (reads_all_total fin (input st' ++ x)) as (rest' & e' & Hrest).
  assert (Hf : reads fin (input st ++ x) (Ok f) (input st' ++ x)).
  { rewrite Hu, <- app_assoc. apply (reads_local fin _ (input st')). rewrite <- Hu. apply Hr. }
  destruct (reads_all_deterministic _ _ _ _ _ _ Ha (reads_all_next _ _ _ _ _ _ Hf Hrest)) as [-> ->].
  by exists rest'.
Qed.

Lemma leave_handles st a st' : leave st = (a, st') -> h_handles st' = h_handles st.
Proof. unfold leave, logf. intros [= _ <-]. by destruct (s_logger s). Qed.

(** Leaving the loop once [bs] has been sent, or a part of it. *)
Lemma leave_ok alone done st0 st a st' answered e' :
  Forall goes_on done -> out st0 = wr_out c0 ++ wires (answers done) ->
  (alone -> forall T, healthy_from T -> healthy s T st0) ->
  answered `prefix_of` frames ->
  (exists more, session fs (s_res s) answered e' = answers done ++ more /\ ends s (wires more) st0 st) ->
  (alone -> (exists T, healthy_from T) -> answered = frames /\ e' = e) ->
  leave st = (a, st') -> conn_ok alone a /\ h_handles st' = h_handles st0.
Proof.
  intros Hgo Ho Hheal Hp (more & Hs & (k & Ek & Fk) & Hh) Hall' Hl.
  split; [|by rewrite (leave_handles _ _ _ Hl)]. injection Hl as <- _.
  exists answered, e', (length (wires (answers done)) + k)%nat. split; [done|].
  assert (Hw : wires (session fs (s_res s) answered e') = wires (answers done) ++ wires more)
    by (by rewrite Hs, wires_app).
  rewrite Hw, take_app_add. split.
  - change (wr_out (bf_src (h_br st))) with (out st). by rewrite Ek, Ho, app_assoc.
  - intros Ha HT. destruct (Hall' Ha HT) as [-> ->]. split; [done|]. split; [done|].
    rewrite length_app. destruct HT as [T HT]. specialize (Fk (ex_intro _ T (Hheal Ha T HT))). lia.
Qed.

Lemma read_turn_ok alone done rest br c h a st' :
  frames = done ++ rest -> under_way alone done rest {| bf_buf := bf_buf br; bf_src := c |} ->
  read_turn br c h = (a, st') -> conn_ok alone a /\ h_handles st' = h.
Proof.
  intros Hfr [Hgo Ho (x & Hx & Hxa) Hfin Hheal]. unfold read_turn, read_step.
  destruct (next_frame s (resume br c h)) as [r st] eqn:En.
  destruct (next_frame_spec s _ _ _ En) as (Eo & Eh & Ef & Hh & Hr).
  assert (Hheal' : alone -> forall T, healthy_from T -> healthy s T st) by (intros Ha T HT; apply Hh; by apply Hheal).
  destruct r as [f|e0].
  - intros [= <- <-]. split; [|done]. destruct Hr as (Hrec & _ & Hreads).
    destruct (reads_all_first _ (resume br c h) f st x rest Hreads Hx) as (rest' & -> & Hrest).
    split; [done|]. exists done, rest'. split; [done|]. split; try done.
    + change (out st = wr_out c0 ++ wires (answers done)). by rewrite Eo.
    + by exists x.
    + intros Ha. change (c_fin (h_conn st) = c_fin c0). rewrite Ef. by apply Hfin.
    + intros T Ha. by apply Hheal'.
  - intros Hl. pose proof (onReadError_spec s e0 st Ht) as Hends.
    eapply (leave_ok alone done st _ _ _ done e0) in Hl; try done.
    + by rewrite Eh in Hl.
    + by rewrite Eo.
    + rewrite Hfr. by exists rest.
    + exists (goodbye e0). rewrite <- (app_nil_r done) at 1. by rewrite session_answers.
    + intros Ha [T HT]. destruct (Hr T Hidle (Hheal T Ha HT)) as [rest0 Hr0].
      rewrite (Hxa Ha), app_nil_r in Hx. change (c_fin (h_conn (resume br c h))) with (c_fin c) in Hr0.
      cbn [bf_src] in Hfin. rewrite (Hfin Ha) in Hr0.
      destruct (reads_all_deterministic _ _ _ _ _ _ Hx (reads_all_end _ _ _ _ Hr0)) as [-> ->].
      by rewrite Hfr, app_nil_r.
Qed.

(** ** Answering it *)

Lemma serve_turn_ok alone done f rest br c h a st' :
  received f -> frames = done ++ f :: rest ->
  under_way alone done rest {| bf_buf := bf_buf br; bf_src := c |} ->
  serve_turn f br c h = (a, st') -> conn_ok alone a /\ h_handles st' = h.
Proof.
  intros Hf Hfr [Hgo Ho (x & Hx & Hxa) Hfin Hheal]. unfold serve_turn.
  destruct (serve_frame IsPrint fs s f (resume br c h)) as [go_on st] eqn:Es.
  apply serve_frame_spec in Es; [|done..].
  destruct (reply fs (s_res s) f) as [out1 go] eqn:Erep. destruct go_on.
  - destruct Es as [-> ([K1 K2 K3 K4 K5] & (k & Ek & Fk) & _)]. intros [= <- <-]. split; [|done].
    exists (done ++ [f]), rest. rewrite <- app_assoc. split; [done|]. split.
    + apply Forall_app. split; [done|]. apply Forall_singleton. unfold goes_on. by rewrite Erep.
    + change (out st = wr_out c0 ++ wires (answers (done ++ [f]))).
      rewrite Ek, take_ge, answers_snoc, wires_app, app_assoc by auto. f_equal; [by rewrite <- Ho|].
      unfold owes. by rewrite Erep.
    + exists x. split; [|done]. unfold buffered, pending in *. unfold h_conn in K2. by rewrite K1, K2.
    + intros Ha. change (c_fin (h_conn st) = c_fin c0). rewrite K3. by apply Hfin.
    + intros T Ha HT. apply K5. by apply Hheal.
  - intros Hl. eapply (leave_ok alone done (resume br c h) _ _ _ frames e) in Hl; try done; [intros Ha T HT; by apply Hheal|].
    exists (out1 ++ if go then session fs (s_res s) rest e else []). split; [|apply Es].
    rewrite Hfr, session_answers by done. cbn [session]. by rewrite Erep.
Qed.
End Turns.
