(* ===== verification/System.v ===== *)
(** * internal/server: the whole server

    The threads of file Lifecycle.v with the connections their handlers work
    on: any number of clients are accepted, each handler reads and answers
    frames of its own connection, [Close] comes at any time.  The steps of
    all of them interleave freely.  What a client is told does not depend on
    the others, and a run of the server is a run of the threads.

    [Serve] and [Close] move by the steps of file Lifecycle.v, none of them
    merged: when [Accept] has failed, asking [isClosed], logging and the pause
    are three steps, and [Close] may come in between.  A turn of a handler is
    one step, and so is the start of its goroutine with the first log line.
    Handlers share the log, the count of open files and what [Close] does to
    their connections.  The last may take effect at any call within a turn
    (see [found]), the count is the same after each turn, and [Close] returns
    only after the last turn of each; so all that finer steps of handlers
    would add is other places of a handler's lines among those of other
    connections and of [Serve]. *)

From S2P Require Import Prelude GoIO Frame Headers Messages Conn Net Paths OsFs Resolver.
From S2P Require Import Server ServerSpec ServerProofs Turns Lifecycle Closing.

(** A line of the log: about a connection, or [Serve]'s own. *)
Inductive entry : Type :=
  | About (c : Z) (l : logline)
  | AcceptFailed.

(** The threads, the connections of the handlers, the file handles the
    process has open, and the log. *)
Record state : Type := MkSystem {
  life : sys;
  work : gmap Z activity;
  opened : Z;
  journal : list entry;
}.

Section System.
Context {FS : Type} `{Filesystem FS} (IsPrint : Z -> bool) (fs : FS) (s : Server).
Context (net : Z -> conn).        (** the connection [Accept] returns under a number *)

Definition new_system : state := MkSystem Lifecycle.init ∅ 0 [].

(** [go s.handle(conn)] *)
Definition started (c : Z) (y : sys) : sys :=
  MkSys (shared y) SAccept (<[c := HRunning]> (handlers y)) (closers y) (accepted y).

Definition dead (c : Z) (m : state) : bool := bool_decide (c ∈ srv_dead (shared (life m))).

(** A step of handler [c] that leaves it as [a]. *)
Definition worked (c : Z) (a : activity) (st : hstate) (m : state) : state :=
  MkSystem (life m) (<[c := a]> (work m)) (h_handles st) (journal m ++ (About c <$> h_log st)).

(** [Serve], having found the server open, logs the failure of [Accept]. *)
Definition retries (y y' : sys) : Prop := serve y = SRetry /\ serve y' = SPause.

(** Steps that neither start a handler nor end the loop of one. *)
Definition no_handler_runs (y y' : sys) : Prop :=
  forall c, handlers y' !! c = handlers y !! c \/
    exists pc pc', handlers y !! c = Some pc /\ pc <> HRunning /\ handlers y' !! c = Some pc' /\ pc' <> HRunning.

Lemma no_handler_runs_deferred y c old pc sh :
  handlers y !! c = Some old -> old <> HRunning -> pc <> HRunning -> no_handler_runs y (with_handler c pc sh y).
Proof.
  intros Hc Ho Hp d. cbn. destruct (decide (c = d)) as [<-|Hne].
  - right. exists old, pc. by rewrite lookup_insert_eq.
  - left. by rewrite lookup_insert_ne.
Qed.

Inductive system_step : state -> state -> Prop :=
  (** [Serve], [Close] and the deferred calls of handlers *)
  | sys_thread m y' :
      step (life m) y' -> no_handler_runs (life m) y' -> ~ retries (life m) y' ->
      system_step m (MkSystem y' (work m) (opened m) (journal m))
  (** [s.logf("accept failed: %v", err)]: [isClosed] was another step, and
      [Close] may have come, and even returned, since *)
  | sys_retry m y' :
      step (life m) y' -> retries (life m) y' ->
      system_step m (MkSystem y' (work m) (opened m) (journal m ++ if s_logger s then [AcceptFailed] else []))
  | sys_start m c :
      serve (life m) = SGo c ->
      let st := logf s LogConnected (resume (NewReader (net c)) (net c) (opened m)) in
      system_step m (worked c (Reading (NewReader (net c))) st
        (MkSystem (started c (life m)) (work m) (opened m) (journal m)))
  (** the loop of [handle] *)
  | sys_read m c br co a st :
      work m !! c = Some (Reading br) -> found (dead c m) (bf_src br) co ->
      read_turn s br co (opened m) = (a, st) ->
      system_step m (worked c a st m)
  | sys_serve m c f br co a st :
      work m !! c = Some (Serving f br) -> found (dead c m) (bf_src br) co ->
      serve_turn IsPrint fs s f br co (opened m) = (a, st) ->
      system_step m (worked c a st m)
  (** its end: the deferred [conn.Close()] *)
  | sys_end m c br :
      work m !! c = Some (Over br) -> handlers (life m) !! c = Some HRunning ->
      system_step m (MkSystem (with_handler c HClosed (close_conn c (shared (life m))) (life m))
        (work m) (opened m) (journal m)).

Definition system_reachable (m : state) : Prop := rtc system_step new_system m.

(** Logging a failure changes nothing else. *)
Lemma retries_alone y y' : step y y' -> retries y y' -> y' = with_serve SPause (shared y) y.
Proof.
  intros Hs [E E']. by destruct Hs; cbn in E'; try congruence.
Qed.

(** Either way the threads can move. *)
Lemma thread_moves m y' :
  step (life m) y' -> no_handler_runs (life m) y' ->
  exists j, system_step m (MkSystem y' (work m) (opened m) j).
Proof.
  intros Hs Hn. assert (Hd : retries (life m) y' \/ ~ retries (life m) y').
  { unfold retries. destruct (serve (life m)); try (right; by intros [? _]).
    destruct (serve y'); try (right; by intros [_ ?]). by left. }
  destruct Hd; eexists; [by apply sys_retry|by apply sys_thread].
Qed.

(** ** A run of the server is a run of the threads *)

Lemma system_step_life m m' : system_step m m' -> life m' = life m \/ step (life m) (life m').
Proof.
  destruct 1; cbn; try (by left); right; [done|done|by apply step_go|by apply step_handler_close].
Qed.

Lemma system_life m m' : rtc system_step m m' -> rtc step (life m) (life m').
Proof.
  induction 1 as [m|m m1 m2 Hs _ IH]; [done|].
  destruct (system_step_life _ _ Hs) as [E|Hst]; [by rewrite <- E|by eapply rtc_l].
Qed.

Lemma system_reachable_life m : system_reachable m -> reachable (life m).
Proof. apply system_life. Qed.

(** ** The invariant *)

Context (Hsized : files_sized fs) (Ht : 0 <= s_writeTimeout s) (Hidle : 0 <= s_idleTimeout s).

Definition running (a : activity) : Prop := match a with Over _ => False | _ => True end.

Record system_inv (m : state) : Prop := {
  si_life : reachable (life m);
  si_work c : is_Some (work m !! c) <-> is_Some (handlers (life m) !! c);
  si_running c a : work m !! c = Some a -> running a -> handlers (life m) !! c = Some HRunning;
  si_opened : opened m = 0;
  si_conn c a frames e : work m !! c = Some a -> reads_all (c_fin (net c)).2 (pending (net c)) frames e ->
    conn_ok fs s (net c) frames e (closed (shared (life m)) = false) a;
}.

(** The connection [Serve] is about to start a handler for has none yet. *)
Lemma unstarted m c : system_inv m -> serve (life m) = SGo c -> work m !! c = None.
Proof.
  intros [Hr Hw _ _ _] Hg. apply eq_None_not_Some. rewrite Hw.
  destruct (inv_fresh _ (reachable_inv _ Hr) c) as [_ Hn]; [auto|]. rewrite Hn. by apply is_Some_None.
Qed.

(** A connection whose handler runs is open as long as the server is. *)
Lemma running_alive m c a :
  system_inv m -> work m !! c = Some a -> running a -> dead c m = true -> closed (shared (life m)) <> false.
Proof.
  intros [Hr _ Hrun _ _] Hc Ha Hd Hcl. apply bool_decide_eq_true in Hd.
  destruct (reachable_undisturbed _ Hr Hcl c Hd) as (pc & Hh & Hpc).
  rewrite (Hrun c a Hc Ha) in Hh. congruence.
Qed.

(** A step of a handler that runs. *)
Lemma worked_inv m c a0 a st :
  system_inv m -> work m !! c = Some a0 -> running a0 ->
  (forall frames e, reads_all (c_fin (net c)).2 (pending (net c)) frames e ->
   conn_ok fs s (net c) frames e (closed (shared (life m)) = false) a /\ h_handles st = 0) ->
  system_inv (worked c a st m).
Proof.
  intros [Hr Hw Hrun Ho Hconn] Hc Ha Hok. split; cbn [worked life work opened]; try done.
  - intros d. rewrite <- Hw. destruct (decide (c = d)) as [<-|Hne].
    + rewrite lookup_insert_eq, Hc. by split.
    + by rewrite lookup_insert_ne.
  - intros d a' [[<- <-]|[Hne Hd]]%lookup_insert_Some Hra; [by eapply Hrun|by eapply Hrun].
  - destruct (reads_all_total (c_fin (net c)).2 (pending (net c))) as (fr0 & e0 & Hall0).
    apply (Hok fr0 e0 Hall0).
  - intros d a' fr e [[<- <-]|[Hne Hd]]%lookup_insert_Some Hall; [by apply Hok|by eapply Hconn].
Qed.

Lemma thread_inv m y' j :
  system_inv m -> step (life m) y' -> no_handler_runs (life m) y' ->
  system_inv (MkSystem y' (work m) (opened m) j).
Proof.
  intros [Hr Hw Hrun Ho Hconn] Hs Hn. split; cbn [life work opened]; try done.
  - by eapply rtc_r.
  - intros c. rewrite Hw. destruct (Hn c) as [->|(pc & pc' & -> & _ & -> & _)]; [done|by split].
  - intros c a Hc Ha. destruct (Hn c) as [->|(pc & pc' & Hh & Hpc & _)]; [by eapply Hrun|].
    rewrite (Hrun c a Hc Ha) in Hh. congruence.
  - intros c a fr e Hc Hall. eapply conn_ok_weaken; [|by eapply Hconn].
    intros Hcl. apply not_true_iff_false. intros Ht'. apply (step_closed_mono _ _ Hs) in Ht'. congruence.
Qed.

Lemma start_inv m c st :
  system_inv m -> serve (life m) = SGo c -> h_handles st = opened m ->
  system_inv (worked c (Reading (NewReader (net c))) st
    (MkSystem (started c (life m)) (work m) (opened m) (journal m))).
Proof.
  intros [Hr Hw Hrun Ho Hconn] Hg Hst. split; cbn [worked life work opened started handlers shared].
  - eapply rtc_r; [exact Hr|by apply step_go].
  - intros d. destruct (decide (c = d)) as [<-|Hne].
    + rewrite !lookup_insert_eq. by split.
    + by rewrite !lookup_insert_ne.
  - intros d a [[<- <-]|[Hne Hd]]%lookup_insert_Some Ha; [by rewrite lookup_insert_eq|].
    rewrite lookup_insert_ne by done. by eapply Hrun.
  - by rewrite Hst.
  - intros d a fr e [[<- <-]|[Hne Hd]]%lookup_insert_Some Hall; [by apply start_ok|by eapply Hconn].
Qed.

Lemma end_inv m c br :
  system_inv m -> work m !! c = Some (Over br) -> handlers (life m) !! c = Some HRunning ->
  system_inv (MkSystem (with_handler c HClosed (close_conn c (shared (life m))) (life m))
    (work m) (opened m) (journal m)).
Proof.
  intros [Hr Hw Hrun Ho Hconn] Hc Hh. split; cbn [life work opened with_handler handlers shared close_conn closed];
    try done.
  - eapply rtc_r; [exact Hr|by apply step_handler_close].
  - intros d. rewrite Hw. destruct (decide (c = d)) as [<-|Hne].
    + rewrite lookup_insert_eq, Hh. by split.
    + by rewrite lookup_insert_ne.
  - intros d a Hd Ha. destruct (decide (c = d)) as [<-|Hne].
    + rewrite Hc in Hd. injection Hd as <-. done.
    + rewrite lookup_insert_ne by done. by eapply Hrun.
Qed.

Lemma system_step_inv m m' : system_step m m' -> system_inv m -> system_inv m'.
Proof.
  intros Hs Hi. destruct Hs as [m y' Hs Hn _|m y' Hs Hr|m c Hg st|m c br co a st Hc Hf Hr|m c f br co a st Hc Hf Hr|m c br Hc Hh].
  - by apply thread_inv.
  - apply thread_inv; [done..|]. rewrite (retries_alone _ _ Hs Hr). intros c. by left.
  - apply start_inv; [done..|]. unfold st, logf. by destruct (s_logger s).
  - rewrite (si_opened m Hi) in Hr. eapply worked_inv; [done|exact Hc|done|]. intros fr e Hall.
    destruct (si_conn m Hi c _ fr e Hc Hall) as (done & rest & Efr & Hu).
    eapply read_turn_ok in Hr; eauto. eapply found_ok; [exact Hf|by eapply running_alive|exact Hu].
  - rewrite (si_opened m Hi) in Hr. eapply worked_inv; [done|exact Hc|done|]. intros fr e Hall.
    destruct (si_conn m Hi c _ fr e Hc Hall) as (Hrec & done & rest & Efr & Hu).
    eapply serve_turn_ok in Hr; eauto. eapply found_ok; [exact Hf|by eapply running_alive|exact Hu].
  - by eapply end_inv.
Qed.

Lemma new_system_inv : system_inv new_system.
Proof.
  split; cbn; try done; try apply rtc_refl.
  intros c. by rewrite !lookup_empty.
Qed.

Lemma system_reachable_inv m : system_reachable m -> system_inv m.
Proof.
  revert m. apply (rtc_ind_r system_inv new_system); [apply new_system_inv|].
  intros m1 m2 _ Hs Hi. by eapply system_step_inv.
Qed.
End System.

(** ** Running it *)

(** The step of a handler nobody interrupts. *)
Definition advance {FS} `{Filesystem FS} (IsPrint : Z -> bool) (fs : FS) (s : Server) (c : Z) (m : state) : state :=
  match work m !! c with
  | Some (Reading br) => let '(a, st) := read_turn s br (bf_src br) (opened m) in worked c a st m
  | Some (Serving f br) => let '(a, st) := serve_turn IsPrint fs s f br (bf_src br) (opened m) in worked c a st m
  | _ => m
  end.

Lemma found_itself d c : found d c c.
Proof. destruct d; [split; [done|exists []; by rewrite app_nil_r]|done]. Qed.

Lemma advance_step {FS} `{Filesystem FS} IsPrint (fs : FS) s net c m :
  advance IsPrint fs s c m = m \/ system_step IsPrint fs s net m (advance IsPrint fs s c m).
Proof.
  unfold advance. destruct (work m !! c) as [[br|f br|br]|] eqn:Ec; [right..|by left|by left].
  - destruct (read_turn s br (bf_src br) (opened m)) as [a st] eqn:Er.
    eapply sys_read; [exact Ec|apply found_itself|exact Er].
  - destruct (serve_turn IsPrint fs s f br (bf_src br) (opened m)) as [a st] eqn:Er.
    eapply sys_serve; [exact Ec|apply found_itself|exact Er].
Qed.

Lemma advance_steps {FS} `{Filesystem FS} IsPrint (fs : FS) s net c m :
  rtc (system_step IsPrint fs s net) m (advance IsPrint fs s c m).
Proof. destruct (advance_step IsPrint fs s net c m) as [->|Hs]; [done|by apply rtc_once]. Qed.

Lemma advance_reachable {FS} `{Filesystem FS} IsPrint (fs : FS) s net cs m :
  system_reachable IsPrint fs s net m -> system_reachable IsPrint fs s net (foldr (advance IsPrint fs s) m cs).
Proof.
  intros Hm. unfold system_reachable in *. induction cs as [|c cs IH]; [done|].
  cbn [foldr]. etrans; [exact IH|apply advance_steps].
Qed.

Lemma advance_life {FS} `{Filesystem FS} IsPrint (fs : FS) s cs m :
  life (foldr (advance IsPrint fs s) m cs) = life m.
Proof.
  induction cs as [|c cs IH]; [done|]. cbn [foldr]. rewrite <- IH. unfold advance.
  destruct (work _ !! c) as [[br|f br|br]|]; [..|done|done].
  - by destruct (read_turn s br _ _).
  - by destruct (serve_turn IsPrint fs s f br _ _).
Qed.
