(* ===== verification/SystemProps.v ===== *)
(** * Properties of the whole server

    What every client is told in any interleaving, and that a run of the
    server is a run of its threads, with what that says of [Close]. *)

From S2P Require Import Prelude GoIO Frame Headers Messages Conn Net Paths OsFs Resolver.
From S2P Require Import Server ServerSpec ServerProofs ServerProps Turns Lifecycle Closing System.

Definition conn_of (a : activity) : conn :=
  match a with Reading br | Serving _ br | Over br => bf_src br end.

Section Props.
Context {FS : Type} `{Filesystem FS} (IsPrint : Z -> bool) (fs : FS) (s : Server) (net : Z -> conn).
Context (Hsized : files_sized fs) (Ht : 0 <= s_writeTimeout s) (Hidle : 0 <= s_idleTimeout s).

(** ** What clients are told *)

Lemma under_way_prefix c0 frames e alone done rest br rest' :
  frames = done ++ rest' -> under_way fs s c0 e alone done rest br ->
  exists answered e' k, answered `prefix_of` frames /\
    wr_out (bf_src br) = wr_out c0 ++ take k (wires (session fs (s_res s) answered e')).
Proof.
  intros -> [Hg Ho _ _ _]. exists done, e, (length (wires (answers fs s done))).
  split; [by exists rest'|]. rewrite <- (app_nil_r done) at 2.
  by rewrite session_answers, wires_app, take_app_length.
Qed.

Lemma conn_ok_prefix c0 frames e alone a :
  conn_ok fs s c0 frames e alone a ->
  exists answered e' k, answered `prefix_of` frames /\
    wr_out (conn_of a) = wr_out c0 ++ take k (wires (session fs (s_res s) answered e')).
Proof.
  destruct a as [br|f br|br]; cbn [conn_ok conn_of].
  - intros (done & rest & E & U). by eapply under_way_prefix.
  - intros (_ & done & rest & E & U). by eapply under_way_prefix.
  - intros (answered & e' & k & Hp & Ho & _). by exists answered, e', k.
Qed.

(** (C12) Every client of the server gets what it is owed, whatever the other
    clients do: in every reachable state of the whole server -- any number of
    connections, any interleaving, any networks, [Close] at any moment -- what
    was written to a connection is a prefix of the right answers to a prefix
    of the frames its peer sends, and every file handle has been given back.
    Until [Close] is called, a handler about to read has answered every frame
    it read in full, and one that has left its loop on a network that keeps
    the deadlines has answered the whole session. *)
Theorem clients_are_served m c frames e :
  system_reachable IsPrint fs s net m -> reads_all (c_fin (net c)).2 (pending (net c)) frames e ->
  opened m = 0 /\
  match work m !! c with
  | None => handlers (life m) !! c = None
  | Some a =>
    (exists answered e' k, answered `prefix_of` frames /\
       wr_out (conn_of a) = wr_out (net c) ++ take k (wires (session fs (s_res s) answered e'))) /\
    (closed (shared (life m)) = false ->
     match a with
     | Reading br => exists done rest, frames = done ++ rest /\
         wr_out (conn_of a) = wr_out (net c) ++ wires (answers fs s done)
     | Serving f br => exists done rest, frames = done ++ f :: rest /\
         wr_out (conn_of a) = wr_out (net c) ++ wires (answers fs s done)
     | Over br => (exists T, healthy_from s (net c) T) ->
         wr_out (conn_of a) = wr_out (net c) ++ wires (session fs (s_res s) frames e)
     end)
  end.
Proof.
  intros Hr Hall. pose proof (system_reachable_inv IsPrint fs s net Hsized Ht Hidle m Hr) as Hi.
  split; [apply (si_opened fs s net m Hi)|].
  destruct (work m !! c) as [a|] eqn:Ec.
  - pose proof (si_conn fs s net m Hi c a frames e Ec Hall) as Hok.
    split; [by eapply conn_ok_prefix|]. intros Hcl. destruct a as [br|f br|br]; cbn [conn_ok conn_of] in *.
    + destruct Hok as (done & rest & E & [_ Ho _ _ _]). by exists done, rest.
    + destruct Hok as (_ & done & rest & E & [_ Ho _ _ _]). by exists done, rest.
    + destruct Hok as (answered & e' & k & _ & Ho & Hfull). intros HT.
      destruct (Hfull Hcl HT) as (-> & -> & Hk). by rewrite Ho, take_ge.
  - apply eq_None_not_Some. rewrite <- (si_work fs s net m Hi), Ec. by apply is_Some_None.
Qed.

(** ** After [Close] *)

Lemma no_work_left m c a :
  system_reachable IsPrint fs s net m -> (exists i, closer i (life m) = CReturned) ->
  work m !! c = Some a -> ~ running a.
Proof.
  intros Hr [i Hc] Ha Hrun. pose proof (system_reachable_inv IsPrint fs s net Hsized Ht Hidle m Hr) as Hi.
  pose proof (reachable_inv _ (si_life fs s net m Hi)) as Hl.
  pose proof (quiet_handlers _ (wg_zero_quiet _ Hl (inv_returned _ Hl i Hc)) c HRunning
    (si_running fs s net m Hi c a Ha Hrun)). done.
Qed.

(** [Serve] is about to log an [Accept] that failed. *)
Definition about_to_log (m : state) : Prop := serve (life m) = SRetry.

(** What a step may add to the log when nothing but [Serve] has a line left:
    that one line. *)
Definition last_line (m m' : state) : Prop :=
  (journal m' = journal m /\ (about_to_log m' -> about_to_log m)) \/
  (about_to_log m /\ ~ about_to_log m' /\ journal m' = journal m ++ if s_logger s then [AcceptFailed] else []).

(** On a closed server [Serve] does not come to log a failure: only one that
    was found to be worth a line before is left to be logged. *)
Lemma closed_not_retrying y y' : step y y' -> closed (shared y) = true -> serve y' = SRetry -> serve y = SRetry.
Proof.
  intros Hs Hc E. destruct Hs; cbn in *; try congruence.
  - by destruct ok.
  - unfold isClosed in E. by rewrite Hc in E.
  - by destruct ok.
Qed.

Lemma system_step_after_close m m' i :
  system_reachable IsPrint fs s net m -> closer i (life m) = CReturned ->
  system_step IsPrint fs s net m m' ->
  closer i (life m') = CReturned /\ work m' = work m /\ last_line m m' /\
  handlers (life m') = handlers (life m).
Proof.
  intros Hr Hc Hs. pose proof (system_reachable_inv IsPrint fs s net Hsized Ht Hidle m Hr) as Hi.
  pose proof (reachable_inv _ (si_life fs s net m Hi)) as Hl.
  destruct Hs as [m y' Hs Hn _|m y' Hs Hre|m c Hg st|m c br co a st Hw Hf Ht'|m c f br co a st Hw Hf Ht'|m c br Hw Hh].
  - destruct (step_after_close i _ _ Hl Hc Hs) as [? ?]. split; [done|]. split; [done|]. split; [|done].
    left. split; [done|]. apply (closed_not_retrying _ _ Hs). apply (inv_swept _ Hl i). by rewrite Hc.
  - destruct (step_after_close i _ _ Hl Hc Hs) as [? ?]. split; [done|]. split; [done|]. split; [|done].
    destruct Hre as [E E']. right. split; [done|]. split; [|done]. unfold about_to_log. cbn. by rewrite E'.
  - pose proof (quiet_serve _ (wg_zero_quiet _ Hl (inv_returned _ Hl i Hc))) as Hq. by rewrite Hg in Hq.
  - by destruct (no_work_left m c _ Hr (ex_intro _ i Hc) Hw).
  - by destruct (no_work_left m c _ Hr (ex_intro _ i Hc) Hw).
  - pose proof (quiet_handlers _ (wg_zero_quiet _ Hl (inv_returned _ Hl i Hc)) c _ Hh). done.
Qed.

Lemma last_line_trans m m1 m2 : last_line m m1 -> last_line m1 m2 -> last_line m m2.
Proof.
  intros [[E1 N1]|(A1 & N1 & E1)] [[E2 N2]|(A2 & N2 & E2)]; unfold last_line; rewrite E2, E1; [| | |by destruct N1].
  - left. tauto.
  - right. tauto.
  - right. tauto.
Qed.

Lemma steps_after_close_log m m' i :
  system_reachable IsPrint fs s net m -> closer i (life m) = CReturned ->
  rtc (system_step IsPrint fs s net) m m' -> work m' = work m /\ last_line m m'.
Proof.
  intros Hr Hc Hs. induction Hs as [m|m m1 m2 H1 H2 IH]; [split; [done|by left]|].
  destruct (system_step_after_close m m1 i Hr Hc H1) as (Hc1 & Hw1 & Hj1 & _).
  destruct IH as [Hw Hj]; [by eapply rtc_r|done|]. split; [congruence|by eapply last_line_trans].
Qed.

(** (C15) The server is a refinement of its threads: every run of the whole
    server, handlers and connections included, is a run of the threads of
    file Lifecycle.v.  So what [Close] promises holds of the real handlers:
    when it has returned every handler has left its loop, and from then on
    nothing more is sent to anybody and no handler logs anything.  [Close]
    does not wait for [Serve]: if that found the server open after an [Accept]
    that failed and had yet to log so, its one line may still come, and it is
    the only one that may. *)
Theorem server_refines_threads m m' :
  system_reachable IsPrint fs s net m -> rtc (system_step IsPrint fs s net) m m' ->
  rtc step (life m) (life m') /\
  (forall i, closer i (life m) = CReturned ->
   work m' = work m /\
   (journal m' = journal m \/ (serve (life m) = SRetry /\ journal m' = journal m ++ [AcceptFailed])) /\
   forall c a, work m !! c = Some a -> ~ running a).
Proof.
  intros Hr Hs. split; [by eapply system_life|]. intros i Hc.
  assert (Hn : forall c a, work m !! c = Some a -> ~ running a)
    by (intros c a; apply no_work_left; [done|by exists i]).
  destruct (steps_after_close_log m m' i Hr Hc Hs) as [Hw Hj]. split; [done|]. split; [|done].
  destruct Hj as [[Hj _]|(E & _ & Hj)]; [by left|]. rewrite Hj.
  destruct (s_logger s); [by right|left; apply app_nil_r].
Qed.
End Props.

(** ** Two clients at once *)

(** [Serve] about to log an [Accept] that failed. *)
Definition failed (pc : serve_pc) : bool := match pc with SRetry => true | _ => false end.

Lemma not_retrying y y' : failed (serve y) = false -> ~ retries y y'.
Proof. intros Hf [E _]. by rewrite E in Hf. Qed.

Lemma quiet_thread {FS} `{Filesystem FS} IsPrint (fs : FS) s net m y' :
  system_reachable IsPrint fs s net m -> step (life m) y' -> handlers y' = handlers (life m) ->
  failed (serve (life m)) = false ->
  system_reachable IsPrint fs s net (MkSystem y' (work m) (opened m) (journal m)).
Proof.
  intros Hm Hs Hh Hr. eapply rtc_r; [exact Hm|]. apply sys_thread; [exact Hs| |by apply not_retrying].
  intros c. left. by rewrite Hh.
Qed.

Definition sample_net (c : Z) : conn := sample_conn.

(** Connections 7 and 8 are accepted; the handlers are about to read. *)
Definition got8 : sys :=
  MkSys (shared busy) (SGot 8) (handlers busy) (closers busy) ({[8]} ∪ accepted busy).
Definition tracked8 : sys := with_serve (SGo 8) (snd (track 8 (shared got8))) got8.

Definition greeted (c : Z) (m : state) : state :=
  worked c (Reading (NewReader (sample_net c)))
    (logf sample_server LogConnected (resume (NewReader (sample_net c)) (sample_net c) (opened m)))
    (MkSystem (started c (life m)) (work m) (opened m) (journal m)).

Definition one_client : state := greeted 7 (MkSystem tracked ∅ 0 []).
Definition two_clients : state :=
  greeted 8 (MkSystem tracked8 (work one_client) (opened one_client) (journal one_client)).

Definition sample_system_reachable := system_reachable no_rune sample_fs sample_server sample_net.

Lemma tracked_reachable net : system_reachable no_rune sample_fs sample_server net (MkSystem tracked ∅ 0 []).
Proof.
  assert (Hn : (7 : Z) ∉ accepted serving) by set_solver.
  pose proof (quiet_thread no_rune sample_fs sample_server net new_system serving (rtc_refl _ _)
    (step_begin Lifecycle.init true _ eq_refl eq_refl) eq_refl eq_refl) as H1.
  pose proof (quiet_thread _ _ _ _ _ got H1 (step_accept serving 7 eq_refl eq_refl Hn) eq_refl eq_refl) as H2.
  exact (quiet_thread _ _ _ _ _ tracked H2 (step_track got 7 true _ eq_refl eq_refl) eq_refl eq_refl).
Qed.

(** The handler of connection 7 is about to read. *)
Definition welcomed (net : Z -> conn) : state :=
  worked 7 (Reading (NewReader (net 7))) (logf sample_server LogConnected (resume (NewReader (net 7)) (net 7) 0))
    (MkSystem (started 7 tracked) ∅ 0 []).

Lemma welcomed_system net : system_reachable no_rune sample_fs sample_server net (welcomed net).
Proof.
  eapply rtc_r; [exact (tracked_reachable net)|]. exact (sys_start _ _ _ net (MkSystem tracked ∅ 0 []) 7 eq_refl).
Qed.

Lemma one_client_reachable : sample_system_reachable one_client.
Proof. exact (welcomed_system sample_net). Qed.

Lemma two_clients_reachable : sample_system_reachable two_clients.
Proof.
  assert (Hnew : (8 : Z) ∉ accepted busy).
  { change (8 ∉ (({[7]} ∪ ∅) : gset Z)). set_solver. }
  pose proof (quiet_thread _ _ _ _ _ got8 one_client_reachable (step_accept busy 8 eq_refl eq_refl Hnew) eq_refl eq_refl) as H5.
  pose proof (quiet_thread _ _ _ _ _ tracked8 H5 (step_track got8 8 true _ eq_refl eq_refl) eq_refl eq_refl) as H6.
  eapply rtc_r; [exact H6|].
  exact (sys_start _ _ _ sample_net (MkSystem tracked8 (work one_client) (opened one_client) (journal one_client))
    8 eq_refl).
Qed.

(** Their handlers take turns, in no particular order, until both are done;
    after the first few steps 7 has read a request. *)
Definition a_few : list Z := [7; 8; 8].
Definition to_the_end : list Z := [8; 8; 8; 8; 7; 7; 8; 7; 7; 7; 7] ++ a_few.

Definition reading_system : state := foldr (advance no_rune sample_fs sample_server) two_clients a_few.
Definition served_system : state := foldr (advance no_rune sample_fs sample_server) two_clients to_the_end.

Lemma clients_are_served_witness :
  exists br, work served_system !! 7 = Some (Over br) /\
    wr_out (bf_src br) = [] ++ wires (session sample_fs sample_root sample_frames (IOError EOF)).
Proof.
  assert (Hover : match work served_system !! 7 with Some (Over _) => true | _ => false end = true)
    by (vm_compute; reflexivity).
  assert (Hopen : closed (shared (life served_system)) = false) by (vm_compute; reflexivity).
  pose proof (clients_are_served no_rune sample_fs sample_server sample_net sample_sized ltac:(done) ltac:(done)
    served_system 7 sample_frames (IOError EOF)
    (advance_reachable _ _ _ _ to_the_end _ two_clients_reachable) sample_reads) as [_ Hw].
  destruct (work served_system !! 7) as [[br|f br|br]|]; [discriminate Hover..| |discriminate Hover].
  exists br. split; [reflexivity|]. destruct Hw as [_ Hw]. apply (Hw Hopen).
  exists (25 * Second). apply sample_healthy.
Defined.

(** ** One client, and [Close] *)

Notation sample_steps := (rtc (system_step no_rune sample_fs sample_server sample_net)).

(** The threads' part of a state of the server changes. *)
Definition with_life (y : sys) (m : state) : state := MkSystem y (work m) (opened m) (journal m).

Lemma with_life_steps m y' :
  step (life m) y' -> failed (serve (life m)) = false -> no_handler_runs (life m) y' ->
  sample_steps m (with_life y' m).
Proof. intros Hs Hf Hn. apply rtc_once. apply sys_thread; [done..|by apply not_retrying]. Qed.

(** [Close] sweeps while 7 is about to read its first frame; the read fails,
    the loop is left, and everybody returns. *)
Definition closed_system : state := with_life waiting one_client.
Definition left_system : state := foldr (advance no_rune sample_fs sample_server) closed_system [7; 7; 7; 7; 7; 7; 7].
Definition returned_system : state := with_life returned left_system.
Definition ended_system : state := with_life ended left_system.

Lemma closed_system_reachable : sample_system_reachable closed_system.
Proof.
  unfold sample_system_reachable, system_reachable. etrans; [exact one_client_reachable|].
  etrans; [apply (with_life_steps one_client swept (step_sweep busy 0 true _ eq_refl eq_refl) eq_refl); by left|].
  apply (with_life_steps (with_life swept one_client) waiting (step_close_listener swept 0 true eq_refl) eq_refl). by left.
Qed.

(** The deferred calls of the handler, and the return of [Close]. *)
Lemma deferred_calls m : sample_steps (with_life hung_up m) (with_life returned m).
Proof.
  assert (Hd : forall y sh c old pc, handlers y !! c = Some old -> old <> HRunning -> pc <> HRunning ->
    failed (serve y) = false -> step y (with_handler c pc sh y) -> sample_steps (with_life y m) (with_life (with_handler c pc sh y) m)).
  { intros y sh c old pc Hc Ho Hp Hf Hs.
    exact (with_life_steps (with_life y m) _ Hs Hf (no_handler_runs_deferred y c old pc sh Hc Ho Hp)). }
  etrans; [exact (Hd hung_up _ 7 HClosed HDeleted eq_refl ltac:(done) ltac:(done) eq_refl (step_untrack_conn hung_up 7 eq_refl))|].
  etrans; [exact (Hd deleted _ 7 HDeleted HUncounted eq_refl ltac:(done) ltac:(done) eq_refl
    (step_untrack_current deleted 7 eq_refl))|].
  etrans; [exact (Hd uncounted _ 7 HUncounted HDone eq_refl ltac:(done) ltac:(done) eq_refl
    (step_untrack_wg uncounted 7 eq_refl))|].
  apply (with_life_steps (with_life finished m) returned (step_wait finished 0 eq_refl eq_refl) eq_refl). by left.
Qed.

Lemma last_calls m br :
  life m = waiting -> work m !! 7 = Some (Over br) -> sample_steps m (with_life returned m).
Proof.
  intros Hl Hw. etrans; [|apply deferred_calls]. destruct m as [y w o j]. cbn in Hl. subst y.
  apply rtc_once. exact (sys_end _ _ _ _ (MkSystem waiting w o j) 7 br Hw eq_refl).
Qed.

(** At last [Serve] returns. *)
Lemma serve_returns m : sample_steps (with_life returned m) (with_life ended m).
Proof. apply (with_life_steps (with_life returned m) ended (step_accept_closed returned eq_refl eq_refl) eq_refl). by left. Qed.

Lemma returned_system_reachable : sample_system_reachable returned_system.
Proof.
  assert (H1 : sample_system_reachable left_system)
    by (unfold left_system; apply advance_reachable; exact closed_system_reachable).
  assert (Hl : life left_system = waiting) by apply advance_life.
  assert (Hw : match work left_system !! 7 with Some (Over _) => true | _ => false end = true) by (vm_compute; reflexivity).
  unfold sample_system_reachable, system_reachable, returned_system in *. revert H1 Hl Hw.
  generalize left_system. intros m H1 Hl Hw. etrans; [exact H1|].
  destruct (work m !! 7) as [[br|f br|br]|] eqn:Ew; try discriminate Hw. by apply (last_calls m br).
Qed.

Lemma server_refines_threads_witness :
  rtc step (life returned_system) (life ended_system) /\
  (forall i, closer i (life returned_system) = CReturned ->
   work ended_system = work returned_system /\
   (journal ended_system = journal returned_system \/
    (serve (life returned_system) = SRetry /\ journal ended_system = journal returned_system ++ [AcceptFailed])) /\
   forall c a, work returned_system !! c = Some a -> ~ running a).
Proof.
  apply (server_refines_threads no_rune sample_fs sample_server sample_net sample_sized ltac:(done) ltac:(done)
    returned_system ended_system).
  - exact returned_system_reachable.
  - exact (serve_returns left_system).
Defined.

(** ** The line that comes after [Close] *)

(** [Accept] fails, [Serve] finds the server open; before it logs the
    failure, [Close] is called and returns. *)
Definition late_failed : sys := with_serve SFailed (shared serving) serving.
Definition late_retry : sys := with_serve SRetry (shared late_failed) late_failed.
Definition late_swept : sys := with_closer 0 (CSwept true) (snd (close_sweep (shared late_retry))) late_retry.
Definition late_waiting : sys := with_closer 0 CWaiting (close_listener (shared late_swept)) late_swept.
Definition late_returned : sys := with_closer 0 CReturned (shared late_waiting) late_waiting.
Definition late_logged : sys := with_serve SPause (shared late_returned) late_returned.

Definition alone (y : sys) : state := MkSystem y ∅ 0 [].

Lemma late_returned_reachable : sample_system_reachable (alone late_returned).
Proof.
  assert (Hq : forall y y', sample_system_reachable (alone y) -> step y y' -> handlers y' = handlers y ->
    ~ retries y y' -> sample_system_reachable (alone y')).
  { intros y y' Hy Hs Hh Hr. eapply rtc_r; [exact Hy|]. apply (sys_thread _ _ _ _ (alone y)); [done| |done].
    intros c. left. by rewrite Hh. }
  apply (Hq late_waiting); [|exact (step_wait late_waiting 0 eq_refl eq_refl)|done|by intros [_ ?]].
  apply (Hq late_swept); [|exact (step_close_listener late_swept 0 true eq_refl)|done|by intros [_ ?]].
  apply (Hq late_retry); [|exact (step_sweep late_retry 0 true _ eq_refl eq_refl)|done|by intros [_ ?]].
  apply (Hq late_failed); [|exact (step_failed late_failed eq_refl)|done|by intros [_ ?]].
  apply (Hq serving); [|exact (step_accept_failed serving eq_refl)|done|by intros [_ ?]].
  apply (Hq Lifecycle.init); [apply rtc_refl|exact (step_begin Lifecycle.init true _ eq_refl eq_refl)|done|by intros [_ ?]].
Qed.

Lemma late_line_is_logged :
  closer 0 (life (alone late_returned)) = CReturned /\
  sample_steps (alone late_returned) (MkSystem late_logged ∅ 0 [AcceptFailed]).
Proof.
  split; [reflexivity|]. apply rtc_once.
  exact (sys_retry no_rune sample_fs sample_server sample_net (alone late_returned) late_logged
    (step_retry late_returned eq_refl) (conj eq_refl eq_refl)).
Qed.
