(* ===== verification/SystemClosing.v ===== *)
(** * Closing the whole server ends

    The bound of file Closing.v counts the steps of the threads; here the
    handlers' loops are counted too.  A loop takes at most two steps for
    every byte its client has still to send. *)

From S2P Require Import Prelude GoIO Frame Headers Messages Conn Net Paths OsFs Resolver.
From S2P Require Import Server ServerSpec ServerProofs ServerProps Turns Lifecycle Closing System SystemProps.

(** ** What a handler has left to do *)

Definition work_todo (a : activity) : Z :=
  match a with
  | Reading br => 2 * len (buffered br) + 1
  | Serving _ br => 2 * len (buffered br) + 2
  | Over _ => 0
  end.

Lemma work_todo_pos a : 0 <= work_todo a.
Proof. destruct a; cbn; pose proof (len_nonneg (buffered br)); lia. Qed.

Lemma found_shorter d br co :
  found d (bf_src br) co -> len (buffered {| bf_buf := bf_buf br; bf_src := co |}) <= len (buffered br).
Proof.
  intros Hf. unfold buffered. rewrite !len_app. cbn [bf_buf bf_src]. destruct d; cbn in Hf.
  - destruct Hf as [_ [y ->]]. rewrite len_app. pose proof (len_nonneg y). lia.
  - subst. lia.
Qed.

Section Closing.
Context {FS : Type} `{Filesystem FS} (IsPrint : Z -> bool) (fs : FS) (s : Server) (net : Z -> conn).
Context (Hsized : files_sized fs) (Ht : 0 <= s_writeTimeout s) (Hidle : 0 <= s_idleTimeout s).

Lemma read_turn_less br co h a st :
  read_turn s br co h = (a, st) -> work_todo a < 2 * len (buffered {| bf_buf := bf_buf br; bf_src := co |}) + 1.
Proof.
  unfold read_turn, read_step. destruct (next_frame s (resume br co h)) as [r st1] eqn:En.
  destruct (next_frame_spec s _ _ _ En) as (_ & _ & _ & _ & Hr).
  pose proof (len_nonneg (buffered {| bf_buf := bf_buf br; bf_src := co |})).
  destruct r as [f|e]; intros [= <- _]; cbn [work_todo]; [|lia].
  destruct Hr as (_ & Hlen & _). unfold HeaderSize in Hlen. change (buffered (h_br st1)) with (input st1).
  change (len (input st1) + 12 <= len (buffered {| bf_buf := bf_buf br; bf_src := co |})) in Hlen. lia.
Qed.

Lemma serve_turn_less f br co h a st :
  received f -> serve_turn IsPrint fs s f br co h = (a, st) ->
  work_todo a < 2 * len (buffered {| bf_buf := bf_buf br; bf_src := co |}) + 2.
Proof.
  intros Hf. unfold serve_turn. destruct (serve_frame IsPrint fs s f (resume br co h)) as [go_on st1] eqn:Es.
  apply serve_frame_spec in Es; [|done..]. destruct (reply fs (s_res s) f) as [frames go].
  pose proof (len_nonneg (buffered {| bf_buf := bf_buf br; bf_src := co |})).
  destruct go_on; intros [= <- _]; cbn [work_todo]; [|lia].
  destruct Es as [_ ([K1 K2 _ _ _] & _)]. unfold buffered, pending in *. unfold h_conn in K2.
  rewrite K1, K2. cbn. lia.
Qed.

(** ** The measure of the server *)

(** A handler about to be started has its connection's bytes ahead. *)
Definition start_todo (pc : serve_pc) : Z :=
  match pc with SGo c => 2 * len (pending (net c)) + 1 | _ => 0 end.

Definition system_todo (m : state) : Z := todo (life m) + start_todo (serve (life m)) + weigh work_todo (work m).

Lemma system_todo_pos m : 0 <= system_todo m.
Proof.
  unfold system_todo. pose proof (todo_pos (life m)). pose proof (weigh_pos work_todo (work m) work_todo_pos).
  assert (0 <= start_todo (serve (life m))); [|lia].
  destruct (serve (life m)); cbn; try lia. pose proof (len_nonneg (pending (net c))). lia.
Qed.

(** On a closed server no connection is let through any more. *)
Lemma start_todo_less y y' :
  step y y' -> closed (shared y) = true -> start_todo (serve y') <= start_todo (serve y).
Proof.
  assert (Hz : forall pc, 0 <= start_todo pc).
  { intros []; cbn; try lia. pose proof (len_nonneg (pending (net c))). lia. }
  intros Hs Hc.
  destruct Hs as [y ok s' E Hb|y E|y c E Hl Ha|y E Hl|y E|y Hl|y E|y E|y E|y c ok s' E Hb|y c E|y c E
    |y c Hh|y c Hh|y c Hh|y c Hh|y i l s' Hcl Hs|y i l Hcl|y i Hcl Hw]; cbn; try lia; try apply Hz.
  - destruct ok; cbn; apply Hz.
  - destruct (isClosed (shared y)); cbn; apply Hz.
  - unfold track in Hb. rewrite Hc in Hb. injection Hb as <- <-. cbn. apply Hz.
Qed.

Lemma worked_todo c a0 a st m :
  work m !! c = Some a0 -> system_todo (worked c a st m) = system_todo m - work_todo a0 + work_todo a.
Proof. intros Hc. unfold system_todo. cbn. rewrite (weigh_update _ _ _ _ _ Hc). lia. Qed.

Lemma thread_todo m y' j :
  inv (life m) -> closed (shared (life m)) = true -> step (life m) y' ->
  let m' := MkSystem y' (work m) (opened m) j in
  closed (shared (life m')) = true /\
  (system_todo m' + 1 <= system_todo m \/
   (calls_Close (life m) (life m') /\ system_todo m' <= system_todo m + 2)).
Proof.
  intros Hl Hc Hs m'. destruct (step_todo _ _ Hl Hc Hs) as [Hc' Hd]. pose proof (start_todo_less _ _ Hs Hc) as Hg.
  split; [done|]. unfold m', system_todo. cbn [life work].
  destruct Hd as [?|[? ?]]; [left; lia|right; split; [done|lia]].
Qed.

Lemma system_step_todo m m' :
  system_inv fs s net m -> closed (shared (life m)) = true -> system_step IsPrint fs s net m m' ->
  closed (shared (life m')) = true /\
  (system_todo m' + 1 <= system_todo m \/
   (calls_Close (life m) (life m') /\ system_todo m' <= system_todo m + 2)).
Proof.
  intros Hi Hc Hs. pose proof (reachable_inv _ (si_life fs s net m Hi)) as Hl.
  destruct Hs as [m y' Hs Hn _|m y' Hs Hre|m c Hg st|m c br co a st Hw Hf Hr|m c f br co a st Hw Hf Hr|m c br Hw Hh].
  - by apply thread_todo.
  - by apply thread_todo.
  - destruct (step_todo _ _ Hl Hc (step_go (life m) c Hg)) as [Hc' Hd].
    split; [done|]. left. unfold system_todo. cbn [worked life work]. fold (started c (life m)) in Hd.
    destruct Hd as [Hd|[Hd _]]; [|by apply calls_nothing in Hd].
    rewrite Hg. cbn [start_todo started serve]. rewrite weigh_new; [cbn [work_todo buffered NewReader bf_buf bf_src app]; lia|].
    apply eq_None_not_Some. rewrite (si_work fs s net m Hi). destruct (inv_fresh _ Hl c) as [_ Hn]; [auto|].
    rewrite Hn. by apply is_Some_None.
  - split; [done|]. left. rewrite (worked_todo c _ a st m Hw). cbn [work_todo].
    apply read_turn_less in Hr. apply found_shorter in Hf. lia.
  - split; [done|]. left. rewrite (worked_todo c _ a st m Hw). cbn [work_todo].
    destruct (reads_all_total (c_fin (net c)).2 (pending (net c))) as (fr0 & e0 & Hall0).
    destruct (si_conn fs s net m Hi c _ fr0 e0 Hw Hall0) as [Hrec _].
    apply serve_turn_less in Hr; [|done]. apply found_shorter in Hf. lia.
  - destruct (step_todo _ _ Hl Hc (step_handler_close (life m) c Hh)) as [Hc' Hd].
    split; [done|]. left. unfold system_todo. cbn [life work with_handler serve].
    destruct Hd as [Hd|[Hd _]]; [lia|by apply calls_nothing in Hd].
Qed.

(** [system_run k n m m']: [n] steps, [k] of them calls of [Close]. *)
Inductive system_run : Z -> Z -> state -> state -> Prop :=
  | srun_nil m : system_run 0 0 m m
  | srun_call k n m m1 m2 :
      system_step IsPrint fs s net m m1 -> calls_Close (life m) (life m1) -> system_run k n m1 m2 ->
      system_run (k + 1) (n + 1) m m2
  | srun_step k n m m1 m2 :
      system_step IsPrint fs s net m m1 -> ~ calls_Close (life m) (life m1) -> system_run k n m1 m2 ->
      system_run k (n + 1) m m2.

Lemma system_run_todo k n m m' :
  system_run k n m m' -> system_inv fs s net m -> closed (shared (life m)) = true ->
  n + system_todo m' <= system_todo m + 3 * k /\ system_inv fs s net m' /\ closed (shared (life m')) = true.
Proof.
  induction 1 as [m|k n m m1 m2 Hs Hcall Hr IH|k n m m1 m2 Hs Hcall Hr IH]; intros Hi Hc; [split; [lia|done]|..];
    destruct (system_step_todo m m1 Hi Hc Hs) as [Hc1 Hd];
    destruct (IH (system_step_inv IsPrint fs s net Hsized Ht Hidle _ _ Hs Hi) Hc1) as [IH1 IH2]; (split; [|done]).
  - destruct Hd as [?|[_ ?]]; lia.
  - destruct Hd as [?|[? _]]; [lia|done].
Qed.

(** ** Some thread can move until all is over *)

(** What a step of the threads is to the server. *)
Lemma step_kinds y y' :
  step y y' -> inv y ->
  no_handler_runs y y' \/
  (exists c, serve y = SGo c /\ y' = started c y) \/
  (exists c, handlers y !! c = Some HRunning /\ y' = with_handler c HClosed (close_conn c (shared y)) y).
Proof.
  intros Hs Hi. destruct Hs; try (by left; intros d; left); eauto 6 using no_handler_runs_deferred.
Qed.

Lemma system_stuck_over m :
  system_inv fs s net m -> closed (shared (life m)) = true ->
  (forall m', system_step IsPrint fs s net m m' -> outside (life m) (life m')) ->
  over (life m) /\ forall c a, work m !! c = Some a -> ~ running a.
Proof.
  intros Hi Hc Hstuck. destruct (reachable_ends _ (si_life fs s net m Hi)) as [Hl He].
  assert (Hsame : forall c a st, system_step IsPrint fs s net m (worked c a st m) -> False).
  { intros c a st Hs. destruct (Hstuck _ Hs) as [Ho|[[E [Ef|[d Ef]]]|(_ & _ & _ & E1 & E2)]]; cbn in *.
    - by apply calls_nothing in Ho.
    - congruence.
    - congruence.
    - congruence. }
  assert (Hwork : forall c a, work m !! c = Some a -> ~ running a).
  { intros c a Ha Hrun. destruct a as [br|f br|br]; [..|done].
    - destruct (read_turn s br (bf_src br) (opened m)) as [a st] eqn:Er. eapply Hsame. eapply sys_read; [exact Ha|apply found_itself|exact Er].
    - destruct (serve_turn IsPrint fs s f br (bf_src br) (opened m)) as [a st] eqn:Er.
      eapply Hsame. eapply sys_serve; [exact Ha|apply found_itself|exact Er]. }
  split; [|done]. apply stuck_over; [done..|]. intros y' Hs.
  destruct (step_kinds _ _ Hs Hl) as [Hn|[(c & Hg & ->)|(c & Hh & ->)]].
  - destruct (thread_moves IsPrint fs s net m y' Hs Hn) as [j Hm]. exact (Hstuck _ Hm).
  - exact (Hstuck _ (sys_start IsPrint fs s net m c Hg)).
  - destruct (work m !! c) as [a|] eqn:Ha.
    + destruct a as [br|f br|br]; [by destruct (Hwork _ _ Ha)..|].
      exact (Hstuck _ (sys_end IsPrint fs s net m c br Ha Hh)).
    + exfalso. assert (Hs' : is_Some (work m !! c)) by (apply (si_work fs s net m Hi); by rewrite Hh).
      rewrite Ha in Hs'. by destruct Hs'.
Qed.

(** (C13) Closing the whole server terminates, handlers and clients included.
    From the moment [Close] has marked the server closed, however the threads
    are scheduled and whatever the networks do, there are at most
    [system_todo] steps more -- the threads' own, and at most two for every
    byte the connected clients have yet to send -- and three for each further
    call of [Close]; and when nothing can move any more without a call, a
    connection or a failure from outside, everything is over and every handler
    has left its loop. *)
Theorem server_closing_terminates m k n m' :
  system_reachable IsPrint fs s net m -> closed (shared (life m)) = true -> system_run k n m m' ->
  n <= system_todo m + 3 * k /\
  ((forall m2, system_step IsPrint fs s net m' m2 -> outside (life m') (life m2)) ->
   over (life m') /\ forall c a, work m' !! c = Some a -> ~ running a).
Proof.
  intros Hr Hc Hrun. pose proof (system_reachable_inv IsPrint fs s net Hsized Ht Hidle m Hr) as Hi.
  destruct (system_run_todo k n m m' Hrun Hi Hc) as (Hn & Hi' & Hc'). split.
  - pose proof (system_todo_pos m'). lia.
  - by apply system_stuck_over.
Qed.
End Closing.

(** ** Closing on one client *)

(** Handler 7 finds its connection closed in the middle of reading. *)
Definition cut_off : activity * hstate := read_turn sample_server (NewReader sample_conn) (Close sample_conn) 0.

Definition cut_system : state := worked 7 (fst cut_off) (snd cut_off) closed_system.

Lemma closed_to_cut : system_run no_rune sample_fs sample_server sample_net 0 1 closed_system cut_system.
Proof.
  apply (srun_step no_rune sample_fs sample_server sample_net 0 0 closed_system cut_system cut_system);
    [|apply calls_nothing; reflexivity|apply srun_nil].
  apply (sys_read no_rune sample_fs sample_server sample_net closed_system 7 (NewReader sample_conn)
    (Close sample_conn) (fst cut_off) (snd cut_off)); [reflexivity| |unfold cut_off; apply surjective_pairing].
  assert (Hd : dead 7 closed_system = true) by (vm_compute; reflexivity). rewrite Hd.
  split; [done|]. exists []. by rewrite app_nil_r.
Qed.

Lemma server_closing_terminates_witness :
  1 <= system_todo sample_net closed_system + 3 * 0 /\
  match work cut_system !! 7 with Some (Over _) => True | _ => False end /\
  ((forall m2, system_step no_rune sample_fs sample_server sample_net cut_system m2 ->
    outside (life cut_system) (life m2)) ->
   over (life cut_system) /\ forall c a, work cut_system !! c = Some a -> ~ running a).
Proof.
  destruct (server_closing_terminates no_rune sample_fs sample_server sample_net sample_sized
    ltac:(done) ltac:(done) closed_system 0 1 cut_system closed_system_reachable eq_refl closed_to_cut) as [H1 H2].
  split; [exact H1|]. split; [vm_compute; exact I|exact H2].
Defined.
