(* ===== verification/SystemProgress.v ===== *)
(** * The whole server makes progress

    No handler waits for another: by its own steps alone it comes to the end
    of its loop, in at most two for every byte its client has still to send.
    So whatever the threads of file Lifecycle.v can do, the server can do;
    with the other direction in SystemProps.v the two have the same runs, and
    [Close] can return in the server because it can in the threads. *)

From S2P Require Import Prelude GoIO Frame Headers Messages Conn Net Paths OsFs Resolver.
From S2P Require Import Server ServerSpec ServerProofs ServerProps Turns Lifecycle Closing System SystemProps.
From S2P Require Import SystemClosing.

Section Progress.
Context {FS : Type} `{Filesystem FS} (IsPrint : Z -> bool) (fs : FS) (s : Server) (net : Z -> conn).
Context (Hsized : files_sized fs) (Ht : 0 <= s_writeTimeout s) (Hidle : 0 <= s_idleTimeout s).

Notation steps := (rtc (system_step IsPrint fs s net)).
Notation turn := (advance IsPrint fs s).

(** ** A handler alone *)

(** [m'] is [m] after steps of handler [c] only. *)
Record only_works (c : Z) (m m' : state) : Prop := {
  ow_steps : steps m m';
  ow_life : life m' = life m;
  ow_others d : d <> c -> work m' !! d = work m !! d;
}.

#[local] Instance only_works_refl c : Reflexive (only_works c).
Proof. by split. Qed.

#[local] Instance only_works_trans c : Transitive (only_works c).
Proof.
  intros m1 m2 m3 [S1 L1 O1] [S2 L2 O2]. split; [by etrans|congruence|].
  intros d Hd. by rewrite O2, O1.
Qed.

Lemma advance_only c m : only_works c m (turn c m).
Proof.
  split; [apply advance_steps|exact (advance_life IsPrint fs s [c] m)|].
  intros d Hd. unfold advance. destruct (work m !! c) as [[br|f br|br]|]; [..|done|done].
  - destruct (read_turn s br _ _). cbn. by rewrite lookup_insert_ne.
  - destruct (serve_turn IsPrint fs s f br _ _). cbn. by rewrite lookup_insert_ne.
Qed.

Lemma advance_less c a m :
  system_reachable IsPrint fs s net m -> work m !! c = Some a -> running a ->
  exists a', work (turn c m) !! c = Some a' /\ work_todo a' < work_todo a.
Proof.
  intros Hr Hc Ha. unfold advance. rewrite Hc. destruct a as [br|f br|br]; [..|done].
  - destruct (read_turn s br (bf_src br) (opened m)) as [a st] eqn:Er. exists a. cbn.
    rewrite lookup_insert_eq. split; [done|]. apply read_turn_less in Er. by destruct br.
  - destruct (serve_turn IsPrint fs s f br (bf_src br) (opened m)) as [a st] eqn:Er. exists a. cbn.
    rewrite lookup_insert_eq. split; [done|].
    pose proof (system_reachable_inv IsPrint fs s net Hsized Ht Hidle m Hr) as Hi.
    destruct (reads_all_total (c_fin (net c)).2 (pending (net c))) as (fr & e & Hall).
    destruct (si_conn fs s net m Hi c _ fr e Hc Hall) as [Hrec _].
    apply serve_turn_less in Er; [|done..]. by destruct br.
Qed.

Lemma turns_reachable c m k :
  system_reachable IsPrint fs s net m -> system_reachable IsPrint fs s net (Nat.iter k (turn c) m).
Proof.
  intros Hm. unfold system_reachable in *. induction k as [|k IH]; [done|]. cbn [Nat.iter].
  etrans; [exact IH|apply advance_steps].
Qed.

Lemma handler_finishes c a m :
  system_reachable IsPrint fs s net m -> work m !! c = Some a ->
  exists k br, Z.of_nat k <= work_todo a /\ only_works c m (Nat.iter k (turn c) m) /\
    work (Nat.iter k (turn c) m) !! c = Some (Over br).
Proof.
  remember (Z.to_nat (work_todo a)) as n eqn:En. revert a m En.
  induction n as [n IH] using lt_wf_ind. intros a m -> Hr Hc.
  pose proof (work_todo_pos a) as Hpos.
  assert (Hd : running a \/ exists br, a = Over br) by (destruct a; eauto; by left).
  destruct Hd as [Ha|[br ->]]; [|by exists O, br].
  destruct (advance_less c a m Hr Hc Ha) as (a' & Hc' & Hlt). pose proof (work_todo_pos a').
  destruct (IH (Z.to_nat (work_todo a')) ltac:(lia) a' (turn c m) eq_refl (turns_reachable c m 1 Hr) Hc')
    as (k & br & Hk & Hw & Hover).
  rewrite <- Nat.iter_succ_r in Hw, Hover. exists (S k), br. split; [lia|]. split; [|done].
  etrans; [apply advance_only|exact Hw].
Qed.

(** (C21) No client can hold up another.  In every reachable state of the
    whole server, the handler of a connection comes to the end of its loop by
    its own steps alone, in at most [work_todo] of them -- two for every byte
    its client has yet to send -- while every other handler, [Serve] and
    [Close] stand still.  If nobody called [Close] and the network of the
    connection keeps the deadlines, its client has then got all it is owed. *)
Theorem handlers_finish_alone m c a frames e :
  system_reachable IsPrint fs s net m -> work m !! c = Some a ->
  reads_all (c_fin (net c)).2 (pending (net c)) frames e ->
  exists k br, let m' := Nat.iter k (turn c) m in
    Z.of_nat k <= work_todo a /\ steps m m' /\
    life m' = life m /\ (forall d, d <> c -> work m' !! d = work m !! d) /\
    work m' !! c = Some (Over br) /\
    (closed (shared (life m)) = false -> (exists T, healthy_from s (net c) T) ->
     wr_out (bf_src br) = wr_out (net c) ++ wires (session fs (s_res s) frames e)).
Proof.
  intros Hr Hc Hall. destruct (handler_finishes c a m Hr Hc) as (k & br & Hk & [Hs Hl Ho] & Hover).
  exists k, br. cbn zeta. do 5 (split; [done|]).
  pose proof (system_reachable_inv IsPrint fs s net Hsized Ht Hidle _ (turns_reachable c m k Hr)) as Hi.
  destruct (si_conn fs s net _ Hi c _ frames e Hover Hall) as (answered & e' & j & _ & Hout & Hfull).
  rewrite Hl in Hfull. intros Hcl HT. destruct (Hfull Hcl HT) as (-> & -> & Hj). by rewrite Hout, take_ge.
Qed.

(** ** What the threads can do *)

Lemma thread_step_realised m y' :
  system_reachable IsPrint fs s net m -> step (life m) y' -> exists m', steps m m' /\ life m' = y'.
Proof.
  intros Hr Hs. pose proof (system_reachable_inv IsPrint fs s net Hsized Ht Hidle m Hr) as Hi.
  destruct (step_kinds _ _ Hs (reachable_inv _ (si_life fs s net m Hi))) as [Hn|[(c & Hg & ->)|(c & Hh & ->)]].
  - destruct (thread_moves IsPrint fs s net m y' Hs Hn) as [j Hm]. eexists. split; [by apply rtc_once|done].
  - eexists. split; [apply rtc_once; by apply sys_start|done].
  - assert (Hw : is_Some (work m !! c)) by (apply (si_work fs s net m Hi); by rewrite Hh).
    destruct Hw as [a Hw]. destruct (handler_finishes c a m Hr Hw) as (k & br & _ & [Hk Hl _] & Hover).
    eexists. split; [eapply rtc_r; [exact Hk|]; apply (sys_end IsPrint fs s net _ c br Hover); by rewrite Hl|].
    cbn. by rewrite Hl.
Qed.

Lemma threads_realised m y' :
  system_reachable IsPrint fs s net m -> rtc step (life m) y' -> exists m', steps m m' /\ life m' = y'.
Proof.
  intros Hr Hs. remember (life m) as y eqn:Ey. revert m Hr Ey.
  induction Hs as [y|y y1 y2 H1 _ IH]; intros m Hr ->; [by exists m|].
  destruct (thread_step_realised m y1 Hr H1) as (m1 & Hm & El).
  destruct (IH m1) as (m2 & Hm2 & E2); [by unfold system_reachable in *; etrans|done|].
  exists m2. split; [by etrans|done].
Qed.

(** (C22) The server can do whatever its threads can, so the two have the same
    runs: a run of the threads of file Lifecycle.v from the threads of a
    reachable state of the whole server is a run of the server, with the
    handlers working in between.  In particular a [Close] that was begun can
    go on to return, from every reachable state, wherever the handlers are:
    the connection of each has been closed by then. *)
Theorem server_realises_threads m :
  system_reachable IsPrint fs s net m ->
  (forall y', rtc step (life m) y' -> exists m', steps m m' /\ life m' = y') /\
  (forall i, closer i (life m) <> CStart ->
     (forall c, is_Some (work m !! c) -> c ∈ srv_dead (shared (life m))) /\
     exists m', steps m m' /\ closer i (life m') = CReturned /\
       forall c a, work m' !! c = Some a -> ~ running a).
Proof.
  intros Hr. split; [by intros y'; apply threads_realised|]. intros i Hc.
  pose proof (system_reachable_inv IsPrint fs s net Hsized Ht Hidle m Hr) as Hi.
  destruct (close_can_return i (life m) (si_life fs s net m Hi) Hc) as [Hd (y' & Hy & Hret)]. split.
  - intros c [pc Hpc]%(si_work fs s net m Hi). by eapply Hd.
  - destruct (threads_realised m y' Hr Hy) as (m' & Hm & <-). exists m'. split; [done|]. split; [done|].
    intros c a. apply no_work_left with IsPrint fs s net; [done..| |by exists i].
    unfold system_reachable in *. by etrans.
Qed.
End Progress.

(** ** Two clients, one of them served alone; and [Close] on a busy server *)

Lemma handlers_finish_alone_witness :
  exists k br, let m' := Nat.iter k (advance no_rune sample_fs sample_server 7) two_clients in
    Z.of_nat k <= work_todo (Reading (NewReader sample_conn)) /\
    rtc (system_step no_rune sample_fs sample_server sample_net) two_clients m' /\
    life m' = life two_clients /\ (forall d, d <> 7 -> work m' !! d = work two_clients !! d) /\
    work m' !! 7 = Some (Over br) /\
    wr_out (bf_src br) = [] ++ wires (session sample_fs sample_root sample_frames (IOError EOF)).
Proof.
  destruct (handlers_finish_alone no_rune sample_fs sample_server sample_net sample_sized ltac:(done) ltac:(done)
    two_clients 7 (Reading (NewReader sample_conn)) sample_frames (IOError EOF)
    two_clients_reachable eq_refl sample_reads) as (k & br & Hk & Hs & Hl & Ho & Hover & Hfull).
  exists k, br. do 5 (split; [assumption|]). apply Hfull; [reflexivity|].
  exists (25 * Second). apply sample_healthy.
Defined.

Lemma server_realises_threads_witness :
  exists m', rtc (system_step no_rune sample_fs sample_server sample_net) closed_system m' /\
    closer 0 (life m') = CReturned /\ forall c a, work m' !! c = Some a -> ~ running a.
Proof.
  destruct (server_realises_threads no_rune sample_fs sample_server sample_net sample_sized ltac:(done) ltac:(done)
    closed_system closed_system_reachable) as [_ Hclose].
  destruct (Hclose 0) as [_ Hret]; [|exact Hret].
  intros E. change (CWaiting = CStart) in E. discriminate E.
Defined.
