(* ===== verification/SystemLog.v ===== *)
(** * The log of the whole server

    One log is shared by all connections.  Whatever order the handlers'
    lines come in, the lines of each connection are those of file
    ServerLog.v: that it connected, what happened, that it disconnected. *)

From S2P Require Import Prelude GoIO Frame Headers Messages Conn Net Paths OsFs Resolver Quote.
From S2P Require Import ErrorText Server ServerSpec ServerProofs ServerProps ServerLog Turns Lifecycle Closing System SystemProps.

(** The lines about connection [c], in order. *)
Definition about (c : Z) (e : entry) : option logline :=
  match e with
  | About d l => if decide (d = c) then Some l else None
  | AcceptFailed => None
  end.

Definition lines_of (c : Z) (journal : list entry) : list logline := omap (about c) journal.

Lemma lines_of_app c j1 j2 : lines_of c (j1 ++ j2) = lines_of c j1 ++ lines_of c j2.
Proof. apply omap_app. Qed.

Lemma lines_of_same c ls : lines_of c (About c <$> ls) = ls.
Proof.
  induction ls as [|l ls IH]; [done|]. unfold lines_of in *. cbn.
  rewrite decide_True by done. by rewrite IH.
Qed.

Lemma lines_of_other c d ls : c <> d -> lines_of c (About d <$> ls) = [].
Proof.
  intros Hne. induction ls as [|l ls IH]; [done|]. unfold lines_of in *. cbn.
  by rewrite decide_False by congruence.
Qed.

Section Log.
Context {FS : Type} `{Filesystem FS} (IsPrint : Z -> bool) (fs : FS) (s : Server) (net : Z -> conn).

(** What the log says of a connection at each stage of its handler. *)
Definition told (a : option activity) (ls : list logline) : Prop :=
  match a with
  | None => ls = []
  | Some (Over _) => exists mid, ls = [LogConnected] ++ mid ++ [LogDisconnected] /\ Forall (harmless IsPrint) mid
  | Some _ => exists mid, ls = [LogConnected] ++ mid /\ Forall (harmless IsPrint) mid
  end.

Definition journal_ok (m : state) : Prop := forall c, told (work m !! c) (lines_of c (journal m)).

(** What a step of a handler that leaves it as [a] logs. *)
Definition turn_told (a : activity) (ls : list logline) : Prop :=
  if s_logger s then
    match a with
    | Over _ => exists mid, ls = mid ++ [LogDisconnected] /\ Forall (harmless IsPrint) mid
    | _ => Forall (harmless IsPrint) ls
    end
  else ls = [].

Lemma goes_on_logs st st' a :
  h_log st = [] -> running a -> logs IsPrint s st st' -> turn_told a (h_log st').
Proof.
  intros E0 Ha (new & -> & Hf & Hoff). rewrite E0. unfold turn_told.
  destruct (s_logger s); [by destruct a|by apply Hoff].
Qed.

Lemma leave_logs st st1 a st' :
  h_log st = [] -> logs IsPrint s st st1 -> leave s st1 = (a, st') -> turn_told a (h_log st').
Proof.
  intros E0 (new & E & Hf & Hoff) [= <- <-]. unfold turn_told, logf.
  destruct (s_logger s); cbn; rewrite E, E0; [by exists new|by apply Hoff].
Qed.

Lemma read_turn_log br co h a st : read_turn s br co h = (a, st) -> turn_told a (h_log st).
Proof.
  unfold read_turn, read_step, next_frame. destruct (Read _) as [[f|e] b] eqn:Er.
  - intros [= <- <-]. by eapply (goes_on_logs (resume br co h)); [| |apply logs_same].
  - intros Hl. eapply leave_logs; [|apply onReadError_logs|exact Hl]; done.
Qed.

Lemma serve_turn_log f br co h a st :
  serve_turn IsPrint fs s f br co h = (a, st) -> turn_told a (h_log st).
Proof.
  unfold serve_turn. destruct (serve_frame _ _ _ _ _) as [[] st1] eqn:Es; apply serve_frame_logs in Es.
  - intros [= <- <-]. by eapply goes_on_logs; [| |exact Es].
  - intros Hl. by eapply leave_logs; [|exact Es|exact Hl].
Qed.

(** A step of a handler adds lines to its own connection only. *)
Lemma worked_journal c a0 a st m :
  s_logger s = true -> work m !! c = Some a0 -> running a0 -> turn_told a (h_log st) ->
  journal_ok m -> journal_ok (worked c a st m).
Proof.
  unfold turn_told. intros -> Hc Ha Hst Hj d. cbn [worked work journal]. rewrite lines_of_app.
  destruct (decide (d = c)) as [->|Hne].
  - rewrite lookup_insert_eq, lines_of_same. specialize (Hj c). rewrite Hc in Hj.
    assert (exists mid, lines_of c (journal m) = [LogConnected] ++ mid /\ Forall (harmless IsPrint) mid)
      as (mid & -> & Hm) by (by destruct a0).
    destruct a; [exists (mid ++ h_log st)..|destruct Hst as (new & -> & Hn); exists (mid ++ new)];
      rewrite <- ?app_assoc; (split; [done|by apply Forall_app]).
  - rewrite lookup_insert_ne, (lines_of_other d c), app_nil_r by done. apply Hj.
Qed.

Lemma system_step_journal m m' :
  s_logger s = true -> system_inv fs s net m -> system_step IsPrint fs s net m m' -> journal_ok m -> journal_ok m'.
Proof.
  intros Ho Hi Hs Hj. destruct Hs as [m y' Hs Hn _|m y' Hs Hr|m c Hg st|m c br co a st Hc Hf Ht|m c f br co a st Hc Hf Ht|m c br Hc Hh];
    try done.
  - intros d. cbn [work journal]. rewrite lines_of_app, Ho, app_nil_r. apply Hj.
  - intros d. cbn [worked work journal]. rewrite lines_of_app. unfold st, logf. rewrite Ho.
    destruct (decide (d = c)) as [->|Hne].
    + rewrite lookup_insert_eq, lines_of_same. specialize (Hj c). rewrite (unstarted fs s net m c Hi Hg) in Hj.
      rewrite Hj. exists []. by split.
    + rewrite lookup_insert_ne, (lines_of_other d c), app_nil_r by done. apply Hj.
  - eapply worked_journal; [done|exact Hc|done|by eapply read_turn_log|done].
  - eapply worked_journal; [done|exact Hc|done|by eapply serve_turn_log|done].
Qed.

Lemma system_step_silent m m' :
  s_logger s = false -> system_step IsPrint fs s net m m' -> journal m = [] -> journal m' = [].
Proof.
  intros Ho Hs. destruct Hs as [m y' Hs Hn _|m y' Hs Hr|m c Hg st|m c br co a st Hc Hf Ht|m c f br co a st Hc Hf Ht|m c br Hc Hh];
    cbn [worked journal]; try done; intros ->.
  - by rewrite Ho.
  - unfold st, logf. by rewrite Ho.
  - apply read_turn_log in Ht. unfold turn_told in Ht. rewrite Ho in Ht. by rewrite Ht.
  - apply serve_turn_log in Ht. unfold turn_told in Ht. rewrite Ho in Ht. by rewrite Ht.
Qed.

(** The lines of the connections account for the whole log but [Serve]'s. *)
Lemma journal_lines m c l :
  journal_ok m -> About c l ∈ journal m -> harmless IsPrint l \/ l = LogConnected \/ l = LogDisconnected.
Proof.
  intros Hj Hl. specialize (Hj c).
  assert (Hin : l ∈ lines_of c (journal m)).
  { apply list_elem_of_omap. exists (About c l). split; [done|]. cbn. by rewrite decide_True. }
  assert (Hmid : forall mid, Forall (harmless IsPrint) mid -> l ∈ mid -> harmless IsPrint l)
    by (intros mid Hm ?; by eapply Forall_forall in Hm).
  destruct (work m !! c) as [[]|]; cbn [told] in Hj; [| | |by rewrite Hj in Hin; apply not_elem_of_nil in Hin];
    destruct Hj as (mid & E & Hm); rewrite E in Hin; rewrite ?elem_of_app, ?list_elem_of_singleton in Hin;
    intuition eauto.
Qed.

Context (Hsized : files_sized fs) (Ht : 0 <= s_writeTimeout s) (Hidle : 0 <= s_idleTimeout s).
Context (io_text : ioerr -> bytes) (os_text : bytes -> oserr -> bytes) (peer : Z -> bytes).
Context (io_visible : forall e, Forall visible (io_text e)).
Context (os_visible : forall about e, Forall visible about -> Forall visible (os_text about e)).
Context (peer_visible : forall c, Forall visible (peer c)).
Context (accept_text : bytes) (accept_visible : Forall visible accept_text).

(** The text of a line; [accept_text] is that of an error of [Accept]. *)
Definition entry_text (e : entry) : bytes :=
  match e with
  | About c l => line_text IsPrint io_text os_text (peer c) l
  | AcceptFailed => str "accept failed: " ++ accept_text
  end.

End Log.

(** ** The log of two clients *)

Definition sample_peer (c : Z) : bytes := str "[::1]:" ++ FormatInt (1000 + c).

Definition no_files : bytes := str "too many open files".

Definition sample_line (c : Z) : logline -> bytes := line_text no_rune plain_io repeats_path (sample_peer c).
Definition sample_entry : entry -> bytes := entry_text no_rune plain_io repeats_path sample_peer no_files.

(** [Accept] fails once while 7 is about to read. *)
Definition hiccup_at (pc : serve_pc) (j : list entry) : state :=
  MkSystem (with_serve pc (shared busy) busy) (work one_client) (opened one_client) j.
Definition hiccup : state := hiccup_at SAccept (journal one_client ++ [AcceptFailed]).

Lemma hiccup_system_reachable : sample_system_reachable hiccup.
Proof.
  set (j := journal one_client).
  pose proof (quiet_thread _ _ _ _ _ (life (hiccup_at SFailed j)) one_client_reachable
    (step_accept_failed busy eq_refl) eq_refl eq_refl) as H1.
  pose proof (quiet_thread _ _ _ _ _ (life (hiccup_at SRetry j)) H1
    (step_failed (life (hiccup_at SFailed j)) eq_refl) eq_refl eq_refl) as H2.
  pose proof (rtc_r _ _ _ H2 (sys_retry no_rune sample_fs sample_server sample_net (hiccup_at SRetry j)
    (life (hiccup_at SPause j)) (step_retry (life (hiccup_at SRetry j)) eq_refl) (conj eq_refl eq_refl))) as H3.
  exact (quiet_thread _ _ _ _ _ (life hiccup) H3 (step_pause (life (hiccup_at SPause j)) eq_refl) eq_refl eq_refl).
Qed.

Example log_of_hiccup :
  sample_entry <$> journal hiccup = [str "[::1]:1007 connected"; str "accept failed: too many open files"].
Proof. vm_compute. reflexivity. Qed.

(** The handlers' lines are mixed; each connection has its own in order. *)
Example log_of_two :
  sample_line 7 <$> lines_of 7 (journal served_system) =
    [str "[::1]:1007 connected"; str "GET " ++ [dquote] ++ str "/here" ++ [dquote] ++ str " -> 200 (5 bytes)";
     str "GET " ++ [dquote] ++ str "/none" ++ [dquote] ++ str " -> 404"; str "[::1]:1007 disconnected"] /\
  sample_line 8 <$> lines_of 8 (journal reading_system) =
    [str "[::1]:1008 connected"; str "GET " ++ [dquote] ++ str "/here" ++ [dquote] ++ str " -> 200 (5 bytes)"].
Proof. vm_compute. by split. Qed.

