(* ===== verification/BserveProcess.v ===== *)
(** * cmd/bserve: the process

    [main.go] from the listener on: [Serve] in the main goroutine, [Close] in
    another one once a signal has come, the deferred [stop] and the exit of
    the process, over the whole server of file System.v. *)

From S2P Require Import Prelude GoIO Frame Headers Messages Conn Net Paths OsFs Resolver Quote Flags.
From S2P Require Import Tap Server ServerSpec ServerProofs ServerProps Turns Lifecycle Closing System SystemProps.
From S2P Require Import SystemClosing Bserve.

(** The main goroutine. *)
Inductive main_pc : Type :=
  | InServe
  | Returning (status : Z)    (** [Serve] has returned; the deferred [stop] is next *)
  | Stopped (status : Z)      (** signals have their default effect again *)
  | Ended (status : Z)        (** [os.Exit] *)
  | Killed.                   (** by a signal *)

Record process : Type := MkProcess {
  server : state;
  signalled : bool;           (** an interrupt or a termination signal has come *)
  main : main_pc;
}.

(** What [Serve] returns: every [return] of it returns nil. *)
Definition Serve_returns (pc : serve_pc) : option (result bytes unit) :=
  match pc with SReturned => Some (Ok tt) | _ => None end.

Definition exit_status (r : result bytes unit) : Z := match r with Ok _ => 0 | Err _ => 1 end.

Definition alive (p : process) : bool := match main p with Ended _ | Killed => false | _ => true end.

(** [ctx.Done()]: a signal has come, or [stop] was called. *)
Definition ctx_done (p : process) : bool := signalled p || match main p with Stopped _ => true | _ => false end.

(** The goroutine that calls [Close] is closer 0; nobody else calls it, and
    nobody else closes the listener. *)
Definition by_owner (y y' : sys) : Prop :=
  serve y' = serve y /\ handlers y' = handlers y /\ closers y' = closers y /\
  lis_closed (shared y) = false /\ lis_closed (shared y') = true.

Section Process.
Context {FS : Type} `{Filesystem FS} (IsPrint : Z -> bool) (fs : FS) (s : Server) (net : Z -> conn).

Definition launched : process := MkProcess new_system false InServe.

Definition with_server (m : state) (p : process) : process := MkProcess m (signalled p) (main p).
Definition with_main (pc : main_pc) (p : process) : process := MkProcess (server p) (signalled p) pc.

Inductive process_step : process -> process -> Prop :=
  | proc_server p m :
      alive p = true -> system_step IsPrint fs s net (server p) m ->
      ~ calls_Close (life (server p)) (life m) -> ~ by_owner (life (server p)) (life m) ->
      process_step p (with_server m p)
  (** [<-ctx.Done()], then [srv.Close()] *)
  | proc_close p m :
      alive p = true -> ctx_done p = true -> closer 0 (life (server p)) = CStart ->
      life m = with_closer 0 (CSwept (lis (shared (life (server p)))))
        (snd (close_sweep (shared (life (server p))))) (life (server p)) ->
      system_step IsPrint fs s net (server p) m ->
      process_step p (with_server m p)
  (** a signal, taken by [signal.NotifyContext]; further ones change nothing *)
  | proc_signal p :
      (main p = InServe \/ exists st, main p = Returning st) -> signalled p = false ->
      process_step p (MkProcess (server p) true (main p))
  | proc_return p r :
      main p = InServe -> Serve_returns (serve (life (server p))) = Some r ->
      process_step p (with_main (Returning (exit_status r)) p)
  | proc_stop p st : main p = Returning st -> process_step p (with_main (Stopped st) p)
  | proc_exit p st : main p = Stopped st -> process_step p (with_main (Ended st) p)
  (** a signal after [stop] *)
  | proc_kill p st : main p = Stopped st -> process_step p (with_main Killed p).

Definition process_reachable (p : process) : Prop := rtc process_step launched p.

(** ** The process runs the server *)

Lemma process_step_server p p' :
  process_step p p' -> server p' = server p \/ system_step IsPrint fs s net (server p) (server p').
Proof. destruct 1; cbn; auto. Qed.

Lemma process_reachable_server p : process_reachable p -> system_reachable IsPrint fs s net (server p).
Proof.
  revert p. apply (rtc_ind_r (fun p => system_reachable IsPrint fs s net (server p)) launched); [apply rtc_refl|].
  intros p1 p2 _ Hs IH. destruct (process_step_server _ _ Hs) as [->|Hm]; [done|]. by eapply rtc_r.
Qed.

(** ** What happens only after a signal *)

Record process_inv (p : process) : Prop := {
  pi_calls i : closer i (life (server p)) <> CStart -> i = 0 /\ ctx_done p = true;
  pi_listener : lis_closed (shared (life (server p))) = true -> closed (shared (life (server p))) = true;
  pi_main : main p <> InServe -> signalled p = true;
  pi_status st : main p = Returning st \/ main p = Stopped st \/ main p = Ended st -> st = 0;
}.

(** A step that calls nothing leaves the calls of [Close] as they are. *)
Lemma no_call y y' i : step y y' -> ~ calls_Close y y' -> closer i y' <> CStart -> closer i y <> CStart.
Proof. intros _ Hn Hi Hs. apply Hn. by exists i. Qed.

Lemma listener_follows y y' :
  inv y -> ends y -> step y y' -> ~ by_owner y y' ->
  (lis_closed (shared y) = true -> closed (shared y) = true) ->
  lis_closed (shared y') = true -> closed (shared y') = true.
Proof.
  intros Hi He Hs Hn Hl Hl'. destruct (lis_closed (shared y)) eqn:Ecl.
  { apply (step_closed_mono _ _ Hs). auto. }
  pose proof (step_closed_mono _ _ Hs) as Hm.
  destruct Hs as [y ok s' E Hb|y E|y c E Ha Hc|y E Ha|y E|y Ha|y E|y E|y E|y c ok s' E Hb|y c E|y c E
    |y c Hc|y c Hc|y c Hc|y c Hc|y i l s' Hcl Hs|y i l Hcl|y i Hcl Hw]; cbn in *; try congruence.
  - unfold serve_begin in Hb. destruct (closed (shared y)); injection Hb as <- <-; cbn in *; congruence.
  - apply (ends_refused y He). auto.
  - exfalso. by apply Hn.
  - unfold track in Hb. destruct (closed (shared y)); injection Hb as <- <-; cbn in *; congruence.
  - injection Hs as <- <-. done.
  - apply Hm, (inv_swept y Hi i). by rewrite Hcl.
Qed.

Lemma process_step_inv p p' :
  process_reachable p -> process_inv p -> process_step p p' -> process_inv p'.
Proof.
  intros Hr Hp Hs. pose proof Hp as [I1 I2 I3 I4].
  pose proof (system_life IsPrint fs s net _ _ (process_reachable_server p Hr)) as Hl.
  destruct (reachable_ends _ Hl) as [Hi He].
  destruct Hs as [p m Ha Hs Hc Ho|p m Ha Hd Hc Em Hs|p Hm Hsig|p r Hm Hret|p st Hm|p st Hm|p st Hm].
  - split; cbn; [| |done..].
    + intros i Hn. apply I1. intros E. apply Hc. by exists i.
    + destruct (system_step_life IsPrint fs s net _ _ Hs) as [->|Hst]; [done|]. by eapply listener_follows.
  - split; cbn; [| |done..]; rewrite Em; [|done].
    intros i Hn. destruct (decide (0 = i)) as [<-|Hne]; [done|]. apply I1. by rewrite closer_other in Hn.
  - split; cbn; try done. intros i Hn. by destruct (I1 i Hn).
  - assert (Hsig : signalled p = true).
    { unfold Serve_returns in Hret. destruct (serve (life (server p))) eqn:E; try done.
      assert (Hcl : closed (shared (life (server p))) = true)
        by (destruct (ends_returned _ He E) as [?|?]; auto).
      destruct (ends_closed _ He Hcl) as [i Hn]. destruct (I1 i Hn) as [_ Hd]. unfold ctx_done in Hd.
      rewrite Hm in Hd. by rewrite orb_false_r in Hd. }
    split; cbn; try done; unfold ctx_done; cbn.
    + intros i Hn. rewrite Hsig. by destruct (I1 i Hn).
    + intros st [[= <-]|[?|?]]; [|done..]. unfold Serve_returns in Hret.
      destruct (serve _); try done. by injection Hret as <-.
  - split; cbn; try done; unfold ctx_done; cbn.
    + intros i Hn. rewrite orb_true_r. by destruct (I1 i Hn).
    + intros _. apply I3. by rewrite Hm.
    + intros st' [?|[[= <-]|?]]; [done| |done]. apply I4. auto.
  - assert (Hsig : signalled p = true) by (apply I3; by rewrite Hm).
    split; cbn; try done; unfold ctx_done; cbn.
    + intros i Hn. rewrite Hsig. by destruct (I1 i Hn).
    + intros st' [?|[?|[= <-]]]; [done..|]. apply I4. auto.
  - assert (Hsig : signalled p = true) by (apply I3; by rewrite Hm).
    split; cbn; try done; unfold ctx_done; cbn.
    + intros i Hn. rewrite Hsig. by destruct (I1 i Hn).
    + by intros st' [?|[?|?]].
Qed.

Lemma launched_inv : process_inv launched.
Proof. split; cbn; try done. by intros st [?|[?|?]]. Qed.

Lemma process_reachable_inv p : process_reachable p -> process_inv p.
Proof.
  revert p. apply (rtc_ind_r process_inv launched); [apply launched_inv|].
  intros p1 p2 H1 Hs IH. by eapply process_step_inv.
Qed.

(** Until a signal comes nothing is closed and [Serve] goes on. *)
Lemma undisturbed_process p :
  process_reachable p -> signalled p = false ->
  main p = InServe /\ closed (shared (life (server p))) = false /\ lis_closed (shared (life (server p))) = false.
Proof.
  intros Hr Hsig. destruct (process_reachable_inv p Hr) as [I1 I2 I3 I4].
  pose proof (system_life IsPrint fs s net _ _ (process_reachable_server p Hr)) as Hl.
  destruct (reachable_ends _ Hl) as [_ He].
  assert (Hm : main p = InServe) by (destruct (main p) eqn:E; [done|..]; by rewrite I3 in Hsig).
  assert (Hc : closed (shared (life (server p))) = false).
  { apply not_true_iff_false. intros Hc. destruct (ends_closed _ He Hc) as [i Hi].
    destruct (I1 i Hi) as [_ Hd]. unfold ctx_done in Hd. by rewrite Hsig, Hm in Hd. }
  split; [done|]. split; [done|]. apply not_true_iff_false. intros Hd%I2. congruence.
Qed.

(** ** After a signal *)

(** The goroutine waiting for the signal can call [Close]. *)
Lemma close_is_called p :
  process_reachable p -> alive p = true -> ctx_done p = true -> closed (shared (life (server p))) = false ->
  exists p', process_step p p' /\ closed (shared (life (server p'))) = true.
Proof.
  intros Hr Ha Hd Hc. pose proof (system_life IsPrint fs s net _ _ (process_reachable_server p Hr)) as Hl.
  pose proof (reachable_inv _ Hl) as Hi.
  assert (Hs : closer 0 (life (server p)) = CStart).
  { destruct (closer 0 (life (server p))) eqn:E; [done|..];
      rewrite (inv_swept _ Hi 0) in Hc; congruence. }
  set (y' := with_closer 0 (CSwept (lis (shared (life (server p)))))
    (snd (close_sweep (shared (life (server p))))) (life (server p))).
  exists (with_server (MkSystem y' (work (server p)) (opened (server p)) (journal (server p))) p).
  split; [|done]. apply proc_close; [done..|].
  apply sys_thread; [by eapply step_sweep|by left|intros [E E']; cbn in E'; congruence].
Qed.

Definition main_todo (pc : main_pc) : Z :=
  match pc with InServe => 3 | Returning _ => 2 | Stopped _ => 1 | Ended _ | Killed => 0 end.

Definition process_todo (p : process) : Z := system_todo net (server p) + main_todo (main p).

Context (Hsized : files_sized fs) (Ht : 0 <= s_writeTimeout s) (Hidle : 0 <= s_idleTimeout s).

Lemma process_step_todo p p' :
  process_reachable p -> closed (shared (life (server p))) = true -> process_step p p' ->
  closed (shared (life (server p'))) = true /\ process_todo p' + 1 <= process_todo p.
Proof.
  intros Hr Hc Hs. pose proof (process_reachable_server p Hr) as Hm.
  destruct (process_reachable_inv p Hr) as [I1 I2 I3 I4].
  destruct (reachable_ends _ (system_life IsPrint fs s net _ _ Hm)) as [_ He].
  destruct (ends_closed _ He Hc) as [i Hi]. destruct (I1 i Hi) as [-> Hd].
  pose proof (system_reachable_inv IsPrint fs s net Hsized Ht Hidle _ Hm) as Hinv.
  unfold process_todo.
  destruct Hs as [p m Ha Hs Hn _|p m _ _ Hcl _ _|p Hmain Hsig|p r E _|p st E|p st E|p st E]; cbn;
    try (rewrite E; cbn; by split; [|lia]).
  - destruct (system_step_todo IsPrint fs s net Hsized Ht _ _ Hinv Hc Hs) as [Hc' [?|[? _]]]; [|done].
    by split; [|lia].
  - done.
  - unfold ctx_done in Hd. rewrite Hsig in Hd. by destruct Hmain as [E|[st E]]; rewrite E in Hd.
Qed.

Lemma process_run_todo n p p' :
  nsteps process_step n p p' -> process_reachable p -> closed (shared (life (server p))) = true ->
  Z.of_nat n + process_todo p' <= process_todo p.
Proof.
  induction 1 as [p|n p p1 p2 H1 H2 IH]; intros Hr Hc; [lia|].
  destruct (process_step_todo p p1 Hr Hc H1) as [Hc1 Hd].
  assert (Hr1 : process_reachable p1) by (by eapply rtc_r). specialize (IH Hr1 Hc1). lia.
Qed.

(** Which steps of the threads the process takes by itself. *)
Lemma step_sorts y y' : step y y' -> outside y y' \/ (~ calls_Close y y' /\ ~ by_owner y y').
Proof.
  assert (Hcl : forall y i pc sh, closer i y <> CStart -> pc <> closer i y ->
    ~ calls_Close y (with_closer i pc sh y) /\ ~ by_owner y (with_closer i pc sh y)).
  { intros z i pc sh Hz Hne. split.
    - intros (j & Hj & Hn). destruct (decide (i = j)) as [<-|Hij]; [done|]. by rewrite closer_other in Hn.
    - intros (_ & _ & E & _). cbn in E. apply Hne. rewrite <- (closer_this i pc sh z). unfold closer at 2.
      rewrite <- E. reflexivity. }
  intros Hs.
  destruct Hs as [y ok s' E Hb|y E|y c E Ha Hc|y E Ha|y E|y Ha|y E|y E|y E|y c ok s' E Hb|y c E|y c E
    |y c Hc|y c Hc|y c Hc|y c Hc|y i l s' Hs Hsw|y i l Hs|y i Hs Hw];
    try (right; split; [by apply calls_nothing|]; intros (E1 & _ & _ & E4 & E5); cbn in *; congruence).
  - right. split; [by apply calls_nothing|]. intros (E1 & _). cbn in E1. rewrite E in E1. by destruct ok.
  - left. right. right. done.
  - right. split; [by apply calls_nothing|]. intros (E1 & _). cbn in E1. rewrite E in E1. by destruct ok.
  - left. left. exists i. by rewrite closer_this.
  - right. apply Hcl; by rewrite Hs.
  - right. apply Hcl; by rewrite Hs.
Qed.

Lemma process_stuck_ended p :
  process_reachable p -> closed (shared (life (server p))) = true ->
  (forall p', process_step p p' -> outside (life (server p)) (life (server p'))) -> alive p = false.
Proof.
  intros Hr Hc Hstuck. pose proof (process_reachable_server p Hr) as Hm.
  assert (Hself : ~ outside (life (server p)) (life (server p))).
  { intros [Ho|[[E [Ef|[d Ef]]]|(_ & _ & _ & E1 & E2)]]; [by apply calls_nothing in Ho|congruence..]. }
  destruct (alive p) eqn:Ha; [|done]. exfalso. apply Hself.
  unfold alive in Ha. destruct (main p) as [|st|st|st|] eqn:E; try done.
  - destruct (system_stuck_over IsPrint fs s net (server p)) as [Hover _]; [|done| |].
    + by apply system_reachable_inv with (IsPrint := IsPrint).
    + intros m' Hs. destruct (system_step_life _ _ _ _ _ _ Hs) as [El|Hst].
      * pose proof (Hstuck (with_server m' p)) as Ho. cbn in Ho. apply Ho, proc_server; [by unfold alive; rewrite E|done| |]; rewrite El.
        -- by apply calls_nothing.
        -- intros (_ & _ & _ & E1 & E2). congruence.
      * destruct (step_sorts _ _ Hst) as [?|[? ?]]; [done|].
        apply (Hstuck (with_server m' p)), proc_server; [by unfold alive; rewrite E|done..].
    + apply (Hstuck (with_main (Returning 0) p)). apply (proc_return p (Ok tt)); [done|].
      by rewrite (over_serve _ Hover).
  - apply (Hstuck (with_main (Stopped st) p)). by apply proc_stop.
  - apply (Hstuck (with_main (Ended st) p)). by apply proc_exit.
Qed.
End Process.

(** ** What the program does once it listens *)

(** (C14) bserve runs until it is told to stop, and then stops.  Once [run] has
    got its server and listener, in every reachable state of the process --
    any clients, any schedule: before a signal has come the main goroutine is
    in [Serve], and neither the server nor the listener is closed; the exit
    status is 0 if the process exits at all, and only after a signal; after
    a signal [Close] can be called as long as it has not been; and from then
    on the process takes at most [process_todo] steps more, whatever the
    schedule, and comes to a halt only when it has ended. *)
Theorem bserve_stops_when_told {FS W E} `{Filesystem FS, Writer W, Writer E} (fs : FS) cwd IsPrint listen root_text
    args (stdout stdout' : W) (stderr stderr' : E) srv net p :
  run fs cwd IsPrint listen root_text args stdout stderr = (Serving srv, stdout', stderr') -> files_sized fs ->
  process_reachable IsPrint fs srv net p ->
  (signalled p = false -> main p = InServe /\
     closed (shared (life (server p))) = false /\ lis_closed (shared (life (server p))) = false) /\
  (forall st, main p = Ended st -> st = 0 /\ signalled p = true) /\
  (signalled p = true -> alive p = true -> closed (shared (life (server p))) = false ->
     exists p', process_step IsPrint fs srv net p p' /\ closed (shared (life (server p'))) = true) /\
  (closed (shared (life (server p))) = true ->
     (forall n p', nsteps (process_step IsPrint fs srv net) n p p' -> Z.of_nat n <= process_todo net p) /\
     ((forall p', process_step IsPrint fs srv net p p' -> outside (life (server p)) (life (server p'))) ->
      alive p = false)).
Proof.
  intros Hrun Hsized Hr. destruct (run_server _ _ _ _ _ _ _ _ _ _ _ Hrun) as [Hidle Hwrite].
  assert (Hi : 0 <= s_idleTimeout srv) by (by rewrite Hidle).
  assert (Hw : 0 <= s_writeTimeout srv) by (by rewrite Hwrite).
  split; [by eapply undisturbed_process|]. split.
  { intros st Hm. destruct (process_reachable_inv _ _ _ _ p Hr) as [_ _ I3 I4]. split; [by eauto|].
    apply I3. by rewrite Hm. }
  split; [intros Hsig Ha; apply close_is_called; [done..|by unfold ctx_done; rewrite Hsig]|].
  intros Hc. split; [|by eapply process_stuck_ended].
  intros n p' Hn. eapply process_run_todo in Hn; [|done..].
  assert (0 <= process_todo net p'); [|lia]. unfold process_todo. pose proof (system_todo_pos net (server p')).
  destruct (main p'); cbn; lia.
Qed.

(** ** A run *)

Definition sample_run : started * Buffer * Buffer :=
  run sample_fs (Ok (str "/")) no_rune (fun _ => Ok (str "[::]:80")) (fun _ => []) [str "/srv/www"; str "80"]
    (MkBuffer []) (MkBuffer []).

Example sample_serves : sample_run.1.1 = Serving sample_server.
Proof. vm_compute. reflexivity. Qed.

Notation sample_step := (process_step no_rune sample_fs sample_server sample_net).
Notation sample_reachable := (process_reachable no_rune sample_fs sample_server sample_net).

(** Client 7 is accepted; the signal comes; [Close] sweeps and closes the
    listener; [Serve] returns and the process ends. *)
Definition serving_process (m : state) : process := MkProcess m false InServe.
Definition told_process : process := MkProcess one_client true InServe.
Definition swept_process : process := with_server (with_life swept one_client) told_process.
Definition waiting_process : process := with_server (with_life waiting one_client) told_process.
Definition unaccepting : sys := with_serve SReturned (shared waiting) waiting.
Definition served_process : process := with_server (with_life unaccepting one_client) told_process.
Definition last_process (pc : main_pc) : process := with_main pc served_process.

(** A step of a thread that leaves the handlers and the listener alone. *)
Lemma quiet_process_step net m y' :
  step (life m) y' -> handlers y' = handlers (life m) -> closers y' = closers (life m) ->
  lis_closed (shared y') = lis_closed (shared (life m)) -> failed (serve (life m)) = false ->
  process_step no_rune sample_fs sample_server net (serving_process m) (serving_process (with_life y' m)).
Proof.
  intros Hs Hh Hc Hl Hf. apply (proc_server no_rune sample_fs sample_server net (serving_process m)).
  - done.
  - apply sys_thread; [done| |by apply not_retrying]. intros c. left. by rewrite Hh.
  - by apply calls_nothing.
  - intros (_ & _ & _ & E1 & E2). cbn in *. congruence.
Qed.

Lemma welcomed_reachable net :
  process_reachable no_rune sample_fs sample_server net (serving_process (welcomed net)).
Proof.
  assert (Hn : (7 : Z) ∉ accepted serving) by set_solver.
  eapply rtc_l; [apply (quiet_process_step net new_system serving); [|done..];
    exact (step_begin Lifecycle.init true _ eq_refl eq_refl)|].
  eapply rtc_l; [apply (quiet_process_step net _ got); [|done..]; exact (step_accept serving 7 eq_refl eq_refl Hn)|].
  eapply rtc_l; [apply (quiet_process_step net _ tracked); [|done..]; exact (step_track got 7 true _ eq_refl eq_refl)|].
  apply rtc_once. apply (proc_server no_rune sample_fs sample_server net
    (serving_process (MkSystem tracked ∅ 0 []))); [done| | |].
  - exact (sys_start _ _ _ net (MkSystem tracked ∅ 0 []) 7 eq_refl).
  - by apply calls_nothing.
  - intros (_ & _ & _ & E1 & E2). cbn in E2. discriminate E2.
Qed.

Lemma swept_process_reachable : sample_reachable swept_process.
Proof.
  unfold process_reachable. etrans; [exact (welcomed_reachable sample_net)|].
  eapply rtc_l; [exact (proc_signal _ _ _ _ (serving_process one_client) (or_introl eq_refl) eq_refl)|].
  apply rtc_once. apply (proc_close no_rune sample_fs sample_server sample_net told_process); [done..|].
  apply (sys_thread no_rune sample_fs sample_server sample_net one_client swept); [|by left|by apply not_retrying].
  exact (step_sweep busy 0 true _ eq_refl eq_refl).
Qed.

(** The main goroutine does not wait for [Close]: the process can end while
    the handler of client 7 still runs. *)
Lemma exit_before_handlers : nsteps sample_step 5 swept_process (last_process (Ended 0)).
Proof.
  eapply nsteps_l; [|eapply nsteps_l; [|eapply nsteps_l; [|eapply nsteps_l; [|apply nsteps_once]]]].
  - apply (proc_server no_rune sample_fs sample_server sample_net swept_process (with_life waiting one_client));
      [done| | |].
    + apply (sys_thread no_rune sample_fs sample_server sample_net (with_life swept one_client) waiting); [|by left|by apply not_retrying].
      exact (step_close_listener swept 0 true eq_refl).
    + intros (j & Hj & Hn). destruct (decide (0 = j)) as [<-|Hij]; [discriminate Hj|].
      apply Hn. unfold closer. cbn. by rewrite lookup_insert_ne.
    + intros (_ & _ & E & _). apply (f_equal (fun g => g !! 0)) in E. vm_compute in E. discriminate E.
  - apply (proc_server no_rune sample_fs sample_server sample_net waiting_process (with_life unaccepting one_client));
      [done| | |].
    + apply (sys_thread no_rune sample_fs sample_server sample_net (with_life waiting one_client) unaccepting); [|by left|by apply not_retrying].
      exact (step_accept_closed waiting eq_refl eq_refl).
    + by apply calls_nothing.
    + intros (_ & _ & _ & E1 & _). discriminate E1.
  - exact (proc_return _ _ _ _ served_process (Ok tt) eq_refl eq_refl).
  - exact (proc_stop _ _ _ _ (last_process (Returning 0)) 0 eq_refl).
  - exact (proc_exit _ _ _ _ (last_process (Stopped 0)) 0 eq_refl).
Qed.

Lemma last_process_reachable : sample_reachable (last_process (Ended 0)).
Proof.
  unfold process_reachable. etrans; [exact swept_process_reachable|]. eapply rtc_nsteps_2, exit_before_handlers.
Qed.

Lemma bserve_stops_when_told_witness :
  Z.of_nat 5 <= process_todo sample_net swept_process /\
  (0 = 0 /\ signalled (last_process (Ended 0)) = true) /\
  handlers (life (server (last_process (Ended 0)))) !! 7 = Some HRunning.
Proof.
  assert (Hrun : run sample_fs (Ok (str "/")) no_rune (fun _ => Ok (str "[::]:80")) (fun _ => [])
    [str "/srv/www"; str "80"] (MkBuffer []) (MkBuffer []) = (Serving sample_server, sample_run.1.2, sample_run.2))
    by (vm_compute; reflexivity).
  split; [|split; [|reflexivity]].
  - destruct (bserve_stops_when_told _ _ _ _ _ _ _ _ _ _ _ sample_net swept_process Hrun sample_sized
      swept_process_reachable) as (_ & _ & _ & Hend).
    destruct (Hend eq_refl) as [Hn _]. exact (Hn 5%nat _ exit_before_handlers).
  - destruct (bserve_stops_when_told _ _ _ _ _ _ _ _ _ _ _ sample_net (last_process (Ended 0)) Hrun sample_sized
      last_process_reachable) as (_ & Hst & _).
    exact (Hst 0 eq_refl).
Defined.
