(* ===== verification/Crowd.v ===== *)
(** * Many clients of one server

    The clients of file Client.v against the whole server of file System.v:
    any number of them, each on its own connection, some behind the proxy of
    file Chaos.v, while the handlers' turns interleave in any order. *)

From S2P Require Import Prelude GoIO Frame Headers Messages Conn Net Paths OsFs Resolver.
From S2P Require Import Server ServerSpec ServerProofs ServerProps Client ClientProofs ClientProps EndToEnd.
From S2P Require Import Chaos Proxied Turns Lifecycle Closing System SystemProps SystemProgress.

Section Crowd.
Context {FS : Type} `{Filesystem FS} (IsPrint : Z -> bool) (fs : FS) (s : Server) (net : Z -> conn).
Context (Hsized : files_sized fs) (Ht : 0 <= s_writeTimeout s) (Hidle : 0 <= s_idleTimeout s).

(** Connection [c] brings the requests of a client that gets [paths] and then
    closes it, over a network that keeps the deadlines. *)
Record asks (c : Z) (paths payloads : list bytes) : Prop := {
  as_encoded : Forall2 (fun path payload => Request_Encode (get_request path []) = Ok payload) paths payloads;
  as_few : len payloads < 0xFFFFFFFF;
  as_sent : pending (net c) = wires (requests_from 1 payloads);
  as_closed : (c_fin (net c)).2 = EOF;
  as_prompt : exists T, healthy_from s (net c) T;
  as_new : wr_out (net c) = [];
}.

(** How what the server wrote gets to the client: directly, or through the
    pump of a relay. *)
Inductive carried (written : bytes) : bytes -> Prop :=
  | carried_directly : carried written written
  | carried_by_relay {W G R} `{WriterReliable W} `{RandOk G} `{ReaderOk R} (o : Options) (server : R) (p : pump W G) :
      rd_content server = written -> wr_out (p_out p) = [] ->
      carried written (wr_out (p_out (Chaos.run o server p))).

(** What a handler that has left its loop wrote to such a client. *)
Lemma session_written m c br paths payloads :
  system_reachable IsPrint fs s net m -> closed (shared (life m)) = false ->
  work m !! c = Some (Over br) -> asks c paths payloads ->
  wr_out (bf_src br) = wires (session fs (s_res s) (requests_from 1 payloads) (IOError EOF)).
Proof.
  intros Hr Hcl Hw [He Hf Hs Hfin HT Hnew].
  assert (Hreads : reads_all (c_fin (net c)).2 (pending (net c)) (requests_from 1 payloads) (IOError EOF)).
  { rewrite Hfin, Hs, <- (app_nil_r (wires _)). apply reads_all_wires.
    - eapply requests_good; [done| |done]. lia.
    - eapply reads_all_end, (reads_end EOF). }
  pose proof (system_reachable_inv IsPrint fs s net Hsized Ht Hidle m Hr) as Hi.
  destruct (si_conn fs s net m Hi c _ _ _ Hw Hreads) as (answered & e' & k & _ & Ho & Hfull).
  destruct (Hfull Hcl HT) as (-> & -> & Hk). by rewrite Ho, Hnew, take_ge.
Qed.

Lemma carried_frames written received frames :
  Forall good_frame frames -> written = wires frames -> carried written received ->
  exists rest, reads_list EOF received frames rest.
Proof.
  intros Hg -> [|W G R ? ? ? ? ? ? o server p Hc Hp]; [|by apply pumped_frames].
  exists []. rewrite <- (app_nil_r (wires frames)). by apply reads_list_wires.
Qed.

(** (C2) Every client of a crowd gets its own files.  In any reachable state
    of the whole server that nobody has closed -- any number of clients, any
    interleaving of their handlers -- each client whose handler is done, and
    who reads what the handler wrote, directly or through the proxy, cut
    anyhow, receives in order exactly what the document tree owes the paths
    it asked for, whatever the other clients did; and a client whose handler
    is not done yet can be served to that point by its own handler alone. *)
Theorem everybody_gets_theirs m c paths payloads :
  system_reachable IsPrint fs s net m -> closed (shared (life m)) = false ->
  asks c paths payloads -> Forall (whole_file fs (s_res s)) paths ->
  match work m !! c with
  | Some (Over br) => forall cc cT,
      cl_prompt cT (New cc) -> carried (wr_out (bf_src br)) (pending cc) -> len (pending cc) < 2 ^ 63 ->
      exists c', gets paths (New cc) = (owed_result fs (s_res s) <$> paths, c')
  | Some a => exists m' br, rtc (system_step IsPrint fs s net) m m' /\ work m' !! c = Some (Over br) /\
      closed (shared (life m')) = false /\ forall d, d <> c -> work m' !! d = work m !! d
  | None => True
  end.
Proof.
  intros Hr Hcl Ha Hwf. destruct (work m !! c) as [[br|f br|br]|] eqn:Hw; [..|done].
  1, 2: destruct (handler_finishes IsPrint fs s net Hsized Ht Hidle c _ m Hr Hw) as (k & br' & _ & [Hs Hl Ho] & Hover);
    eexists; exists br'; split; [exact Hs|]; rewrite Hl; auto.
  intros cc cT HcT Hcar Hbig. pose proof (session_written m c br paths payloads Hr Hcl Hw Ha) as Hout.
  destruct Ha as [He Hf _ _ _ _].
  destruct (carried_frames _ _ (session fs (s_res s) (requests_from 1 payloads) (IOError EOF))
    ltac:(apply (session_good fs (s_res s) Hsized 1 payloads paths); [done|lia|done..]) Hout Hcar) as [rest Hl].
  destruct (gets_session fs (s_res s) Hsized paths payloads (New cc) cT rest) as (c' & Hg & _); try done.
  - cbn [cl_next New]. lia.
  - by exists c'.
Qed.
End Crowd.

(** ** A client of the crowd, behind the proxy *)

Definition crowd_net (c : Z) : conn := e2e_server_conn.

(** Client 7 of file EndToEnd.v is accepted, then served. *)
Definition answered : state := foldr (advance no_rune sample_fs sample_server) (welcomed crowd_net) [7; 7; 7; 7; 7].

Lemma answered_reachable : system_reachable no_rune sample_fs sample_server crowd_net answered.
Proof. apply advance_reachable, welcomed_system. Qed.

Lemma seven_asks : asks sample_server crowd_net 7 e2e_paths e2e_payloads.
Proof.
  split; [by repeat constructor|done|by vm_compute|done| |done].
  exists (25 * Second). split; try done; repeat (apply Forall_cons; split; [by vm_compute|]); by apply Forall_nil.
Qed.

Lemma everybody_gets_theirs_witness :
  exists br c', work answered !! 7 = Some (Over br) /\
    gets e2e_paths (New (client_conn (pumped (wr_out (bf_src br))))) =
      ([owed_result sample_fs sample_root (str "/"); owed_result sample_fs sample_root (str "/out")], c').
Proof.
  assert (Hw : Forall (whole_file sample_fs (s_res sample_server)) e2e_paths).
  { apply Forall_cons. split; [intros f i E; vm_compute in E; injection E as <- <-; by vm_compute|].
    apply Forall_cons. split; [|by apply Forall_nil]. intros f i E. by vm_compute in E. }
  assert (Hout : match work answered !! 7 with
                 | Some (Over br) => len (pumped (wr_out (bf_src br))) < 2 ^ 63 /\
                     rd_content (one_by_one (wr_out (bf_src br))) = wr_out (bf_src br)
                 | _ => False end) by (vm_compute; split; reflexivity).
  assert (Hopen : closed (shared (life answered)) = false) by (vm_compute; reflexivity).
  pose proof (everybody_gets_theirs no_rune sample_fs sample_server crowd_net sample_sized ltac:(done) ltac:(done)
    answered 7 e2e_paths e2e_payloads answered_reachable Hopen seven_asks Hw) as Hall.
  destruct (work answered !! 7) as [[br|f br|br]|]; [destruct Hout..| |destruct Hout].
  destruct Hout as [Hbig Hone]. exists br.
  destruct (Hall (client_conn (pumped (wr_out (bf_src br)))) (3 * Second) (client_conn_prompt _)) as [c' Hg].
  - rewrite pending_client_conn.
    exact (carried_by_relay _ noisy (one_by_one (wr_out (bf_src br))) (new_pump (MkBuffer [])) Hone eq_refl).
  - rewrite pending_client_conn. assumption.
  - exists c'. split; [reflexivity|exact Hg].
Defined.
