(* ===== verification/Programs.v ===== *)
(** * The three programs together

    A bserve process serves any number of connections; one of them is bcurl's,
    perhaps with bchaos in between.  What bcurl prints is what the document
    tree behind bserve owes the path. *)

From S2P Require Import Prelude GoIO Frame Headers Messages Conn Net Paths OsFs Resolver Quote.
From S2P Require Import Server ServerSpec ServerProofs ServerProps Client ClientProofs ClientProps EndToEnd.
From S2P Require Import Addr Flags Bcurl BcurlProps BcurlEndToEnd Bserve Chaos Turns Lifecycle Closing System.
From S2P Require Import SystemProps SystemProgress BserveProcess Crowd Proxied.

Section Programs.
Context {FS : Type} `{Filesystem FS} (IsPrint : Z -> bool) (fs : FS) (s : Server) (net : Z -> conn).

(** ** Handlers of a process *)

(** The process may let a handler take its turns. *)
Lemma process_turns c p k :
  alive p = true ->
  rtc (process_step IsPrint fs s net) p (with_server (Nat.iter k (advance IsPrint fs s c) (server p)) p).
Proof.
  intros Ha. induction k as [|k IH]; [by destruct p|]. rewrite Nat.iter_succ.
  set (m := Nat.iter k (advance IsPrint fs s c) (server p)) in *. etrans; [exact IH|].
  destruct (advance_step IsPrint fs s net c m) as [->|Hs]; [done|]. apply rtc_once.
  assert (El : life (advance IsPrint fs s c m) = life m) by exact (advance_life IsPrint fs s [c] m).
  apply (proc_server IsPrint fs s net (with_server m p)); cbn [server with_server]; [done|done|..].
  - apply calls_nothing. by rewrite El.
  - rewrite El. intros (_ & _ & _ & E1 & E2). congruence.
Qed.

End Programs.

(** (C18) The programs do what they are for.  A bserve process that has got its
    server and listener, that has not been told to stop, and that serves any
    number of connections in any order; a connection over which a bcurl sends
    its request, directly or through a bchaos with any options, on networks
    that keep the deadlines.  As long as the request's handler is not done the
    process can bring it to its end, without a signal and without touching the
    other connections; and once it is done, bcurl, run without header options,
    with or without -v, writes to standard output exactly the file the
    document tree owes the path, and exits with 0 if there is one, and with 1
    if the answer is 400, 404 or 500. *)
Theorem bcurl_gets_what_bserve_has {FS W E E'} `{Filesystem FS, Writer W, Writer E, Writer E'} IsPrint (fs : FS)
    cwd listen root_text bargs (out out' : W) (err err' : E) srv net p
    c payload dial flag_text client_text args v target addr path co cT (stderr : E') :
  Bserve.run fs cwd IsPrint listen root_text bargs out err = (Bserve.Serving srv, out', err') -> files_sized fs ->
  process_reachable IsPrint fs srv net p -> signalled p = false ->
  asks srv net c [path] [payload] -> whole_file fs (s_res srv) path ->
  Parse formal args no_flags = Ok (MkFlags v [], [target]) -> parseTarget target = Some (addr, path) ->
  dial addr dialTimeout = Ok co ->
  match work (server p) !! c with
  | Some (Over br) =>
    cl_prompt cT (New co) -> carried (wr_out (bf_src br)) (pending co) -> len (pending co) < 2 ^ 63 ->
    let oc := Bcurl.run dial flag_text client_text args (MkBuffer []) stderr in
    buf_bytes (oc_stdout oc) = (owed fs (s_res srv) path).2 /\
    oc_status oc = (if 400 <=? rsp_status (owed fs (s_res srv) path).1 then 1 else 0)
  | Some _ => exists p' br,
    rtc (process_step IsPrint fs srv net) p p' /\ signalled p' = false /\ work (server p') !! c = Some (Over br) /\
    forall d, d <> c -> work (server p') !! d = work (server p) !! d
  | None => True
  end.
Proof.
  intros Hrun Hsized Hr Hsig Hasks Hwf Hargs Htarget Hdial.
  destruct (run_server _ _ _ _ _ _ _ _ _ _ _ Hrun) as [Hidle Hwrite].
  assert (Hi : 0 <= s_idleTimeout srv) by (by rewrite Hidle).
  assert (Hw : 0 <= s_writeTimeout srv) by (by rewrite Hwrite).
  destruct (undisturbed_process _ _ _ _ p Hr Hsig) as (Hmain & Hcl & _).
  pose proof (process_reachable_server _ _ _ _ p Hr) as Hm.
  assert (Hdrive : forall a, work (server p) !! c = Some a -> exists p' br,
    rtc (process_step IsPrint fs srv net) p p' /\ signalled p' = false /\ work (server p') !! c = Some (Over br) /\
    forall d, d <> c -> work (server p') !! d = work (server p) !! d).
  { intros a Ha. destruct (handler_finishes IsPrint fs srv net Hsized Hw Hi c a _ Hm Ha)
      as (k & br & _ & [_ _ Ho] & Hover).
    exists (with_server (Nat.iter k (advance IsPrint fs srv c) (server p)) p), br.
    split; [|done]. apply process_turns. unfold alive. by rewrite Hmain. }
  destruct (work (server p) !! c) as [[br|f br|br]|] eqn:Ew; [by eapply Hdrive..| |done].
  intros HcT Hcar Hbig. pose proof Hasks as [He _ _ _ _ _]. apply Forall2_cons in He as [He _].
  assert (Hw1 : Forall (whole_file fs (s_res srv)) [path]) by (by apply Forall_singleton).
  pose proof (session_written IsPrint fs srv net Hsized Hw Hi _ c br [path] [payload] Hm Hcl Ew Hasks) as Hout.
  destruct (carried_frames _ _ (session fs (s_res srv) (requests_from 1 [payload]) (IOError EOF))
    ltac:(apply (session_good fs (s_res srv) Hsized 1 [payload] [path]); [done|done|apply Hasks|done])
    Hout Hcar) as [rest Hl].
  by apply (run_owed fs (s_res srv) payload rest dial flag_text client_text args v target addr path co cT stderr).
Qed.

(** ** A file fetched behind the proxy *)

Definition here_payload : bytes := request_bytes (get_request (str "/here") []).

Definition here_net (c : Z) : conn := with_in
  [(Second, take 17 (wire 0 (request_frame 1 here_payload)));
   (3 * Second, drop 17 (wire 0 (request_frame 1 here_payload)))] sample_conn.

Definition here_process : process :=
  with_server (Nat.iter 3 (advance no_rune sample_fs sample_server 7) (welcomed here_net))
    (serving_process (welcomed here_net)).

Lemma here_process_reachable : process_reachable no_rune sample_fs sample_server here_net here_process.
Proof.
  unfold process_reachable. etrans; [exact (welcomed_reachable here_net)|].
  exact (process_turns no_rune sample_fs sample_server here_net 7 (serving_process (welcomed here_net)) 3 eq_refl).
Qed.

Lemma here_asks : asks sample_server here_net 7 [str "/here"] [here_payload].
Proof.
  split; [by repeat constructor|done|by vm_compute|done| |done].
  exists (25 * Second). split; try done; repeat (apply Forall_cons; split; [by vm_compute|]); by apply Forall_nil.
Qed.

Lemma bcurl_gets_what_bserve_has_witness :
  exists br, work (server here_process) !! 7 = Some (Over br) /\
  let oc := Bcurl.run (fun _ _ => Ok (client_conn (pumped (wr_out (bf_src br))))) no_text no_text
    [str "-v"; str "localhost:80/here"] (MkBuffer []) (MkBuffer []) in
  buf_bytes (oc_stdout oc) = str "hello" /\ oc_status oc = 0.
Proof.
  assert (Hrun : Bserve.run sample_fs (Ok (str "/")) no_rune (fun _ => Ok (str "[::]:80")) (fun _ => [])
    [str "/srv/www"; str "80"] (MkBuffer []) (MkBuffer []) =
    (Bserve.Serving sample_server, sample_run.1.2, sample_run.2)) by (vm_compute; reflexivity).
  assert (Hw : whole_file sample_fs (s_res sample_server) (str "/here"))
    by (intros f i E; vm_compute in E; injection E as <- <-; by vm_compute).
  assert (Hout : match work (server here_process) !! 7 with
                 | Some (Over br) => len (pumped (wr_out (bf_src br))) < 2 ^ 63 /\
                     rd_content (one_by_one (wr_out (bf_src br))) = wr_out (bf_src br)
                 | _ => False end) by (vm_compute; split; reflexivity).
  assert (Howed : (owed sample_fs (s_res sample_server) (str "/here")).2 = str "hello" /\
    rsp_status (owed sample_fs (s_res sample_server) (str "/here")).1 = 200) by (vm_compute; split; reflexivity).
  pose proof (fun co => bcurl_gets_what_bserve_has no_rune sample_fs _ _ _ _ _ _ _ _ _ here_net here_process 7
    here_payload (fun _ _ => Ok co) no_text no_text [str "-v"; str "localhost:80/here"] true
    (str "localhost:80/here") (str "localhost:80") (str "/here") co (3 * Second) (MkBuffer [])
    Hrun sample_sized here_process_reachable eq_refl here_asks Hw eq_refl eq_refl eq_refl) as Hall.
  destruct (work (server here_process) !! 7) as [[br|f br|br]|]; [destruct Hout..| |destruct Hout].
  destruct Hout as [Hbig Hone]. exists br. split; [reflexivity|].
  destruct (Hall (client_conn (pumped (wr_out (bf_src br)))) (client_conn_prompt _)) as [H1 H2].
  - rewrite pending_client_conn.
    exact (carried_by_relay _ noisy (one_by_one (wr_out (bf_src br))) (new_pump (MkBuffer [])) Hone eq_refl).
  - rewrite pending_client_conn. assumption.
  - destruct Howed as [Hb Hst]. split; [rewrite <- Hb; exact H1|]. rewrite Hst in H2. exact H2.
Defined.
