(* ===== verification/Bchaos.v ===== *)
(** * cmd/bchaos

    [main.go]: the flags, their checks and the listener, the call of
    [chaos.Serve], which is in files Relay.v and Chaos.v, and the exit status.
    [time.ParseDuration], which computes with floating-point fractions, is a
    parameter, and so are the texts of errors and of a duration. *)

From S2P Require Import Prelude GoIO Paths Addr Flags Tap Chaos Relay.

(** The variables the flags set; a duration is in nanoseconds. *)
Record Values : Type := MkValues {
  v_target : bytes;
  v_listen : bytes;
  v_chunk : Z;
  v_delay : Z;
  v_noise : bool;
  v_seed : Z;
}.

Definition defaults : Values := MkValues [] (str "127.0.0.1:9100") 0 0 false 1.

Section Formal.
Context (ParseDuration : bytes -> option Z).

Definition formal (name : bytes) : option (flag Values) :=
  if decide (name = str "target") then
    Some (ValueFlag (fun s v => Some (MkValues s (v_listen v) (v_chunk v) (v_delay v) (v_noise v) (v_seed v))))
  else if decide (name = str "listen") then
    Some (ValueFlag (fun s v => Some (MkValues (v_target v) s (v_chunk v) (v_delay v) (v_noise v) (v_seed v))))
  else if decide (name = str "chunk") then
    Some (ValueFlag (fun s v =>
      (fun n => MkValues (v_target v) (v_listen v) n (v_delay v) (v_noise v) (v_seed v)) <$> ParseInt64 true s))
  else if decide (name = str "delay") then
    Some (ValueFlag (fun s v =>
      (fun d => MkValues (v_target v) (v_listen v) (v_chunk v) d (v_noise v) (v_seed v)) <$> ParseDuration s))
  else if decide (name = str "noise") then
    Some (BoolFlag (fun b v => MkValues (v_target v) (v_listen v) (v_chunk v) (v_delay v) b (v_seed v)))
  else if decide (name = str "seed") then
    Some (ValueFlag (fun s v =>
      (fun n => MkValues (v_target v) (v_listen v) (v_chunk v) (v_delay v) (v_noise v) n) <$> ParseInt64 true s))
  else None.
End Formal.

(** How a run of the program goes on: with [chaos.Serve] on the listener. *)
Inductive started : Type :=
  | Exited (status : Z)
  | Relaying (target : bytes) (o : Options).

Section Run.
Context {W E : Type} `{Writer W, Writer E}.
Context (ParseDuration : bytes -> option Z) (duration_text : Z -> bytes).
Context (listen : bytes -> result bytes bytes).
Context (flag_text : flag_error -> bytes) (addr_text : addr_error -> bytes) (usage : bytes).

Definition report (text : bytes) (stderr : E) : E := Fprint (str "bchaos: " ++ text ++ [newline]) stderr.

Definition bool_text (b : bool) : bytes := if b then str "true" else str "false".

Definition options (v : Values) : Options := MkOptions (v_chunk v) (v_delay v) (v_noise v) (v_seed v) true.

Definition banner (addr : bytes) (v : Values) : bytes :=
  str "listening on " ++ addr ++ str ", relaying to " ++ v_target v ++ str " (chunk=" ++ FormatInt (v_chunk v) ++
  str " delay=" ++ duration_text (v_delay v) ++ str " noise=" ++ bool_text (v_noise v) ++
  str " seed=" ++ FormatInt (v_seed v) ++ str ")" ++ [newline].

Definition run (args : list bytes) (stdout : W) (stderr : E) : started * W * E :=
  match Parse (formal ParseDuration) args defaults with
  | Err e => (Exited 2, stdout, Fprint (flag_text e) stderr)
  | Ok (v, rest) =>
    if negb (len rest =? 0) || (len (v_target v) =? 0) || (v_chunk v <? 0) || (v_delay v <? 0)
    then (Exited 2, stdout, Fprint usage stderr)
    else
      match SplitHostPort (v_target v) with
      | Err e => (Exited 2, stdout, report (str "-target must look like host:port: " ++ addr_text e) stderr)
      | Ok _ =>
        match listen (v_listen v) with
        | Err text => (Exited 1, stdout, report text stderr)
        | Ok addr => (Relaying (v_target v) (options v), Fprint (banner addr v) stdout, stderr)
        end
      end
  end.

(** What is left to do once [chaos.Serve] has returned: the exit status, and
    its error on standard error. *)
Definition finish (serve_text : accept_error -> bytes) (ret : result accept_error unit) (stderr : E) : Z * E :=
  match ret with
  | Ok _ => (0, stderr)
  | Err e => (1, report (serve_text e) stderr)
  end.

(** The whole program over what [Accept] will return: the relays it starts,
    and the status it exits with, if it does. *)
Definition program (serve_text : accept_error -> bytes) {C} (calls : list (accept C)) (args : list bytes)
    (stdout : W) (stderr : E) : list (C * Z) * option Z * W * E :=
  match run args stdout stderr with
  | (Exited status, stdout, stderr) => ([], Some status, stdout, stderr)
  | (Relaying target o, stdout, stderr) =>
    match Serve o calls with
    | (relays, None) => (relays, None, stdout, stderr)
    | (relays, Some ret) =>
      let '(status, stderr) := finish serve_text ret stderr in (relays, Some status, stdout, stderr)
    end
  end.
End Run.

(** What is relayed with: never a negative chunk or delay, always a target
    with a host and a port. *)
Lemma run_relays {W E} `{Writer W, Writer E} PD dt listen ft at_ usage args (stdout : W) (stderr : E) target o so se :
  run PD dt listen ft at_ usage args stdout stderr = (Relaying target o, so, se) ->
  0 <= o_Chunk o /\ 0 <= o_Delay o /\ exists host port, host_port target host port.
Proof.
  unfold run. destruct (Parse _ _ _) as [[v rest]|e]; [|done].
  destruct (negb (len rest =? 0)), (len (v_target v) =? 0), (Z.ltb_spec (v_chunk v) 0),
    (Z.ltb_spec (v_delay v) 0); cbn [orb]; try done.
  destruct (SplitHostPort (v_target v)) as [[host port]|] eqn:Es; [|done].
  destruct (listen (v_listen v)); [|done]. intros [= <- <- _ _]. split; [done|]. split; [done|].
  exists host, port. by apply SplitHostPort_Ok.
Qed.

Example bchaos_samples :
  let how args := (run (fun _ => Some 1000000) (fun _ => []) (fun _ => Ok []) (fun _ => []) (fun _ => []) []
    args (MkBuffer []) (MkBuffer [])).1.1 in
  how [str "-target"; str "localhost:9000"; str "-chunk=0x10"; str "-delay"; str "1ms"; str "-noise"] =
    Relaying (str "localhost:9000") (MkOptions 16 1000000 true 1 true) /\
  how [str "--target=[::1]:9000"; str "-seed"; str "-5"] = Relaying (str "[::1]:9000") (MkOptions 0 0 false (-5) true) /\
  how [] = Exited 2 /\ how [str "-target"; str "localhost"] = Exited 2 /\
  how [str "-target"; str "localhost:9000"; str "-chunk"; str "-1"] = Exited 2 /\
  how [str "-target"; str "localhost:9000"; str "extra"] = Exited 2.
Proof. vm_compute. repeat split. Qed.

(** The program ends with status 0 only when its listener was closed, having
    started one relay for every connection accepted until then. *)
Lemma program_ends {W E} `{Writer W, Writer E} PD dt listen ft at_ usage serve_text {C} (cs : list C) err calls
    args (stdout : W) (stderr : E) :
  let '(relays, status, _, _) := program PD dt listen ft at_ usage serve_text
    ((Accepted <$> cs) ++ AcceptError err :: calls) args stdout stderr in
  match run PD dt listen ft at_ usage args stdout stderr with
  | (Exited st, _, _) => relays = [] /\ status = Some st /\ (st = 1 \/ st = 2)
  | (Relaying _ _, _, _) => relays.*1 = cs /\ status = Some (if isClosed err then 0 else 1)
  end.
Proof.
  unfold program. destruct (run PD dt listen ft at_ usage args stdout stderr) as [[[st|target o] so] se] eqn:Er.
  - split; [done|]. split; [done|]. revert Er. unfold run.
    repeat (case_match; try done); intros [= <- _ _]; auto.
  - destruct (Serve_returns o cs err calls) as [H1 H2].
    destruct (Serve o _) as [relays ret]. cbn in H1, H2. subst ret.
    destruct (isClosed err); cbn; done.
Qed.
